(** * Novelist Tools: the find/replace engine and the EPUB chapter resolver

    A shallow embedding of the two cores of the application:
    the hierarchical find/replace engine of [BackupUtilityTool]
    ([findNextMatchInternal], [findPreviousMatchInternal],
    [handleReplaceMatch], [handleReplaceAllMatches]) and the chapter
    resolution and extraction of [EpubToZipTool] ([resolvePath],
    [deduplicateChapters], [getChapterListFromEpub],
    [handleExtractChapters]).

    Conventions of the embedding.
    - A JavaScript string is the list of its UTF-16 code units.
    - A JavaScript number held by the cursor is [NaN] or an integer;
      [Undefined] stands for a field whose [typeof] is not ['number'].
    - What the browser provides (RegExp, URL, DOMParser, JSZip) is an
      interface ([RegExpHost], [EpubHost]); every theorem holds for any
      implementation of it.
    - React state and refs ([frData], [frPtrRef], [frMatchRef],
      the displayed message, the toasts) are the fields of [Engine];
      a handler is a function from [Engine] to [Engine].  The spinner is
      not modelled. *)

From Stdlib Require Import List ZArith NArith Bool Lia Arith.
From Stdlib Require Import Ascii String DecimalString DecimalNat.
Import ListNotations.

Set Implicit Arguments.

(** [length] is the length of a list throughout. *)
Abbreviation length := Datatypes.length (only parsing).

(* ================================================================== *)
(** * JavaScript strings *)
(* ================================================================== *)

Definition jschar := N.
Definition jsstring := list jschar.

(** A literal: the code units of an ASCII string. *)
Definition js (s : string) : jsstring :=
  List.map N_of_ascii (list_ascii_of_string s).

Fixpoint jseqb (a b : jsstring) : bool :=
  match a, b with
  | [], [] => true
  | x :: a', y :: b' => N.eqb x y && jseqb a' b'
  | _, _ => false
  end.

(** [!s] for a string: the empty string is falsy. *)
Definition isEmpty (s : jsstring) : bool :=
  match s with [] => true | _ => false end.

(** [s.startsWith(p)]. *)
Fixpoint startsWith (p s : jsstring) : bool :=
  match p, s with
  | [], _ => true
  | _ :: _, [] => false
  | x :: p', y :: s' => N.eqb x y && startsWith p' s'
  end.

(** The scan of [indexOf]: [s] is the suffix of the text that starts at
    position [pos]. *)
Fixpoint indexOfAux (p s : jsstring) (pos : nat) : option nat :=
  if startsWith p s then Some pos
  else match s with
       | [] => None
       | _ :: s' => indexOfAux p s' (S pos)
       end.

(** [text.indexOf(p, start)], [None] for [-1].  The start position is
    clamped to the length of the text as the language does. *)
Definition indexOf (p text : jsstring) (start : nat) : option nat :=
  indexOfAux p (skipn start text) (Nat.min start (length text)).

(** [text.substring(a, b)]: both ends clamped, swapped when [a > b]. *)
Definition substring (text : jsstring) (a b : nat) : jsstring :=
  let a' := Nat.min a (length text) in
  let b' := Nat.min b (length text) in
  firstn (Nat.max a' b' - Nat.min a' b') (skipn (Nat.min a' b') text).

(** [text.substring(a)]. *)
Definition substringFrom (text : jsstring) (a : nat) : jsstring :=
  skipn a text.

(** WhiteSpace and LineTerminator code units, as [trim] sees them. *)
Definition isWhiteSpace (c : jschar) : bool :=
  (N.leb 9 c && N.leb c 13) || N.eqb c 32 || N.eqb c 160 || N.eqb c 5760
  || (N.leb 8192 c && N.leb c 8202) || N.eqb c 8232 || N.eqb c 8233
  || N.eqb c 8239 || N.eqb c 8287 || N.eqb c 12288 || N.eqb c 65279.

Fixpoint trimStart (s : jsstring) : jsstring :=
  match s with
  | c :: s' => if isWhiteSpace c then trimStart s' else s
  | [] => []
  end.

Definition trim (s : jsstring) : jsstring :=
  rev (trimStart (rev (trimStart s))).

Definition newline : jschar := 10%N.

(** [text.split('\n')]: never empty, the last piece is what follows the
    last newline. *)
Fixpoint splitLines (s : jsstring) : list jsstring :=
  match s with
  | [] => [[]]
  | c :: s' =>
      if N.eqb c newline then [] :: splitLines s'
      else match splitLines s' with
           | l :: ls => (c :: l) :: ls
           | [] => [[c]]
           end
  end.

(** [lines.join('\n')]. *)
Fixpoint joinLines (ls : list jsstring) : jsstring :=
  match ls with
  | [] => []
  | [l] => l
  | l :: ls' => l ++ newline :: joinLines ls'
  end.

(** [String(n)] for a natural number. *)
Definition stringOfNat (n : nat) : jsstring :=
  js (NilEmpty.string_of_uint (Nat.to_uint n)).

(** [s.padStart(width, c)] with a one-unit filler. *)
Definition padStart (s : jsstring) (width : nat) (c : jschar) : jsstring :=
  repeat c (width - length s) ++ s.

(* ================================================================== *)
(** * JavaScript numbers of the cursor *)
(* ================================================================== *)

Inductive jsnum : Type :=
| Undefined
| NaN
| Num (z : Z).

Definition MAX_SAFE_INTEGER : Z := 9007199254740991.

(** [k === n] for an integer [k]. *)
Definition numIs (n : jsnum) (k : Z) : bool :=
  match n with
  | Num z => Z.eqb z k
  | _ => false
  end.

(* ================================================================== *)
(** * Regular expressions of the host *)
(* ================================================================== *)

(** A compiled global regular expression, seen through the only thing
    the engine asks of it: whether it matches a text at a position, and
    with which length. *)
Record RegExp : Type := mkRegExp {
  matchAt : jsstring -> nat -> option nat
}.

(** [new RegExp(pattern, 'g')]; [None] when the constructor throws a
    [SyntaxError]. *)
Class RegExpHost : Type := {
  RegExp_new : jsstring -> option RegExp
}.

(** The leftmost position in [k, k + fuel) at which [re] matches. *)
Fixpoint firstMatch (re : RegExp) (text : jsstring) (k fuel : nat)
  : option (nat * nat) :=
  match fuel with
  | O => None
  | S fuel' =>
      match matchAt re text k with
      | Some len => Some (k, len)
      | None => firstMatch re text (S k) fuel'
      end
  end.

(** [regex.lastIndex = lastIndex; regex.exec(text)]: the match index and
    the match length.  A [lastIndex] beyond the text fails. *)
Definition RegExp_exec (re : RegExp) (text : jsstring) (lastIndex : nat)
  : option (nat * nat) :=
  if Nat.ltb (length text) lastIndex then None
  else firstMatch re text lastIndex (S (length text - lastIndex)).

(* ================================================================== *)
(** * The backup record *)
(* ================================================================== *)

(** One entry of the [blocks] array of a scene text. *)
Inductive Block : Type :=
| NullBlock                       (* null *)
| OtherBlock (text : option jsstring)
    (* an object the search skips: its type is not 'text' (its text,
       when that is a string, is kept) or its text is not a string *)
| TextBlock (text : jsstring).    (* { type: 'text', text } *)

(** What [JSON.parse(scene.text)] gives. *)
Inductive SceneText : Type :=
| TextEmpty                        (* not a string, or blank after trim *)
| TextInvalid                      (* JSON.parse throws, or yields null *)
| TextNoBlocks (iterable : bool)
    (* parses; blocks is not an array: a string, which [for ... of]
       iterates, or something else (a missing key included) *)
| TextBlocks (members : list (jsstring * jsstring)) (blocks : list Block).
    (* an object whose blocks is an array; [members] are the other
       members of the object, key and value, the value as JSON text *)

Record Scene : Type := mkScene {
  title : option jsstring;
  text : SceneText
}.

(** An entry of [scenes] is a scene object or [null]. *)
Record Revision : Type := mkRevision {
  date : Z;
  scenes : list (option Scene)
}.

Record BackupData : Type := mkBackupData {
  last_update_date : Z;
  last_backup_date : Z;
  revisions : list Revision
}.

Record FindReplaceMatch : Type := mkMatch {
  sceneIndex : nat;
  blockIndex : nat;
  matchIndex : nat;
  matchLength : nat;
  chapterTitle : jsstring;
  matchLine : jsstring
}.

Record FindReplacePointer : Type := mkPtr {
  scene : jsnum;
  block : jsnum;
  offset : jsnum
}.

Definition origin : FindReplacePointer := mkPtr (Num 0) (Num 0) (Num 0).

Inductive Toast : Type :=
| ToastNoData
| ToastEmptyPattern
| ToastRegexError
| ToastNoCurrentMatch
| ToastMatchReplaced
| ToastReplaceError
| ToastSceneError (title : option jsstring)
| ToastReplacements (n : nat).

Inductive Display : Type :=
| DisplayInitial
| DisplayLoaded
| DisplayMatch (chapter line : jsstring)
| DisplayNoMore (pattern : jsstring)
| DisplayNoPrevious (pattern : jsstring)
| DisplayReplaced
| DisplayReplacedAll (n : nat).

(** What a search call does: assign [frPtrRef.current] and return the
    match, show the regex toast and return [null], or return [null]. *)
Inductive SearchOutcome : Type :=
| Found (m : FindReplaceMatch) (ptr : FindReplacePointer)
| RegexError
| NotFound.

Record Engine : Type := mkEngine {
  frData : option BackupData;
  frPtr : FindReplacePointer;
  frMatch : option FindReplaceMatch;
  currentMatchDisplay : Display;
  toasts : list Toast
}.

(* ================================================================== *)
(** * Forward and backward search *)
(* ================================================================== *)

Definition setOffset (c : bool) (v : jsnum) (tp : FindReplacePointer) :=
  if c then mkPtr (scene tp) (block tp) v else tp.

Definition setBlockOffset (c : bool) (v : jsnum) (tp : FindReplacePointer) :=
  if c then mkPtr (scene tp) v v else tp.

(** [i === tempPtr.scene && j === tempPtr.block]. *)
Definition isAt (tp : FindReplacePointer) (i j : Z) : bool :=
  numIs (scene tp) i && numIs (block tp) j.

(** The line of [blockText] that holds [matchIndex]. *)
Fixpoint lineOf (lines : list jsstring) (charCount matchIndex : nat) : jsstring :=
  match lines with
  | [] => []
  | line :: rest =>
      if Nat.leb charCount matchIndex && Nat.leb matchIndex (charCount + length line)
      then line
      else lineOf rest (charCount + length line + 1) matchIndex
  end.

Definition matchLineOf (blockText : jsstring) (matchIndex : nat) : jsstring :=
  lineOf (splitLines blockText) 0 matchIndex.

(** [sceneObj.title || `Scene ${i + 1}`]. *)
Definition chapterTitleOf (sc : Scene) (i : nat) : jsstring :=
  match title sc with
  | Some t => if isEmpty t then js "Scene " ++ stringOfNat (i + 1) else t
  | None => js "Scene " ++ stringOfNat (i + 1)
  end.

(** [isNaN(searchStart) || searchStart < 0] gives 0. *)
Definition clampStart (n : jsnum) : nat :=
  match n with
  | Num z => Z.to_nat z
  | _ => 0
  end.

Section Search.
Context {host : RegExpHost}.
Variable pattern : jsstring.
Variable useRegex : bool.

(** The [try] block of the forward search: [None] when [new RegExp]
    throws, else the match index and length, if any. *)
Definition matchForward (blockText : jsstring) (searchStart : nat)
  : option (option (nat * nat)) :=
  if useRegex then
    match RegExp_new pattern with
    | None => None
    | Some re => Some (RegExp_exec re blockText searchStart)
    end
  else
    match indexOf pattern blockText searchStart with
    | Some idx => Some (Some (idx, length pattern))
    | None => Some None
    end.

(** The block loop of [findNextMatchInternal] from block [j] on;
    [bs] are the blocks at [j], [j+1], ...  [inl tp] is a loop that
    ran to its end with the temporary pointer [tp]. *)
Fixpoint blocksForward (i : nat) (sc : Scene) (bs : list Block) (j : nat)
         (tp : FindReplacePointer) : FindReplacePointer + SearchOutcome :=
  match bs with
  | [] => inl tp
  | b :: rest =>
      let cur := isAt tp (Z.of_nat i) (Z.of_nat j) in
      match b with
      | TextBlock blockText =>
          let searchStart := clampStart (if cur then offset tp else Num 0) in
          if Nat.leb (length blockText) searchStart && Nat.ltb 0 (length blockText)
          then blocksForward i sc rest (S j) (setOffset cur (Num 0) tp)
          else if isEmpty pattern && negb useRegex
          then blocksForward i sc rest (S j) (setOffset cur (Num 0) tp)
          else
            match matchForward blockText searchStart with
            | None => inr RegexError
            | Some (Some (idx, len)) =>
                inr (Found
                       (mkMatch i j idx len (chapterTitleOf sc i)
                                (matchLineOf blockText idx))
                       (mkPtr (Num (Z.of_nat i)) (Num (Z.of_nat j))
                              (Num (Z.of_nat (idx + (if Nat.ltb 0 len then len else 1))))))
            | Some None =>
                blocksForward i sc rest (S j) (setOffset cur (Num 0) tp)
            end
      | _ => blocksForward i sc rest (S j) (setOffset cur (Num 0) tp)
      end
  end.

(** The block loop with its start [j = (i === tempPtr.scene ?
    tempPtr.block : 0)].  A start that is not a number runs no
    iteration; a negative start reads [undefined] blocks up to index 0,
    the first of which resets the offset. *)
Definition blocksForwardFrom (i : nat) (sc : Scene) (blocks : list Block)
           (tp : FindReplacePointer) : FindReplacePointer + SearchOutcome :=
  match (if numIs (scene tp) (Z.of_nat i) then block tp else Num 0) with
  | Num z =>
      if Z.ltb z 0
      then blocksForward i sc blocks 0 (setOffset true (Num 0) tp)
      else blocksForward i sc (skipn (Z.to_nat z) blocks) (Z.to_nat z) tp
  | _ => inl tp
  end.

(** The scene loop from scene [i] on; [rest] are the scenes at [i],
    [i+1], ... *)
Fixpoint scenesForward (rest : list (option Scene)) (i : nat)
         (tp : FindReplacePointer) : SearchOutcome :=
  match rest with
  | [] => NotFound
  | so :: rest' =>
      let here := numIs (scene tp) (Z.of_nat i) in
      let skip := scenesForward rest' (S i) (setBlockOffset here (Num 0) tp) in
      let scan (sc : Scene) (blocks : list Block) :=
        match blocksForwardFrom i sc blocks tp with
        | inr out => out
        | inl tp' =>
            scenesForward rest' (S i)
              (setBlockOffset (numIs (scene tp') (Z.of_nat i)) (Num 0) tp')
        end in
      match so with
      | None => skip
      | Some sc =>
          match text sc with
          | TextEmpty => skip
          | TextInvalid => skip
          | TextNoBlocks _ => scan sc []
          | TextBlocks _ blocks => scan sc blocks
          end
      end
  end.

(** [typeof tempPtr.scene !== 'number' || tempPtr.scene < 0 ||
    isNaN(tempPtr.scene)] resets the temporary pointer. *)
Definition startForward (ptr : FindReplacePointer) : FindReplacePointer :=
  match scene ptr with
  | Num z => if Z.ltb z 0 then origin else ptr
  | _ => origin
  end.

Definition findNextMatchInternal (currentFrData : BackupData)
           (currentFrPtr : FindReplacePointer) : SearchOutcome :=
  match revisions currentFrData with
  | [] => NotFound
  | rev0 :: _ =>
      let tempPtr := startForward currentFrPtr in
      match scene tempPtr with
      | Num z =>
          if Z.leb (Z.of_nat (length (scenes rev0))) z then NotFound
          else scenesForward (skipn (Z.to_nat z) (scenes rev0)) (Z.to_nat z) tempPtr
      | _ => NotFound
      end
  end.

End Search.

(** [Number.MAX_SAFE_INTEGER] as a cursor field. *)
Definition maxNum : jsnum := Num MAX_SAFE_INTEGER.

(** [k < n] and [n <= 0] for a cursor field; both are false on what is
    not a number. *)
Definition ltNum (k : nat) (n : jsnum) : bool :=
  match n with
  | Num z => Z.ltb (Z.of_nat k) z
  | _ => false
  end.

Definition leZero (n : jsnum) : bool :=
  match n with
  | Num z => Z.leb z 0
  | _ => false
  end.

(** The last element of [matchesInBlock]. *)
Definition lastOf (ms : list (nat * nat)) : option (nat * nat) :=
  match rev ms with
  | [] => None
  | m :: _ => Some m
  end.

Section SearchBackward.
Context {host : RegExpHost}.
Variable pattern : jsstring.
Variable useRegex : bool.

(** [while ((match = regex.exec(blockText)) !== null)]: the matches
    that start before [searchEnd], in the order found. *)
Fixpoint collectRegex (fuel : nat) (re : RegExp) (blockText : jsstring)
         (searchEnd : jsnum) (lastIndex : nat) (acc : list (nat * nat))
  : list (nat * nat) :=
  match fuel with
  | O => acc
  | S fuel' =>
      match RegExp_exec re blockText lastIndex with
      | None => acc
      | Some (idx, len) =>
          if ltNum idx searchEnd then
            collectRegex fuel' re blockText searchEnd
              (if Nat.eqb (idx + len) idx && Nat.eqb len 0
               then S (idx + len) else idx + len)
              (acc ++ [(idx, len)])
          else acc
      end
  end.

(** [while ((currentIdx = blockText.indexOf(pattern, currentIdx + 1))
    !== -1 && currentIdx < searchEnd)]; [from] is [currentIdx + 1]. *)
Fixpoint collectLiteral (fuel : nat) (blockText : jsstring)
         (searchEnd : jsnum) (from : nat) (acc : list (nat * nat))
  : list (nat * nat) :=
  match fuel with
  | O => acc
  | S fuel' =>
      match indexOf pattern blockText from with
      | None => acc
      | Some idx =>
          if ltNum idx searchEnd then
            collectLiteral fuel' blockText searchEnd (S idx)
              (acc ++ [(idx, length pattern)])
          else acc
      end
  end.

(** The [try] block of the backward search: [matchesInBlock], or
    [None] when [new RegExp] throws.  Both loops advance by at least
    one position a turn and stop past the end of the text, which
    bounds their turns. *)
Definition matchesBefore (blockText : jsstring) (searchEnd : jsnum)
  : option (list (nat * nat)) :=
  let fuel := S (S (length blockText)) in
  if useRegex then
    match RegExp_new pattern with
    | None => None
    | Some re => Some (collectRegex fuel re blockText searchEnd 0 [])
    end
  else Some (collectLiteral fuel blockText searchEnd 0 []).

(** The block loop of [findPreviousMatchInternal]: blocks [n-1] down
    to 0. *)
Fixpoint blocksBackward (i : nat) (sc : Scene) (blocks : list Block) (n : nat)
         (tp : FindReplacePointer) : FindReplacePointer + SearchOutcome :=
  match n with
  | O => inl tp
  | S j =>
      let cur := isAt tp (Z.of_nat i) (Z.of_nat j) in
      match nth_error blocks j with
      | Some (TextBlock blockText) =>
          let searchEnd :=
            if cur then offset tp else Num (Z.of_nat (length blockText)) in
          if leZero searchEnd && Nat.ltb 0 (length blockText)
          then blocksBackward i sc blocks j (setOffset cur maxNum tp)
          else if isEmpty pattern && negb useRegex
          then blocksBackward i sc blocks j (setOffset cur maxNum tp)
          else
            match matchesBefore blockText searchEnd with
            | None => inr RegexError
            | Some ms =>
                match lastOf ms with
                | Some (idx, len) =>
                    inr (Found
                           (mkMatch i j idx len (chapterTitleOf sc i)
                                    (matchLineOf blockText idx))
                           (mkPtr (Num (Z.of_nat i)) (Num (Z.of_nat j))
                                  (Num (Z.of_nat idx))))
                | None =>
                    blocksBackward i sc blocks j (setOffset cur maxNum tp)
                end
            end
      | _ => blocksBackward i sc blocks j (setOffset cur maxNum tp)
      end
  end.

(** [startBlock = (i === tempPtr.scene ? Math.min(tempPtr.block,
    blocks.length - 1) : blocks.length - 1)] and the loop from it.
    [Math.min] of what is not a number is [NaN], and no iteration
    runs. *)
Definition blocksBackwardFrom (i : nat) (sc : Scene) (blocks : list Block)
           (tp : FindReplacePointer) : FindReplacePointer + SearchOutcome :=
  let last := (Z.of_nat (length blocks) - 1)%Z in
  let startBlock :=
    if numIs (scene tp) (Z.of_nat i) then
      match block tp with
      | Num z => Num (Z.min z last)
      | _ => NaN
      end
    else Num last in
  match startBlock with
  | Num z => blocksBackward i sc blocks (Z.to_nat (z + 1)) tp
  | _ => inl tp
  end.

(** The scene loop: scenes [n-1] down to 0. *)
Fixpoint scenesBackward (all : list (option Scene)) (n : nat)
         (tp : FindReplacePointer) : SearchOutcome :=
  match n with
  | O => NotFound
  | S i =>
      let here := numIs (scene tp) (Z.of_nat i) in
      let skip := scenesBackward all i (setBlockOffset here maxNum tp) in
      let scan (sc : Scene) (blocks : list Block) :=
        match blocksBackwardFrom i sc blocks tp with
        | inr out => out
        | inl tp' =>
            scenesBackward all i
              (setBlockOffset (numIs (scene tp') (Z.of_nat i)) maxNum tp')
        end in
      match nth_error all i with
      | Some (Some sc) =>
          match text sc with
          | TextEmpty => skip
          | TextInvalid => skip
          | TextNoBlocks _ => scan sc []
          | TextBlocks _ blocks => scan sc blocks
          end
      | _ => skip
      end
  end.

(** [typeof tempPtr.scene !== 'number' || isNaN(tempPtr.scene) ||
    tempPtr.scene >= scenes.length] puts the temporary pointer at the
    end of the document. *)
Definition startBackward (nScenes : nat) (ptr : FindReplacePointer)
  : FindReplacePointer :=
  let atEnd := mkPtr (Num (Z.of_nat nScenes - 1)) maxNum maxNum in
  match scene ptr with
  | Num z => if Z.leb (Z.of_nat nScenes) z then atEnd else ptr
  | _ => atEnd
  end.

Definition findPreviousMatchInternal (currentFrData : BackupData)
           (currentFrPtr : FindReplacePointer) : SearchOutcome :=
  match revisions currentFrData with
  | [] => NotFound
  | rev0 :: _ =>
      let tempPtr := startBackward (length (scenes rev0)) currentFrPtr in
      match scene tempPtr with
      | Num z =>
          if Z.ltb z 0 then NotFound
          else scenesBackward (scenes rev0) (Z.to_nat (z + 1)) tempPtr
      | _ => NotFound
      end
  end.

End SearchBackward.

(* ================================================================== *)
(** * The handlers of the find/replace panel *)
(* ================================================================== *)

Definition showToast (t : Toast) (e : Engine) : Engine :=
  mkEngine (frData e) (frPtr e) (frMatch e) (currentMatchDisplay e)
           (t :: toasts e).

(** The tail of both find handlers: [frMatchRef.current = match] and the
    message; [noMatch] is the message of a [null] result. *)
Definition recordSearch (out : SearchOutcome) (noMatch : Display) (e : Engine)
  : Engine :=
  match out with
  | Found m ptr =>
      mkEngine (frData e) ptr (Some m)
               (DisplayMatch (chapterTitle m) (matchLine m)) (toasts e)
  | RegexError =>
      mkEngine (frData e) (frPtr e) None noMatch (ToastRegexError :: toasts e)
  | NotFound =>
      mkEngine (frData e) (frPtr e) None noMatch (toasts e)
  end.

(** [blocks[i] = b]; nothing changes when [i] is out of range. *)
Fixpoint setNth {A : Type} (l : list A) (i : nat) (x : A) : list A :=
  match l, i with
  | [], _ => []
  | _ :: l', O => x :: l'
  | y :: l', S i' => y :: setNth l' i' x
  end.

(** What a handler run ends in: it returns, or an exception leaves it
    uncaught after the effects already made. *)
Inductive HandlerResult : Type :=
| Completed (e : Engine)
| Uncaught (e : Engine).

(** The global matches of [String.prototype.replace]: after an empty
    match the position advances by one. *)
Fixpoint execAll (fuel : nat) (re : RegExp) (text : jsstring) (lastIndex : nat)
  : list (nat * nat) :=
  match fuel with
  | O => []
  | S fuel' =>
      match RegExp_exec re text lastIndex with
      | None => []
      | Some (idx, len) =>
          (idx, len) :: execAll fuel' re text
                          (if Nat.eqb len 0 then S idx else idx + len)
      end
  end.

(** The second half of [text.replace(regex, callback)]: the callback is
    called for every match, with the matched substring, and what it
    returns is appended as it is. *)
Fixpoint replaceResults {St : Type} (text : jsstring) (results : list (nat * nat))
         (callback : jsstring -> St -> jsstring * St)
         (nextSourcePosition : nat) (accumulated : jsstring) (st : St)
  : jsstring * St :=
  match results with
  | [] => (accumulated ++ substringFrom text nextSourcePosition, st)
  | (idx, len) :: rest =>
      let position := Nat.min idx (length text) in
      let '(replacement, st') := callback (substring text idx (idx + len)) st in
      if Nat.leb nextSourcePosition position then
        replaceResults text rest callback (position + len)
          (accumulated ++ substring text nextSourcePosition position ++ replacement)
          st'
      else replaceResults text rest callback nextSourcePosition accumulated st'
  end.

(** [text.replace(regex, callback)] for a global [regex]. *)
Definition String_replace {St : Type} (re : RegExp) (text : jsstring)
           (callback : jsstring -> St -> jsstring * St) (st : St)
  : jsstring * St :=
  replaceResults text (execAll (S (S (length text))) re text 0) callback 0 [] st.

Section Handlers.
Context {host : RegExpHost}.
Variable findPattern : jsstring.
Variable replaceText : jsstring.
Variable useRegexBackup : bool.

Definition handleFindNextMatch (e : Engine) : Engine :=
  match frData e with
  | None => showToast ToastNoData e
  | Some data =>
      if isEmpty findPattern && negb useRegexBackup
      then showToast ToastEmptyPattern e
      else recordSearch
             (findNextMatchInternal findPattern useRegexBackup data (frPtr e))
             (DisplayNoMore findPattern) e
  end.

Definition handleFindPreviousMatch (e : Engine) : Engine :=
  match frData e with
  | None => showToast ToastNoData e
  | Some data =>
      if isEmpty findPattern && negb useRegexBackup
      then showToast ToastEmptyPattern e
      else recordSearch
             (findPreviousMatchInternal findPattern useRegexBackup data (frPtr e))
             (DisplayNoPrevious findPattern) e
  end.

(** [oldText.substring(0, match.matchIndex) + replaceText +
    oldText.substring(match.matchIndex + match.matchLength)]. *)
Definition spliceText (oldText : jsstring) (m : FindReplaceMatch) : jsstring :=
  substring oldText 0 (matchIndex m) ++ replaceText
  ++ substringFrom oldText (matchIndex m + matchLength m).

(** [blockToChange.text = ...]; [None] when reading or splicing the
    text throws. *)
Definition replaceInBlock (b : Block) (m : FindReplaceMatch) : option Block :=
  match b with
  | TextBlock oldText => Some (TextBlock (spliceText oldText m))
  | OtherBlock (Some oldText) => Some (OtherBlock (Some (spliceText oldText m)))
  | OtherBlock None => None
  | NullBlock => None
  end.

(** The [try] block of [handleReplaceMatch] up to [scene.text =
    JSON.stringify({ blocks })], on the deep copy of the record;
    [None] when it throws.  The scene text is written back with its
    [blocks] only: the other members of the document are gone. *)
Definition replaceInData (data : BackupData) (m : FindReplaceMatch)
  : option BackupData :=
  match revisions data with
  | [] => None
  | rev0 :: others =>
      match nth_error (scenes rev0) (sceneIndex m) with
      | Some (Some sc) =>
          match text sc with
          | TextBlocks _ blocks =>
              match nth_error blocks (blockIndex m) with
              | Some b =>
                  match replaceInBlock b m with
                  | Some b' =>
                      let sc' := mkScene (title sc)
                                   (TextBlocks [] (setNth blocks (blockIndex m) b')) in
                      Some (mkBackupData (last_update_date data)
                              (last_backup_date data)
                              (mkRevision (date rev0)
                                 (setNth (scenes rev0) (sceneIndex m) (Some sc'))
                               :: others))
                  | None => None
                  end
              | None => None
              end
          | _ => None
          end
      | _ => None
      end
  end.

Definition handleReplaceMatch (e : Engine) : Engine :=
  match frData e, frMatch e with
  | Some data, Some m =>
      match replaceInData data m with
      | Some newFrData =>
          mkEngine (Some newFrData)
            (mkPtr (Num (Z.of_nat (sceneIndex m)))
                   (Num (Z.of_nat (blockIndex m)))
                   (Num (Z.of_nat (matchIndex m + length replaceText))))
            None DisplayReplaced (ToastMatchReplaced :: toasts e)
      | None => showToast ToastReplaceError e
      end
  | _, _ => showToast ToastNoCurrentMatch e
  end.

(** The literal branch of the replace-all loop of one block. *)
Fixpoint replaceLiteral (fuel : nat) (originalBlockText : jsstring)
         (lastIndex : nat) (newBlockText : jsstring)
         (replacementsCount : nat) (sceneModified : bool)
  : jsstring * (nat * bool) :=
  match fuel with
  | O => (newBlockText ++ substringFrom originalBlockText lastIndex,
          (replacementsCount, sceneModified))
  | S fuel' =>
      match indexOf findPattern originalBlockText lastIndex with
      | None => (newBlockText ++ substringFrom originalBlockText lastIndex,
                 (replacementsCount, sceneModified))
      | Some foundIndex =>
          replaceLiteral fuel' originalBlockText
            (foundIndex + length findPattern)
            (newBlockText ++ substring originalBlockText lastIndex foundIndex
                          ++ replaceText)
            (S replacementsCount) true
      end
  end.

(** The callback of the regex branch: [replacementsCount++;
    sceneModified = true; return replaceText]. *)
Definition replaceCallback (matched : jsstring) (st : nat * bool)
  : jsstring * (nat * bool) :=
  (replaceText, (S (fst st), true)).

(** The body of the block loop for a text block that is not empty:
    the new text and the two counters; [None] when [new RegExp]
    throws. *)
Definition replaceAllInText (originalBlockText : jsstring)
           (replacementsCount : nat) (sceneModified : bool)
  : option (jsstring * (nat * bool)) :=
  if useRegexBackup then
    match RegExp_new findPattern with
    | None => None
    | Some regex =>
        Some (String_replace regex originalBlockText replaceCallback
                             (replacementsCount, sceneModified))
    end
  else
    Some (replaceLiteral (S (length originalBlockText)) originalBlockText
                         0 [] replacementsCount sceneModified).

(** [for (const block of sceneContent.blocks)]: the new blocks and the
    counters, or [inr count] when an iteration throws, [count] being
    [replacementsCount] at that point. *)
Fixpoint replaceAllInBlocks (blocks : list Block) (replacementsCount : nat)
         (sceneModified : bool) : (list Block * (nat * bool)) + nat :=
  match blocks with
  | [] => inl ([], (replacementsCount, sceneModified))
  | NullBlock :: _ => inr replacementsCount
  | OtherBlock t :: rest =>
      match replaceAllInBlocks rest replacementsCount sceneModified with
      | inl (rest', st) => inl (OtherBlock t :: rest', st)
      | inr c => inr c
      end
  | TextBlock originalBlockText :: rest =>
      if Nat.ltb 0 (length originalBlockText) then
        match replaceAllInText originalBlockText replacementsCount sceneModified with
        | None => inr replacementsCount
        | Some (newBlockText, (count', modified')) =>
            let b' := TextBlock (if modified' then newBlockText
                                 else originalBlockText) in
            match replaceAllInBlocks rest count' modified' with
            | inl (rest', st) => inl (b' :: rest', st)
            | inr c => inr c
            end
        end
      else
        match replaceAllInBlocks rest replacementsCount sceneModified with
        | inl (rest', st) => inl (TextBlock originalBlockText :: rest', st)
        | inr c => inr c
        end
  end.

(** The body of [for (const scene of scenes)]: the scene after the
    turn, the count, and the toast of the [catch] if it ran.  A
    [blocks] that is a string is iterated character by character, and
    a character is no text block: nothing changes, nothing throws. *)
Definition replaceAllInScene (sc : Scene) (replacementsCount : nat)
  : Scene * nat * option Toast :=
  match text sc with
  | TextBlocks members blocks =>
      match replaceAllInBlocks blocks replacementsCount false with
      | inl (blocks', (count', modified)) =>
          (if modified then mkScene (title sc) (TextBlocks members blocks') else sc,
           count', None)
      | inr count' => (sc, count', Some (ToastSceneError (title sc)))
      end
  | TextNoBlocks true => (sc, replacementsCount, None)
  | _ => (sc, replacementsCount, Some (ToastSceneError (title sc)))
  end.

(** The scene loop.  The last component is [true] when a [null] scene
    made the [catch] block itself throw, which ends the loop. *)
Fixpoint replaceAllInScenes (ss : list (option Scene)) (replacementsCount : nat)
         (ts : list Toast) : list (option Scene) * nat * list Toast * bool :=
  match ss with
  | [] => ([], replacementsCount, ts, false)
  | None :: rest => (None :: rest, replacementsCount, ts, true)
  | Some sc :: rest =>
      let '(sc', count', t) := replaceAllInScene sc replacementsCount in
      let ts' := match t with Some x => x :: ts | None => ts end in
      let '(rest', count'', ts'', thrown) := replaceAllInScenes rest count' ts' in
      (Some sc' :: rest', count'', ts'', thrown)
  end.

Definition handleReplaceAllMatches (now : Z) (e : Engine) : HandlerResult :=
  match frData e with
  | None => Completed (showToast ToastNoData e)
  | Some data =>
      if isEmpty findPattern && negb useRegexBackup
      then Completed (showToast ToastEmptyPattern e)
      else
        match revisions data with
        | [] => Uncaught e
        | rev0 :: others =>
            let '(scenes', replacementsCount, ts, thrown) :=
              replaceAllInScenes (scenes rev0) 0 (toasts e) in
            if thrown then
              Uncaught (mkEngine (frData e) (frPtr e) (frMatch e)
                                 (currentMatchDisplay e) ts)
            else
              Completed
                (mkEngine
                   (if Nat.ltb 0 replacementsCount
                    then Some (mkBackupData now now
                                 (mkRevision now scenes' :: others))
                    else frData e)
                   origin None (DisplayReplacedAll replacementsCount)
                   (ToastReplacements replacementsCount :: ts))
        end
  end.

(** The count that [handleReplaceAllMatches] reports, read from its
    last toast. *)
Definition replaceAllCount (now : Z) (e : Engine) : option nat :=
  match handleReplaceAllMatches now e with
  | Completed e' =>
      match toasts e' with
      | ToastReplacements n :: _ => Some n
      | _ => None
      end
  | Uncaught _ => None
  end.

End Handlers.

(* ================================================================== *)
(** * Text decoding of the host *)
(* ================================================================== *)

Definition bytes := list N.

(** What the UTF-8 decoder does with a byte when no sequence is open:
    emit it, open a sequence (code point so far, bytes needed, lower and
    upper boundary of the next byte), or signal an error. *)
Inductive Utf8Lead : Type :=
| Utf8Emit (cp : N)
| Utf8Need (cp needed lower upper : N)
| Utf8Bad.

Definition utf8Lead (b : N) : Utf8Lead :=
  if N.leb b 127 then Utf8Emit b
  else if N.leb 194 b && N.leb b 223 then Utf8Need (N.land b 31) 1 128 191
  else if N.leb 224 b && N.leb b 239 then
    Utf8Need (N.land b 15) 2 (if N.eqb b 224 then 160 else 128)
             (if N.eqb b 237 then 159 else 191)
  else if N.leb 240 b && N.leb b 244 then
    Utf8Need (N.land b 7) 3 (if N.eqb b 240 then 144 else 128)
             (if N.eqb b 244 then 143 else 191)
  else Utf8Bad.

Definition replacementCharacter : N := 65533.

(** The UTF-8 decoder of the Encoding Standard.  [st] is the open
    sequence, if any.  An error throws when [fatal] ([None]), and emits
    U+FFFD otherwise; a byte that breaks a sequence is read again as a
    lead byte. *)
Fixpoint utf8Run (fatal : bool) (input : bytes) (st : option (N * N * N * N))
  : option (list N) :=
  let bad (k : option (list N)) : option (list N) :=
    if fatal then None
    else match k with
         | Some out => Some (replacementCharacter :: out)
         | None => None
         end in
  match input with
  | [] =>
      match st with
      | None => Some []
      | Some _ => bad (Some [])
      end
  | b :: rest =>
      let lead :=
        match utf8Lead b with
        | Utf8Emit cp =>
            match utf8Run fatal rest None with
            | Some out => Some (cp :: out)
            | None => None
            end
        | Utf8Need cp needed lower upper =>
            utf8Run fatal rest (Some (cp, needed, lower, upper))
        | Utf8Bad => bad (utf8Run fatal rest None)
        end in
      match st with
      | None => lead
      | Some (cp, needed, lower, upper) =>
          if N.leb lower b && N.leb b upper then
            let cp' := N.lor (N.shiftl cp 6) (N.land b 63) in
            if N.eqb needed 1 then
              match utf8Run fatal rest None with
              | Some out => Some (cp' :: out)
              | None => None
              end
            else utf8Run fatal rest (Some (cp', N.pred needed, 128%N, 191%N))
          else bad lead
      end
  end.

(** The UTF-16 code units of a code point. *)
Definition utf16Units (cp : N) : jsstring :=
  if N.ltb cp 65536 then [cp]
  else let v := (cp - 65536)%N in
       [(55296 + N.shiftr v 10)%N; (56320 + N.land v 1023)%N].

(** [new TextDecoder('utf-8', { fatal }).decode(bytes)]: a leading byte
    order mark is dropped. *)
Definition TextDecoder_utf8 (fatal : bool) (input : bytes) : option jsstring :=
  let body := match input with
              | 239%N :: 187%N :: 191%N :: rest => rest
              | _ => input
              end in
  match utf8Run fatal body None with
  | Some cps => Some (flat_map utf16Units cps)
  | None => None
  end.

(** The upper half of windows-1252, which is what the label ['latin1']
    names: the code points of bytes 0x80 to 0x9F. *)
Definition windows1252High : list N :=
  [8364; 129; 8218; 402; 8222; 8230; 8224; 8225; 710; 8240; 352; 8249; 338;
   141; 381; 143; 144; 8216; 8217; 8220; 8221; 8226; 8211; 8212; 732; 8482;
   353; 8250; 339; 157; 382; 376]%N.

(** [new TextDecoder('latin1').decode(bytes)]: one code unit a byte. *)
Definition TextDecoder_latin1 (input : bytes) : jsstring :=
  List.map (fun b =>
              if N.leb 128 b && N.leb b 159
              then nth (N.to_nat (b - 128)) windows1252High b
              else b) input.

(* ================================================================== *)
(** * The EPUB chapter resolver *)
(* ================================================================== *)

(** A [navPoint] of an NCX document: the text content of its
    [navLabel > text], and the [src] of its [content], when present. *)
Record NavPoint : Type := mkNavPoint {
  navLabelText : option jsstring;
  contentSrc : option jsstring
}.

(** An [a[href]] of the list of a navigation document. *)
Record NavLink : Type := mkNavLink {
  linkTextContent : jsstring;
  linkHref : jsstring
}.

(** A parsed XML document, seen through the selectors the resolver
    runs on it. *)
Record XmlDocument : Type := mkXml {
  rootfileFullPath : option jsstring;
    (* querySelector('rootfile[full-path]')?.getAttribute('full-path') *)
  navItemHref : option jsstring;
    (* the href of manifest > item[properties~="nav"] *)
  spineToc : option jsstring;
    (* the toc attribute of spine[toc] *)
  itemHrefById : jsstring -> option (option jsstring);
    (* the href of manifest > item[id="..."] for the id given; [None]
       when the selector written with that id is not a valid selector
       and querySelector throws *)
  navPoints : list NavPoint
    (* querySelectorAll('navMap navPoint') *)
}.

(** A parsed HTML document: the [:scope > li > a[href]] links of the
    [ol] the resolver selects, [None] when there is no such list. *)
Record HtmlDocument : Type := mkHtml {
  tocLinks : option (list NavLink)
}.

Definition Zip := list (jsstring * bytes).

Class EpubHost : Type := {
  (** [new URL(relativePath, baseUrl).pathname], [None] when the
      constructor throws *)
  URL_pathname : jsstring -> jsstring -> option jsstring;
  (** [decodeURIComponent], [None] when it throws *)
  decodeURIComponent : jsstring -> option jsstring;
  (** [fileEntry.async('string')], [None] when it rejects *)
  asyncString : bytes -> option jsstring;
  (** [parseXml] and [parseHtml]: the DOM parser, [None] for [null] *)
  parseXml : jsstring -> option XmlDocument;
  parseHtml : jsstring -> option HtmlDocument;
  (** [extractTextFromHtml], which runs the DOM parser on the chapter *)
  extractTextFromHtml : jsstring -> jsstring
}.

Record Chapter : Type := mkChapter {
  chapterLabel : jsstring;      (* title *)
  href : jsstring
}.

Inductive Status : Type :=
| StatusOpfNotFound
| StatusOpfUnreadable (path : jsstring)
| StatusOpfUnparsable (path : jsstring)
| StatusNoToc
| StatusTocNotFound (path : jsstring)
| StatusNcxError (path : jsstring)
| StatusNavError (path : jsstring)
| StatusStarting
| StatusDecodeWarning (title : jsstring)
| StatusExtracted (filesAdded : nat)
| StatusNothingExtracted
| StatusNoChapters
| StatusSelectorError.

Definition slash : jschar := 47%N.
Definition hash : jschar := 35%N.

(** [s.replace(/\/+/g, '/')]. *)
Fixpoint collapseSlashes (s : jsstring) : jsstring :=
  match s with
  | [] => []
  | c :: s' =>
      if N.eqb c slash then
        match s' with
        | d :: _ => if N.eqb d slash then collapseSlashes s'
                    else c :: collapseSlashes s'
        | [] => [c]
        end
      else c :: collapseSlashes s'
  end.

(** [s.replace(/\s+/g, ' ')]. *)
Fixpoint collapseSpaces (s : jsstring) : jsstring :=
  match s with
  | [] => []
  | c :: s' =>
      if isWhiteSpace c then
        match s' with
        | d :: _ => if isWhiteSpace d then collapseSpaces s'
                    else 32%N :: collapseSpaces s'
        | [] => [32%N]
        end
      else c :: collapseSpaces s'
  end.

(** [s.split('#')[0]]. *)
Fixpoint beforeHash (s : jsstring) : jsstring :=
  match s with
  | [] => []
  | c :: s' => if N.eqb c hash then [] else c :: beforeHash s'
  end.

(** [path.startsWith('/') ? path.substring(1) : path]. *)
Definition stripLeadingSlash (path : jsstring) : jsstring :=
  match path with
  | c :: rest => if N.eqb c slash then rest else path
  | [] => []
  end.

(** [p.includes('/') ? p.substring(0, p.lastIndexOf('/')) : '']. *)
Fixpoint dirOf (p : jsstring) : jsstring :=
  match p with
  | [] => []
  | c :: p' =>
      if existsb (N.eqb slash) p' then c :: dirOf p'
      else []
  end.

(** A value that is a string and is not empty. *)
Definition truthy (v : option jsstring) : option jsstring :=
  match v with
  | Some s => if isEmpty s then None else Some s
  | None => None
  end.

Definition zipFile (zip : Zip) (path : jsstring) : option bytes :=
  match find (fun entry => jseqb (fst entry) path) zip with
  | Some entry => Some (snd entry)
  | None => None
  end.

Section Resolver.
Context {host : EpubHost}.

Definition resolvePath (relativePath baseDirPath : jsstring) : jsstring :=
  if isEmpty relativePath then []
  else if isEmpty baseDirPath then stripLeadingSlash relativePath
  else
    let baseUrl := js "file:///" ++ baseDirPath ++ [slash] in
    let fallback := collapseSlashes (baseDirPath ++ [slash] ++ relativePath) in
    match URL_pathname relativePath baseUrl with
    | Some pathname =>
        match decodeURIComponent (substringFrom pathname 1) with
        | Some resolved => resolved
        | None => fallback
        end
    | None => fallback
    end.

(** The normalized path and the content, [None] for [null]. *)
Definition readFileFromZip (zip : Zip) (path : jsstring)
  : option (jsstring * jsstring) :=
  let normalizedPath := stripLeadingSlash path in
  match zipFile zip normalizedPath with
  | None => None
  | Some fileEntry =>
      match asyncString fileEntry with
      | Some content => Some (normalizedPath, content)
      | None => None
      end
  end.

(** The path of the package document and its directory. *)
Definition findOpfPath (zip : Zip) : option (jsstring * jsstring) :=
  match readFileFromZip zip (js "META-INF/container.xml") with
  | None => None
  | Some (_, content) =>
      match parseXml content with
      | None => None
      | Some containerDoc =>
          match truthy (rootfileFullPath containerDoc) with
          | None => None
          | Some rootfilePath => Some (rootfilePath, dirOf rootfilePath)
          end
      end
  end.

Inductive TocType : Type := TocNav | TocNcx.

(** [findTocHref]: the href and the kind of the table of contents,
    [Some None] for [null], and [None] when the [querySelector] of
    the item of the spine's [toc] id throws. *)
Definition findTocHref (opfDoc : XmlDocument)
  : option (option (jsstring * TocType)) :=
  match truthy (navItemHref opfDoc) with
  | Some h => Some (Some (h, TocNav))
  | None =>
      match truthy (spineToc opfDoc) with
      | Some ncxId =>
          match itemHrefById opfDoc ncxId with
          | None => None
          | Some ncxItemHref =>
              match truthy ncxItemHref with
              | Some h => Some (Some (h, TocNcx))
              | None => Some None
              end
          end
      | None => Some None
      end
  end.

Definition extractChaptersFromNcx (ncxDoc : XmlDocument) (baseDir : jsstring)
  : list Chapter :=
  flat_map
    (fun point =>
       match truthy (option_map trim (navLabelText point)),
             truthy (contentSrc point) with
       | Some label, Some src =>
           [mkChapter label (resolvePath (beforeHash src) baseDir)]
       | _, _ => []
       end)
    (navPoints ncxDoc).

Definition extractChaptersFromNav (navDoc : HtmlDocument) (baseDir : jsstring)
  : list Chapter :=
  match tocLinks navDoc with
  | None => []
  | Some links =>
      flat_map
        (fun link =>
           match truthy (Some (trim (collapseSpaces (linkTextContent link)))),
                 truthy (Some (linkHref link)) with
           | Some label, Some rawHref =>
               [mkChapter label (resolvePath (beforeHash rawHref) baseDir)]
           | _, _ => []
           end)
        links
  end.

(** The loop of [deduplicateChapters]; [seenHrefs] is the set built
    so far. *)
Fixpoint deduplicateFrom (seenHrefs : list jsstring) (chapters : list Chapter)
  : list Chapter :=
  match chapters with
  | [] => []
  | chapter :: rest =>
      if negb (isEmpty (href chapter))
         && negb (existsb (jseqb (href chapter)) seenHrefs)
      then chapter :: deduplicateFrom (href chapter :: seenHrefs) rest
      else deduplicateFrom seenHrefs rest
  end.

Definition deduplicateChapters (chapters : list Chapter) : list Chapter :=
  deduplicateFrom [] chapters.

(** The first half of [getChapterListFromEpub], up to the reading of
    the table of contents: the directory of the package document, the
    path and the content of the table of contents and its kind, or
    the status message of the early [return []].
    [StatusSelectorError] stands for the exception of [findTocHref],
    which leaves the function without a list and is caught by
    [handleExtractChapters]. *)
Definition locateToc (zip : Zip)
  : (jsstring * jsstring * jsstring * TocType) + Status :=
  match findOpfPath zip with
  | None => inr StatusOpfNotFound
  | Some (opfPath, opfDir) =>
      match readFileFromZip zip opfPath with
      | None => inr (StatusOpfUnreadable opfPath)
      | Some (opfFilePath, opfContent) =>
          match parseXml opfContent with
          | None => inr (StatusOpfUnparsable opfPath)
          | Some opfDoc =>
              match findTocHref opfDoc with
              | None => inr StatusSelectorError
              | Some None => inr StatusNoToc
              | Some (Some (tocHref, tocType)) =>
                  let tocFullPath := resolvePath tocHref opfDir in
                  match readFileFromZip zip tocFullPath with
                  | None => inr (StatusTocNotFound tocFullPath)
                  | Some (tocPath, tocContent) =>
                      inl (opfDir, tocPath, tocContent, tocType)
                  end
              end
          end
      end
  end.

(** The second half: the chapters before deduplication, and the
    status message set on the way. *)
Definition chaptersOfToc (zip : Zip) : list Chapter * option Status :=
  match locateToc zip with
  | inr status => ([], Some status)
  | inl (opfDir, tocPath, tocContent, TocNcx) =>
      match parseXml tocContent with
      | Some ncxDoc => (extractChaptersFromNcx ncxDoc opfDir, None)
      | None => ([], Some (StatusNcxError tocPath))
      end
  | inl (opfDir, tocPath, tocContent, TocNav) =>
      match parseHtml tocContent with
      | Some navDoc => (extractChaptersFromNav navDoc opfDir, None)
      | None => ([], Some (StatusNavError tocPath))
      end
  end.

(** [getChapterListFromEpub]: every early [return []] returns the
    empty list itself, the last line deduplicates. *)
Definition getChapterListFromEpub (zip : Zip) : list Chapter * option Status :=
  let '(chapters, status) := chaptersOfToc zip in
  (deduplicateChapters chapters, status).

(** The decoding of a chapter: the text and whether the [catch] ran. *)
Definition decodeChapter (chapterBytes : bytes) : jsstring * bool :=
  match TextDecoder_utf8 false chapterBytes with
  | Some chapterHtml => (chapterHtml, false)
  | None => (TextDecoder_latin1 chapterBytes, true)
  end.

Variable enableRemoveLines : bool.
Variable linesToRemove : nat.

(** The line filter of the extraction loop. *)
Definition removeLines (chapterText : jsstring) : jsstring :=
  if enableRemoveLines && Nat.ltb 0 linesToRemove && negb (isEmpty chapterText)
  then
    let lines := splitLines chapterText in
    if Nat.ltb linesToRemove (length lines)
    then joinLines (skipn linesToRemove lines)
    else []
  else chapterText.

(** [`C${String(i + 1).padStart(2, '0')}.txt`]. *)
Definition txtFilename (i : nat) : jsstring :=
  js "C" ++ padStart (stringOfNat (i + 1)) 2 48%N ++ js ".txt".

(** [outputZip.file(name, data)]: a file of that name is replaced. *)
Definition zipAdd (out : list (jsstring * jsstring)) (name data : jsstring)
  : list (jsstring * jsstring) :=
  filter (fun entry => negb (jseqb (fst entry) name)) out ++ [(name, data)].

(** [chapterText && chapterText.trim().length > 0]. *)
Definition keepText (chapterText : jsstring) : bool :=
  negb (isEmpty chapterText) && Nat.ltb 0 (length (trim chapterText)).

(** The text of a chapter after decoding, extraction and the line
    filter. *)
Definition chapterTextOf (chapterBytes : bytes) : jsstring :=
  removeLines (extractTextFromHtml (fst (decodeChapter chapterBytes))).

(** The loop of [handleExtractChapters] from index [i] on: the output
    archive, [filesAdded], and the last decode warning. *)
Fixpoint extractLoop (epubZip : Zip) (chapters : list Chapter) (i : nat)
         (outputZip : list (jsstring * jsstring)) (filesAdded : nat)
         (status : option Status)
  : list (jsstring * jsstring) * nat * option Status :=
  match chapters with
  | [] => (outputZip, filesAdded, status)
  | entry :: rest =>
      match zipFile epubZip (href entry) with
      | None => extractLoop epubZip rest (S i) outputZip filesAdded status
      | Some chapterBytes =>
          let status' :=
            if snd (decodeChapter chapterBytes)
            then Some (StatusDecodeWarning (substring (chapterLabel entry) 0 30))
            else status in
          let chapterText := chapterTextOf chapterBytes in
          if keepText chapterText
          then extractLoop epubZip rest (S i)
                 (zipAdd outputZip (txtFilename i) chapterText)
                 (S filesAdded) status'
          else extractLoop epubZip rest (S i) outputZip filesAdded status'
      end
  end.

(** The text an entry of the chapter list contributes, [None] when
    its file is missing from the archive or its text is blank. *)
Definition included (epubZip : Zip) (entry : Chapter) : option jsstring :=
  match zipFile epubZip (href entry) with
  | None => None
  | Some chapterBytes =>
      if keepText (chapterTextOf chapterBytes)
      then Some (chapterTextOf chapterBytes) else None
  end.

(** The files the chapter list contributes from index [i] on: one for
    every entry that is included, named by the position of the entry
    in the list. *)
Fixpoint extractedFiles (epubZip : Zip) (chapters : list Chapter) (i : nat)
  : list (jsstring * jsstring) :=
  match chapters with
  | [] => []
  | entry :: rest =>
      match included epubZip entry with
      | Some chapterText =>
          (txtFilename i, chapterText) :: extractedFiles epubZip rest (S i)
      | None => extractedFiles epubZip rest (S i)
      end
  end.

(** [handleExtractChapters] once the file is read: the files of the
    output archive (none when nothing is offered for download) and the
    final status, which its [catch] sets from the error thrown for an
    empty chapter list or from the exception of [findTocHref]. *)
Definition handleExtractChapters (epubZip : Zip)
  : list (jsstring * jsstring) * Status :=
  let '(chapters, resolveStatus) := getChapterListFromEpub epubZip in
  match chapters with
  | [] =>
      ([], match resolveStatus with
           | Some StatusSelectorError => StatusSelectorError
           | _ => StatusNoChapters
           end)
  | _ =>
      let '(outputZip, filesAdded, _) :=
        extractLoop epubZip chapters 0 [] 0 (Some StatusStarting) in
      if Nat.ltb 0 filesAdded then (outputZip, StatusExtracted filesAdded)
      else ([], StatusNothingExtracted)
  end.

End Resolver.

(* ================================================================== *)
(** * Hosts for worked examples *)
(* ================================================================== *)

(** The characters with a meaning in the pattern syntax. *)
Definition isSyntaxCharacter (c : jschar) : bool :=
  existsb (N.eqb c) (js "^$\.*+?()[]{}|/").

(** The regular expression of a pattern without syntax characters: it
    matches exactly where the pattern occurs.  The empty pattern matches
    the empty string everywhere. *)
Definition literalRegExp (p : jsstring) : RegExp :=
  mkRegExp (fun text k =>
              if Nat.leb k (length text) && startsWith p (skipn k text)
              then Some (length p) else None).

(** A host that compiles the patterns without syntax characters and
    rejects every other pattern; it is the language's behaviour on the
    patterns of the examples below, among them ["["], which no host
    compiles. *)
Definition exampleRegExpHost : RegExpHost :=
  {| RegExp_new := fun p =>
       if existsb isSyntaxCharacter p then None else Some (literalRegExp p) |}.

(** A record with one revision. *)
Definition backupOf (ss : list (option Scene)) : BackupData :=
  mkBackupData 0 0 [mkRevision 0 ss].

(** The engine right after a record is loaded. *)
Definition loaded (data : BackupData) : Engine :=
  mkEngine (Some data) origin None DisplayLoaded [].

(** A scene made of text blocks. *)
Definition sceneOf (texts : list jsstring) : option Scene :=
  Some (mkScene (Some (js "Chapter")) (TextBlocks [] (List.map TextBlock texts))).

(** The relative-reference resolution of [URL] for a reference made of
    plain path segments: [.] and [..] are folded, nothing else is
    interpreted.  [stack] holds the segments so far, last first. *)
Fixpoint splitOn (sep : jschar) (s : jsstring) : list jsstring :=
  match s with
  | [] => [[]]
  | c :: s' =>
      if N.eqb c sep then [] :: splitOn sep s'
      else match splitOn sep s' with
           | l :: ls => (c :: l) :: ls
           | [] => [[c]]
           end
  end.

Fixpoint foldSegments (segments : list jsstring) (stack : list jsstring)
  : list jsstring :=
  match segments with
  | [] => rev stack
  | seg :: rest =>
      if jseqb seg (js ".") then
        foldSegments rest (match rest with [] => [] :: stack | _ => stack end)
      else if jseqb seg (js "..") then
        foldSegments rest (match rest with
                           | [] => [] :: tl stack
                           | _ => tl stack
                           end)
      else foldSegments rest (seg :: stack)
  end.

Definition examplePathname (relativePath baseUrl : jsstring) : option jsstring :=
  let basePath := skipn 7 baseUrl in          (* after "file://" *)
  let joined :=
    if startsWith [slash] relativePath then relativePath
    else dirOf basePath ++ [slash] ++ relativePath in
  Some (flat_map (fun seg => slash :: seg)
                 (foldSegments (tl (splitOn slash joined)) [])).

(** The documents of the example archives, by their content. *)
Definition exampleContainer : jsstring :=
  js "<container><rootfiles><rootfile full-path='content.opf'/></rootfiles></container>".

Definition exampleOpf : jsstring :=
  js "<package><manifest><item id='nav' href='nav/toc.xhtml' properties='nav'/></manifest><spine/></package>".

Definition exampleNav : jsstring :=
  js "<html><body><nav id='toc'><ol><li><a href='c1.xhtml'>One</a></li></ol></nav></body></html>".

Definition exampleNavFragments : jsstring :=
  js "<html><body><nav id='toc'><ol><li><a href='#a'>A</a></li><li><a href='#b'>B</a></li></ol></nav></body></html>".

Definition exampleNavTwo : jsstring :=
  js "<html><body><nav id='toc'><ol><li><a href='c1.xhtml'>One</a></li><li><a href='c2.xhtml'>Two</a></li></ol></nav></body></html>".

Definition exampleNavRelative : jsstring :=
  js "<html><body><nav id='toc'><ol><li><a href='../x/./c1.xhtml'>One</a></li></ol></nav></body></html>".

Definition noXml : XmlDocument := mkXml None None None (fun _ => Some None) [].

(** A host that parses the documents above, decodes ASCII entries, and
    takes the text of a chapter without markup to be the chapter,
    trimmed. *)
Definition exampleEpubHost : EpubHost :=
  {| URL_pathname := examplePathname;
     decodeURIComponent := fun s => Some s;
     asyncString := fun b => Some b;
     parseXml := fun content =>
       if jseqb content exampleContainer
       then Some (mkXml (Some (js "content.opf")) None None (fun _ => Some None) [])
       else if jseqb content exampleOpf
       then Some (mkXml None (Some (js "nav/toc.xhtml")) None
                        (fun id => if jseqb id (js "nav")
                                   then Some (Some (js "nav/toc.xhtml"))
                                   else Some None) [])
       else Some noXml;
     parseHtml := fun content =>
       if jseqb content exampleNav
       then Some (mkHtml (Some [mkNavLink (js "One") (js "c1.xhtml")]))
       else if jseqb content exampleNavFragments
       then Some (mkHtml (Some [mkNavLink (js "A") (js "#a");
                                mkNavLink (js "B") (js "#b")]))
       else if jseqb content exampleNavTwo
       then Some (mkHtml (Some [mkNavLink (js "One") (js "c1.xhtml");
                                mkNavLink (js "Two") (js "c2.xhtml")]))
       else if jseqb content exampleNavRelative
       then Some (mkHtml (Some [mkNavLink (js "One") (js "../x/./c1.xhtml")]))
       else Some (mkHtml None);
     extractTextFromHtml := trim |}.

(* ================================================================== *)
(** * Specification-side definitions *)
(* ================================================================== *)

(** [p] occurs in [text] at position [k]. *)
Definition occursAt (p text : jsstring) (k : nat) : Prop :=
  k <= length text /\ startsWith p (skipn k text) = true.

(** The number of non-overlapping occurrences of [p] in a text, scanned
    left to right: an occurrence counts and the scan resumes after it.
    [skip] is the number of positions still covered by the last
    occurrence counted. *)
Fixpoint countFrom (p text : jsstring) (skip : nat) : nat :=
  match text with
  | [] => 0
  | _ :: rest =>
      match skip with
      | S k => countFrom p rest k
      | O => if startsWith p text
             then S (countFrom p rest (length p - 1))
             else countFrom p rest 0
      end
  end.

Definition nonOverlappingOccurrences (p text : jsstring) : nat :=
  countFrom p text 0.

(** The text blocks of a block list, and of a record. *)
Definition textsOfBlocks (blocks : list Block) : list jsstring :=
  flat_map (fun b => match b with TextBlock t => [t] | _ => [] end) blocks.

Definition blocksOfScene (so : option Scene) : list Block :=
  match so with
  | Some sc => match text sc with TextBlocks _ blocks => blocks | _ => [] end
  | None => []
  end.

Definition scenesOf (data : BackupData) : list (option Scene) :=
  match revisions data with
  | rev0 :: _ => scenes rev0
  | [] => []
  end.

Definition textBlocksOf (data : BackupData) : list jsstring :=
  flat_map (fun so => textsOfBlocks (blocksOfScene so)) (scenesOf data).

(** The occurrences of [p] in all the text blocks of the record. *)
Definition occurrencesInRecord (p : jsstring) (data : BackupData) : nat :=
  list_sum (List.map (nonOverlappingOccurrences p) (textBlocksOf data)).

(** Every entry of [scenes] is a scene object and every entry of a
    [blocks] array is a block object, as the data model has them. *)
Definition noNullBlock (blocks : list Block) : Prop :=
  Forall (fun b => b <> NullBlock) blocks.

Definition wellFormed (data : BackupData) : Prop :=
  revisions data <> [] /\
  Forall (fun so => so <> None /\ noNullBlock (blocksOfScene so)) (scenesOf data).

(** The text of block [j] of scene [i] of the record of the engine. *)
Definition blockTextAt (e : Engine) (i j : nat) : option jsstring :=
  match frData e with
  | Some data =>
      match nth_error (scenesOf data) i with
      | Some so =>
          match nth_error (blocksOfScene so) j with
          | Some (TextBlock t) => Some t
          | _ => None
          end
      | None => None
      end
  | None => None
  end.

(** The text with every span of [spans] replaced by [r], read from
    position [from] on; the spans are in order and do not overlap. *)
Fixpoint spliceAll (text : jsstring) (from : nat) (spans : list (nat * nat))
         (r : jsstring) : jsstring :=
  match spans with
  | [] => skipn from text
  | (idx, len) :: rest =>
      firstn (idx - from) (skipn from text) ++ r ++ spliceAll text (idx + len) rest r
  end.

(** [l1] is [l2] with some elements left out, the order kept. *)
Inductive Subsequence {A : Type} : list A -> list A -> Prop :=
| SubNil : Subsequence [] []
| SubSkip x l1 l2 : Subsequence l1 l2 -> Subsequence l1 (x :: l2)
| SubKeep x l1 l2 : Subsequence l1 l2 -> Subsequence (x :: l1) (x :: l2).

(** Repeated calls until one reports no match; [None] when [fuel] calls
    were not enough. *)
Fixpoint findNextUntilNoMatch {host : RegExpHost} (fuel : nat)
         (pattern : jsstring) (useRegex : bool) (e : Engine)
  : option (list FindReplaceMatch) :=
  match fuel with
  | O => None
  | S fuel' =>
      let e' := handleFindNextMatch pattern useRegex e in
      match frMatch e' with
      | None => Some []
      | Some m => option_map (cons m) (findNextUntilNoMatch fuel' pattern useRegex e')
      end
  end.

Fixpoint findPreviousUntilNoMatch {host : RegExpHost} (fuel : nat)
         (pattern : jsstring) (useRegex : bool) (e : Engine)
  : option (list FindReplaceMatch) :=
  match fuel with
  | O => None
  | S fuel' =>
      let e' := handleFindPreviousMatch pattern useRegex e in
      match frMatch e' with
      | None => Some []
      | Some m =>
          option_map (cons m) (findPreviousUntilNoMatch fuel' pattern useRegex e')
      end
  end.

(** The position a match reports. *)
Definition positionOf (m : FindReplaceMatch) : nat * nat * nat :=
  (sceneIndex m, blockIndex m, matchIndex m).


(** The spans the literal replace-all loop replaces, from [lastIndex]
    on: each occurrence found, and the search resumed after it. *)
Fixpoint literalSpans (fuel : nat) (p text : jsstring) (lastIndex : nat)
  : list (nat * nat) :=
  match fuel with
  | O => []
  | S fuel' =>
      match indexOf p text lastIndex with
      | None => []
      | Some idx => (idx, length p) :: literalSpans fuel' p text (idx + length p)
      end
  end.

(** Spans in order from position [from] on, none starting past the end
    of the text. *)
Fixpoint orderedSpans (text : jsstring) (from : nat) (spans : list (nat * nat))
  : Prop :=
  match spans with
  | [] => True
  | (idx, len) :: rest =>
      from <= idx /\ idx <= length text /\ orderedSpans text (idx + len) rest
  end.

(** The spans [replaceAll] replaces in a text block; [None] when the
    pattern does not compile.  The replacement text plays no part. *)
Definition spansReplaced {host : RegExpHost} (findPattern : jsstring)
           (useRegex : bool) (text : jsstring) : option (list (nat * nat)) :=
  if useRegex then
    match RegExp_new findPattern with
    | Some re => Some (execAll (S (S (length text))) re text 0)
    | None => None
    end
  else Some (literalSpans (S (length text)) findPattern text 0).

(** The replace-all loop throws in a scene with these [blocks]: an
    entry is [null], or a text block that is not empty meets a regular
    expression that does not compile. *)
Definition sceneThrows {host : RegExpHost} (findPattern : jsstring)
           (useRegex : bool) (blocks : list Block) : bool :=
  existsb (fun b =>
             match b with
             | NullBlock => true
             | TextBlock t =>
                 negb (isEmpty t) && useRegex
                 && match RegExp_new findPattern with
                    | Some _ => false
                    | None => true
                    end
             | OtherBlock _ => false
             end)
          blocks.

(** The text [replaceAll] leaves in a text block of a scene it went
    through without an exception: [r] itself at every span the pattern
    matches; an empty text is not looked at. *)
Definition textAfterReplaceAll {host : RegExpHost} (findPattern : jsstring)
           (useRegex : bool) (r text : jsstring) : jsstring :=
  if isEmpty text then text
  else match spansReplaced findPattern useRegex text with
       | Some spans => spliceAll text 0 spans r
       | None => text
       end.

(** The forward scan gives up the block at the cursor without trying
    the pattern: the cursor is on block [j] of scene [i] and its
    offset is at or past the end of the text, which is not empty. *)
Definition skippedAtCursor (tp : FindReplacePointer) (i j : nat)
           (blockText : jsstring) : bool :=
  isAt tp (Z.of_nat i) (Z.of_nat j)
  && Nat.leb (length blockText) (clampStart (offset tp))
  && Nat.ltb 0 (length blockText).

(** The forward scan from the pointer [tp] comes to block [j] of scene
    [i]: the scene is the pointer's or a later one, and in the
    pointer's own scene the block is at or after the pointer's block,
    no block at all when that is not a number. *)
Definition scanReaches (tp : FindReplacePointer) (i j : nat) : Prop :=
  match scene tp with
  | Num ci =>
      (ci <= Z.of_nat i)%Z
      /\ (ci = Z.of_nat i ->
          match block tp with
          | Num cj => (cj <= Z.of_nat j)%Z
          | _ => False
          end)
  | _ => False
  end.

(** The blocks of scene [i] the scan comes to, in terms of the loop:
    all of them away from the pointer's scene. *)
Definition inScope (tp : FindReplacePointer) (i j : nat) : Prop :=
  numIs (scene tp) (Z.of_nat i) = true ->
  match block tp with
  | Num cj => (cj <= Z.of_nat j)%Z
  | _ => False
  end.

(** A text block of the scenes at [i], [i + 1], ... that the scan from
    [tp] comes to and does not give up. *)
Definition triedIn (rest : list (option Scene)) (i : nat)
           (tp : FindReplacePointer) : Prop :=
  exists k so j t,
    nth_error rest k = Some so
    /\ nth_error (blocksOfScene so) j = Some (TextBlock t)
    /\ inScope tp (i + k) j
    /\ skippedAtCursor tp (i + k) j t = false.

(** The forward search from [ptr] tries the pattern on a text block of
    the record: one the scan comes to and does not give up. *)
Definition triesPattern (data : BackupData) (ptr : FindReplacePointer) : Prop :=
  exists i so j blockText,
    nth_error (scenesOf data) i = Some so
    /\ nth_error (blocksOfScene so) j = Some (TextBlock blockText)
    /\ scanReaches (startForward ptr) i j
    /\ skippedAtCursor (startForward ptr) i j blockText = false.

(** The number a string of decimal digits writes, read left to right
    from [acc]. *)
Fixpoint digitsValue (s : jsstring) (acc : nat) : nat :=
  match s with
  | [] => acc
  | c :: s' => digitsValue s' (10 * acc + (N.to_nat c - 48))
  end.

(** The number in a chapter file name: the digits between the first
    character and [.txt]. *)
Definition numberOfFilename (name : jsstring) : nat :=
  digitsValue (firstn (length name - 5) (tl name)) 0.

(* ================================================================== *)
(** * What repeated searches visit *)
(* ================================================================== *)

(** The cursor the forward search leaves after a match, and the one the
    backward search leaves. *)
Definition ptrAfter (m : FindReplaceMatch) : FindReplacePointer :=
  mkPtr (Num (Z.of_nat (sceneIndex m))) (Num (Z.of_nat (blockIndex m)))
        (Num (Z.of_nat (matchIndex m
                        + (if Nat.ltb 0 (matchLength m) then matchLength m else 1)))).

Definition ptrAt (m : FindReplaceMatch) : FindReplacePointer :=
  mkPtr (Num (Z.of_nat (sceneIndex m))) (Num (Z.of_nat (blockIndex m)))
        (Num (Z.of_nat (matchIndex m))).

(** The match record of the span [span] of block [j] of scene [i]. *)
Definition matchAtPos (i : nat) (sc : Scene) (j : nat) (blockText : jsstring)
           (span : nat * nat) : FindReplaceMatch :=
  mkMatch i j (fst span) (snd span) (chapterTitleOf sc i)
          (matchLineOf blockText (fst span)).

(** Where a forward search resumes after a span. *)
Definition resumeAfter (span : nat * nat) : nat :=
  fst span + (if Nat.ltb 0 (snd span) then snd span else 1).

Section Visits.
Context {host : RegExpHost}.
Variable pattern : jsstring.
Variable useRegex : bool.

(** The match the forward search finds in a block from [searchStart],
    if any. *)
Definition nextMatch (blockText : jsstring) (searchStart : nat)
  : option (nat * nat) :=
  match matchForward pattern useRegex blockText searchStart with
  | Some r => r
  | None => None
  end.

(** The spans successive forward searches report in one block, the
    first search starting at [searchStart]. *)
Fixpoint forwardChain (fuel : nat) (blockText : jsstring) (searchStart : nat)
  : list (nat * nat) :=
  match fuel with
  | O => []
  | S fuel' =>
      if Nat.leb (length blockText) searchStart && Nat.ltb 0 (length blockText)
      then []
      else if isEmpty pattern && negb useRegex then []
      else match nextMatch blockText searchStart with
           | Some span => span :: forwardChain fuel' blockText (resumeAfter span)
           | None => []
           end
  end.

(** The spans successive backward searches report in one block, the
    first search bounded by [searchEnd]. *)
Fixpoint backwardChain (fuel : nat) (blockText : jsstring) (searchEnd : jsnum)
  : list (nat * nat) :=
  match fuel with
  | O => []
  | S fuel' =>
      if leZero searchEnd && Nat.ltb 0 (length blockText) then []
      else if isEmpty pattern && negb useRegex then []
      else match matchesBefore pattern useRegex blockText searchEnd with
           | Some ms =>
               match lastOf ms with
               | Some span =>
                   span :: backwardChain fuel' blockText (Num (Z.of_nat (fst span)))
               | None => []
               end
           | None => []
           end
  end.

Definition chainFuel (blockText : jsstring) : nat := S (S (length blockText)).

(** The matches of block [j] of scene [i], forward from [searchStart]
    and backward from [searchEnd]. *)
Definition blockHitsForward (i : nat) (sc : Scene) (j : nat) (b : Block)
           (searchStart : nat) : list FindReplaceMatch :=
  match b with
  | TextBlock t =>
      List.map (matchAtPos i sc j t) (forwardChain (chainFuel t) t searchStart)
  | _ => []
  end.

Definition blockHitsBackward (i : nat) (sc : Scene) (j : nat) (b : Block)
           (searchEnd : jsnum) : list FindReplaceMatch :=
  match b with
  | TextBlock t =>
      List.map (matchAtPos i sc j t) (backwardChain (chainFuel t) t searchEnd)
  | _ => []
  end.

(** A whole block, backward: the search ends at the end of its text. *)
Definition blockHitsBackwardFull (i : nat) (sc : Scene) (j : nat) (b : Block)
  : list FindReplaceMatch :=
  match b with
  | TextBlock t => blockHitsBackward i sc j b (Num (Z.of_nat (length t)))
  | _ => []
  end.

(** The matches of the blocks [bs], which sit at [j], [j+1], ... *)
Fixpoint blocksHitsForward (i : nat) (sc : Scene) (bs : list Block) (j : nat)
  : list FindReplaceMatch :=
  match bs with
  | [] => []
  | b :: rest => blockHitsForward i sc j b 0 ++ blocksHitsForward i sc rest (S j)
  end.

(** The matches of the blocks [n-1] down to 0, backward. *)
Fixpoint blocksHitsBackward (i : nat) (sc : Scene) (bs : list Block) (n : nat)
  : list FindReplaceMatch :=
  match n with
  | O => []
  | S j =>
      match nth_error bs j with
      | Some b => blockHitsBackwardFull i sc j b
      | None => []
      end ++ blocksHitsBackward i sc bs j
  end.

Definition sceneHitsForward (i : nat) (so : option Scene) : list FindReplaceMatch :=
  match so with
  | Some sc => blocksHitsForward i sc (blocksOfScene so) 0
  | None => []
  end.

Definition sceneHitsBackward (i : nat) (so : option Scene) : list FindReplaceMatch :=
  match so with
  | Some sc => blocksHitsBackward i sc (blocksOfScene so) (length (blocksOfScene so))
  | None => []
  end.

(** The matches of the scenes [ss], which sit at [i], [i+1], ... *)
Fixpoint scenesHitsForward (ss : list (option Scene)) (i : nat)
  : list FindReplaceMatch :=
  match ss with
  | [] => []
  | so :: rest => sceneHitsForward i so ++ scenesHitsForward rest (S i)
  end.

(** The matches of the scenes [n-1] down to 0, backward. *)
Fixpoint scenesHitsBackward (all : list (option Scene)) (n : nat)
  : list FindReplaceMatch :=
  match n with
  | O => []
  | S i =>
      match nth_error all i with
      | Some so => sceneHitsBackward i so
      | None => []
      end ++ scenesHitsBackward all i
  end.

(** The matches ahead of the cursor (i, j, o), forward. *)
Definition cursorHitsForward (all : list (option Scene)) (i j o : nat)
  : list FindReplaceMatch :=
  match nth_error all i with
  | Some so =>
      match so with
      | Some sc =>
          match nth_error (blocksOfScene so) j with
          | Some b => blockHitsForward i sc j b o
          | None => []
          end ++ blocksHitsForward i sc (skipn (S j) (blocksOfScene so)) (S j)
      | None => []
      end ++ scenesHitsForward (skipn (S i) all) (S i)
  | None => []
  end.

(** The matches ahead of the cursor (i, j, o), backward. *)
Definition cursorHitsBackward (all : list (option Scene)) (i j o : nat)
  : list FindReplaceMatch :=
  match nth_error all i with
  | Some (Some sc) =>
      match nth_error (blocksOfScene (Some sc)) j with
      | Some b => blockHitsBackward i sc j b (Num (Z.of_nat o))
      | None => []
      end ++ blocksHitsBackward i sc (blocksOfScene (Some sc)) j
  | _ => []
  end ++ scenesHitsBackward all i.

(** The pattern is one a search runs on: a regular expression the
    host compiles, or a literal that is not empty. *)
Definition searchable : Prop :=
  if useRegex then RegExp_new pattern <> None else pattern <> [].

(** What makes the two directions agree on a text: in literal mode no
    two occurrences of the pattern overlap; in regex mode nothing
    matches at the very end of the text (so nothing matches an empty
    text). *)
Definition symmetricOn (blockText : jsstring) : Prop :=
  if useRegex then
    forall re, RegExp_new pattern = Some re ->
               matchAt re blockText (length blockText) = None
  else
    forall a b, startsWith pattern (skipn a blockText) = true ->
                startsWith pattern (skipn b blockText) = true ->
                a < b -> b <= length blockText -> a + length pattern <= b.

End Visits.

Definition symmetricCondition {host : RegExpHost} (pattern : jsstring)
           (useRegex : bool) (data : BackupData) : Prop :=
  Forall (symmetricOn pattern useRegex) (textBlocksOf data).

(** No [blocks] array is as long as [Number.MAX_SAFE_INTEGER]. *)
Definition withinLimits (data : BackupData) : Prop :=
  Forall (fun so => (Z.of_nat (length (blocksOfScene so)) <= MAX_SAFE_INTEGER)%Z)
         (scenesOf data).

(** The cursor makes the backward search start from the end of the
    document: its scene index is not a number or is past the last
    scene. *)
Definition startsAtEnd (data : BackupData) (ptr : FindReplacePointer) : Prop :=
  match scene ptr with
  | Num z => (Z.of_nat (length (scenesOf data)) <= z)%Z
  | _ => True
  end.

(** The engine with a record and a cursor, before any search. *)
Definition engineAt (data : BackupData) (ptr : FindReplacePointer) : Engine :=
  mkEngine (Some data) ptr None DisplayLoaded [].

(** Where the forward search resumes after a match. *)
Definition resumeOffset (m : FindReplaceMatch) : nat :=
  matchIndex m + (if Nat.ltb 0 (matchLength m) then matchLength m else 1).

(** What a search returns when [hits] are the matches ahead of it. *)
Definition firstFound (after : FindReplaceMatch -> FindReplacePointer)
           (hits : list FindReplaceMatch) : SearchOutcome :=
  match hits with
  | [] => NotFound
  | m :: _ => Found m (after m)
  end.

(** The spans found by searching with [next] from [start] and resuming
    at [step] of each span found. *)
Fixpoint spanChain (next : nat -> option (nat * nat)) (step : nat * nat -> nat)
         (fuel start : nat) : list (nat * nat) :=
  match fuel with
  | O => []
  | S fuel' =>
      match next start with
      | Some span => span :: spanChain next step fuel' (step span)
      | None => []
      end
  end.

(** The spans of a list up to the first that starts at or after
    [searchEnd]. *)
Fixpoint spansBefore (searchEnd : jsnum) (spans : list (nat * nat))
  : list (nat * nat) :=
  match spans with
  | [] => []
  | span :: rest =>
      if ltNum (fst span) searchEnd then span :: spansBefore searchEnd rest
      else []
  end.

(** The spans the backward search lists in a block when nothing bounds
    it: every match found from the start of the text, the literal search
    resuming one position after the last occurrence, the regex search
    after the last match. *)
Definition backwardStep (useRegex : bool) (span : nat * nat) : nat :=
  if useRegex then resumeAfter span else S (fst span).

Definition backwardSpans {host : RegExpHost} (pattern : jsstring)
           (useRegex : bool) (blockText : jsstring) : list (nat * nat) :=
  spanChain (nextMatch pattern useRegex blockText) (backwardStep useRegex)
            (chainFuel blockText) 0.

(** Spans that start at or after [lo], each after the one before. *)
Fixpoint increasingFrom (lo : nat) (spans : list (nat * nat)) : Prop :=
  match spans with
  | [] => True
  | span :: rest => lo <= fst span /\ increasingFrom (S (fst span)) rest
  end.

(** The cursor sits on a block of the record. *)
Definition validCursor (all : list (option Scene)) (i j : nat) : Prop :=
  exists sc b,
    nth_error all i = Some (Some sc)
    /\ nth_error (blocksOfScene (Some sc)) j = Some b.

(** The archives and records of the worked examples. *)
Definition exampleZip (nav : jsstring) (files : Zip) : Zip :=
  [(js "META-INF/container.xml", exampleContainer);
   (js "content.opf", exampleOpf);
   (js "nav/toc.xhtml", nav)] ++ files.

Definition exampleRecord : BackupData :=
  backupOf [sceneOf [js "abab"; js "xx"]; None; sceneOf [js "ab"]].

Definition overlapRecord : BackupData := backupOf [sceneOf [js "aaa"]].

(** The engine after "aa" was found in "aaa", and the match it holds. *)
Definition overlapFound : Engine :=
  handleFindNextMatch (host := exampleRegExpHost) (js "aa") false
                      (loaded overlapRecord).

Definition overlapMatch : FindReplaceMatch :=
  mkMatch 0 0 0 2 (js "Chapter") (js "aaa").

Definition countedRecord : BackupData :=
  backupOf [sceneOf [js "aaaaa"; js "xaa"]; sceneOf [js "aa"]].

Definition twoChapterZip : Zip :=
  exampleZip exampleNavTwo [(js "c1.xhtml", []); (js "c2.xhtml", js "Hello")].


(* ================================================================== *)
(** * What a search reports *)
(* ================================================================== *)

(** The span of length [len] at [idx] of [blockText] is a match of the
    pattern: the pattern itself stands there, or the compiled regular
    expression matches there with that length. *)
Definition isMatchOf {host : RegExpHost} (pattern : jsstring) (useRegex : bool)
           (blockText : jsstring) (idx len : nat) : Prop :=
  if useRegex then
    exists re, RegExp_new pattern = Some re
               /\ matchAt re blockText idx = Some len
               /\ idx <= length blockText
  else
    pattern <> [] /\ len = length pattern
    /\ idx + len <= length blockText
    /\ substring blockText idx (idx + len) = pattern.

(** The match [m] names a text block of the record, with text
    [blockText], and carries the title of its scene and the line of
    the match. *)
Definition reportedIn (data : BackupData) (m : FindReplaceMatch)
           (blockText : jsstring) : Prop :=
  exists sc,
    nth_error (scenesOf data) (sceneIndex m) = Some (Some sc)
    /\ nth_error (blocksOfScene (Some sc)) (blockIndex m) = Some (TextBlock blockText)
    /\ chapterTitle m = chapterTitleOf sc (sceneIndex m)
    /\ matchLine m = matchLineOf blockText (matchIndex m).

(** The order of positions in the document: scene, then block, then
    offset. *)
Definition positionLt (a b : nat * nat * nat) : Prop :=
  let '(ai, aj, ao) := a in
  let '(bi, bj, bo) := b in
  ai < bi \/ (ai = bi /\ (aj < bj \/ (aj = bj /\ ao < bo))).

Definition positionLe (a b : nat * nat * nat) : Prop :=
  positionLt a b \/ a = b.

(** Entry [j] of the [blocks] array of scene [i] of the record of the
    engine. *)
Definition blockAt (e : Engine) (i j : nat) : option Block :=
  match frData e with
  | Some data =>
      match nth_error (scenesOf data) i with
      | Some so => nth_error (blocksOfScene so) j
      | None => None
      end
  | None => None
  end.

(** Two entries of a [blocks] array of the same kind: two text blocks,
    or the same entry. *)
Definition sameKind (b b' : Block) : Prop :=
  match b, b' with
  | TextBlock _, TextBlock _ => True
  | _, _ => b = b'
  end.

(** A line: a text without a newline. *)
Definition noNewline (l : jsstring) : Prop := Forall (fun c => c <> newline) l.

(** The number of newlines of a text. *)
Definition countNewlines (s : jsstring) : nat :=
  length (filter (N.eqb newline) s).

(* ================================================================== *)
(** * Helper functions of the tools *)
(* ================================================================== *)

Definition inRange (lo hi c : N) : bool := N.leb lo c && N.leb c hi.

Definition underscore : jschar := 95%N.

(** A code unit of the class [[a-zA-Z0-9_-]]. *)
Definition isNameChar (c : jschar) : bool :=
  inRange 97 122 c || inRange 65 90 c || inRange 48 57 c
  || N.eqb c underscore || N.eqb c 45.

(** [sanitizeForXML]: [str.replace(/[^a-zA-Z0-9_-]/g, '_')], the empty
    string for what is falsy. *)
Definition sanitizeForXML (str : option jsstring) : jsstring :=
  match truthy str with
  | None => []
  | Some s => List.map (fun c => if isNameChar c then c else underscore) s
  end.

(** The entry of the [escapes] table of [escapeHTML] for the five code
    units of its class: the ampersand, the two angle brackets, the
    double and the single quote. *)
Definition escapeOf (c : jschar) : option jsstring :=
  if N.eqb c 38 then Some (js "&amp;")
  else if N.eqb c 60 then Some (js "&lt;")
  else if N.eqb c 62 then Some (js "&gt;")
  else if N.eqb c 34 then Some (js "&quot;")
  else if N.eqb c 39 then Some (js "&#39;")
  else None.

(** What the callback of [escapeHTML] puts for a code unit, and a code
    unit outside the class, which stays. *)
Definition escapeUnit (c : jschar) : jsstring :=
  match escapeOf c with
  | Some entity => entity
  | None => [c]
  end.

(** [escapeHTML]: the empty string for what is not a string. *)
Definition escapeHTML (str : option jsstring) : jsstring :=
  match str with
  | None => []
  | Some s => flat_map escapeUnit s
  end.

(** [name.replace(/\.txt$/i, '')]. *)
Definition isLetterT (c : jschar) : bool := N.eqb c 116 || N.eqb c 84.
Definition isLetterX (c : jschar) : bool := N.eqb c 120 || N.eqb c 88.

Definition stripTxt (name : jsstring) : jsstring :=
  match rev name with
  | t2 :: x :: t1 :: dot :: front =>
      if N.eqb dot 46 && isLetterT t1 && isLetterX x && isLetterT t2
      then rev front else name
  | _ => name
  end.

(** The name of the XHTML file of chapter [i] of [handleCreateEpub]:
    [sanitizeForXML(chapter.name.replace(/\.txt$/i, '')) ||
    `chapter_${i + 1}`], then [.xhtml]. *)
Definition chapterBaseName (name : jsstring) (i : nat) : jsstring :=
  let base := sanitizeForXML (Some (stripTxt name)) in
  if isEmpty base then js "chapter_" ++ stringOfNat (i + 1) else base.

Definition chapterFilename (name : jsstring) (i : nat) : jsstring :=
  chapterBaseName name i ++ js ".xhtml".

(** [n.toString(16)] for a natural number. *)
Definition hexDigitOf (d : N) : jschar :=
  if N.ltb d 10 then (48 + d)%N else (87 + d)%N.

Fixpoint toString16Aux (fuel : nat) (n : N) (acc : jsstring) : jsstring :=
  match fuel with
  | O => acc
  | S fuel' =>
      let acc' := hexDigitOf (n mod 16) :: acc in
      if N.ltb n 16 then acc' else toString16Aux fuel' (n / 16) acc'
  end.

Definition toString16 (n : N) : jsstring :=
  toString16Aux (S (N.to_nat (N.log2 n))) n [].

(** A number of [0, 1) that [Math.random()] returns, as the fraction
    it is. *)
Record Fraction : Type := mkFraction {
  numerator : N;
  denominator : N
}.

Definition belowOne (x : Fraction) : Prop := (numerator x < denominator x)%N.

(** [Math.random() * 16 | 0]: scaling a double by 16 is exact, and
    [| 0] drops the fractional part. *)
Definition random16 (x : Fraction) : N := (16 * numerator x / denominator x)%N.

(** The callback of [generateUUID] on the template from its character
    [c] on; [random k] is what the [k]-th call of [Math.random()]
    returns. *)
Fixpoint fillTemplate (template : jsstring) (random : nat -> Fraction) (k : nat)
  : jsstring :=
  match template with
  | [] => []
  | c :: rest =>
      if N.eqb c 120 || N.eqb c 121 then
        let r := random16 (random k) in
        let v := if N.eqb c 120 then r else N.lor (N.land r 3) 8 in
        toString16 v ++ fillTemplate rest random (S k)
      else c :: fillTemplate rest random k
  end.

Definition generateUUID (random : nat -> Fraction) : jsstring :=
  fillTemplate (js "xxxxxxxx-xxxx-4xxx-yxxx-xxxxxxxxxxxx") random 0.

(** A lower-case hexadecimal digit. *)
Definition isHexDigit (c : jschar) : bool := inRange 48 57 c || inRange 97 102 c.

(** What [generateUUID] puts where the template has [c]: a hexadecimal
    digit for [x], one of [8], [9], [a], [b] for [y], and [c] itself
    otherwise. *)
Definition fillsTemplate (c out : jschar) : Prop :=
  if N.eqb c 120 then isHexDigit out = true
  else if N.eqb c 121 then In out (js "89ab")
  else out = c.

(** A code unit that [escapeHTML] never leaves in its result: an angle
    bracket or a quote. *)
Definition isMarkup (c : jschar) : bool :=
  N.eqb c 60 || N.eqb c 62 || N.eqb c 34 || N.eqb c 39.

(** The Unicode tables of the host: whether a code point is of the
    general categories Letter or Number, [\p{L}] and [\p{N}]. *)
Class UnicodeHost : Type := {
  isLetterOrNumber : N -> bool
}.

Definition isHighSurrogate (c : jschar) : bool := inRange 55296 56319 c.
Definition isLowSurrogate (c : jschar) : bool := inRange 56320 57343 c.

(** The code points of a string as a regular expression with the [u]
    flag reads them, each with its code units: a high surrogate and the
    low surrogate after it are one code point, every other code unit is
    a code point of its own. *)
Fixpoint codePoints (s : jsstring) : list (N * jsstring) :=
  match s with
  | [] => []
  | c :: rest =>
      match rest with
      | d :: rest' =>
          if isHighSurrogate c && isLowSurrogate d
          then ((65536 + (c - 55296) * 1024 + (d - 56320))%N, [c; d])
               :: codePoints rest'
          else (c, [c]) :: codePoints rest
      | [] => [(c, [c])]
      end
  end.

(** [._-], the characters the sanitizer strips at both ends. *)
Definition isSeparator (c : jschar) : bool :=
  N.eqb c underscore || N.eqb c 46 || N.eqb c 45.

Section Filenames.
Context {unicode : UnicodeHost}.

(** A code point outside the class [[^\p{L}\p{N}._-]]. *)
Definition keptInName (cp : N) : bool := isLetterOrNumber cp || isSeparator cp.

(** [name.replace(/[^\p{L}\p{N}._-]+/gu, '_')]: every run of code
    points of the class becomes one underscore; [inRun] tells that the
    code point before was of the class. *)
Fixpoint replaceBadRuns (cps : list (N * jsstring)) (inRun : bool) : jsstring :=
  match cps with
  | [] => []
  | (cp, units) :: rest =>
      if keptInName cp then units ++ replaceBadRuns rest false
      else if inRun then replaceBadRuns rest true
      else underscore :: replaceBadRuns rest true
  end.

(** [s.replace(/__+/g, '_')]. *)
Fixpoint collapseUnderscores (s : jsstring) : jsstring :=
  match s with
  | [] => []
  | c :: s' =>
      if N.eqb c underscore then
        match s' with
        | d :: _ => if N.eqb d underscore then collapseUnderscores s'
                    else c :: collapseUnderscores s'
        | [] => [c]
        end
      else c :: collapseUnderscores s'
  end.

Fixpoint dropSeparators (s : jsstring) : jsstring :=
  match s with
  | c :: s' => if isSeparator c then dropSeparators s' else s
  | [] => []
  end.

(** [s.replace(/^[_.-]+|[_.-]+$/g, '')]. *)
Definition stripSeparators (s : jsstring) : jsstring :=
  rev (dropSeparators (rev (dropSeparators s))).

Definition sanitizeFilenameForZip (name : option jsstring) : jsstring :=
  match truthy name with
  | None => js "download"
  | Some n =>
      let sanitized := replaceBadRuns (codePoints n) false in
      let sanitized := collapseUnderscores sanitized in
      let sanitized := stripSeparators sanitized in
      let sanitized := substring sanitized 0 100 in
      if isEmpty sanitized then js "file" else sanitized
  end.

End Filenames.

(** [s || fallback] on strings: the empty string is falsy. *)
Definition orElse (s fallback : jsstring) : jsstring :=
  if isEmpty s then fallback else s.

(** The letters and digits of ASCII. *)
Definition isAsciiAlnum (c : N) : bool :=
  inRange 97 122 c || inRange 65 90 c || inRange 48 57 c.

(** What a file name may hold below 128: letters, digits and [._-]. *)
Definition plainBelow128 (c : jschar) : Prop :=
  (c < 128)%N -> isAsciiAlnum c || isSeparator c = true.

(** A host whose letters and numbers are those of ASCII. *)
Definition asciiUnicodeHost : UnicodeHost :=
  {| isLetterOrNumber := isAsciiAlnum |}.

(* ================================================================== *)
(** * The backup tools: chapters as blocks, and word counts *)
(* ================================================================== *)

Definition carriageReturn : jschar := 13%N.

(** [s.replace(/\r\n/g, '\n')]. *)
Fixpoint replaceCRLF (s : jsstring) : jsstring :=
  match s with
  | [] => []
  | c :: s' =>
      if N.eqb c carriageReturn then
        match s' with
        | d :: s'' => if N.eqb d newline then newline :: replaceCRLF s''
                      else c :: replaceCRLF s'
        | [] => [c]
        end
      else c :: replaceCRLF s'
  end.

(** [s.replace(/\r/g, '\n')]. *)
Definition replaceCR (s : jsstring) : jsstring :=
  List.map (fun c => if N.eqb c carriageReturn then newline else c) s.

(** A code unit put in front of the first piece of a split. *)
Definition consHead (c : jschar) (pieces : list jsstring) : list jsstring :=
  match pieces with
  | l :: ls => (c :: l) :: ls
  | [] => [[c]]
  end.

(** [s.split(/\n{2,}/)]: the pieces between the runs of two newlines or
    more; [inRun] tells that the code unit before was of such a run. *)
Fixpoint splitParagraphs (s : jsstring) (inRun : bool) : list jsstring :=
  match s with
  | [] => [[]]
  | c :: s' =>
      if N.eqb c newline then
        if inRun then splitParagraphs s' true
        else match s' with
             | d :: _ =>
                 if N.eqb d newline then [] :: splitParagraphs s' true
                 else consHead c (splitParagraphs s' false)
             | [] => consHead c (splitParagraphs s' false)
             end
      else consHead c (splitParagraphs s' false)
  end.

(** [normalizedText.split(/\n{2,}/).map(s => s.trim()).filter(s => s
    !== '')]. *)
Definition contentSegmentsOf (rawChapterText : jsstring) : list jsstring :=
  let normalizedText := replaceCR (replaceCRLF rawChapterText) in
  filter (fun s => negb (isEmpty s))
         (List.map trim (splitParagraphs normalizedText false)).

(** The loop that pushes a block for every segment and an empty block
    between two segments. *)
Fixpoint segmentBlocks (contentSegments : list jsstring) : list Block :=
  match contentSegments with
  | [] => []
  | [s] => [TextBlock s]
  | s :: rest => TextBlock s :: TextBlock [] :: segmentBlocks rest
  end.

(** The blocks [handleCreateFromZip] makes of the text of a chapter
    file. *)
Definition chapterBlocks (rawChapterText : jsstring) : list Block :=
  let contentSegments := contentSegmentsOf rawChapterText in
  let blocks := segmentBlocks contentSegments in
  let blocks :=
    match contentSegments with
    | [] =>
        if isEmpty (trim rawChapterText) && Nat.ltb 0 (length rawChapterText)
        then blocks ++ [TextBlock []]
        else if isEmpty (trim rawChapterText) then blocks ++ [TextBlock []]
        else blocks
    | _ => blocks
    end in
  match blocks with
  | [] => [TextBlock []]
  | _ => blocks
  end.

(** [s.split(/\s+/)]: the pieces between the runs of white space. *)
Fixpoint splitWhitespace (s : jsstring) (inRun : bool) : list jsstring :=
  match s with
  | [] => [[]]
  | c :: s' =>
      if isWhiteSpace c then
        if inRun then splitWhitespace s' true
        else [] :: splitWhitespace s' true
      else consHead c (splitWhitespace s' false)
  end.

(** What a text block adds to the word count: [if (b.text.trim())
    totalWordCount += b.text.trim().split(/\s+/).length]. *)
Definition wordsOfText (blockText : jsstring) : nat :=
  if isEmpty (trim blockText) then 0
  else length (splitWhitespace (trim blockText) false).

(** [c.blocks.forEach(...)] inside the [try]: a [null] entry makes the
    callback throw, and the words counted so far stay counted. *)
Fixpoint addWords (blocks : list Block) (totalWordCount : nat) : nat :=
  match blocks with
  | [] => totalWordCount
  | NullBlock :: _ => totalWordCount
  | OtherBlock _ :: rest => addWords rest totalWordCount
  | TextBlock t :: rest => addWords rest (totalWordCount + wordsOfText t)
  end.

(** The word count of the scene texts: a text that does not parse, or
    has no [blocks] array, adds nothing. *)
Definition addSceneWords (totalWordCount : nat) (sceneText : SceneText) : nat :=
  match sceneText with
  | TextBlocks _ blocks => addWords blocks totalWordCount
  | _ => totalWordCount
  end.

Definition totalWordCountOf (texts : list SceneText) : nat :=
  fold_left addSceneWords texts 0.

(** The words of a text: its maximal runs of code units that are not
    white space; [inWord] tells that the code unit before was of a
    word. *)
Fixpoint countWords (s : jsstring) (inWord : bool) : nat :=
  match s with
  | [] => 0
  | c :: s' =>
      if isWhiteSpace c then countWords s' false
      else (if inWord then 0 else 1) + countWords s' true
  end.

(** Whether a text read from a state [inRun] ends in white space. *)
Fixpoint endsInRun (s : jsstring) (inRun : bool) : bool :=
  match s with
  | [] => inRun
  | c :: s' => endsInRun s' (isWhiteSpace c)
  end.

(* ================================================================== *)
(** * The backup tools: create, extend, merge *)
(* ================================================================== *)

(** The backup file as the tools write and read it.  The fields
    [code], [title], [text], [ranking] and [status] of the interfaces
    [Scene] and [Section] carry the name of their record here, and the
    text of a scene is what [JSON.parse] makes of it. *)
Record SceneRow : Type := mkSceneRow {
  sceneCode : jsstring;
  sceneTitle : option jsstring;
  sceneText : SceneText;
  sceneRanking : Z;
  sceneStatus : jsstring
}.

Record SectionScene : Type := mkSectionScene {
  linkCode : jsstring;
  linkRanking : Z
}.

Record SectionRow : Type := mkSectionRow {
  sectionCode : jsstring;
  sectionTitle : option jsstring;
  synopsis : jsstring;
  sectionRanking : Z;
  section_scenes : option (list (option SectionScene))
}.

Record StatusRow : Type := mkStatusRow {
  statusCode : jsstring;
  statusTitle : jsstring;
  color : Z;
  statusRanking : Z
}.

Record BookProgress : Type := mkBookProgress {
  year : Z;
  month : Z;
  day : Z;
  word_count : nat
}.

(** A revision of a file: [statuses], [scenes] and [sections] may be
    missing, and an entry of [scenes] or [sections] may be [null]. *)
Record RevisionRow : Type := mkRevisionRow {
  number : Z;
  revisionDate : Z;
  book_progresses : list BookProgress;
  statuses : option (list StatusRow);
  sceneRows : option (list (option SceneRow));
  sectionRows : option (list (option SectionRow))
}.

Record BackupFile : Type := mkBackupFile {
  version : Z;
  backupCode : jsstring;
  backupTitle : option jsstring;
  description : jsstring;
  show_table_of_contents : bool;
  apply_automatic_indentation : bool;
  updateDate : Z;
  backupDate : Z;
  revisionRows : list RevisionRow
}.

(** What the clock of the host says: [Date.now()] and the year, month
    and day of [new Date()]. *)
Record Clock : Type := mkClock {
  now : Z;
  thisYear : Z;
  thisMonth : Z;
  thisDay : Z
}.

(** Why a tool ends with an error toast and no download. *)
Inductive ToolError : Type :=
| ErrValidation          (* a required field is missing *)
| ErrParse               (* JSON.parse throws *)
| ErrStructure           (* 'Invalid backup file structure for extending.' *)
| ErrNoChapters          (* nothing to put in the backup *)
| ErrNullEntry.          (* a TypeError on a null entry *)

Inductive ToolResult : Type :=
| ToolFailed (e : ToolError)
| Downloaded (backup : BackupFile) (filename : jsstring).

(** [JSON.stringify({ blocks: [{ type: 'text', align: 'left', text: ''
    }] })], parsed. *)
Definition emptySceneText : SceneText := TextBlocks [] [TextBlock []].

Definition todoStatus : StatusRow := mkStatusRow (js "1") (js "Todo") (-2697255) 1.

Definition sceneCodeOf (n : nat) : jsstring := js "scene" ++ stringOfNat n.
Definition sectionCodeOf (n : nat) : jsstring := js "section" ++ stringOfNat n.

(** The scene and the section a tool pushes for chapter number
    [sceneNum], the section numbered [sectionNum]. *)
Definition newScene (sceneNum : nat) (chapTitle : jsstring) (sceneText : SceneText)
  : SceneRow :=
  mkSceneRow (sceneCodeOf sceneNum) (Some chapTitle) sceneText
             (Z.of_nat sceneNum) (js "1").

Definition newSection (sectionNum sceneNum : nat) (chapTitle : jsstring)
  : SectionRow :=
  mkSectionRow (sectionCodeOf sectionNum) (Some chapTitle) []
               (Z.of_nat sectionNum)
               (Some [Some (mkSectionScene (sceneCodeOf sceneNum) 1)]).

(** The revision of a backup a tool writes from scratch. *)
Definition freshRevision (clock : Clock) (wordCount : nat)
           (baseStatuses : list StatusRow)
           (sceneList : list SceneRow) (sectionList : list SectionRow)
  : RevisionRow :=
  mkRevisionRow 1 (now clock)
    [mkBookProgress (thisYear clock) (thisMonth clock) (thisDay clock) wordCount]
    (Some baseStatuses)
    (Some (List.map Some sceneList)) (Some (List.map Some sectionList)).

(** [Math.floor(Math.random() * 0xFFFFFFFF).toString(16).padStart(8,
    '0')], of the integer [draw] that the floor is. *)
Definition randomCode (draw : N) : jsstring := padStart (toString16 draw) 8 48%N.

Section BackupTools.
Context {unicode : UnicodeHost}.

(** [handleCreateNewBackup]: [createChapters] is the integer the number
    field holds. *)
Definition handleCreateNewBackup (createProjectTitle createDescription
                                    createUniqueCode : jsstring)
           (createChapters : Z) (createPrefix createTOC createIndentation : jsstring)
           (draw : N) (clock : Clock) : ToolResult :=
  if isEmpty createProjectTitle || Z.ltb createChapters 1
  then ToolFailed ErrValidation
  else
    let uniqueCode :=
      if isEmpty createUniqueCode then randomCode draw else createUniqueCode in
    let chapTitle (i : nat) :=
      if isEmpty createPrefix then stringOfNat i else createPrefix ++ stringOfNat i in
    let numbers := seq 1 (Z.to_nat createChapters) in
    let sceneList := List.map (fun i => newScene i (chapTitle i) emptySceneText) numbers in
    let sectionList := List.map (fun i => newSection i i (chapTitle i)) numbers in
    Downloaded
      (mkBackupFile 4 uniqueCode (Some createProjectTitle) createDescription
         (jseqb createTOC (js "true")) (jseqb createIndentation (js "true"))
         (now clock) (now clock)
         [freshRevision clock 0 [todoStatus] sceneList sectionList])
      (orElse (sanitizeFilenameForZip (Some createProjectTitle)) (js "new_backup")
         ++ js "_file.json").

(** [handleExtendBackup] once a file is chosen: [parsed] is what
    [JSON.parse] makes of the file, [None] when it throws. *)
Definition handleExtendBackup (parsed : option BackupFile)
           (extendExtraChapters : Z) (extendPrefix : jsstring) (clock : Clock)
  : ToolResult :=
  match parsed with
  | None => ToolFailed ErrParse
  | Some backup =>
      match revisionRows backup with
      | [] => ToolFailed ErrStructure
      | rev :: others =>
          match sceneRows rev, sectionRows rev with
          | Some sceneList, Some sectionList =>
              let existingSceneCount := length sceneList in
              let existingSectionCount := length sectionList in
              let chapTitle (newSceneNum : nat) :=
                if isEmpty extendPrefix
                then js "Chapter " ++ stringOfNat newSceneNum
                else extendPrefix ++ stringOfNat newSceneNum in
              let numbers := seq 1 (Z.to_nat extendExtraChapters) in
              let newScenes :=
                List.map (fun i =>
                            Some (newScene (existingSceneCount + i)
                                           (chapTitle (existingSceneCount + i))
                                           emptySceneText)) numbers in
              let newSections :=
                List.map (fun i =>
                            Some (newSection (existingSectionCount + i)
                                             (existingSceneCount + i)
                                             (chapTitle (existingSceneCount + i))))
                         numbers in
              Downloaded
                (mkBackupFile (version backup) (backupCode backup)
                   (backupTitle backup) (description backup)
                   (show_table_of_contents backup)
                   (apply_automatic_indentation backup)
                   (now clock) (now clock)
                   (mkRevisionRow (number rev) (now clock) (book_progresses rev)
                      (statuses rev)
                      (Some (sceneList ++ newScenes))
                      (Some (sectionList ++ newSections))
                    :: others))
                (orElse (sanitizeFilenameForZip (backupTitle backup))
                        (js "extended_backup") ++ js ".json")
          | _, _ => ToolFailed ErrStructure
          end
      end
  end.

(** The loop of [handleMergeBackups] over the files: the scenes and the
    sections put together, and the statuses of the first file that has
    some.  A file that does not parse is skipped. *)
Fixpoint combineFiles (files : list (option BackupFile))
         (combinedScenes : list (option SceneRow))
         (combinedSections : list (option SectionRow))
         (baseStatuses : list StatusRow) (firstFileProcessed : bool)
  : list (option SceneRow) * list (option SectionRow) * list StatusRow :=
  match files with
  | [] => (combinedScenes, combinedSections, baseStatuses)
  | None :: rest =>
      combineFiles rest combinedScenes combinedSections baseStatuses
                   firstFileProcessed
  | Some data :: rest =>
      match revisionRows data with
      | [] => combineFiles rest combinedScenes combinedSections baseStatuses
                           firstFileProcessed
      | rev :: _ =>
          let combinedScenes' :=
            match sceneRows rev with
            | Some l => combinedScenes ++ l
            | None => combinedScenes
            end in
          let combinedSections' :=
            match sectionRows rev with
            | Some l => combinedSections ++ l
            | None => combinedSections
            end in
          match statuses rev with
          | Some (st :: sts) =>
              if firstFileProcessed
              then combineFiles rest combinedScenes' combinedSections'
                                baseStatuses firstFileProcessed
              else combineFiles rest combinedScenes' combinedSections'
                                (st :: sts) true
          | _ => combineFiles rest combinedScenes' combinedSections'
                              baseStatuses firstFileProcessed
          end
      end
  end.

(** The entries of an array none of which is [null]. *)
Fixpoint allObjects {A : Type} (l : list (option A)) : option (list A) :=
  match l with
  | [] => Some []
  | Some x :: rest =>
      match allObjects rest with
      | Some xs => Some (x :: xs)
      | None => None
      end
  | None :: _ => None
  end.

(** [mergePrefix ? `${mergePrefix}${n}` : (s.title || `Chapter ${n}`)]. *)
Definition mergedTitle (mergePrefix : jsstring) (old : option jsstring) (n : nat)
  : jsstring :=
  if isEmpty mergePrefix then
    match truthy old with
    | Some t => t
    | None => js "Chapter " ++ stringOfNat n
    end
  else mergePrefix ++ stringOfNat n.

(** [combinedScenes.forEach((s, i) => ...)] from index [i] on. *)
Fixpoint renumberScenes (mergePrefix : jsstring) (sceneList : list SceneRow) (i : nat)
  : list SceneRow :=
  match sceneList with
  | [] => []
  | s :: rest =>
      let n := i + 1 in
      mkSceneRow (sceneCodeOf n) (Some (mergedTitle mergePrefix (sceneTitle s) n))
                 (sceneText s) (Z.of_nat n) (sceneStatus s)
      :: renumberScenes mergePrefix rest (S i)
  end.

(** What the loop over the sections does to [section_scenes]. *)
Definition relink (links : option (list (option SectionScene))) (n : nat)
  : option (list (option SectionScene)) :=
  match links with
  | Some (Some _ :: rest) => Some (Some (mkSectionScene (sceneCodeOf n) 1) :: rest)
  | Some _ => Some [Some (mkSectionScene (sceneCodeOf n) 1)]
  | None => None
  end.

Fixpoint renumberSections (mergePrefix : jsstring) (sectionList : list SectionRow)
         (i : nat) : list SectionRow :=
  match sectionList with
  | [] => []
  | s :: rest =>
      let n := i + 1 in
      mkSectionRow (sectionCodeOf n)
                   (Some (mergedTitle mergePrefix (sectionTitle s) n))
                   (synopsis s) (Z.of_nat n) (relink (section_scenes s) n)
      :: renumberSections mergePrefix rest (S i)
  end.

(** [handleMergeBackups] once files are chosen: [files] are the files
    parsed, in the order of the selection. *)
Definition handleMergeBackups (files : list (option BackupFile))
           (mergeProjectTitle mergeDescription mergePrefix : jsstring)
           (random : nat -> Fraction) (clock : Clock) : ToolResult :=
  match files with
  | [] => ToolFailed ErrValidation
  | _ =>
      if isEmpty mergeProjectTitle then ToolFailed ErrValidation
      else
        let '(combinedScenes, combinedSections, baseStatuses) :=
          combineFiles files [] [] [todoStatus] false in
        match allObjects combinedScenes, allObjects combinedSections with
        | Some sceneList, Some sectionList =>
            let sceneList := renumberScenes mergePrefix sceneList 0 in
            let sectionList := renumberSections mergePrefix sectionList 0 in
            match sceneList with
            | [] => ToolFailed ErrNoChapters
            | _ =>
                let totalWordCount :=
                  totalWordCountOf (List.map sceneText sceneList) in
                Downloaded
                  (mkBackupFile 4 (substring (generateUUID random) 0 8)
                     (Some mergeProjectTitle) mergeDescription true true
                     (now clock) (now clock)
                     [freshRevision clock totalWordCount baseStatuses
                                    sceneList sectionList])
                  (orElse (sanitizeFilenameForZip (Some mergeProjectTitle))
                          (js "merged_backup") ++ js ".json")
            end
        | _, _ => ToolFailed ErrNullEntry
        end
  end.

End BackupTools.

(** The scenes and sections of a revision are numbered in order: entry
    [k] of the scenes has the code [scene(k+1)] and the ranking [k+1],
    entry [k] of the sections has the code [section(k+1)], the ranking
    [k+1] and [scene(k+1)] as its first scene. *)
Definition numberedScenes (rows : list (option SceneRow)) : Prop :=
  forall k row, nth_error rows k = Some row ->
                exists r, row = Some r
                          /\ sceneCode r = sceneCodeOf (k + 1)
                          /\ sceneRanking r = Z.of_nat (k + 1).

Definition numberedSections (rows : list (option SectionRow)) : Prop :=
  forall k row, nth_error rows k = Some row ->
                exists r rest,
                  row = Some r
                  /\ sectionCode r = sectionCodeOf (k + 1)
                  /\ sectionRanking r = Z.of_nat (k + 1)
                  /\ section_scenes r
                     = Some (Some (mkSectionScene (sceneCodeOf (k + 1)) 1) :: rest).

(** A revision in which every section names a scene that is there. *)
Definition numbered (rev : RevisionRow) : Prop :=
  exists sceneList sectionList,
    sceneRows rev = Some sceneList /\ sectionRows rev = Some sectionList
    /\ length sceneList = length sectionList
    /\ numberedScenes sceneList /\ numberedSections sectionList.

(** The entries of [scenes] and of [sections] of the first revision of
    a file that parsed, none for a file that did not. *)
Definition fileScenes (file : option BackupFile) : list (option SceneRow) :=
  match file with
  | Some data =>
      match revisionRows data with
      | rev :: _ => match sceneRows rev with Some rows => rows | None => [] end
      | [] => []
      end
  | None => []
  end.

Definition fileSections (file : option BackupFile) : list (option SectionRow) :=
  match file with
  | Some data =>
      match revisionRows data with
      | rev :: _ => match sectionRows rev with Some rows => rows | None => [] end
      | [] => []
      end
  | None => []
  end.

(** The texts of the scenes of the first revision of a file. *)
Definition sceneTextsOf (file : option BackupFile) : list SceneText :=
  flat_map (fun row => match row with
                       | Some r => [sceneText r]
                       | None => []
                       end) (fileScenes file).

(** A file that parsed and whose first revision is numbered. *)
Definition numberedFile (file : option BackupFile) : Prop :=
  exists data rev others,
    file = Some data /\ revisionRows data = rev :: others /\ numbered rev.

(* ================================================================== *)
(** * The EPUB splitter: names and groups of the output *)
(* ================================================================== *)

(** [String(z)] for an integer. *)
Definition stringOfZ (z : Z) : jsstring :=
  if Z.ltb z 0 then 45%N :: stringOfNat (Z.to_nat (- z))
  else stringOfNat (Z.to_nat z).

(** [String(z).padStart(2, '0')]. *)
Definition pad2 (z : Z) : jsstring := padStart (stringOfZ z) 2 48%N.

(** [l.slice(start)]: a negative start counts from the end. *)
Definition sliceFrom {A : Type} (l : list A) (start : Z) : list A :=
  if Z.ltb start 0
  then skipn (Z.to_nat (Z.max (Z.of_nat (length l) + start) 0)) l
  else skipn (Z.to_nat start) l.

(** The line between two chapters of a group. *)
Definition groupSeparator : jsstring :=
  [10; 10; 10]%N ++ js "---------------- END ----------------" ++ [10; 10; 10]%N.

(** The inner loop of the grouped mode on the chapters of one group. *)
Fixpoint groupContent (chaps : list jsstring) : jsstring :=
  match chaps with
  | [] => []
  | [c] => c
  | c :: rest => c ++ groupSeparator ++ groupContent rest
  end.

(** The files of an archive after the calls [zip.file(name, content)]
    of a list, in order. *)
Definition archiveOf (calls : list (jsstring * jsstring))
  : list (jsstring * jsstring) :=
  fold_left (fun zip call => zipAdd zip (fst call) (snd call)) calls [].

(** What [handleSplit] ends in once the chapters are read: the error
    of an EPUB without chapters, or the archive and the number of
    chapters of the status message. *)
Inductive SplitResult : Type :=
| SplitNoChapters
| SplitDone (zip : list (jsstring * jsstring)) (extracted : nat).

Section Splitter.
Variable chapterPattern : jsstring.
Variable startNumber : Z.
Variable offsetNumber : Z.

Definition effectiveStart : Z := (startNumber + offsetNumber)%Z.

(** The calls of the single mode, from the chapter of index [i] on. *)
Fixpoint singleCalls (usableChaps : list jsstring) (i : nat)
  : list (jsstring * jsstring) :=
  match usableChaps with
  | [] => []
  | text :: rest =>
      (chapterPattern ++ pad2 (effectiveStart + Z.of_nat i) ++ js ".txt", text)
      :: singleCalls rest (S i)
  end.

(** The name of the file of a group, from the numbers of its first and
    last chapter. *)
Definition groupName (groupStartNum groupEndNum : Z) : jsstring :=
  if Z.eqb groupStartNum groupEndNum
  then chapterPattern ++ js " C" ++ pad2 groupStartNum ++ js ".txt"
  else chapterPattern ++ js " C" ++ pad2 groupStartNum ++ js "-"
                      ++ pad2 groupEndNum ++ js ".txt".

(** The calls of [for (let i = 0; i < usableChaps.length; i +=
    currentGroupSize)] from [i] on; [None] when [fuel] turns of the
    loop do not end it. *)
Fixpoint groupCalls (fuel : nat) (usableChaps : list jsstring)
         (currentGroupSize : Z) (i : Z)
  : option (list (jsstring * jsstring)) :=
  match fuel with
  | O => None
  | S fuel' =>
      let len := Z.of_nat (length usableChaps) in
      if Z.ltb i len then
        let groupStartNum := (effectiveStart + i)%Z in
        let groupEndNum :=
          Z.min (effectiveStart + i + currentGroupSize - 1)
                (effectiveStart + len - 1) in
        let content :=
          groupContent (firstn (Z.to_nat currentGroupSize)
                               (skipn (Z.to_nat i) usableChaps)) in
        match groupCalls fuel' usableChaps currentGroupSize
                         (i + currentGroupSize) with
        | Some calls => Some ((groupName groupStartNum groupEndNum, content) :: calls)
        | None => None
        end
      else Some []
  end.

(** [handleSplit] from the list of the chapters found; [None] when the
    loop of the grouped mode does not end within [fuel] turns. *)
Definition handleSplit (chapters : list jsstring) (mode : jsstring)
           (groupSize : Z) (fuel : nat) : option SplitResult :=
  match chapters with
  | [] => Some SplitNoChapters
  | _ =>
      let usableChaps := sliceFrom chapters offsetNumber in
      if jseqb mode (js "single")
      then Some (SplitDone (archiveOf (singleCalls usableChaps 0))
                           (length usableChaps))
      else
        let currentGroupSize := if Z.eqb groupSize 0 then 1%Z else groupSize in
        match groupCalls fuel usableChaps currentGroupSize 0 with
        | Some calls => Some (SplitDone (archiveOf calls) (length usableChaps))
        | None => None
        end
  end.

End Splitter.

(** The numbers of the form and the sums the splitter computes from
    them are integers that a JavaScript number holds exactly. *)
Definition splitWithinLimits (startNumber offsetNumber groupSize : Z)
           (chapters : list jsstring) : Prop :=
  (Z.abs startNumber + Z.abs offsetNumber + Z.abs groupSize
   + Z.of_nat (length chapters) <= MAX_SAFE_INTEGER)%Z.

(** The chapters of the group of index [j], for groups of [g]. *)
Definition groupOf (g : nat) (usableChaps : list jsstring) (j : nat)
  : list jsstring :=
  firstn g (skipn (j * g) usableChaps).

(** The integer a padded number writes. *)
Definition valueOfPadded (s : jsstring) : Z :=
  match s with
  | c :: digits =>
      if N.eqb c 45 then (- Z.of_nat (digitsValue digits 0))%Z
      else Z.of_nat (digitsValue s 0)
  | [] => 0%Z
  end.

Definition isDigit (c : jschar) : bool := inRange 48 57 c.

(* ------------------------------------------------------------------ *)
(** ** The views of the application and the hash of the address *)
(* ------------------------------------------------------------------ *)

(** The ids of [toolDefinitions]. *)
Definition toolIds : list jsstring :=
  [js "epubSplitter"; js "backupUtility"; js "zipToEpub"; js "epubToZip"].

Definition dashboard : jsstring := js "dashboard".

(** [toolDefinitions.some(t => t.id === toolId)]. *)
Definition isTool (toolId : jsstring) : bool :=
  existsb (fun id => jseqb id toolId) toolIds.

(** [window.location.hash], the view on display and the entry
    [lastActiveTool] of the session storage. *)
Record Navigation : Type := mkNavigation {
  locationHash : jsstring;
  currentView : jsstring;
  lastActiveTool : option jsstring
}.

(** [setCurrentView(view)] and the update of the session storage that
    follows it in [navigateTo] and in [handleHashChange]. *)
Definition showView (view : jsstring) (nav : Navigation) : Navigation :=
  {| locationHash := locationHash nav;
     currentView := view;
     lastActiveTool := if negb (jseqb view dashboard) then Some view else None |}.

Definition handleHashChange (nav : Navigation) : Navigation :=
  let hash := locationHash nav in
  let newView :=
    if startsWith (js "#/tool/") hash then
      let toolId := substringFrom hash (length (js "#/tool/")) in
      if isTool toolId then toolId else dashboard
    else dashboard in
  showView newView nav.

Definition targetHashOf (viewId : jsstring) : jsstring :=
  if jseqb viewId dashboard then js "#/dashboard" else js "#/tool/" ++ viewId.

(** [navigateTo]: the assignment to [window.location.hash] is followed
    by the [hashchange] event, whose listener is [handleHashChange]. *)
Definition navigateTo (viewId : jsstring) (nav : Navigation) : Navigation :=
  let targetHash := targetHashOf viewId in
  if negb (jseqb (locationHash nav) targetHash)
  then handleHashChange {| locationHash := targetHash;
                           currentView := currentView nav;
                           lastActiveTool := lastActiveTool nav |}
  else showView viewId nav.

(* ------------------------------------------------------------------ *)
(** ** The data of the worked examples *)
(* ------------------------------------------------------------------ *)

Definition exampleClock : Clock := mkClock 1700000000000 2023 11 14.

(** A backup of one chapter of two words. *)
Definition exampleRevision : RevisionRow :=
  freshRevision exampleClock 2 [todoStatus]
                [newScene 1 (js "One") (TextBlocks [] [TextBlock (js "two words")])]
                [newSection 1 1 (js "One")].

Definition exampleBackupFile : BackupFile :=
  mkBackupFile 4 (js "0000abcd") (Some (js "My Book")) [] true true 0 0
               [exampleRevision].

(** A source of random numbers that always returns one half. *)
Definition oneHalf (n : nat) : Fraction := mkFraction 1 2.

(** The text of two lines "ab" and "cd". *)
Definition twoLines : jsstring := js "ab" ++ [newline] ++ js "cd".

Definition fiveChapters : list jsstring :=
  [js "one"; js "two"; js "three"; js "four"; js "five"].
Unset Implicit Arguments.

(* ================================================================== *)
(** * Strings: what [startsWith], [indexOf] and [substring] compute *)
(* ================================================================== *)

Lemma jseqb_eq (a b : jsstring) : jseqb a b = true <-> a = b.
Proof.
  revert b; induction a as [|x a IH]; intros [|y b]; simpl; split;
    try congruence; try reflexivity.
  - intros H. apply andb_true_iff in H as [Hx Hab].
    apply N.eqb_eq in Hx. apply IH in Hab. congruence.
  - intros H. injection H as -> ->.
    apply andb_true_iff; split; [apply N.eqb_refl | now apply IH].
Qed.

Lemma jseqb_refl (a : jsstring) : jseqb a a = true.
Proof. now apply jseqb_eq. Qed.

Lemma jseqb_neq (a b : jsstring) : jseqb a b = false <-> a <> b.
Proof.
  split.
  - intros H E. apply jseqb_eq in E. congruence.
  - intros H. destruct (jseqb a b) eqn:E; [|reflexivity].
    apply jseqb_eq in E. contradiction.
Qed.

Lemma startsWith_app (p s : jsstring) : startsWith p (p ++ s) = true.
Proof.
  induction p as [|x p IH]; simpl; [reflexivity|].
  now rewrite N.eqb_refl, IH.
Qed.

Lemma startsWith_firstn (p s : jsstring) :
  startsWith p s = true <-> firstn (length p) s = p.
Proof.
  revert s; induction p as [|x p IH]; intros s; simpl.
  - split; reflexivity.
  - destruct s as [|y s]; simpl.
    + split; congruence.
    + rewrite andb_true_iff, N.eqb_eq, IH. split.
      * intros [-> ->]. reflexivity.
      * intros E. injection E as -> E. split; [reflexivity|assumption].
Qed.

Lemma startsWith_length (p s : jsstring) :
  startsWith p s = true -> length p <= length s.
Proof.
  intros H. apply startsWith_firstn in H.
  rewrite <- H at 1. rewrite length_firstn. lia.
Qed.

Lemma occursAt_bound (p text : jsstring) (k : nat) :
  occursAt p text k -> k + length p <= length text.
Proof.
  intros [Hk H]. apply startsWith_length in H.
  rewrite length_skipn in H. lia.
Qed.

Lemma indexOfAux_spec (p s : jsstring) (pos : nat) :
  match indexOfAux p s pos with
  | Some i =>
      pos <= i /\ i - pos <= length s /\
      startsWith p (skipn (i - pos) s) = true /\
      forall d, d < i - pos -> startsWith p (skipn d s) = false
  | None => forall d, d <= length s -> startsWith p (skipn d s) = false
  end.
Proof.
  revert pos; induction s as [|c s IH]; intros pos.
  - simpl. destruct (startsWith p []) eqn:E.
    + rewrite Nat.sub_diag. simpl. repeat split; try lia. exact E.
    + intros d Hd. simpl in Hd. assert (d = 0) by lia. subst. exact E.
  - cbn [indexOfAux]. destruct (startsWith p (c :: s)) eqn:E.
    + rewrite Nat.sub_diag. simpl. repeat split; try lia. exact E.
    + specialize (IH (S pos)). destruct (indexOfAux p s (S pos)) as [i|].
      * destruct IH as (H1 & H2 & H3 & H4).
        replace (i - pos) with (S (i - S pos)) by lia.
        repeat split; try lia.
        -- simpl. lia.
        -- exact H3.
        -- intros [|d] Hd; [exact E|]. simpl. apply H4. lia.
      * intros [|d] Hd; [exact E|]. simpl. apply IH. simpl in Hd. lia.
Qed.

(** [indexOf] finds the first occurrence at or after [start]. *)
Lemma indexOf_Some (p text : jsstring) (start i : nat) :
  indexOf p text start = Some i ->
  (p <> [] -> start <= i) /\ occursAt p text i /\
  forall k, start <= k -> k < i -> startsWith p (skipn k text) = false.
Proof.
  unfold indexOf. intros H.
  pose proof (indexOfAux_spec p (skipn start text) (Nat.min start (length text))) as S.
  rewrite H in S. destruct S as (H1 & H2 & H3 & H4).
  rewrite length_skipn in H2.
  destruct (Nat.le_gt_cases start (length text)) as [Hs|Hs].
  - rewrite Nat.min_l in * by assumption.
    rewrite skipn_skipn in H3.
    replace (i - start + start) with i in H3 by lia.
    split; [lia|]. split; [split; [lia|assumption]|].
    intros k Hk1 Hk2. specialize (H4 (k - start)).
    rewrite skipn_skipn in H4. replace (k - start + start) with k in H4 by lia.
    apply H4. lia.
  - rewrite Nat.min_r in * by lia.
    assert (i = length text) by lia. subst i.
    rewrite Nat.sub_diag in H3. simpl in H3.
    rewrite skipn_all2 in H3 by lia.
    split; [|split].
    + intros Hp. destruct p; [congruence|discriminate].
    + split; [lia|]. now rewrite skipn_all2 by lia.
    + intros k Hk1 Hk2. lia.
Qed.

Lemma indexOf_None (p text : jsstring) (start : nat) :
  indexOf p text start = None ->
  forall k, start <= k -> k <= length text -> startsWith p (skipn k text) = false.
Proof.
  unfold indexOf. intros H k Hk1 Hk2.
  pose proof (indexOfAux_spec p (skipn start text) (Nat.min start (length text))) as S.
  rewrite H in S. specialize (S (k - start)).
  rewrite skipn_skipn, length_skipn in S.
  replace (k - start + start) with k in S by lia. apply S. lia.
Qed.

Lemma substring_prefix (text : jsstring) (i : nat) :
  substring text 0 i = firstn i text.
Proof.
  unfold substring. simpl.
  rewrite Nat.sub_0_r.
  destruct (Nat.le_gt_cases i (length text)).
  - now rewrite Nat.min_l.
  - rewrite Nat.min_r by lia. now rewrite !firstn_all2 by lia.
Qed.

Lemma substring_between (text : jsstring) (a b : nat) :
  a <= b -> b <= length text ->
  substring text a b = firstn (b - a) (skipn a text).
Proof.
  intros Hab Hb. unfold substring.
  rewrite (Nat.min_l a), (Nat.min_l b) by lia.
  now rewrite Nat.max_r, Nat.min_l by lia.
Qed.

Lemma nth_error_setNth_eq {A : Type} (l : list A) (i : nat) (x y : A) :
  nth_error l i = Some y -> nth_error (setNth l i x) i = Some x.
Proof.
  revert i; induction l as [|z l IH]; intros [|i]; simpl; try discriminate.
  - reflexivity.
  - apply IH.
Qed.

Lemma nth_error_setNth_neq {A : Type} (l : list A) (i j : nat) (x : A) :
  i <> j -> nth_error (setNth l i x) j = nth_error l j.
Proof.
  revert i j; induction l as [|z l IH]; intros [|i] [|j] H; simpl;
    try reflexivity; try congruence.
  apply IH. congruence.
Qed.

Lemma numIs_of_nat (a b : nat) :
  numIs (Num (Z.of_nat a)) (Z.of_nat b) = Nat.eqb a b.
Proof.
  simpl. destruct (Nat.eqb_spec a b) as [->|N].
  - apply Z.eqb_refl.
  - apply Z.eqb_neq. lia.
Qed.

(* ================================================================== *)
(** * The forward search: range check and invalid patterns *)
(* ================================================================== *)

Section ForwardFacts.
Context {host : RegExpHost}.

(** C10, implicit: [findNext] never wraps around.  A cursor whose
    scene index is at or past the number of scenes of [revisions[0]]
    makes the search return no match at once, whatever the scenes
    hold and whatever the pattern is; a scene index that is negative
    or not a number makes the search run as from the origin
    (0, 0, 0). *)
Theorem findNext_never_wraps (pattern : jsstring) (useRegex : bool)
        (data : BackupData) (ptr : FindReplacePointer) :
  (forall z, scene ptr = Num z ->
             (Z.of_nat (length (scenesOf data)) <= z)%Z ->
             findNextMatchInternal pattern useRegex data ptr = NotFound)
  /\ ((forall z, scene ptr = Num z -> (z < 0)%Z) ->
      findNextMatchInternal pattern useRegex data ptr
      = findNextMatchInternal pattern useRegex data origin).
Proof.
  unfold findNextMatchInternal, scenesOf. split.
  - intros z Hz Hge. destruct (revisions data) as [|rev0 others]; [reflexivity|].
    unfold startForward. rewrite Hz.
    destruct (Z.ltb_spec z 0) as [Hneg|Hpos]; [lia|].
    rewrite Hz. destruct (Z.leb_spec (Z.of_nat (length (scenes rev0))) z); [reflexivity|lia].
  - intros Hbad. destruct (revisions data) as [|rev0 others]; [reflexivity|].
    assert (startForward ptr = origin) as ->.
    { unfold startForward. destruct (scene ptr) as [| |z] eqn:Hs; try reflexivity.
      specialize (Hbad z eq_refl). destruct (Z.ltb_spec z 0); [reflexivity|lia]. }
    reflexivity.
Qed.

(** With a pattern the host does not compile, the block loop of the
    forward search never reports a match. *)
Lemma blocksForward_invalid (pattern : jsstring) (i : nat) (sc : Scene)
      (bs : list Block) (j : nat) (tp : FindReplacePointer) :
  RegExp_new pattern = None ->
  forall m ptr, blocksForward pattern true i sc bs j tp <> inr (Found m ptr).
Proof.
  intros Hbad. revert j tp; induction bs as [|b bs IH]; intros j tp m ptr; simpl.
  - discriminate.
  - destruct b as [|t|blockText]; try apply IH.
    destruct (_ && _); [apply IH|].
    rewrite andb_false_r.
    unfold matchForward. rewrite Hbad. discriminate.
Qed.

Lemma scenesForward_invalid (pattern : jsstring) (rest : list (option Scene))
      (i : nat) (tp : FindReplacePointer) :
  RegExp_new pattern = None ->
  forall m ptr, scenesForward pattern true rest i tp <> Found m ptr.
Proof.
  intros Hbad. revert i tp; induction rest as [|so rest IH]; intros i tp m ptr; simpl.
  - discriminate.
  - assert (Hscan : forall sc blocks,
               match blocksForwardFrom pattern true i sc blocks tp with
               | inr out => out
               | inl tp' =>
                   scenesForward pattern true rest (S i)
                     (setBlockOffset (numIs (scene tp') (Z.of_nat i)) (Num 0) tp')
               end <> Found m ptr).
    { intros sc blocks.
      destruct (blocksForwardFrom pattern true i sc blocks tp) as [tp'|out] eqn:E.
      - apply IH.
      - intros ->. unfold blocksForwardFrom in E.
        destruct (if numIs (scene tp) (Z.of_nat i) then block tp else Num 0);
          try discriminate.
        destruct (Z.ltb z 0); eapply blocksForward_invalid; eauto. }
    destruct so as [sc|]; [|apply IH].
    destruct (text sc); try apply IH; apply Hscan.
Qed.

Lemma findNext_invalid (pattern : jsstring) (data : BackupData)
      (ptr : FindReplacePointer) :
  RegExp_new pattern = None ->
  findNextMatchInternal pattern true data ptr = RegexError
  \/ findNextMatchInternal pattern true data ptr = NotFound.
Proof.
  intros Hbad. unfold findNextMatchInternal.
  destruct (revisions data) as [|rev0 others]; [now right|].
  destruct (scene (startForward ptr)); try now right.
  destruct (Z.leb _ z); [now right|].
  pose proof (@scenesForward_invalid pattern (skipn (Z.to_nat z) (scenes rev0))
                (Z.to_nat z) (startForward ptr) Hbad) as H.
  destruct (scenesForward pattern true _ _ _); [|now left|now right].
  exfalso. eapply H. reflexivity.
Qed.

Section InvalidPattern.
Variable pattern : jsstring.
Hypothesis Hbad : RegExp_new pattern = None.

Lemma skippedAtCursor_guard (tp : FindReplacePointer) (i j : nat)
      (blockText : jsstring) :
  Nat.leb (length blockText)
          (clampStart (if isAt tp (Z.of_nat i) (Z.of_nat j)
                       then offset tp else Num 0))
  && Nat.ltb 0 (length blockText)
  = skippedAtCursor tp i j blockText.
Proof.
  unfold skippedAtCursor. destruct (isAt tp (Z.of_nat i) (Z.of_nat j)).
  - reflexivity.
  - cbn [clampStart Z.to_nat andb]. now destruct blockText.
Qed.

Lemma skippedAtCursor_later (tp : FindReplacePointer) (v : jsnum)
      (i j j' : nat) (blockText : jsstring) :
  j < j' ->
  skippedAtCursor (setOffset (isAt tp (Z.of_nat i) (Z.of_nat j)) v tp) i j'
                  blockText
  = skippedAtCursor tp i j' blockText.
Proof.
  intros Hlt. unfold setOffset.
  destruct (isAt tp (Z.of_nat i) (Z.of_nat j)) eqn:E; [|reflexivity].
  unfold skippedAtCursor, isAt in *. cbn [scene block].
  apply andb_true_iff in E as [Hs Hb]. rewrite Hs.
  destruct (block tp) as [| |z]; try discriminate. cbn in Hb |- *.
  apply Z.eqb_eq in Hb. subst z.
  destruct (Z.eqb_spec (Z.of_nat j) (Z.of_nat j')); [lia|reflexivity].
Qed.

(** The block loop with a pattern that does not compile: it ends with
    the regex error at the first text block it does not give up, and
    runs to its end when there is none. *)
Lemma blocksForward_tries (i : nat) (sc : Scene) (bs : list Block) (j : nat)
      (tp : FindReplacePointer) :
  (blocksForward pattern true i sc bs j tp = inr RegexError
   /\ exists k t, nth_error bs k = Some (TextBlock t)
                  /\ skippedAtCursor tp i (j + k) t = false)
  \/ (exists tp',
         blocksForward pattern true i sc bs j tp = inl tp'
         /\ scene tp' = scene tp /\ block tp' = block tp
         /\ forall k t, nth_error bs k = Some (TextBlock t) ->
                        skippedAtCursor tp i (j + k) t = true).
Proof.
  revert j tp. induction bs as [|b rest IH]; intros j tp.
  - right. exists tp. repeat split; auto. intros [|k] t H; discriminate.
  - assert (Hnext :
              (forall t, b = TextBlock t -> skippedAtCursor tp i j t = true) ->
              blocksForward pattern true i sc (b :: rest) j tp
              = blocksForward pattern true i sc rest (S j)
                  (setOffset (isAt tp (Z.of_nat i) (Z.of_nat j)) (Num 0) tp) ->
              (blocksForward pattern true i sc (b :: rest) j tp = inr RegexError
               /\ exists k t, nth_error (b :: rest) k = Some (TextBlock t)
                              /\ skippedAtCursor tp i (j + k) t = false)
              \/ (exists tp',
                     blocksForward pattern true i sc (b :: rest) j tp = inl tp'
                     /\ scene tp' = scene tp /\ block tp' = block tp
                     /\ forall k t, nth_error (b :: rest) k = Some (TextBlock t) ->
                                    skippedAtCursor tp i (j + k) t = true)).
    { intros Hb ->.
      destruct (IH (S j) (setOffset (isAt tp (Z.of_nat i) (Z.of_nat j)) (Num 0) tp))
        as [(E & k & t & Hk & Hs)|(tp' & E & H1 & H2 & Hall)].
      - left. split; [exact E|]. exists (S k), t. split; [exact Hk|].
        rewrite skippedAtCursor_later in Hs by lia.
        now replace (j + S k) with (S j + k) by lia.
      - right. exists tp'. split; [exact E|].
        split; [rewrite H1; unfold setOffset; now destruct (isAt _ _ _)|].
        split; [rewrite H2; unfold setOffset; now destruct (isAt _ _ _)|].
        intros [|k] t Hk.
        + injection Hk as ->. rewrite Nat.add_0_r. now apply Hb.
        + specialize (Hall k t Hk).
          rewrite skippedAtCursor_later in Hall by lia.
          now replace (j + S k) with (S j + k) by lia. }
    destruct b as [|o|t].
    + apply Hnext; [discriminate|reflexivity].
    + apply Hnext; [discriminate|reflexivity].
    + destruct (skippedAtCursor tp i j t) eqn:Sk.
      * apply Hnext.
        -- intros t' E. injection E as <-. exact Sk.
        -- cbn [blocksForward]. now rewrite skippedAtCursor_guard, Sk.
      * left. split.
        -- cbn [blocksForward]. rewrite skippedAtCursor_guard, Sk.
           rewrite andb_false_r. unfold matchForward. now rewrite Hbad.
        -- exists 0, t. split; [reflexivity|]. now rewrite Nat.add_0_r.
Qed.

Lemma blocksForwardFrom_tries (i : nat) (sc : Scene) (blocks : list Block)
      (tp : FindReplacePointer) :
  (blocksForwardFrom pattern true i sc blocks tp = inr RegexError
   /\ exists j t, nth_error blocks j = Some (TextBlock t)
                  /\ inScope tp i j
                  /\ skippedAtCursor tp i j t = false)
  \/ (exists tp',
         blocksForwardFrom pattern true i sc blocks tp = inl tp'
         /\ scene tp' = scene tp
         /\ forall j t, nth_error blocks j = Some (TextBlock t) ->
                        inScope tp i j ->
                        skippedAtCursor tp i j t = true).
Proof.
  unfold blocksForwardFrom, inScope.
  destruct (numIs (scene tp) (Z.of_nat i)) eqn:Here.
  - destruct (block tp) as [| |z] eqn:B.
    + right. exists tp. split; [reflexivity|]. split; [reflexivity|].
      intros j t _ H. now specialize (H eq_refl).
    + right. exists tp. split; [reflexivity|]. split; [reflexivity|].
      intros j t _ H. now specialize (H eq_refl).
    + destruct (Z.ltb_spec z 0) as [Hneg|Hpos].
      * assert (Hsk : forall j t,
                   skippedAtCursor (setOffset true (Num 0) tp) i j t
                   = skippedAtCursor tp i j t).
        { intros j t. unfold skippedAtCursor, isAt, setOffset. cbn [scene block].
          rewrite B. cbn [numIs].
          destruct (Z.eqb_spec z (Z.of_nat j)); [lia|].
          now rewrite !andb_false_r. }
        destruct (blocksForward_tries i sc blocks 0 (setOffset true (Num 0) tp))
          as [(E & k & t & Hk & Hs)|(tp' & E & H1 & H2 & Hall)].
        -- left. split; [exact E|]. exists k, t. split; [exact Hk|].
           split; [intros _; lia|]. now rewrite <- Hsk.
        -- right. exists tp'. split; [exact E|]. split; [exact H1|].
           intros j t Hj _. rewrite <- Hsk. now apply (Hall j t).
      * destruct (blocksForward_tries i sc (skipn (Z.to_nat z) blocks)
                                      (Z.to_nat z) tp)
          as [(E & k & t & Hk & Hs)|(tp' & E & H1 & H2 & Hall)].
        -- left. split; [exact E|]. exists (Z.to_nat z + k), t.
           rewrite nth_error_skipn in Hk. split; [exact Hk|].
           split; [intros _; lia|exact Hs].
        -- right. exists tp'. split; [exact E|]. split; [exact H1|].
           intros j t Hj Hin. specialize (Hin eq_refl).
           replace j with (Z.to_nat z + (j - Z.to_nat z)) by lia.
           apply Hall. rewrite nth_error_skipn.
           now replace (Z.to_nat z + (j - Z.to_nat z)) with j by lia.
  - cbn [Z.ltb Z.compare Z.to_nat skipn].
    destruct (blocksForward_tries i sc blocks 0 tp)
      as [(E & k & t & Hk & Hs)|(tp' & E & H1 & H2 & Hall)].
    + left. split; [exact E|]. exists k, t. split; [exact Hk|].
      split; [discriminate|exact Hs].
    + right. exists tp'. split; [exact E|]. split; [exact H1|].
      intros j t Hj _. now apply (Hall j t).
Qed.

Lemma scenesForward_tries (rest : list (option Scene)) (i : nat)
      (tp : FindReplacePointer) :
  (forall i', i < i' -> numIs (scene tp) (Z.of_nat i') = false) ->
  (scenesForward pattern true rest i tp = RegexError /\ triedIn rest i tp)
  \/ (scenesForward pattern true rest i tp = NotFound /\ ~ triedIn rest i tp).
Proof.
  revert i tp. induction rest as [|so rest IH]; intros i tp Hlater.
  - right. split; [reflexivity|]. intros (k & so & j & t & H & _).
    now destruct k.
  - assert (Hrest : forall tp',
               scene tp' = scene tp ->
               (triedIn rest (S i) tp' <-> 
                exists k so' j t,
                  nth_error rest k = Some so'
                  /\ nth_error (blocksOfScene so') j = Some (TextBlock t)
                  /\ inScope tp (i + S k) j
                  /\ skippedAtCursor tp (i + S k) j t = false)).
    { intros tp' Hsc. unfold triedIn, inScope, skippedAtCursor, isAt.
      rewrite Hsc.
      split; intros (k & so' & j & t & H1 & H2 & _ & _);
        exists k, so', j, t; (split; [exact H1|]); (split; [exact H2|]);
        replace (i + S k) with (S i + k) by lia;
        rewrite (Hlater (S i + k)) by lia; (split; [discriminate|reflexivity]). }
    assert (Hskip : forall tp',
               scene tp' = scene tp ->
               blocksOfScene so = [] \/
               (forall j t, nth_error (blocksOfScene so) j = Some (TextBlock t) ->
                            inScope tp i j -> skippedAtCursor tp i j t = true) ->
               (scenesForward pattern true rest (S i) tp' = RegexError
                /\ triedIn (so :: rest) i tp)
               \/ (scenesForward pattern true rest (S i) tp' = NotFound
                   /\ ~ triedIn (so :: rest) i tp)).
    { intros tp' Hsc Hnone.
      assert (Hl : forall i', S i < i' -> numIs (scene tp') (Z.of_nat i') = false)
        by (intros i' Hi'; rewrite Hsc; apply Hlater; lia).
      destruct (IH (S i) tp' Hl) as [[E T]|[E T]].
      - left. split; [exact E|]. apply (Hrest tp' Hsc) in T.
        destruct T as (k & so' & j & t & H1 & H2 & H3 & H4).
        exists (S k), so', j, t. auto.
      - right. split; [exact E|]. intros (k & so' & j & t & H1 & H2 & H3 & H4).
        destruct k as [|k].
        + injection H1 as <-. rewrite Nat.add_0_r in *.
          destruct Hnone as [Hn|Hn].
          * rewrite Hn in H2. now destruct j.
          * rewrite (Hn j t H2 H3) in H4. discriminate.
        + apply T. apply (Hrest tp' Hsc). exists k, so', j, t. auto. }
    assert (Hsb : forall c v, scene (setBlockOffset c v tp) = scene tp)
      by (intros c v; unfold setBlockOffset; now destruct c).
    cbn [scenesForward].
    destruct so as [sc|]; [|apply Hskip; [apply Hsb|now left]].
    destruct (text sc) as [| |iterable|members blocks] eqn:T.
    + apply Hskip; [apply Hsb|left; unfold blocksOfScene; now rewrite T].
    + apply Hskip; [apply Hsb|left; unfold blocksOfScene; now rewrite T].
    + destruct (blocksForwardFrom_tries i sc [] tp)
        as [(E & j & t & Hj & _)|(tp' & E & H1 & _)]; [now destruct j|].
      rewrite E. apply Hskip.
      * unfold setBlockOffset. destruct (numIs _ _); cbn [scene]; exact H1.
      * left. unfold blocksOfScene. now rewrite T.
    + destruct (blocksForwardFrom_tries i sc blocks tp)
        as [(E & j & t & Hj & Hin & Hs)|(tp' & E & H1 & Hall)].
      * rewrite E. left. split; [reflexivity|].
        exists 0, (Some sc), j, t. rewrite Nat.add_0_r.
        unfold blocksOfScene. rewrite T. auto.
      * rewrite E. apply Hskip.
        -- unfold setBlockOffset. destruct (numIs _ _); cbn [scene]; exact H1.
        -- right. unfold blocksOfScene. rewrite T. exact Hall.
Qed.

(** With a pattern that does not compile the forward search ends with
    the regex error exactly when it tries the pattern on a text
    block. *)
Lemma findNext_tries (data : BackupData) (ptr : FindReplacePointer) :
  (findNextMatchInternal pattern true data ptr = RegexError
   /\ triesPattern data ptr)
  \/ (findNextMatchInternal pattern true data ptr = NotFound
      /\ ~ triesPattern data ptr).
Proof.
  unfold findNextMatchInternal, triesPattern, scenesOf.
  destruct (revisions data) as [|rev0 others].
  { right. split; [reflexivity|]. intros (i & so & j & t & H & _). now destruct i. }
  assert (Hpos : match scene (startForward ptr) with
                 | Num z => (0 <= z)%Z
                 | _ => False
                 end).
  { unfold startForward. destruct (scene ptr) as [| |z] eqn:S; cbn; try lia.
    destruct (Z.ltb_spec z 0); [cbn; lia|now rewrite S]. }
  set (tp := startForward ptr) in *.
  destruct (scene tp) as [| |z] eqn:Sc; try contradiction.
  destruct (Z.leb_spec (Z.of_nat (length (scenes rev0))) z) as [Hout|Hin].
  { right. split; [reflexivity|]. intros (i & so & j & t & Hi & _ & Hr & _).
    unfold scanReaches in Hr. rewrite Sc in Hr.
    assert (i < length (scenes rev0)) by (apply nth_error_Some; congruence). lia. }
  assert (Hlater : forall i', Z.to_nat z < i' ->
                              numIs (scene tp) (Z.of_nat i') = false).
  { intros i' Hi'. rewrite Sc. cbn. apply Z.eqb_neq. lia. }
  assert (Hiff : triedIn (skipn (Z.to_nat z) (scenes rev0)) (Z.to_nat z) tp
                 <-> exists i so j t,
                   nth_error (scenes rev0) i = Some so
                   /\ nth_error (blocksOfScene so) j = Some (TextBlock t)
                   /\ scanReaches tp i j
                   /\ skippedAtCursor tp i j t = false).
  { unfold triedIn, inScope, scanReaches. rewrite Sc. cbn [numIs]. split.
    - intros (k & so & j & t & H1 & H2 & H3 & H4).
      exists (Z.to_nat z + k), so, j, t. rewrite nth_error_skipn in H1.
      split; [exact H1|]. split; [exact H2|]. split; [|exact H4].
      split; [lia|]. intros E. apply H3. apply Z.eqb_eq. lia.
    - intros (i & so & j & t & H1 & H2 & [H3 H3'] & H4).
      exists (i - Z.to_nat z), so, j, t.
      replace (Z.to_nat z + (i - Z.to_nat z)) with i by lia.
      rewrite nth_error_skipn.
      replace (Z.to_nat z + (i - Z.to_nat z)) with i by lia.
      split; [exact H1|]. split; [exact H2|]. split; [|exact H4].
      intros E. apply H3'. apply Z.eqb_eq in E. lia. }
  destruct (scenesForward_tries (skipn (Z.to_nat z) (scenes rev0)) (Z.to_nat z)
                                tp Hlater) as [[E T]|[E T]].
  - left. split; [exact E|]. now apply Hiff.
  - right. split; [exact E|]. intros H. apply T. now apply Hiff.
Qed.

End InvalidPattern.

(** C3, amended: with an invalid regular expression [findNext] does
    not fail: it ends as a search without a match.  The cursor and the
    record are left as they were, the stored match is cleared and the
    panel shows the no-more-matches message.  The only other trace is
    the regex-error toast, shown exactly when the scan tries the
    pattern on a text block: a text block of the cursor's scene at or
    after the cursor's block, or of a later scene, other than a block
    at the cursor that is not empty and ends at or before the
    cursor's offset. *)
Theorem findNext_invalid_regex (pattern : jsstring) (e : Engine)
        (data : BackupData) :
  RegExp_new pattern = None ->
  frData e = Some data ->
  let e' := handleFindNextMatch pattern true e in
  frPtr e' = frPtr e /\ frData e' = frData e /\ frMatch e' = None
  /\ currentMatchDisplay e' = DisplayNoMore pattern
  /\ (toasts e' = ToastRegexError :: toasts e \/ toasts e' = toasts e)
  /\ (toasts e' = ToastRegexError :: toasts e <-> triesPattern data (frPtr e)).
Proof.
  intros Hbad Hdata. unfold handleFindNextMatch. rewrite Hdata.
  rewrite andb_false_r.
  destruct (findNext_tries pattern Hbad data (frPtr e)) as [[-> T]|[-> T]];
    cbn; repeat split; auto.
  - intros E. exfalso. apply (f_equal (@length _)) in E. cbn in E. lia.
  - intros H. contradiction.
Qed.

End ForwardFacts.

(* ================================================================== *)
(** * Replacing one match *)
(* ================================================================== *)

Section ReplaceOne.
Variable replaceText : jsstring.

Lemma spliceText_slices (oldText : jsstring) (m : FindReplaceMatch) :
  spliceText replaceText oldText m
  = firstn (matchIndex m) oldText ++ replaceText
    ++ skipn (matchIndex m + matchLength m) oldText.
Proof. unfold spliceText, substringFrom. now rewrite substring_prefix. Qed.

(** What [handleReplaceMatch] does to an engine that holds a match on
    a text block. *)
Lemma handleReplaceMatch_on_text (e : Engine) (m : FindReplaceMatch)
      (oldText : jsstring) :
  frMatch e = Some m ->
  blockTextAt e (sceneIndex m) (blockIndex m) = Some oldText ->
  let e' := handleReplaceMatch replaceText e in
  blockTextAt e' (sceneIndex m) (blockIndex m)
  = Some (spliceText replaceText oldText m)
  /\ frPtr e' = mkPtr (Num (Z.of_nat (sceneIndex m)))
                      (Num (Z.of_nat (blockIndex m)))
                      (Num (Z.of_nat (matchIndex m + length replaceText)))
  /\ frMatch e' = None.
Proof.
  intros Hm Hat. unfold handleReplaceMatch, blockTextAt in *.
  destruct (frData e) as [data|]; [|discriminate]. rewrite Hm.
  unfold replaceInData, scenesOf in *.
  destruct (revisions data) as [|rev0 others]; [now destruct (sceneIndex m)|].
  destruct (nth_error (scenes rev0) (sceneIndex m)) as [so|] eqn:Hso; [|discriminate].
  unfold blocksOfScene in Hat.
  destruct so as [sc|]; [|now destruct (blockIndex m)].
  destruct (text sc) as [| |iterable|members blocks] eqn:Htext;
    try now destruct (blockIndex m).
  destruct (nth_error blocks (blockIndex m)) as [b|] eqn:Hb; [|discriminate].
  destruct b as [|t|t]; try discriminate.
  injection Hat as ->. simpl.
  erewrite nth_error_setNth_eq by eassumption. simpl.
  erewrite nth_error_setNth_eq by eassumption.
  repeat split.
Qed.

(** C4: when the engine holds a match on the span [i, i+len) of a
    block's text, [replaceOne] makes the text of that block
    [text[0:i] + R + text[i+len:]], leaves the cursor in the same
    scene and block at offset [i + length(R)], and clears the stored
    match. *)
Theorem replaceOne_splices (e : Engine) (m : FindReplaceMatch)
        (oldText : jsstring) :
  frMatch e = Some m ->
  blockTextAt e (sceneIndex m) (blockIndex m) = Some oldText ->
  matchIndex m + matchLength m <= length oldText ->
  let e' := handleReplaceMatch replaceText e in
  blockTextAt e' (sceneIndex m) (blockIndex m)
  = Some (firstn (matchIndex m) oldText ++ replaceText
          ++ skipn (matchIndex m + matchLength m) oldText)
  /\ frPtr e' = mkPtr (Num (Z.of_nat (sceneIndex m)))
                      (Num (Z.of_nat (blockIndex m)))
                      (Num (Z.of_nat (matchIndex m + length replaceText)))
  /\ frMatch e' = None.
Proof.
  intros Hm Hat _. rewrite <- spliceText_slices.
  now apply handleReplaceMatch_on_text.
Qed.

End ReplaceOne.

(* ================================================================== *)
(** * Replacing all matches *)
(* ================================================================== *)

Lemma firstMatch_spec (re : RegExp) (text : jsstring) (k fuel : nat) :
  match firstMatch re text k fuel with
  | Some (i, len) =>
      k <= i /\ i < k + fuel /\ matchAt re text i = Some len
      /\ forall j, k <= j -> j < i -> matchAt re text j = None
  | None => forall j, k <= j -> j < k + fuel -> matchAt re text j = None
  end.
Proof.
  revert k; induction fuel as [|fuel IH]; intros k; simpl.
  - intros j H1 H2. lia.
  - destruct (matchAt re text k) as [len|] eqn:E.
    + repeat split; try lia. exact E.
    + specialize (IH (S k)). destruct (firstMatch re text (S k) fuel) as [[i len]|].
      * destruct IH as (H1 & H2 & H3 & H4). repeat split; try lia; try assumption.
        intros j Hj1 Hj2. destruct (Nat.eq_dec j k) as [->|N]; [exact E|].
        apply H4; lia.
      * intros j Hj1 Hj2. destruct (Nat.eq_dec j k) as [->|N]; [exact E|].
        apply IH; lia.
Qed.

(** [exec] finds the leftmost match at or after [lastIndex]. *)
Lemma RegExp_exec_Some (re : RegExp) (text : jsstring) (lastIndex i len : nat) :
  RegExp_exec re text lastIndex = Some (i, len) ->
  lastIndex <= i /\ i <= length text /\ matchAt re text i = Some len
  /\ forall j, lastIndex <= j -> j < i -> matchAt re text j = None.
Proof.
  unfold RegExp_exec. destruct (Nat.ltb_spec (length text) lastIndex); [discriminate|].
  intros E. pose proof (firstMatch_spec re text lastIndex (S (length text - lastIndex))) as S.
  rewrite E in S. destruct S as (H1 & H2 & H3 & H4). repeat split; try lia; assumption.
Qed.

Lemma RegExp_exec_None (re : RegExp) (text : jsstring) (lastIndex : nat) :
  RegExp_exec re text lastIndex = None ->
  forall j, lastIndex <= j -> j <= length text -> matchAt re text j = None.
Proof.
  unfold RegExp_exec. destruct (Nat.ltb_spec (length text) lastIndex).
  - intros _ j H1 H2. lia.
  - intros E j H1 H2.
    pose proof (firstMatch_spec re text lastIndex (S (length text - lastIndex))) as S.
    rewrite E in S. apply S; lia.
Qed.

Lemma orderedSpans_weaken (text : jsstring) (from from' : nat)
      (spans : list (nat * nat)) :
  from <= from' -> orderedSpans text from' spans -> orderedSpans text from spans.
Proof.
  destruct spans as [|[idx len] rest]; simpl; [trivial|].
  intros H (H1 & H2 & H3). repeat split; try lia; assumption.
Qed.

Lemma execAll_ordered (re : RegExp) (text : jsstring) (fuel lastIndex : nat) :
  orderedSpans text lastIndex (execAll fuel re text lastIndex).
Proof.
  revert lastIndex; induction fuel as [|fuel IH]; intros lastIndex; simpl; [trivial|].
  destruct (RegExp_exec re text lastIndex) as [[idx len]|] eqn:E; simpl; [|trivial].
  apply RegExp_exec_Some in E as (H1 & H2 & _).
  repeat split; try assumption.
  destruct (Nat.eqb_spec len 0) as [->|N].
  - eapply orderedSpans_weaken; [|apply IH]. lia.
  - apply IH.
Qed.

Lemma literalSpans_ordered (p text : jsstring) (fuel lastIndex : nat) :
  p <> [] -> orderedSpans text lastIndex (literalSpans fuel p text lastIndex).
Proof.
  intros Hp. revert lastIndex; induction fuel as [|fuel IH]; intros lastIndex;
    simpl; [trivial|].
  destruct (indexOf p text lastIndex) as [idx|] eqn:E; simpl; [|trivial].
  apply indexOf_Some in E as (H1 & [H2 _] & _).
  repeat split; auto.
Qed.

Section ReplaceAll.
Context {host : RegExpHost}.
Variable findPattern : jsstring.
Variable replaceText : jsstring.

(** The function form of [replace] with the callback of the handler
    splices [replaceText] itself at every span and counts the spans. *)
Lemma replaceResults_splice (text : jsstring) (results : list (nat * nat))
      (next : nat) (acc : jsstring) (count : nat) (modified : bool) :
  orderedSpans text next results ->
  replaceResults text results (replaceCallback replaceText) next acc
                 (count, modified)
  = (acc ++ spliceAll text next results replaceText,
     (count + length results,
      match results with [] => modified | _ => true end)).
Proof.
  revert next acc count modified.
  induction results as [|[idx len] rest IH]; intros next acc count modified; simpl.
  - intros _. unfold substringFrom. now rewrite Nat.add_0_r.
  - intros (H1 & H2 & H3).
    rewrite Nat.min_l by assumption.
    destruct (Nat.leb_spec next idx); [|lia].
    rewrite IH by assumption.
    rewrite substring_between by lia.
    rewrite <- !app_assoc. f_equal. f_equal; [lia|].
    now destruct rest.
Qed.

Lemma replaceLiteral_splice (fuel : nat) (text : jsstring) (lastIndex : nat)
      (acc : jsstring) (count : nat) (modified : bool) :
  findPattern <> [] ->
  replaceLiteral findPattern replaceText fuel text lastIndex acc count modified
  = (acc ++ spliceAll text lastIndex
               (literalSpans fuel findPattern text lastIndex) replaceText,
     (count + length (literalSpans fuel findPattern text lastIndex),
      match literalSpans fuel findPattern text lastIndex with
      | [] => modified
      | _ => true
      end)).
Proof.
  intros Hp. revert lastIndex acc count modified.
  induction fuel as [|fuel IH]; intros lastIndex acc count modified; simpl.
  - unfold substringFrom. now rewrite Nat.add_0_r.
  - destruct (indexOf findPattern text lastIndex) as [idx|] eqn:E; simpl.
    + rewrite IH.
      apply indexOf_Some in E as (H1 & H2 & _).
      apply occursAt_bound in H2. specialize (H1 Hp).
      rewrite substring_between by lia.
      rewrite <- !app_assoc. f_equal. f_equal; [lia|].
      now destruct (literalSpans fuel findPattern text (idx + length findPattern)).
    + unfold substringFrom. now rewrite Nat.add_0_r.
Qed.

Lemma replaceAllInText_splice (useRegex : bool) (text : jsstring)
      (count : nat) (modified : bool) :
  isEmpty findPattern && negb useRegex = false ->
  replaceAllInText findPattern replaceText useRegex text count modified
  = match spansReplaced findPattern useRegex text with
    | Some spans =>
        Some (spliceAll text 0 spans replaceText,
              (count + length spans,
               match spans with [] => modified | _ => true end))
    | None => None
    end.
Proof.
  intros Hguard. unfold replaceAllInText, spansReplaced.
  destruct useRegex.
  - destruct (RegExp_new findPattern) as [re|]; [|reflexivity].
    unfold String_replace.
    rewrite replaceResults_splice by apply execAll_ordered. reflexivity.
  - rewrite replaceLiteral_splice; [reflexivity|].
    destruct findPattern; [discriminate|congruence].
Qed.

End ReplaceAll.

Section Verbatim.
Context {host : RegExpHost}.

(** The spans are undefined exactly for a regular expression that
    does not compile. *)
Lemma spansReplaced_throws (findPattern : jsstring) (useRegex : bool)
      (t : jsstring) :
  match spansReplaced findPattern useRegex t with
  | Some _ => false
  | None => true
  end
  = useRegex && match RegExp_new findPattern with
                | Some _ => false
                | None => true
                end.
Proof.
  unfold spansReplaced. destruct useRegex; [|reflexivity].
  now destruct (RegExp_new findPattern).
Qed.

Section VerbatimAll.
Variable findPattern : jsstring.
Variable useRegex : bool.
Variable R : jsstring.
Hypothesis guard : isEmpty findPattern && negb useRegex = false.

Local Abbreviation newText := (textAfterReplaceAll findPattern useRegex R).

(** The block loop of replace-all: it throws exactly in a scene that
    [sceneThrows] describes; otherwise every text block holds the
    text with [R] at the spans, the count does not decrease, and
    nothing changed when the count or the flag did not. *)
Lemma replaceAllInBlocks_texts (blocks : list Block) (count : nat)
      (modified : bool) :
  if sceneThrows findPattern useRegex blocks
  then exists count',
      replaceAllInBlocks findPattern R useRegex blocks count modified = inr count'
      /\ count <= count'
  else exists blocks' count' modified',
      replaceAllInBlocks findPattern R useRegex blocks count modified
      = inl (blocks', (count', modified'))
      /\ count <= count'
      /\ (count' = count -> blocks' = blocks)
      /\ (modified' = false -> modified = false /\ blocks' = blocks)
      /\ forall j t, nth_error blocks j = Some (TextBlock t) ->
                     nth_error blocks' j = Some (TextBlock (newText t)).
Proof.
  revert count modified.
  induction blocks as [|b rest IH]; intros count modified.
  - cbn. eexists _, _, _. split; [reflexivity|]. repeat split; auto.
    intros [|j] t H; discriminate.
  - destruct b as [|o|t].
    + cbn. eexists. split; [reflexivity|lia].
    + cbn [sceneThrows existsb orb replaceAllInBlocks].
      specialize (IH count modified).
      change (existsb _ rest) with (sceneThrows findPattern useRegex rest).
      destruct (sceneThrows findPattern useRegex rest).
      * destruct IH as (c' & -> & Hc). eauto.
      * destruct IH as (bs' & c' & m' & -> & Hc & Hsame & Hflag & Hnth).
        eexists _, _, _. split; [reflexivity|]. split; [exact Hc|].
        split; [intros E; now rewrite Hsame|].
        split; [intros E; destruct (Hflag E) as [-> ->]; auto|].
        intros [|j] t' H; [discriminate|]. cbn in *. auto.
    + cbn [sceneThrows existsb replaceAllInBlocks].
      change (existsb _ rest) with (sceneThrows findPattern useRegex rest).
      destruct t as [|c0 t0] eqn:Et.
      * (* an empty text is skipped *)
        cbn [isEmpty negb andb orb length Nat.ltb Nat.leb].
        specialize (IH count modified).
        destruct (sceneThrows findPattern useRegex rest).
        -- destruct IH as (c' & -> & Hc). eauto.
        -- destruct IH as (bs' & c' & m' & -> & Hc & Hsame & Hflag & Hnth).
           eexists _, _, _. split; [reflexivity|]. split; [exact Hc|].
           split; [intros E; now rewrite Hsame|].
           split; [intros E; destruct (Hflag E) as [-> ->]; auto|].
           intros [|j] t' H; cbn in *; auto.
           injection H as <-. reflexivity.
      * rewrite <- Et.
        assert (Hne : isEmpty t = false) by (now rewrite Et).
        assert (Hlen : Nat.ltb 0 (length t) = true) by (now rewrite Et).
        rewrite Hne, Hlen. cbn [negb andb].
        rewrite (replaceAllInText_splice findPattern R useRegex t count modified guard).
        assert (Hnew : forall spans,
                   spansReplaced findPattern useRegex t = Some spans ->
                   newText t = spliceAll t 0 spans R).
        { intros spans E. unfold textAfterReplaceAll. now rewrite Hne, E. }
        rewrite <- (spansReplaced_throws findPattern useRegex t).
        destruct (spansReplaced findPattern useRegex t) as [spans|]; cbn [orb].
        2:{ eexists. split; [reflexivity|lia]. }
        specialize (IH (count + length spans)
                       (match spans with [] => modified | _ => true end)).
        specialize (Hnew spans eq_refl).
        destruct (sceneThrows findPattern useRegex rest).
        -- destruct IH as (c' & -> & Hc). eexists. split; [reflexivity|lia].
        -- destruct IH as (bs' & c' & m' & -> & Hc & Hsame & Hflag & Hnth).
           eexists _, _, _. split; [reflexivity|]. split; [lia|].
           split; [|split].
           ++ intros E. assert (Hs : spans = [])
                by (destruct spans; [reflexivity|cbn [length] in Hc; lia]).
              subst spans. cbn [length] in *.
              rewrite Hsame by lia. now destruct modified.
           ++ intros E. destruct (Hflag E) as [Hm ->].
              destruct spans; [|discriminate]. rewrite Hm. auto.
           ++ intros [|j] t' H; [|cbn [nth_error] in *; auto].
              cbn [nth_error] in *. injection H as <-. rewrite Hnew.
              destruct spans; [|reflexivity].
              now destruct modified.
Qed.

(** The text of a text block after the turn of the scene loop on its
    scene. *)
Local Abbreviation leftInScene blocks t :=
  (if sceneThrows findPattern useRegex blocks then t else newText t).

Lemma replaceAllInScene_texts (sc : Scene) (count : nat) :
  exists sc' count' toast,
    replaceAllInScene findPattern R useRegex sc count = (sc', count', toast)
    /\ count <= count'
    /\ (count' = count -> sc' = sc)
    /\ forall members blocks j t,
        text sc = TextBlocks members blocks ->
        nth_error blocks j = Some (TextBlock t) ->
        nth_error (blocksOfScene (Some sc')) j
        = Some (TextBlock (leftInScene blocks t)).
Proof.
  unfold replaceAllInScene.
  destruct (text sc) as [| |[|]|members blocks] eqn:T;
    try (eexists _, _, _; split; [reflexivity|];
         split; [lia|]; split; [reflexivity|]; intros; discriminate).
  pose proof (replaceAllInBlocks_texts blocks count false) as H.
  destruct (sceneThrows findPattern useRegex blocks) eqn:Th.
  - destruct H as (c' & -> & Hc).
    eexists _, _, _. split; [reflexivity|]. split; [exact Hc|].
    split; [reflexivity|]. intros ms bs j t E Hj. injection E as <- <-.
    unfold blocksOfScene. now rewrite T, Th.
  - destruct H as (bs' & c' & m' & -> & Hc & Hsame & Hflag & Hnth).
    eexists _, _, _. split; [reflexivity|]. split; [exact Hc|].
    split.
    + intros E. destruct m'; [|reflexivity]. rewrite Hsame by exact E.
      destruct sc as [ti tx]. cbn in *. now rewrite T.
    + intros ms bs j t E Hj. injection E as <- <-. rewrite Th.
      destruct m'.
      * unfold blocksOfScene. cbn [text]. now apply Hnth.
      * destruct (Hflag eq_refl) as [_ <-]. unfold blocksOfScene. rewrite T.
        now apply Hnth.
Qed.

Lemma replaceAllInScenes_texts (ss : list (option Scene)) (count : nat)
      (ts : list Toast) :
  exists ss' count' ts' thrown,
    replaceAllInScenes findPattern R useRegex ss count ts
    = (ss', count', ts', thrown)
    /\ count <= count'
    /\ (count' = count -> ss' = ss)
    /\ (thrown = false ->
        forall i sc members blocks j t,
          nth_error ss i = Some (Some sc) ->
          text sc = TextBlocks members blocks ->
          nth_error blocks j = Some (TextBlock t) ->
          exists so', nth_error ss' i = Some so'
                      /\ nth_error (blocksOfScene so') j
                         = Some (TextBlock (leftInScene blocks t))).
Proof.
  revert count ts. induction ss as [|so rest IH]; intros count ts.
  - eexists _, _, _, _. split; [reflexivity|]. split; [lia|].
    split; [reflexivity|]. intros _ [|i]; discriminate.
  - destruct so as [sc|].
    2:{ eexists _, _, _, _. split; [reflexivity|]. split; [lia|].
        split; [reflexivity|]. discriminate. }
    cbn [replaceAllInScenes].
    destruct (replaceAllInScene_texts sc count) as (sc' & c1 & toast & -> & Hc1 & Hs1 & Ht1).
    match goal with
    | |- context [replaceAllInScenes _ _ _ rest c1 ?t] =>
        destruct (IH c1 t) as (rest' & c2 & ts2 & th & -> & Hc2 & Hs2 & Ht2)
    end.
    eexists _, _, _, _. split; [reflexivity|]. split; [lia|]. split.
    + intros E. rewrite Hs1, Hs2 by lia. reflexivity.
    + intros Hth [|i] sc0 members blocks j t Hi HT Hj.
      * injection Hi as <-. exists (Some sc'). split; [reflexivity|].
        eapply Ht1; eassumption.
      * cbn in Hi. destruct (Ht2 Hth i sc0 members blocks j t Hi HT Hj)
          as (so' & H1 & H2).
        exists so'. split; [exact H1|exact H2].
Qed.

(** [replaceAll], as the handler runs it, writes into every text block
    of the record the text with [R] at the spans of the pattern; the
    blocks of a scene in which the loop throws keep their text. *)
Lemma handleReplaceAllMatches_texts (now : Z) (e e' : Engine) (data : BackupData)
      (i : nat) (sc : Scene) (members : list (jsstring * jsstring))
      (blocks : list Block) (j : nat) (t : jsstring) :
  frData e = Some data ->
  handleReplaceAllMatches findPattern R useRegex now e = Completed e' ->
  nth_error (scenesOf data) i = Some (Some sc) ->
  text sc = TextBlocks members blocks ->
  nth_error blocks j = Some (TextBlock t) ->
  blockTextAt e' i j = Some (leftInScene blocks t).
Proof.
  intros D H Hi HT Hj. unfold handleReplaceAllMatches in H.
  rewrite D, guard in H. unfold scenesOf in Hi.
  destruct (revisions data) as [|rev0 others] eqn:Rv; [now destruct i|].
  destruct (replaceAllInScenes_texts (scenes rev0) 0 (toasts e))
    as (ss' & c' & ts' & th & E & _ & Hsame & Htexts).
  rewrite E in H. destruct th; [discriminate|]. injection H as <-.
  destruct (Htexts eq_refl i sc members blocks j t Hi HT Hj) as (so' & H1 & H2).
  unfold blockTextAt. cbn [frData].
  destruct (Nat.ltb_spec 0 c').
  - unfold scenesOf. cbn [revisions scenes]. now rewrite H1, H2.
  - unfold scenesOf. rewrite Rv.
    rewrite <- (Hsame ltac:(lia)). now rewrite H1, H2.
Qed.

End VerbatimAll.

(** C9, implicit: the replacement string is inserted as it is.
    [replaceOne] puts [R] itself between the two slices of the old
    text.  [replaceAll], in literal and in regex mode, computes the
    spans it replaces without looking at [R], and when the handler
    returns every text block of the record holds its old text with
    [R] itself at every such span, a block that is empty or in a scene
    in which the loop throws keeping its text: no [$&], [$1] or [$$]
    in [R] is ever expanded. *)
Theorem replacement_is_verbatim (findPattern : jsstring) (useRegex : bool)
        (text : jsstring) :
  isEmpty findPattern && negb useRegex = false ->
  (forall R e m,
      frMatch e = Some m ->
      blockTextAt e (sceneIndex m) (blockIndex m) = Some text ->
      blockTextAt (handleReplaceMatch R e) (sceneIndex m) (blockIndex m)
      = Some (firstn (matchIndex m) text ++ R
              ++ skipn (matchIndex m + matchLength m) text))
  /\ (forall R count modified,
         replaceAllInText findPattern R useRegex text count modified
         = match spansReplaced findPattern useRegex text with
           | Some spans =>
               Some (spliceAll text 0 spans R,
                     (count + length spans,
                      match spans with [] => modified | _ => true end))
           | None => None
           end)
  /\ (forall R now e e' data i so j,
         frData e = Some data ->
         handleReplaceAllMatches findPattern R useRegex now e = Completed e' ->
         nth_error (scenesOf data) i = Some so ->
         nth_error (blocksOfScene so) j = Some (TextBlock text) ->
         blockTextAt e' i j
         = Some (if sceneThrows findPattern useRegex (blocksOfScene so)
                    || isEmpty text
                 then text
                 else match spansReplaced findPattern useRegex text with
                      | Some spans => spliceAll text 0 spans R
                      | None => text
                      end)).
Proof.
  intros Hguard. split; [|split].
  - intros R e m Hm Hat. rewrite <- spliceText_slices.
    now apply handleReplaceMatch_on_text.
  - intros R count modified. now apply replaceAllInText_splice.
  - intros R now e e' data i so j D H Hi Hj.
    destruct so as [sc|]; [|now destruct j].
    destruct sc as [ti [| |iterable|members blocks]]; try (now destruct j).
    change (blocksOfScene (Some (mkScene ti (TextBlocks members blocks))))
      with blocks in *.
    rewrite (handleReplaceAllMatches_texts findPattern useRegex R Hguard
               now e e' data i (mkScene ti (TextBlocks members blocks))
               members blocks j text D H Hi eq_refl Hj).
    unfold textAfterReplaceAll.
    destruct (sceneThrows findPattern useRegex blocks); [reflexivity|].
    now destruct (isEmpty text).
Qed.

End Verbatim.

(* ================================================================== *)
(** * The count of replace-all in literal mode *)
(* ================================================================== *)

Lemma countFrom_skip (p s : jsstring) (n : nat) :
  countFrom p s n = countFrom p (skipn n s) 0.
Proof.
  revert n; induction s as [|c s IH]; intros [|n]; simpl; try reflexivity.
  apply IH.
Qed.

Lemma countFrom_absent (p s : jsstring) :
  (forall d, d <= length s -> startsWith p (skipn d s) = false) ->
  countFrom p s 0 = 0.
Proof.
  induction s as [|c s IH]; intros H; cbn [countFrom]; [reflexivity|].
  pose proof (H 0 ltac:(lia)) as H0. cbn [skipn] in H0. rewrite H0.
  apply IH. intros d Hd. apply (H (S d)). simpl. lia.
Qed.

Lemma countFrom_skip_absent (p s : jsstring) (n : nat) :
  n <= length s ->
  (forall d, d < n -> startsWith p (skipn d s) = false) ->
  countFrom p s 0 = countFrom p (skipn n s) 0.
Proof.
  revert s; induction n as [|n IH]; intros s Hn H; [reflexivity|].
  destruct s as [|c s]; [simpl in Hn; lia|].
  cbn [countFrom skipn].
  pose proof (H 0 ltac:(lia)) as H0. cbn [skipn] in H0. rewrite H0.
  apply IH; [simpl in Hn; lia|].
  intros d Hd. apply (H (S d)). lia.
Qed.

Lemma countFrom_here (p s : jsstring) :
  p <> [] -> startsWith p s = true ->
  countFrom p s 0 = S (countFrom p (skipn (length p) s) 0).
Proof.
  intros Hp H. destruct s as [|c s].
  - destruct p; [congruence|discriminate].
  - cbn [countFrom]. rewrite H. rewrite countFrom_skip.
    destruct p as [|x p]; [congruence|]. simpl. now rewrite Nat.sub_0_r.
Qed.

(** The literal loop counts the non-overlapping occurrences. *)
Lemma literalSpans_count (p text : jsstring) (fuel k : nat) :
  p <> [] -> length text + 1 <= fuel + k ->
  length (literalSpans fuel p text k)
  = nonOverlappingOccurrences p (skipn k text).
Proof.
  intros Hp. unfold nonOverlappingOccurrences.
  revert k; induction fuel as [|fuel IH]; intros k Hfuel; simpl.
  - now rewrite skipn_all2 by lia.
  - destruct (indexOf p text k) as [idx|] eqn:E; simpl.
    + pose proof E as E'.
      apply indexOf_Some in E' as (H1 & H2 & H3). specialize (H1 Hp).
      pose proof (occursAt_bound _ _ _ H2) as Hb. destruct H2 as [H2 H2'].
      rewrite IH by (destruct p; [congruence|simpl; lia]).
      rewrite (@countFrom_skip_absent p (skipn k text) (idx - k)).
      * rewrite skipn_skipn. replace (idx - k + k) with idx by lia.
        rewrite (@countFrom_here p (skipn idx text)) by assumption.
        rewrite skipn_skipn. f_equal. f_equal. f_equal. lia.
      * rewrite length_skipn. lia.
      * intros d Hd. rewrite skipn_skipn. apply H3; lia.
    + symmetry. apply countFrom_absent. intros d Hd.
      rewrite skipn_skipn. rewrite length_skipn in Hd.
      destruct (Nat.le_gt_cases (d + k) (length text)).
      * apply (indexOf_None p text k E); lia.
      * rewrite skipn_all2 by lia. destruct p; [congruence|reflexivity].
Qed.

Lemma isEmpty_false (p : jsstring) : p <> [] -> isEmpty p = false.
Proof. destruct p; [congruence|reflexivity]. Qed.

Section ReplaceAllCount.
Context {host : RegExpHost}.
Local Arguments replaceAllInText : simpl never.
Variable findPattern : jsstring.
Variable replaceText : jsstring.
Hypothesis nonEmpty : findPattern <> [].

Lemma replaceAllInBlocks_count (blocks : list Block) (count : nat)
      (modified : bool) :
  noNullBlock blocks ->
  exists blocks' modified',
    replaceAllInBlocks findPattern replaceText false blocks count modified
    = inl (blocks',
           (count + list_sum (List.map (nonOverlappingOccurrences findPattern)
                                       (textsOfBlocks blocks)),
            modified')).
Proof.
  revert count modified; induction blocks as [|b blocks IH];
    intros count modified Hnn.
  - exists [], modified. simpl. now rewrite Nat.add_0_r.
  - inversion Hnn as [|? ? Hb Hrest]; subst.
    destruct b as [|t|t]; [congruence| |].
    + cbn [replaceAllInBlocks textsOfBlocks flat_map app].
      destruct (IH count modified Hrest) as (bs' & m' & E).
      unfold textsOfBlocks in E. rewrite E.
      now exists (OtherBlock t :: bs'), m'.
    + cbn [replaceAllInBlocks textsOfBlocks flat_map app map list_sum].
      fold (textsOfBlocks blocks).
      destruct (Nat.ltb_spec 0 (length t)) as [Hpos|Hzero].
      * unfold replaceAllInText. rewrite replaceLiteral_splice by assumption.
        rewrite literalSpans_count by (assumption || lia). cbn [skipn].
        match goal with
        | |- context [replaceAllInBlocks _ _ _ blocks ?c ?m] =>
            destruct (IH c m Hrest) as (bs' & m' & ->)
        end.
        eexists _, m'. f_equal. f_equal. f_equal.
        unfold list_sum. cbn [fold_right]. lia.
      * destruct (IH count modified Hrest) as (bs' & m' & ->).
        exists (TextBlock t :: bs'), m'.
        destruct t; [|simpl in Hzero; lia].
        unfold list_sum, nonOverlappingOccurrences. cbn. reflexivity.
Qed.

Lemma replaceAllInScenes_count (ss : list (option Scene)) (count : nat)
      (ts : list Toast) :
  Forall (fun so => so <> None /\ noNullBlock (blocksOfScene so)) ss ->
  exists ss' ts',
    replaceAllInScenes findPattern replaceText false ss count ts
    = (ss',
       count + list_sum (List.map (nonOverlappingOccurrences findPattern)
                           (flat_map (fun so => textsOfBlocks (blocksOfScene so)) ss)),
       ts', false).
Proof.
  intros Hwf. revert count ts; induction Hwf as [|so rest [Hso Hnn] Hrest IH];
    intros count ts.
  - exists [], ts. simpl. now rewrite Nat.add_0_r.
  - destruct so as [sc|]; [|congruence].
    cbn [replaceAllInScenes flat_map].
    rewrite map_app, list_sum_app, Nat.add_assoc.
    assert (exists sc' t,
               replaceAllInScene findPattern replaceText false sc count
               = (sc', count + list_sum
                                 (List.map (nonOverlappingOccurrences findPattern)
                                    (textsOfBlocks (blocksOfScene (Some sc)))), t))
      as (sc' & t & ->).
    { unfold replaceAllInScene. cbn [blocksOfScene] in *.
      destruct (text sc) as [| |[|]|members blocks];
        try (eexists _, _; cbn; rewrite Nat.add_0_r; reflexivity).
      destruct (replaceAllInBlocks_count blocks count false Hnn) as (bs' & m' & ->).
      eexists _, _; reflexivity. }
    match goal with
    | |- context [replaceAllInScenes _ _ _ rest ?c ?t] =>
        destruct (IH c t) as (ss' & ts' & ->)
    end.
    eexists _, _; reflexivity.
Qed.

(** C5, amended: for a literal pattern that is not empty, on a record
    that has a first revision, no [null] scene and no [null] entry in
    a [blocks] array, the count [replaceAll] returns is the number of
    non-overlapping occurrences of the pattern in all the text blocks
    of all the scenes of [revisions[0]] of the record before the
    change. *)
Theorem replaceAll_count_literal (now : Z) (e : Engine) (data : BackupData) :
  frData e = Some data ->
  wellFormed data ->
  replaceAllCount findPattern replaceText false now e
  = Some (occurrencesInRecord findPattern data).
Proof.
  intros Hdata [Hrev Hwf].
  unfold replaceAllCount, handleReplaceAllMatches, occurrencesInRecord,
    textBlocksOf, scenesOf in *.
  rewrite Hdata, (isEmpty_false _ nonEmpty). cbn [andb].
  destruct (revisions data) as [|rev0 others]; [congruence|].
  destruct (replaceAllInScenes_count _ 0 (toasts e) Hwf) as (ss' & ts' & ->).
  reflexivity.
Qed.

End ReplaceAllCount.

(* ================================================================== *)
(** * Deduplication of the chapter list *)
(* ================================================================== *)

Lemma existsb_jseqb (h : jsstring) (seen : list jsstring) :
  existsb (jseqb h) seen = true <-> In h seen.
Proof.
  rewrite existsb_exists. split.
  - intros (x & Hx & E). apply jseqb_eq in E. now subst.
  - intros H. exists h. split; [assumption|apply jseqb_refl].
Qed.

Lemma deduplicateFrom_spec (seen : list jsstring) (chapters : list Chapter) :
  (forall c, In c (deduplicateFrom seen chapters) ->
             href c <> [] /\ ~ In (href c) seen)
  /\ NoDup (List.map href (deduplicateFrom seen chapters))
  /\ Subsequence (deduplicateFrom seen chapters) chapters
  /\ (forall p, In p seen ->
                filter (fun c => jseqb (href c) p) (deduplicateFrom seen chapters) = [])
  /\ (forall p first,
         p <> [] -> ~ In p seen ->
         find (fun c => jseqb (href c) p) chapters = Some first ->
         filter (fun c => jseqb (href c) p) (deduplicateFrom seen chapters) = [first]).
Proof.
  revert seen; induction chapters as [|ch rest IH]; intros seen.
  - simpl. split; [contradiction|]. split; [constructor|]. split; [constructor|].
    split; [reflexivity|]. intros p first _ _ H. discriminate.
  - cbn [deduplicateFrom].
    destruct (isEmpty (href ch)) eqn:Hemp; cbn [negb andb].
    + (* an empty href is dropped *)
      destruct (IH seen) as (H1 & H2 & H3 & H4 & H5).
      split; [exact H1|]. split; [exact H2|]. split; [now constructor|].
      split; [exact H4|].
      intros p first Hp Hseen Hfind. apply H5; auto.
      cbn [find] in Hfind.
      destruct (jseqb (href ch) p) eqn:E; [|assumption].
      apply jseqb_eq in E. subst p. destruct (href ch); [congruence|discriminate].
    + destruct (existsb (jseqb (href ch)) seen) eqn:Hseen; cbn [negb].
      * (* a later duplicate is dropped *)
        apply existsb_jseqb in Hseen.
        destruct (IH seen) as (H1 & H2 & H3 & H4 & H5).
        split; [exact H1|]. split; [exact H2|]. split; [now constructor|].
        split; [exact H4|].
        intros p first Hp Hnot Hfind. apply H5; auto.
        cbn [find] in Hfind.
        destruct (jseqb (href ch) p) eqn:E; [|assumption].
        apply jseqb_eq in E. subst p. contradiction.
      * (* a first occurrence is kept *)
        assert (Hnew : ~ In (href ch) seen).
        { intros Hin. apply existsb_jseqb in Hin. congruence. }
        destruct (IH (href ch :: seen)) as (H1 & H2 & H3 & H4 & H5).
        split; [|split; [|split; [|split]]].
        -- intros c [<-|Hin].
           ++ split; [|assumption]. destruct (href ch); [discriminate|congruence].
           ++ destruct (H1 c Hin) as [Hne Hns]. split; [assumption|].
              intros Hs. apply Hns. now right.
        -- cbn [List.map]. constructor; [|assumption].
           intros Hin. apply in_map_iff in Hin as (c & Hc & Hin).
           apply (H1 c Hin). now left.
        -- now constructor.
        -- intros p Hp. cbn [filter].
           destruct (jseqb (href ch) p) eqn:E.
           ++ apply jseqb_eq in E. subst p. contradiction.
           ++ apply H4. now right.
        -- intros p first Hp Hnot Hfind. cbn [filter find] in *.
           destruct (jseqb (href ch) p) eqn:E.
           ++ injection Hfind as <-. f_equal. apply H4.
              apply jseqb_eq in E. now left.
           ++ apply H5; auto. intros [Heq|Hin]; [|contradiction].
              subst p. rewrite jseqb_refl in E. discriminate.
Qed.

(** C8, amended: [deduplicateChapters] keeps, for every path that is
    not empty, exactly one chapter reference, the first entry of the
    table of contents with that path; the paths of the result are
    pairwise distinct and the result is in document order.  Entries
    whose resolved path is empty are dropped altogether. *)
Theorem deduplicate_first_occurrence (chapters : list Chapter) :
  let out := deduplicateChapters chapters in
  NoDup (List.map href out)
  /\ Subsequence out chapters
  /\ (forall c, In c out -> href c <> [])
  /\ (forall p first,
         p <> [] ->
         find (fun c => jseqb (href c) p) chapters = Some first ->
         filter (fun c => jseqb (href c) p) out = [first]).
Proof.
  destruct (deduplicateFrom_spec [] chapters) as (H1 & H2 & H3 & H4 & H5).
  unfold deduplicateChapters. cbn zeta.
  split; [exact H2|]. split; [exact H3|]. split.
  - intros c Hin. now apply H1.
  - intros p first Hp Hfind. apply H5; auto.
Qed.

(* ================================================================== *)
(** * Resolution of the chapter hrefs *)
(* ================================================================== *)

Lemma Subsequence_In {A : Type} (l1 l2 : list A) (x : A) :
  Subsequence l1 l2 -> In x l1 -> In x l2.
Proof.
  induction 1; intros Hin; [assumption| |].
  - right. auto.
  - destruct Hin as [<-|Hin]; [now left|right; auto].
Qed.

Section Resolution.
Context {host : EpubHost}.

Lemma extractChaptersFromNcx_hrefs (ncxDoc : XmlDocument) (baseDir : jsstring)
      (c : Chapter) :
  In c (extractChaptersFromNcx ncxDoc baseDir) ->
  exists point src,
    In point (navPoints ncxDoc) /\ truthy (contentSrc point) = Some src
    /\ href c = resolvePath (beforeHash src) baseDir.
Proof.
  unfold extractChaptersFromNcx. rewrite in_flat_map.
  intros (point & Hin & Hc). exists point.
  destruct (truthy (option_map trim (navLabelText point))) as [label|];
    [|contradiction].
  destruct (truthy (contentSrc point)) as [src|]; [|contradiction].
  destruct Hc as [<-|[]]. exists src. auto.
Qed.

Lemma extractChaptersFromNav_hrefs (navDoc : HtmlDocument) (baseDir : jsstring)
      (c : Chapter) :
  In c (extractChaptersFromNav navDoc baseDir) ->
  exists links link,
    tocLinks navDoc = Some links /\ In link links
    /\ href c = resolvePath (beforeHash (linkHref link)) baseDir.
Proof.
  unfold extractChaptersFromNav.
  destruct (tocLinks navDoc) as [links|] eqn:L; [|contradiction].
  rewrite in_flat_map. intros (link & Hin & Hc). exists links, link.
  destruct (truthy (Some (trim (collapseSpaces (linkTextContent link)))));
    [|contradiction].
  unfold truthy at 1 in Hc.
  destruct (isEmpty (linkHref link)); [contradiction|].
  destruct Hc as [<-|[]]. repeat split; auto.
Qed.

Lemma locateToc_opfDir (zip : Zip) (opfDir tocPath tocContent : jsstring)
      (tocType : TocType) :
  locateToc zip = inl (opfDir, tocPath, tocContent, tocType) ->
  exists opfPath, findOpfPath zip = Some (opfPath, opfDir).
Proof.
  unfold locateToc.
  destruct (findOpfPath zip) as [[opfPath dir]|]; [|discriminate].
  destruct (readFileFromZip zip opfPath) as [[p content]|]; [|discriminate].
  destruct (parseXml content) as [opfDoc|]; [|discriminate].
  destruct (findTocHref opfDoc) as [[[tocHref ty]|]|]; try discriminate.
  destruct (readFileFromZip zip (resolvePath tocHref dir)) as [[tp tc]|];
    [|discriminate].
  intros E. injection E as -> _ _ _. now exists opfPath.
Qed.

(** At the archive root [resolvePath] folds nothing: the reference
    comes back as written, without one leading slash. *)
Lemma resolvePath_at_root (relativePath : jsstring) :
  resolvePath relativePath [] = stripLeadingSlash relativePath.
Proof. unfold resolvePath. now destruct relativePath. Qed.

(** C2, amended: every chapter href taken from the table of contents,
    in the NCX and in the nav format alike, is resolved against the
    directory of the package document (the OPF file), not against the
    directory of the table-of-contents document.  When the package
    document sits at the root of the archive the href is the reference
    as written, without its fragment and without one leading slash:
    no relative segment is folded. *)
Theorem chapter_hrefs_resolved_against_package_dir (zip : Zip) (c : Chapter) :
  In c (fst (getChapterListFromEpub zip)) ->
  exists opfPath tocPath tocContent tocType,
    findOpfPath zip = Some (opfPath, dirOf opfPath)
    /\ locateToc zip = inl (dirOf opfPath, tocPath, tocContent, tocType)
    /\ match tocType with
       | TocNcx =>
           exists ncxDoc point src,
             parseXml tocContent = Some ncxDoc
             /\ In point (navPoints ncxDoc)
             /\ truthy (contentSrc point) = Some src
             /\ href c = resolvePath (beforeHash src) (dirOf opfPath)
             /\ (dirOf opfPath = [] ->
                 href c = stripLeadingSlash (beforeHash src))
       | TocNav =>
           exists navDoc links link,
             parseHtml tocContent = Some navDoc
             /\ tocLinks navDoc = Some links /\ In link links
             /\ href c = resolvePath (beforeHash (linkHref link)) (dirOf opfPath)
             /\ (dirOf opfPath = [] ->
                 href c = stripLeadingSlash (beforeHash (linkHref link)))
       end.
Proof.
  unfold getChapterListFromEpub.
  destruct (chaptersOfToc zip) as [chapters status] eqn:E. cbn [fst].
  intros Hin.
  destruct (deduplicateFrom_spec [] chapters) as (_ & _ & Hsub & _).
  change (deduplicateFrom [] chapters) with (deduplicateChapters chapters) in Hsub.
  apply (Subsequence_In _ _ _ Hsub) in Hin. clear Hsub.
  unfold chaptersOfToc in E.
  destruct (locateToc zip) as [[[[opfDir tocPath] tocContent] tocType]|st] eqn:L.
  - destruct (locateToc_opfDir _ _ _ _ _ L) as (opfPath & Hopf).
    assert (opfDir = dirOf opfPath) as ->.
    { unfold findOpfPath in Hopf.
      destruct (readFileFromZip zip (js "META-INF/container.xml")) as [[? content]|];
        [|discriminate].
      destruct (parseXml content) as [doc|]; [|discriminate].
      destruct (truthy (rootfileFullPath doc)); [|discriminate].
      now injection Hopf as <- <-. }
    exists opfPath, tocPath, tocContent, tocType. split; [assumption|].
    split; [reflexivity|].
    destruct tocType.
    + destruct (parseHtml tocContent) as [navDoc|] eqn:P.
      * injection E as <- _.
        apply extractChaptersFromNav_hrefs in Hin as (links & link & H1 & H2 & H3).
        exists navDoc, links, link. repeat (split; [now auto|]).
        intros Hroot. rewrite H3, Hroot. apply resolvePath_at_root.
      * injection E as <- _. contradiction.
    + destruct (parseXml tocContent) as [ncxDoc|] eqn:P.
      * injection E as <- _.
        apply extractChaptersFromNcx_hrefs in Hin as (point & src & H1 & H2 & H3).
        exists ncxDoc, point, src. repeat (split; [now auto|]).
        intros Hroot. rewrite H3, Hroot. apply resolvePath_at_root.
      * injection E as <- _. contradiction.
  - injection E as <- _. contradiction.
Qed.

End Resolution.

(* ================================================================== *)
(** * Decoding of the chapter bytes *)
(* ================================================================== *)

(** Without [fatal] the UTF-8 decoder never throws. *)
Lemma utf8Run_nonfatal (input : bytes) (st : option (N * N * N * N)) :
  exists out, utf8Run false input st = Some out.
Proof.
  revert st; induction input as [|b rest IH]; intros st.
  - destruct st; simpl; eauto.
  - assert (Hlead : exists out,
               match utf8Lead b with
               | Utf8Emit cp =>
                   match utf8Run false rest None with
                   | Some out => Some (cp :: out)
                   | None => None
                   end
               | Utf8Need cp needed lower upper =>
                   utf8Run false rest (Some (cp, needed, lower, upper))
               | Utf8Bad =>
                   match utf8Run false rest None with
                   | Some out => Some (replacementCharacter :: out)
                   | None => None
                   end
               end = Some out).
    { destruct (utf8Lead b) as [cp|cp needed lower upper|].
      - destruct (IH None) as (out & ->). eauto.
      - apply IH.
      - destruct (IH None) as (out & ->). eauto. }
    cbn [utf8Run]. destruct st as [[[[cp needed] lower] upper]|]; [|exact Hlead].
    destruct (N.leb lower b && N.leb b upper).
    + destruct (N.eqb needed 1).
      * destruct (IH None) as (out & ->). eauto.
      * apply IH.
    + destruct Hlead as (out & ->). eauto.
Qed.

(** C6, as the code has it: the decoder is built with [fatal: false],
    so decoding never throws, the [catch] with the Latin-1 decoding and
    its warning never runs, and a byte that is not valid UTF-8 comes out
    as U+FFFD.  The bytes of "caf" followed by 0xE9 (an e with acute
    accent in Latin-1) decode to "caf" and U+FFFD, where the Latin-1
    decoding gives the letter U+00E9. *)
Theorem decodeChapter_never_falls_back :
  (forall chapterBytes,
      exists chapterHtml,
        TextDecoder_utf8 false chapterBytes = Some chapterHtml
        /\ decodeChapter chapterBytes = (chapterHtml, false))
  /\ decodeChapter [99; 97; 102; 233]%N = ([99; 97; 102; 65533]%N, false)
  /\ TextDecoder_latin1 [99; 97; 102; 233]%N = [99; 97; 102; 233]%N.
Proof.
  split; [|split; reflexivity].
  intros chapterBytes. unfold decodeChapter, TextDecoder_utf8.
  match goal with
  | |- context [utf8Run false ?body None] =>
      destruct (utf8Run_nonfatal body None) as (out & ->)
  end.
  eauto.
Qed.

(* ================================================================== *)
(** * The names of the extracted files *)
(* ================================================================== *)

Lemma js_String (c : ascii) (s : string) :
  js (String c s) = N_of_ascii c :: js s.
Proof. reflexivity. Qed.

Lemma digitsValue_of_uint (d : Decimal.uint) (acc : nat) :
  digitsValue (js (NilEmpty.string_of_uint d)) acc = Nat.of_uint_acc d acc.
Proof.
  revert acc; induction d; intros acc; cbn [NilEmpty.string_of_uint Nat.of_uint_acc];
    [reflexivity|..];
    rewrite js_String; cbn [digitsValue]; rewrite IHd; f_equal;
    rewrite Nat.tail_mul_spec; cbn; lia.
Qed.

Lemma digitsValue_padding (k : nat) (s : jsstring) :
  digitsValue (repeat 48%N k ++ s) 0 = digitsValue s 0.
Proof. induction k as [|k IH]; [reflexivity|]. simpl. exact IH. Qed.

(** The number in the file name of position [i] is [i + 1]. *)
Lemma numberOfFilename_txtFilename (i : nat) :
  numberOfFilename (txtFilename i) = i + 1.
Proof.
  unfold numberOfFilename, txtFilename.
  change (js "C") with [67%N]. cbn [app tl].
  set (digits := padStart (stringOfNat (i + 1)) 2 48%N).
  match goal with
  | |- context [firstn ?n _] => assert (n = length digits + 0) as ->
  end.
  { cbn [Datatypes.length]. rewrite length_app. cbn. lia. }
  rewrite firstn_app_2. cbn [firstn]. rewrite app_nil_r.
  unfold digits, padStart, stringOfNat.
  rewrite digitsValue_padding, digitsValue_of_uint.
  apply (DecimalNat.Unsigned.of_to (i + 1)).
Qed.

Lemma txtFilename_injective (i j : nat) :
  txtFilename i = txtFilename j -> i = j.
Proof.
  intros E. apply (f_equal numberOfFilename) in E.
  rewrite !numberOfFilename_txtFilename in E. lia.
Qed.

(** The digits of a file name are at least two. *)
Lemma txtFilename_width (i : nat) :
  2 <= length (padStart (stringOfNat (i + 1)) 2 48%N).
Proof. unfold padStart. rewrite length_app, repeat_length. lia. Qed.

Lemma zipAdd_fresh (out : list (jsstring * jsstring)) (name data : jsstring) :
  (forall entry, In entry out -> fst entry <> name) ->
  zipAdd out name data = out ++ [(name, data)].
Proof.
  intros H. unfold zipAdd. f_equal.
  induction out as [|entry out IH]; [reflexivity|]. cbn [filter].
  destruct (jseqb (fst entry) name) eqn:E.
  - apply jseqb_eq in E. exfalso. apply (H entry); [now left|assumption].
  - cbn [negb]. f_equal. apply IH. intros e He. apply H. now right.
Qed.

Section Extraction.
Context {host : EpubHost}.
Variable enableRemoveLines : bool.
Variable linesToRemove : nat.

Lemma extractLoop_spec (zip : Zip) (chapters : list Chapter) (i : nat)
      (out : list (jsstring * jsstring)) (n : nat) (st : option Status) :
  (forall entry, In entry out -> exists k, k < i /\ fst entry = txtFilename k) ->
  fst (extractLoop enableRemoveLines linesToRemove zip chapters i out n st)
  = (out ++ extractedFiles enableRemoveLines linesToRemove zip chapters i,
     n + length (extractedFiles enableRemoveLines linesToRemove zip chapters i)).
Proof.
  revert i out n st; induction chapters as [|entry rest IH]; intros i out n st Hout.
  - simpl. now rewrite app_nil_r, Nat.add_0_r.
  - cbn [extractLoop extractedFiles]. unfold included.
    destruct (zipFile zip (href entry)) as [chapterBytes|].
    + destruct (keepText (chapterTextOf enableRemoveLines linesToRemove chapterBytes)).
      * rewrite IH.
        -- rewrite zipAdd_fresh.
           ++ rewrite <- app_assoc. cbn [app length]. f_equal. lia.
           ++ intros e He Hname. destruct (Hout e He) as (k & Hk & Hek).
              rewrite Hek in Hname. apply txtFilename_injective in Hname. lia.
        -- intros e He. rewrite zipAdd_fresh in He.
           ++ apply in_app_iff in He as [He|[<-|[]]].
              ** destruct (Hout e He) as (k & Hk & Hek). exists k. split; [lia|assumption].
              ** exists i. split; [lia|reflexivity].
           ++ intros e' He' Hname. destruct (Hout e' He') as (k & Hk & Hek).
              rewrite Hek in Hname. apply txtFilename_injective in Hname. lia.
      * apply IH. intros e He. destruct (Hout e He) as (k & Hk & Hek).
        exists k. split; [lia|assumption].
    + apply IH. intros e He. destruct (Hout e He) as (k & Hk & Hek).
      exists k. split; [lia|assumption].
Qed.

Lemma extractedFiles_In (zip : Zip) (chapters : list Chapter) (i0 : nat)
      (name data : jsstring) :
  In (name, data) (extractedFiles enableRemoveLines linesToRemove zip chapters i0)
  <-> exists k entry,
      nth_error chapters k = Some entry
      /\ included enableRemoveLines linesToRemove zip entry = Some data
      /\ name = txtFilename (i0 + k).
Proof.
  revert i0; induction chapters as [|entry rest IH]; intros i0; cbn [extractedFiles].
  - split; [contradiction|]. intros ([|k] & e & H & _); discriminate.
  - split.
    + intros Hin.
      assert (In (name, data)
                (extractedFiles enableRemoveLines linesToRemove zip rest (S i0))
              \/ (included enableRemoveLines linesToRemove zip entry = Some data
                  /\ name = txtFilename i0)) as [Hrest|[Hhere ->]].
      { destruct (included enableRemoveLines linesToRemove zip entry) as [t|];
          [|now left].
        destruct Hin as [E|Hin]; [|now left].
        injection E as <- <-. now right. }
      * apply IH in Hrest as (k & e & H1 & H2 & ->).
        exists (S k), e. split; [assumption|]. split; [assumption|].
        f_equal. lia.
      * exists 0, entry. split; [reflexivity|]. split; [assumption|].
        f_equal. lia.
    + intros (k & e & H1 & H2 & ->). destruct k as [|k].
      * injection H1 as <-. rewrite H2, Nat.add_0_r. now left.
      * assert (In (txtFilename (i0 + S k), data)
                  (extractedFiles enableRemoveLines linesToRemove zip rest (S i0))).
        { apply IH. exists k, e. split; [assumption|]. split; [assumption|].
          f_equal. lia. }
        destruct (included enableRemoveLines linesToRemove zip entry);
          [now right|assumption].
Qed.

(** C7, amended: a chapter whose text is empty after trimming (or
    whose file is missing) is left out of the output; every chapter
    that is included gets the file name [C<n>.txt] where [n] is the
    one-based position of the chapter in the resolved chapter list,
    written with at least two digits.  The number is not the count
    of the chapters included so far: a chapter left out leaves a gap
    in the numbering. *)
Theorem extracted_files_numbered_by_position (zip : Zip)
        (out : list (jsstring * jsstring)) (n : nat) :
  handleExtractChapters enableRemoveLines linesToRemove zip
  = (out, StatusExtracted n) ->
  n = length out
  /\ forall name data,
      In (name, data) out
      <-> exists i entry,
        nth_error (fst (getChapterListFromEpub zip)) i = Some entry
        /\ included enableRemoveLines linesToRemove zip entry = Some data
        /\ name = txtFilename i
        /\ numberOfFilename name = i + 1.
Proof.
  unfold handleExtractChapters.
  destruct (getChapterListFromEpub zip) as [chapters status]. cbn [fst].
  destruct chapters as [|c0 rest] eqn:Hch; [now destruct status as [[]|]|].
  rewrite <- Hch.
  pose proof (extractLoop_spec zip chapters 0 [] 0 (Some StatusStarting)) as S.
  destruct (extractLoop enableRemoveLines linesToRemove zip chapters 0 [] 0
                        (Some StatusStarting)) as [[files added] st'].
  cbn [fst app] in S. rewrite Nat.add_0_l in S.
  assert (Hs : (files, added)
               = (extractedFiles enableRemoveLines linesToRemove zip chapters 0,
                  length (extractedFiles enableRemoveLines linesToRemove zip chapters 0)))
    by (apply S; intros e []).
  injection Hs as -> ->.
  destruct (Nat.ltb 0 _); [|discriminate].
  intros E. injection E as <- <-. split; [reflexivity|].
  intros name data. rewrite extractedFiles_In. cbn [Nat.add].
  split.
  - intros (k & e & H1 & H2 & ->). exists k, e. repeat split; auto.
    apply numberOfFilename_txtFilename.
  - intros (k & e & H1 & H2 & H3 & _). exists k, e. auto.
Qed.

End Extraction.

(* ================================================================== *)
(** * What repeated forward searches visit *)
(* ================================================================== *)

Lemma skipn_nth_error_cons {A : Type} (l : list A) (i : nat) (x : A) :
  nth_error l i = Some x -> skipn i l = x :: skipn (S i) l.
Proof.
  revert i; induction l as [|y l IH]; intros [|i] H; simpl in *; try discriminate.
  - now injection H as ->.
  - now apply IH.
Qed.

Lemma RegExp_exec_complete (re : RegExp) (text : jsstring) (s idx len : nat) :
  idx <= length text -> matchAt re text idx = Some len -> s <= idx ->
  (forall j, s <= j -> j < idx -> matchAt re text j = None) ->
  RegExp_exec re text s = Some (idx, len).
Proof.
  intros Hidx Hm Hs Hnone.
  destruct (RegExp_exec re text s) as [[i l]|] eqn:E.
  - apply RegExp_exec_Some in E as (H1 & H2 & H3 & H4).
    destruct (Nat.lt_trichotomy i idx) as [Hlt|[->|Hgt]].
    + rewrite Hnone in H3 by lia. discriminate.
    + congruence.
    + rewrite H4 in Hm by lia. discriminate.
  - rewrite (RegExp_exec_None re text s E idx) in Hm by lia. discriminate.
Qed.

Lemma indexOf_complete (p text : jsstring) (s idx : nat) :
  p <> [] -> occursAt p text idx -> s <= idx ->
  (forall k, s <= k -> k < idx -> startsWith p (skipn k text) = false) ->
  indexOf p text s = Some idx.
Proof.
  intros Hp [Hidx Hocc] Hs Hnone.
  destruct (indexOf p text s) as [i|] eqn:E.
  - apply indexOf_Some in E as (H1 & [H2 H3] & H4). specialize (H1 Hp).
    destruct (Nat.lt_trichotomy i idx) as [Hlt|[->|Hgt]].
    + rewrite Hnone in H3 by lia. discriminate.
    + reflexivity.
    + rewrite H4 in Hocc by lia. discriminate.
  - rewrite (indexOf_None p text s E idx) in Hocc by lia. discriminate.
Qed.

Section NextMatch.
Context {host : RegExpHost}.
Variable pattern : jsstring.
Variable useRegex : bool.
Hypothesis Hsearch : searchable pattern useRegex.

Lemma guard_false : isEmpty pattern && negb useRegex = false.
Proof.
  unfold searchable in Hsearch. destruct useRegex.
  - apply andb_false_r.
  - now rewrite isEmpty_false.
Qed.

Lemma matchForward_defined (t : jsstring) (s : nat) :
  matchForward pattern useRegex t s = Some (nextMatch pattern useRegex t s).
Proof.
  unfold nextMatch, matchForward, searchable in *. destruct useRegex.
  - destruct (RegExp_new pattern); [reflexivity|congruence].
  - now destruct (indexOf pattern t s).
Qed.

Lemma nextMatch_bounds (t : jsstring) (s idx len : nat) :
  nextMatch pattern useRegex t s = Some (idx, len) ->
  s <= idx /\ idx <= length t.
Proof.
  unfold nextMatch, matchForward, searchable in *. destruct useRegex.
  - destruct (RegExp_new pattern) as [re|]; [|discriminate].
    intros E. apply RegExp_exec_Some in E. lia.
  - destruct (indexOf pattern t s) as [i|] eqn:E; [|discriminate].
    intros I. injection I as <- <-.
    apply indexOf_Some in E as (H1 & [H2 _] & _). auto.
Qed.

(** A later start that does not pass the match finds the same match. *)
Lemma nextMatch_same (t : jsstring) (s s' idx len : nat) :
  nextMatch pattern useRegex t s = Some (idx, len) ->
  s <= s' -> s' <= idx ->
  nextMatch pattern useRegex t s' = Some (idx, len).
Proof.
  unfold nextMatch, matchForward, searchable in *. destruct useRegex.
  - destruct (RegExp_new pattern) as [re|]; [|discriminate].
    intros E H1 H2. apply RegExp_exec_Some in E as (E1 & E2 & E3 & E4).
    apply RegExp_exec_complete; auto. intros j Hj1 Hj2. apply E4; lia.
  - destruct (indexOf pattern t s) as [i|] eqn:E; [|discriminate].
    intros I H1 H2. injection I as <- <-.
    apply indexOf_Some in E as (E1 & E2 & E3).
    rewrite (indexOf_complete pattern t s' i); auto.
    intros k Hk1 Hk2. apply E3; lia.
Qed.

Lemma nextMatch_none (t : jsstring) (s s' : nat) :
  nextMatch pattern useRegex t s = None -> s <= s' ->
  nextMatch pattern useRegex t s' = None.
Proof.
  intros E Hs. destruct (nextMatch pattern useRegex t s') as [[idx len]|] eqn:E';
    [|reflexivity].
  exfalso. pose proof (nextMatch_bounds _ _ _ _ E') as [B1 B2].
  revert E E'. unfold nextMatch, matchForward, searchable in *. destruct useRegex.
  - destruct (RegExp_new pattern) as [re|]; [|discriminate].
    intros E E'. apply RegExp_exec_Some in E' as (_ & _ & E3 & _).
    rewrite (RegExp_exec_None re t s E idx) in E3 by lia. discriminate.
  - destruct (indexOf pattern t s) as [i|] eqn:I; [discriminate|].
    destruct (indexOf pattern t s') as [i'|] eqn:I'; [|discriminate].
    intros _ E'. injection E' as -> <-.
    apply indexOf_Some in I' as (_ & [_ E3] & _).
    rewrite (indexOf_None pattern t s I idx) in E3 by lia. discriminate.
Qed.

Lemma resumeAfter_gt (span : nat * nat) : fst span < resumeAfter span.
Proof. unfold resumeAfter. destruct (Nat.ltb_spec 0 (snd span)); lia. Qed.

Lemma forwardChain_stable (t : jsstring) (n s f1 f2 : nat) :
  length t + 1 - s <= n -> n < f1 -> n < f2 ->
  forwardChain pattern useRegex f1 t s = forwardChain pattern useRegex f2 t s.
Proof.
  revert s f1 f2; induction n as [|n IH]; intros s f1 f2 Hn H1 H2;
    (destruct f1 as [|f1]; [lia|]); (destruct f2 as [|f2]; [lia|]);
    cbn [forwardChain];
    destruct (Nat.leb (length t) s && Nat.ltb 0 (length t)); try reflexivity;
    destruct (isEmpty pattern && negb useRegex); try reflexivity;
    destruct (nextMatch pattern useRegex t s) as [[idx len]|] eqn:E; try reflexivity;
    pose proof (nextMatch_bounds _ _ _ _ E) as [B1 B2];
    pose proof (resumeAfter_gt (idx, len)) as R; cbn [fst] in R.
  - lia.
  - f_equal. apply IH; lia.
Qed.

Lemma forwardChain_S (f : nat) (t : jsstring) (s : nat) :
  forwardChain pattern useRegex (S f) t s
  = if Nat.leb (length t) s && Nat.ltb 0 (length t) then []
    else if isEmpty pattern && negb useRegex then []
    else match nextMatch pattern useRegex t s with
         | Some span => span :: forwardChain pattern useRegex f t (resumeAfter span)
         | None => []
         end.
Proof. reflexivity. Qed.

(** The head of a forward chain is found from the start; the chain
    from the resumption point is its tail. *)
Lemma forwardChain_cons (t : jsstring) (s : nat) (span : nat * nat)
      (rest : list (nat * nat)) :
  forwardChain pattern useRegex (chainFuel t) t s = span :: rest ->
  nextMatch pattern useRegex t s = Some span
  /\ forwardChain pattern useRegex (chainFuel t) t (resumeAfter span) = rest.
Proof.
  unfold chainFuel. rewrite forwardChain_S.
  destruct (Nat.leb (length t) s && Nat.ltb 0 (length t)); [discriminate|].
  destruct (isEmpty pattern && negb useRegex); [discriminate|].
  destruct (nextMatch pattern useRegex t s) as [[idx len]|] eqn:E; [|discriminate].
  intros I. injection I as <- <-. split; [reflexivity|].
  pose proof (nextMatch_bounds _ _ _ _ E) as [B1 B2].
  pose proof (resumeAfter_gt (idx, len)) as R; cbn [fst] in R.
  change (forwardChain pattern useRegex (S (S (length t))) t (resumeAfter (idx, len))
          = forwardChain pattern useRegex (S (length t)) t (resumeAfter (idx, len))).
  apply (forwardChain_stable t (length t)); lia.
Qed.

End NextMatch.

Section ForwardVisits.
Context {host : RegExpHost}.
Variable pattern : jsstring.
Variable useRegex : bool.
Hypothesis Hsearch : searchable pattern useRegex.

Local Abbreviation blockHits := (blockHitsForward pattern useRegex).
Local Abbreviation blocksHits := (blocksHitsForward pattern useRegex).
Local Abbreviation scenesHits := (scenesHitsForward pattern useRegex).

(** What the loop does on one text block read from [s]: it skips the
    block, finds the first match of the chain, or finds none. *)
Lemma blockForward_step (i : nat) (sc : Scene) (j : nat) (t : jsstring) (s : nat) :
  (Nat.leb (length t) s && Nat.ltb 0 (length t) = true
   /\ blockHits i sc j (TextBlock t) s = [])
  \/ (Nat.leb (length t) s && Nat.ltb 0 (length t) = false
      /\ exists idx len rest,
        matchForward pattern useRegex t s = Some (Some (idx, len))
        /\ blockHits i sc j (TextBlock t) s
           = matchAtPos i sc j t (idx, len) :: rest)
  \/ (Nat.leb (length t) s && Nat.ltb 0 (length t) = false
      /\ matchForward pattern useRegex t s = Some None
      /\ blockHits i sc j (TextBlock t) s = []).
Proof.
  unfold blockHitsForward, chainFuel. rewrite forwardChain_S.
  rewrite (guard_false pattern useRegex Hsearch).
  destruct (Nat.leb (length t) s && Nat.ltb 0 (length t)); [now left|].
  right. rewrite (matchForward_defined pattern useRegex Hsearch).
  destruct (nextMatch pattern useRegex t s) as [[idx len]|].
  - left. split; [reflexivity|]. eexists idx, len, _. split; reflexivity.
  - right. auto.
Qed.

(** The block loop away from the cursor. *)
Lemma blocksForward_stale (i : nat) (sc : Scene) (bs : list Block) (j : nat)
      (tp : FindReplacePointer) :
  (forall j', j <= j' -> isAt tp (Z.of_nat i) (Z.of_nat j') = false) ->
  blocksForward pattern useRegex i sc bs j tp
  = match blocksHits i sc bs j with
    | [] => inl tp
    | m :: _ => inr (Found m (ptrAfter m))
    end.
Proof.
  revert j; induction bs as [|b bs IH]; intros j Hstale; [reflexivity|].
  cbn [blocksForward blocksHitsForward].
  rewrite (Hstale j) by lia. cbn [setOffset].
  assert (IH' := IH (S j) (fun j' H => Hstale j' ltac:(lia))).
  destruct b as [|o|t]; try (cbn [blockHitsForward app]; exact IH').
  cbn [clampStart Z.to_nat].
  destruct (blockForward_step i sc j t 0)
    as [(E1 & E2)|[(E1 & idx & len & rest & E2 & E3)|(E1 & E2 & E3)]].
  - rewrite E1, E2. exact IH'.
  - rewrite E1, (guard_false pattern useRegex Hsearch), E2, E3. reflexivity.
  - rewrite E1, (guard_false pattern useRegex Hsearch), E2, E3. exact IH'.
Qed.

(** The block loop at the cursor (i, j, o). *)
Lemma blocksForward_cursor (i : nat) (sc : Scene) (b : Block) (bs : list Block)
      (j o : nat) :
  let tp := mkPtr (Num (Z.of_nat i)) (Num (Z.of_nat j)) (Num (Z.of_nat o)) in
  exists tp',
    scene tp' = Num (Z.of_nat i)
    /\ blocksForward pattern useRegex i sc (b :: bs) j tp
       = match blockHits i sc j b o ++ blocksHits i sc bs (S j) with
         | [] => inl tp'
         | m :: _ => inr (Found m (ptrAfter m))
         end.
Proof.
  intros tp. exists (setOffset true (Num 0) tp). split; [reflexivity|].
  cbn [blocksForward]. unfold isAt. cbn [scene block tp].
  rewrite !numIs_of_nat, !Nat.eqb_refl. cbn [andb].
  assert (Hrest : blocksForward pattern useRegex i sc bs (S j)
                    (setOffset true (Num 0) tp)
                  = match blocksHits i sc bs (S j) with
                    | [] => inl (setOffset true (Num 0) tp)
                    | m :: _ => inr (Found m (ptrAfter m))
                    end).
  { apply blocksForward_stale. intros j' Hj. unfold isAt, setOffset, tp.
    cbn [scene block]. rewrite !numIs_of_nat.
    destruct (Nat.eqb_spec j j'); [lia|]. apply andb_false_r. }
  destruct b as [|x|t]; try (cbn [blockHitsForward app]; exact Hrest).
  assert (clampStart (offset tp) = o) as ->
      by (unfold tp; cbn [offset clampStart]; apply Nat2Z.id).
  destruct (blockForward_step i sc j t o)
    as [(E1 & E2)|[(E1 & idx & len & rest & E2 & E3)|(E1 & E2 & E3)]].
  - rewrite E1, E2. exact Hrest.
  - rewrite E1, (guard_false pattern useRegex Hsearch), E2, E3. reflexivity.
  - rewrite E1, (guard_false pattern useRegex Hsearch), E2, E3. exact Hrest.
Qed.

(** The scene loop away from the cursor. *)
Lemma scenesForward_stale (rest : list (option Scene)) (i : nat)
      (tp : FindReplacePointer) :
  (forall i', i <= i' -> numIs (scene tp) (Z.of_nat i') = false) ->
  scenesForward pattern useRegex rest i tp = firstFound ptrAfter (scenesHits rest i).
Proof.
  revert i; induction rest as [|so rest IH]; intros i Hstale; [reflexivity|].
  cbn [scenesForward scenesHitsForward].
  rewrite (Hstale i) by lia. cbn [setBlockOffset].
  assert (IH' := IH (S i) (fun i' H => Hstale i' ltac:(lia))).
  destruct so as [sc|]; [|exact IH'].
  unfold sceneHitsForward, blocksOfScene.
  destruct (text sc) as [| |iterable|members bs]; try exact IH'.
  - unfold blocksForwardFrom. rewrite (Hstale i) by lia. cbn.
    rewrite (Hstale i) by lia. exact IH'.
  - unfold blocksForwardFrom. rewrite (Hstale i) by lia. cbn [Z.ltb Z.compare Z.to_nat skipn].
    rewrite blocksForward_stale.
    + destruct (blocksHits i sc bs 0) as [|m hits].
      * rewrite (Hstale i) by lia. exact IH'.
      * reflexivity.
    + intros j' _. unfold isAt. now rewrite (Hstale i) by lia.
Qed.

(** One forward search from the cursor (i, j, o) returns the first of
    the matches ahead of the cursor. *)
Lemma findNext_at_cursor (data : BackupData) (i j o : nat) :
  findNextMatchInternal pattern useRegex data
    (mkPtr (Num (Z.of_nat i)) (Num (Z.of_nat j)) (Num (Z.of_nat o)))
  = firstFound ptrAfter
      (cursorHitsForward pattern useRegex (scenesOf data) i j o).
Proof.
  unfold findNextMatchInternal, scenesOf, cursorHitsForward.
  destruct (revisions data) as [|rev0 others]; [now destruct i|].
  set (tp := mkPtr (Num (Z.of_nat i)) (Num (Z.of_nat j)) (Num (Z.of_nat o))).
  assert (startForward tp = tp) as ->.
  { unfold startForward, tp. cbn [scene].
    destruct (Z.ltb_spec (Z.of_nat i) 0); [lia|reflexivity]. }
  cbn [scene tp]. fold tp. rewrite Nat2Z.id.
  destruct (nth_error (scenes rev0) i) as [so|] eqn:Hso.
  2:{ apply nth_error_None in Hso.
      destruct (Z.leb_spec (Z.of_nat (length (scenes rev0))) (Z.of_nat i));
        [reflexivity|lia]. }
  assert (i < length (scenes rev0)) by (apply nth_error_Some; congruence).
  destruct (Z.leb_spec (Z.of_nat (length (scenes rev0))) (Z.of_nat i)); [lia|].
  rewrite (skipn_nth_error_cons _ _ _ Hso). cbn [scenesForward].
  assert (Hhere : numIs (scene tp) (Z.of_nat i) = true)
    by (unfold tp; cbn [scene]; rewrite numIs_of_nat; apply Nat.eqb_refl).
  rewrite Hhere.
  assert (Hlater : forall tp', scene tp' = Num (Z.of_nat i) ->
             scenesForward pattern useRegex (skipn (S i) (scenes rev0)) (S i) tp'
             = firstFound ptrAfter (scenesHits (skipn (S i) (scenes rev0)) (S i))).
  { intros tp' Hs. apply scenesForward_stale. intros i' Hi. rewrite Hs.
    rewrite numIs_of_nat. destruct (Nat.eqb_spec i i'); [lia|reflexivity]. }
  destruct so as [sc|]; [|apply Hlater; reflexivity].
  unfold blocksOfScene.
  destruct (text sc) as [| |iterable|members bs].
  - destruct j; apply Hlater; reflexivity.
  - destruct j; apply Hlater; reflexivity.
  - unfold blocksForwardFrom. rewrite Hhere. cbn [block tp].
    destruct (Z.ltb_spec (Z.of_nat j) 0); [lia|].
    rewrite skipn_nil. cbn [blocksForward]. rewrite Hhere.
    destruct j; apply Hlater; reflexivity.
  - unfold blocksForwardFrom. rewrite Hhere. cbn [block tp].
    destruct (Z.ltb_spec (Z.of_nat j) 0); [lia|]. rewrite Nat2Z.id.
    destruct (nth_error bs j) as [b|] eqn:Hb.
    + rewrite (skipn_nth_error_cons _ _ _ Hb).
      destruct (blocksForward_cursor i sc b (skipn (S j) bs) j o)
        as (tp' & Hs & Hc).
      cbv zeta in Hc. fold tp in Hc. rewrite Hc.
      destruct (blockHits i sc j b o ++ blocksHits i sc (skipn (S j) bs) (S j)).
      * rewrite Hs, numIs_of_nat, Nat.eqb_refl. cbn [app]. apply Hlater.
        exact Hs.
      * reflexivity.
    + apply nth_error_None in Hb.
      rewrite (@skipn_all2 _ j bs), (@skipn_all2 _ (S j) bs) by lia.
      cbn [blocksForward blocksHitsForward app].
      rewrite Hhere. apply Hlater. reflexivity.
Qed.

End ForwardVisits.

Section ForwardEnumeration.
Context {host : RegExpHost}.
Variable pattern : jsstring.
Variable useRegex : bool.
Hypothesis Hsearch : searchable pattern useRegex.

Local Abbreviation blockHits := (blockHitsForward pattern useRegex).
Local Abbreviation blocksHits := (blocksHitsForward pattern useRegex).
Local Abbreviation sceneHits := (sceneHitsForward pattern useRegex).
Local Abbreviation scenesHits := (scenesHitsForward pattern useRegex).
Local Abbreviation cursorHits := (cursorHitsForward pattern useRegex).

Lemma blockHitsForward_tail (i : nat) (sc : Scene) (j : nat) (b : Block) (o : nat)
      (m : FindReplaceMatch) (rest : list FindReplaceMatch) :
  blockHits i sc j b o = m :: rest ->
  sceneIndex m = i /\ blockIndex m = j
  /\ blockHits i sc j b (resumeOffset m) = rest.
Proof.
  unfold blockHitsForward. destruct b as [| |t]; try discriminate.
  destruct (forwardChain pattern useRegex (chainFuel t) t o) as [|span c] eqn:E;
    [discriminate|].
  cbn [List.map]. intros I. injection I as <- <-.
  apply (forwardChain_cons pattern useRegex Hsearch) in E as [_ E].
  repeat split. unfold resumeOffset, matchAtPos. cbn [matchIndex matchLength].
  unfold resumeAfter in E. now rewrite E.
Qed.

Lemma blocksHitsForward_first (i : nat) (sc : Scene) (bs : list Block) (j0 : nat)
      (m : FindReplaceMatch) (rest : list FindReplaceMatch) :
  blocksHits i sc bs j0 = m :: rest ->
  exists k b restb,
    nth_error bs k = Some b
    /\ blockHits i sc (j0 + k) b 0 = m :: restb
    /\ rest = restb ++ blocksHits i sc (skipn (S k) bs) (S (j0 + k)).
Proof.
  revert j0; induction bs as [|b bs IH]; intros j0; cbn [blocksHitsForward];
    [discriminate|].
  destruct (blockHits i sc j0 b 0) as [|m' r] eqn:E; cbn [app].
  - intros H. destruct (IH (S j0) H) as (k & b' & restb & H1 & H2 & H3).
    exists (S k), b', restb. replace (j0 + S k) with (S j0 + k) by lia.
    auto.
  - intros I. injection I as -> <-.
    exists 0, b, r. rewrite Nat.add_0_r. auto.
Qed.

Lemma scenesHitsForward_first (ss : list (option Scene)) (i0 : nat)
      (m : FindReplaceMatch) (rest : list FindReplaceMatch) :
  scenesHits ss i0 = m :: rest ->
  exists k so resth,
    nth_error ss k = Some so
    /\ sceneHits (i0 + k) so = m :: resth
    /\ rest = resth ++ scenesHits (skipn (S k) ss) (S (i0 + k)).
Proof.
  revert i0; induction ss as [|so ss IH]; intros i0; cbn [scenesHitsForward];
    [discriminate|].
  destruct (sceneHits i0 so) as [|m' r] eqn:E; cbn [app].
  - intros H. destruct (IH (S i0) H) as (k & so' & resth & H1 & H2 & H3).
    exists (S k), so', resth. replace (i0 + S k) with (S i0 + k) by lia.
    auto.
  - intros I. injection I as -> <-.
    exists 0, so, r. rewrite Nat.add_0_r. auto.
Qed.

(** The matches ahead of the cursor left by a match are the matches
    that were ahead, less that match. *)
Lemma cursorHitsForward_tail (all : list (option Scene)) (i j o : nat)
      (m : FindReplaceMatch) (rest : list FindReplaceMatch) :
  cursorHits all i j o = m :: rest ->
  cursorHits all (sceneIndex m) (blockIndex m) (resumeOffset m) = rest.
Proof.
  unfold cursorHitsForward at 1.
  destruct (nth_error all i) as [so|] eqn:Hso; [|discriminate].
  destruct so as [sc|].
  - set (bs := blocksOfScene (Some sc)).
    destruct (match nth_error bs j with
              | Some b => blockHits i sc j b o
              | None => []
              end) as [|m1 r1] eqn:Hcur.
    + cbn [app].
      destruct (blocksHits i sc (skipn (S j) bs) (S j)) as [|m2 r2] eqn:Hblocks.
      * cbn [app]. intros H.
        apply scenesHitsForward_first in H as (k & so' & resth & H1 & H2 & ->).
        rewrite nth_error_skipn in H1.
        destruct so' as [sc'|]; [|discriminate]. unfold sceneHitsForward in H2.
        apply blocksHitsForward_first in H2 as (k' & b & restb & B1 & B2 & ->).
        cbn [Nat.add] in B2, H1 |- *.
        apply blockHitsForward_tail in B2 as (S1 & S2 & S3).
        unfold cursorHitsForward. rewrite S1, S2, H1, B1, S3.
        rewrite skipn_skipn. replace (S k + S i) with (S (S (i + k))) by lia.
        reflexivity.
      * cbn [app]. intros I. injection I as -> <-.
        apply blocksHitsForward_first in Hblocks as (k & b & restb & B1 & B2 & ->).
        rewrite nth_error_skipn in B1.
        apply blockHitsForward_tail in B2 as (S1 & S2 & S3).
        unfold cursorHitsForward. rewrite S1, S2, Hso. fold bs. rewrite B1, S3.
        rewrite skipn_skipn. replace (S k + S j) with (S (S j + k)) by lia.
        reflexivity.
    + cbn [app]. intros I. injection I as -> <-.
      destruct (nth_error bs j) as [b|] eqn:Hb; [|discriminate].
      apply blockHitsForward_tail in Hcur as (S1 & S2 & S3).
      unfold cursorHitsForward. rewrite S1, S2, Hso. fold bs. rewrite Hb, S3.
      reflexivity.
  - cbn [app]. intros H.
    apply scenesHitsForward_first in H as (k & so' & resth & H1 & H2 & ->).
    rewrite nth_error_skipn in H1.
    destruct so' as [sc'|]; [|discriminate]. unfold sceneHitsForward in H2.
    apply blocksHitsForward_first in H2 as (k' & b & restb & B1 & B2 & ->).
    cbn [Nat.add] in B2, H1 |- *.
    apply blockHitsForward_tail in B2 as (S1 & S2 & S3).
    unfold cursorHitsForward. rewrite S1, S2, H1, B1, S3.
    rewrite skipn_skipn. replace (S k + S i) with (S (S (i + k))) by lia.
    reflexivity.
Qed.

Lemma cursorHitsForward_origin (all : list (option Scene)) :
  cursorHits all 0 0 0 = scenesHits all 0.
Proof.
  unfold cursorHitsForward. destruct all as [|so rest]; [reflexivity|].
  cbn [nth_error skipn scenesHitsForward]. f_equal.
  destruct so as [sc|]; [|reflexivity].
  unfold sceneHitsForward. destruct (blocksOfScene (Some sc)); reflexivity.
Qed.

(** Repeated forward searches from the cursor (i, j, o) report the
    matches ahead of the cursor, in order, and then no match. *)
Lemma findNextUntil_cursor (data : BackupData) (fuel : nat) :
  forall (e : Engine) (i j o : nat),
    frData e = Some data ->
    frPtr e = mkPtr (Num (Z.of_nat i)) (Num (Z.of_nat j)) (Num (Z.of_nat o)) ->
    length (cursorHits (scenesOf data) i j o) < fuel ->
    findNextUntilNoMatch fuel pattern useRegex e
    = Some (cursorHits (scenesOf data) i j o).
Proof.
  induction fuel as [|fuel IH]; intros e i j o Hdata Hptr Hfuel; [lia|].
  cbn [findNextUntilNoMatch]. unfold handleFindNextMatch.
  rewrite Hdata, (guard_false pattern useRegex Hsearch), Hptr.
  rewrite (findNext_at_cursor pattern useRegex Hsearch).
  destruct (cursorHits (scenesOf data) i j o) as [|m rest] eqn:Hhits.
  - reflexivity.
  - cbn [firstFound recordSearch frMatch].
    apply cursorHitsForward_tail in Hhits.
    erewrite IH; [rewrite Hhits; reflexivity|exact Hdata|reflexivity|].
    rewrite Hhits. cbn [length] in Hfuel. lia.
Qed.

(** From a freshly loaded record, repeated forward searches report all
    the matches of the record in document order. *)
Lemma findNextUntil_loaded (data : BackupData) (fuel : nat) :
  length (scenesHits (scenesOf data) 0) < fuel ->
  findNextUntilNoMatch fuel pattern useRegex (loaded data)
  = Some (scenesHits (scenesOf data) 0).
Proof.
  intros Hfuel. rewrite <- cursorHitsForward_origin in *.
  apply (findNextUntil_cursor data fuel (loaded data) 0 0 0); auto.
Qed.

End ForwardEnumeration.

(* ================================================================== *)
(** * What the backward search lists in a block *)
(* ================================================================== *)

Lemma increasingFrom_weaken (lo lo' : nat) (spans : list (nat * nat)) :
  lo <= lo' -> increasingFrom lo' spans -> increasingFrom lo spans.
Proof.
  destruct spans as [|sp rest]; cbn; [trivial|]. intros H [H1 H2].
  split; [lia|assumption].
Qed.

Lemma increasingFrom_In (lo : nat) (spans : list (nat * nat)) (sp : nat * nat) :
  increasingFrom lo spans -> In sp spans -> lo <= fst sp.
Proof.
  revert lo; induction spans as [|x rest IH]; intros lo; cbn; [contradiction|].
  intros [H1 H2] [<-|Hin]; [assumption|].
  specialize (IH _ H2 Hin). lia.
Qed.

Lemma increasingFrom_length (lo hi : nat) (spans : list (nat * nat)) :
  increasingFrom lo spans -> (forall sp, In sp spans -> fst sp <= hi) ->
  length spans <= hi + 1 - lo.
Proof.
  revert lo; induction spans as [|x rest IH]; intros lo; cbn [length increasingFrom].
  - intros _ _. lia.
  - intros [H1 H2] Hhi.
    assert (fst x <= hi) by (apply Hhi; now left).
    specialize (IH _ H2 (fun sp H => Hhi sp (or_intror H))). lia.
Qed.

Lemma spansBefore_In (se : jsnum) (spans : list (nat * nat)) (sp : nat * nat) :
  In sp (spansBefore se spans) -> In sp spans /\ ltNum (fst sp) se = true.
Proof.
  induction spans as [|x rest IH]; cbn; [contradiction|].
  destruct (ltNum (fst x) se) eqn:E; [|contradiction].
  intros [<-|Hin]; [auto|]. destruct (IH Hin). auto.
Qed.

Lemma spansBefore_all (se : jsnum) (spans : list (nat * nat)) :
  (forall sp, In sp spans -> ltNum (fst sp) se = true) ->
  spansBefore se spans = spans.
Proof.
  induction spans as [|x rest IH]; intros H; cbn; [reflexivity|].
  rewrite (H x) by now left. f_equal. apply IH. intros sp Hin. apply H. now right.
Qed.

Lemma spansBefore_length (se : jsnum) (spans : list (nat * nat)) :
  length (spansBefore se spans) <= length spans.
Proof.
  induction spans as [|x rest IH]; cbn; [lia|].
  destruct (ltNum (fst x) se); cbn; lia.
Qed.

(** Bounding the list by its last span leaves the spans before it. *)
Lemma spansBefore_last (lo : nat) (se : jsnum) (spans front : list (nat * nat))
      (sp : nat * nat) :
  increasingFrom lo spans ->
  spansBefore se spans = front ++ [sp] ->
  spansBefore (Num (Z.of_nat (fst sp))) spans = front.
Proof.
  revert lo front; induction spans as [|x rest IH]; intros lo front Hinc; cbn.
  - destruct front; discriminate.
  - destruct (ltNum (fst x) se) eqn:E; [|destruct front; discriminate].
    destruct Hinc as [H1 H2]. destruct front as [|a front]; cbn.
    + intros I. injection I as -> Hrest.
      destruct (Z.ltb_spec (Z.of_nat (fst sp)) (Z.of_nat (fst sp))); [lia|reflexivity].
    + intros I. injection I as -> Hrest.
      assert (In sp rest).
      { apply (spansBefore_In se). rewrite Hrest. apply in_app_iff. right. now left. }
      pose proof (increasingFrom_In _ _ _ H2 H) as Hlt.
      destruct (Z.ltb_spec (Z.of_nat (fst a)) (Z.of_nat (fst sp))); [|lia].
      f_equal. eapply IH; eassumption.
Qed.

Lemma lastOf_cases (ms : list (nat * nat)) :
  (ms = [] /\ lastOf ms = None)
  \/ exists front sp, ms = front ++ [sp] /\ lastOf ms = Some sp.
Proof.
  unfold lastOf. destruct (rev ms) as [|sp r] eqn:R.
  - left. split; [|reflexivity]. apply (f_equal (@rev _)) in R.
    now rewrite rev_involutive in R.
  - right. exists (rev r), sp. split; [|reflexivity].
    apply (f_equal (@rev _)) in R. now rewrite rev_involutive in R.
Qed.

Lemma leZero_ltNum (se : jsnum) (k : nat) : leZero se = true -> ltNum k se = false.
Proof.
  destruct se as [| |z]; cbn; try discriminate.
  intros H. apply Z.leb_le in H. apply Z.ltb_ge. lia.
Qed.

Section BackwardSpans.
Context {host : RegExpHost}.
Variable pattern : jsstring.
Variable useRegex : bool.
Hypothesis Hsearch : searchable pattern useRegex.

Lemma backwardStep_gt (sp : nat * nat) : fst sp < backwardStep useRegex sp.
Proof.
  unfold backwardStep. destruct useRegex; [apply resumeAfter_gt|lia].
Qed.

Lemma spanChain_increasing (t : jsstring) (step : nat * nat -> nat) (fuel s : nat) :
  (forall sp, fst sp < step sp) ->
  increasingFrom s (spanChain (nextMatch pattern useRegex t) step fuel s)
  /\ forall sp, In sp (spanChain (nextMatch pattern useRegex t) step fuel s) ->
                fst sp <= length t.
Proof.
  intros Hstep. revert s; induction fuel as [|fuel IH]; intros s; cbn.
  - split; [trivial|contradiction].
  - destruct (nextMatch pattern useRegex t s) as [[idx len]|] eqn:E; cbn.
    + pose proof (nextMatch_bounds pattern useRegex Hsearch _ _ _ _ E) as [B1 B2].
      destruct (IH (step (idx, len))) as [I1 I2].
      pose proof (Hstep (idx, len)) as Hs. cbn [fst] in Hs.
      split.
      * split; [assumption|]. eapply increasingFrom_weaken; [|exact I1]. lia.
      * intros sp [<-|Hin]; [assumption|auto].
    + split; [trivial|contradiction].
Qed.

Lemma backwardSpans_increasing (t : jsstring) :
  increasingFrom 0 (backwardSpans pattern useRegex t)
  /\ (forall sp, In sp (backwardSpans pattern useRegex t) -> fst sp <= length t)
  /\ length (backwardSpans pattern useRegex t) < chainFuel t.
Proof.
  destruct (spanChain_increasing t (backwardStep useRegex) (chainFuel t) 0
              backwardStep_gt) as [H1 H2].
  fold (backwardSpans pattern useRegex t) in H1, H2.
  split; [assumption|]. split; [assumption|].
  pose proof (increasingFrom_length 0 (length t) _ H1 H2). unfold chainFuel. lia.
Qed.

Lemma regexStep_resumeAfter (idx len : nat) :
  (if Nat.eqb (idx + len) idx && Nat.eqb len 0 then S (idx + len) else idx + len)
  = resumeAfter (idx, len).
Proof.
  unfold resumeAfter. cbn [fst snd]. destruct len as [|len].
  - rewrite Nat.add_0_r, Nat.eqb_refl. cbn. lia.
  - rewrite andb_false_r. reflexivity.
Qed.

Lemma collectRegex_spans (re : RegExp) (t : jsstring) (se : jsnum)
      (fuel s : nat) (acc : list (nat * nat)) :
  collectRegex fuel re t se s acc
  = acc ++ spansBefore se (spanChain (RegExp_exec re t) resumeAfter fuel s).
Proof.
  revert s acc; induction fuel as [|fuel IH]; intros s acc;
    cbn [collectRegex spanChain].
  - cbn. now rewrite app_nil_r.
  - destruct (RegExp_exec re t s) as [[idx len]|]; cbn [spansBefore fst];
      [|now rewrite app_nil_r].
    destruct (ltNum idx se); [|now rewrite app_nil_r].
    now rewrite IH, regexStep_resumeAfter, <- app_assoc.
Qed.

Lemma collectLiteral_spans (t : jsstring) (se : jsnum) (fuel s : nat)
      (acc : list (nat * nat)) :
  collectLiteral pattern fuel t se s acc
  = acc ++ spansBefore se
             (spanChain (fun k => match indexOf pattern t k with
                                  | Some idx => Some (idx, length pattern)
                                  | None => None
                                  end)
                        (fun sp => S (fst sp)) fuel s).
Proof.
  revert s acc; induction fuel as [|fuel IH]; intros s acc;
    cbn [collectLiteral spanChain].
  - cbn. now rewrite app_nil_r.
  - destruct (indexOf pattern t s) as [idx|]; cbn [spansBefore fst];
      [|now rewrite app_nil_r].
    destruct (ltNum idx se); [|now rewrite app_nil_r].
    now rewrite IH, <- app_assoc.
Qed.

Lemma spanChain_ext (next next' : nat -> option (nat * nat))
      (step : nat * nat -> nat) (fuel s : nat) :
  (forall k, next k = next' k) ->
  spanChain next step fuel s = spanChain next' step fuel s.
Proof.
  intros H. revert s; induction fuel as [|fuel IH]; intros s; cbn; [reflexivity|].
  rewrite H. destruct (next' s); [|reflexivity]. now rewrite IH.
Qed.

(** The list of the backward search is the unbounded list cut at
    [searchEnd]. *)
Lemma matchesBefore_spans (t : jsstring) (se : jsnum) :
  matchesBefore pattern useRegex t se
  = Some (spansBefore se (backwardSpans pattern useRegex t)).
Proof.
  unfold matchesBefore, backwardSpans, backwardStep, chainFuel, searchable in *.
  destruct useRegex.
  - destruct (RegExp_new pattern) as [re|] eqn:R; [|congruence].
    rewrite collectRegex_spans. cbn [app]. do 2 f_equal.
    apply spanChain_ext. intros k. unfold nextMatch, matchForward. now rewrite R.
  - rewrite collectLiteral_spans. cbn [app]. do 2 f_equal.
    apply spanChain_ext. intros k. unfold nextMatch, matchForward.
    now destruct (indexOf pattern t k).
Qed.

Lemma backwardChain_S (f : nat) (t : jsstring) (se : jsnum) :
  backwardChain pattern useRegex (S f) t se
  = if leZero se && Nat.ltb 0 (length t) then []
    else if isEmpty pattern && negb useRegex then []
    else match matchesBefore pattern useRegex t se with
         | Some ms =>
             match lastOf ms with
             | Some span =>
                 span :: backwardChain pattern useRegex f t
                           (Num (Z.of_nat (fst span)))
             | None => []
             end
         | None => []
         end.
Proof. reflexivity. Qed.

(** Successive backward searches in a block report the spans of the
    list before the bound, last first. *)
Lemma backwardChain_rev (t : jsstring) (g : nat) (se : jsnum) :
  length (spansBefore se (backwardSpans pattern useRegex t)) < g ->
  backwardChain pattern useRegex g t se
  = rev (spansBefore se (backwardSpans pattern useRegex t)).
Proof.
  destruct (backwardSpans_increasing t) as (Hinc & _ & _).
  revert se; induction g as [|g IH]; intros se Hg; [lia|].
  rewrite backwardChain_S.
  destruct (leZero se && Nat.ltb 0 (length t)) eqn:Hskip.
  - apply andb_true_iff in Hskip as [Hz _].
    destruct (backwardSpans pattern useRegex t) as [|x rest]; [reflexivity|].
    cbn. now rewrite (leZero_ltNum se (fst x) Hz).
  - rewrite (guard_false pattern useRegex Hsearch), matchesBefore_spans.
    destruct (lastOf_cases (spansBefore se (backwardSpans pattern useRegex t)))
      as [[E1 E2]|(front & sp & E1 & E2)]; rewrite E2.
    + now rewrite E1.
    + pose proof (spansBefore_last 0 se _ front sp Hinc E1) as Hfront.
      rewrite IH.
      * rewrite Hfront, E1, rev_app_distr. reflexivity.
      * rewrite Hfront. rewrite E1, length_app in Hg. cbn in Hg. lia.
Qed.

(** The head of a backward chain, and the chain from its head. *)
Lemma backwardChain_cons (t : jsstring) (se : jsnum) (sp : nat * nat)
      (rest : list (nat * nat)) :
  backwardChain pattern useRegex (chainFuel t) t se = sp :: rest ->
  backwardChain pattern useRegex (chainFuel t) t (Num (Z.of_nat (fst sp))) = rest.
Proof.
  destruct (backwardSpans_increasing t) as (Hinc & _ & Hlen).
  rewrite !backwardChain_rev
    by (eapply Nat.le_lt_trans; [apply spansBefore_length|exact Hlen]).
  intros H.
  destruct (lastOf_cases (spansBefore se (backwardSpans pattern useRegex t)))
    as [[E1 _]|(front & sp' & E1 & _)].
  - rewrite E1 in H. discriminate.
  - rewrite E1, rev_app_distr in H. cbn in H. injection H as -> <-.
    now rewrite (spansBefore_last 0 se _ front sp Hinc E1).
Qed.

End BackwardSpans.

(* ================================================================== *)
(** * What repeated backward searches visit *)
(* ================================================================== *)

Section BackwardVisits.
Context {host : RegExpHost}.
Variable pattern : jsstring.
Variable useRegex : bool.
Hypothesis Hsearch : searchable pattern useRegex.

Local Abbreviation blockHits := (blockHitsBackward pattern useRegex).
Local Abbreviation blockHitsFull := (blockHitsBackwardFull pattern useRegex).
Local Abbreviation blocksHits := (blocksHitsBackward pattern useRegex).
Local Abbreviation sceneHits := (sceneHitsBackward pattern useRegex).
Local Abbreviation scenesHits := (scenesHitsBackward pattern useRegex).
Local Abbreviation cursorHits := (cursorHitsBackward pattern useRegex).

(** What the loop does on one text block bounded by [se]. *)
Lemma blockBackward_step (i : nat) (sc : Scene) (j : nat) (t : jsstring)
      (se : jsnum) :
  (leZero se && Nat.ltb 0 (length t) = true
   /\ blockHits i sc j (TextBlock t) se = [])
  \/ (leZero se && Nat.ltb 0 (length t) = false
      /\ exists ms idx len rest,
        matchesBefore pattern useRegex t se = Some ms
        /\ lastOf ms = Some (idx, len)
        /\ blockHits i sc j (TextBlock t) se
           = matchAtPos i sc j t (idx, len) :: rest)
  \/ (leZero se && Nat.ltb 0 (length t) = false
      /\ exists ms,
        matchesBefore pattern useRegex t se = Some ms
        /\ lastOf ms = None
        /\ blockHits i sc j (TextBlock t) se = []).
Proof.
  unfold blockHitsBackward, chainFuel. rewrite backwardChain_S.
  rewrite (guard_false pattern useRegex Hsearch).
  destruct (leZero se && Nat.ltb 0 (length t)); [now left|].
  right. rewrite (matchesBefore_spans pattern useRegex Hsearch).
  destruct (lastOf (spansBefore se (backwardSpans pattern useRegex t)))
    as [[idx len]|] eqn:L.
  - left. split; [reflexivity|]. eexists _, idx, len, _.
    split; [reflexivity|]. split; [exact L|reflexivity].
  - right. split; [reflexivity|]. eexists. split; [reflexivity|]. auto.
Qed.

(** The block loop away from the cursor. *)
Lemma blocksBackward_stale (i : nat) (sc : Scene) (bs : list Block) (n : nat)
      (tp : FindReplacePointer) :
  (forall j', j' < n -> isAt tp (Z.of_nat i) (Z.of_nat j') = false) ->
  blocksBackward pattern useRegex i sc bs n tp
  = match blocksHits i sc bs n with
    | [] => inl tp
    | m :: _ => inr (Found m (ptrAt m))
    end.
Proof.
  induction n as [|j IH]; intros Hstale; [reflexivity|].
  cbn [blocksBackward blocksHitsBackward].
  rewrite (Hstale j) by lia. cbn [setOffset].
  assert (IH' := IH (fun j' H => Hstale j' ltac:(lia))).
  destruct (nth_error bs j) as [b|]; [|exact IH'].
  destruct b as [|o|t]; try (cbn [blockHitsBackwardFull app]; exact IH').
  cbn [blockHitsBackwardFull].
  destruct (blockBackward_step i sc j t (Num (Z.of_nat (length t))))
    as [(E1 & E2)|[(E1 & ms & idx & len & rest & E2 & E3 & E4)
                  |(E1 & ms & E2 & E3 & E4)]].
  - rewrite E1, E2. exact IH'.
  - rewrite E1, (guard_false pattern useRegex Hsearch), E2, E3, E4. reflexivity.
  - rewrite E1, (guard_false pattern useRegex Hsearch), E2, E3, E4. exact IH'.
Qed.

(** The block loop at the cursor (i, j, o). *)
Lemma blocksBackward_cursor (i : nat) (sc : Scene) (bs : list Block) (b : Block)
      (j o : nat) :
  nth_error bs j = Some b ->
  exists tp',
    scene tp' = Num (Z.of_nat i)
    /\ blocksBackward pattern useRegex i sc bs (S j)
         (mkPtr (Num (Z.of_nat i)) (Num (Z.of_nat j)) (Num (Z.of_nat o)))
       = match blockHits i sc j b (Num (Z.of_nat o)) ++ blocksHits i sc bs j with
         | [] => inl tp'
         | m :: _ => inr (Found m (ptrAt m))
         end.
Proof.
  intros Hb.
  set (tp := mkPtr (Num (Z.of_nat i)) (Num (Z.of_nat j)) (Num (Z.of_nat o))).
  exists (setOffset true maxNum tp). split; [reflexivity|].
  cbn [blocksBackward]. rewrite Hb.
  assert (isAt tp (Z.of_nat i) (Z.of_nat j) = true) as ->.
  { unfold isAt, tp. cbn [scene block]. now rewrite !numIs_of_nat, !Nat.eqb_refl. }
  assert (Hrest : blocksBackward pattern useRegex i sc bs j (setOffset true maxNum tp)
                  = match blocksHits i sc bs j with
                    | [] => inl (setOffset true maxNum tp)
                    | m :: _ => inr (Found m (ptrAt m))
                    end).
  { apply blocksBackward_stale. intros j' Hj. unfold isAt, setOffset, tp.
    cbn [scene block]. rewrite !numIs_of_nat.
    destruct (Nat.eqb_spec j j'); [lia|]. apply andb_false_r. }
  destruct b as [|x|t]; try (cbn [blockHitsBackward app]; exact Hrest).
  assert (offset tp = Num (Z.of_nat o)) as -> by reflexivity.
  destruct (blockBackward_step i sc j t (Num (Z.of_nat o)))
    as [(E1 & E2)|[(E1 & ms & idx & len & rest & E2 & E3 & E4)
                  |(E1 & ms & E2 & E3 & E4)]].
  - rewrite E1, E2. exact Hrest.
  - rewrite E1, (guard_false pattern useRegex Hsearch), E2, E3, E4. reflexivity.
  - rewrite E1, (guard_false pattern useRegex Hsearch), E2, E3, E4. exact Hrest.
Qed.

(** The block loop of a whole scene, when the cursor is not on one of
    its blocks. *)
Lemma blocksBackwardFrom_stale (i : nat) (sc : Scene) (bs : list Block)
      (tp : FindReplacePointer) :
  (Z.of_nat (length bs) <= MAX_SAFE_INTEGER)%Z ->
  (numIs (scene tp) (Z.of_nat i) = false
   \/ block tp = maxNum) ->
  blocksBackwardFrom pattern useRegex i sc bs tp
  = match blocksHits i sc bs (length bs) with
    | [] => inl tp
    | m :: _ => inr (Found m (ptrAt m))
    end.
Proof.
  intros Hlen Hstale. unfold blocksBackwardFrom.
  assert (Hn : Z.to_nat (Z.of_nat (length bs) - 1 + 1) = length bs) by lia.
  assert (Hrun : blocksBackward pattern useRegex i sc bs (length bs) tp
                 = match blocksHits i sc bs (length bs) with
                   | [] => inl tp
                   | m :: _ => inr (Found m (ptrAt m))
                   end).
  { apply blocksBackward_stale. intros j' Hj. unfold isAt.
    destruct Hstale as [-> | ->]; [reflexivity|].
    cbn [numIs maxNum].
    destruct (Z.eqb_spec MAX_SAFE_INTEGER (Z.of_nat j')); [lia|].
    apply andb_false_r. }
  destruct (numIs (scene tp) (Z.of_nat i)) eqn:Hhere.
  - destruct Hstale as [?| ->]; [discriminate|]. unfold maxNum.
    rewrite Z.min_r by lia. now rewrite Hn.
  - now rewrite Hn.
Qed.

(** The scene loop away from the cursor. *)
Lemma scenesBackward_stale (all : list (option Scene)) (n : nat)
      (tp : FindReplacePointer) :
  Forall (fun so => (Z.of_nat (length (blocksOfScene so)) <= MAX_SAFE_INTEGER)%Z)
         all ->
  (forall i', i' < n -> numIs (scene tp) (Z.of_nat i') = false) ->
  scenesBackward pattern useRegex all n tp = firstFound ptrAt (scenesHits all n).
Proof.
  intros Hlim. induction n as [|i IH]; intros Hstale; [reflexivity|].
  cbn [scenesBackward scenesHitsBackward].
  rewrite (Hstale i) by lia. cbn [setBlockOffset].
  assert (IH' := IH (fun i' H => Hstale i' ltac:(lia))).
  destruct (nth_error all i) as [so|] eqn:Hso; [|exact IH'].
  destruct so as [sc|]; [|exact IH'].
  assert (Hl : (Z.of_nat (length (blocksOfScene (Some sc))) <= MAX_SAFE_INTEGER)%Z).
  { rewrite Forall_forall in Hlim. apply Hlim. eapply nth_error_In; eassumption. }
  unfold sceneHitsBackward, blocksOfScene in *.
  destruct (text sc) as [| |iterable|members bs]; try exact IH'.
  - rewrite blocksBackwardFrom_stale by (try left; auto using Hstale).
    cbn. rewrite (Hstale i) by lia. exact IH'.
  - rewrite blocksBackwardFrom_stale by (try left; auto using Hstale).
    destruct (blocksHits i sc bs (length bs)) as [|m hits].
    + rewrite (Hstale i) by lia. exact IH'.
    + reflexivity.
Qed.

End BackwardVisits.

Section BackwardEnumeration.
Context {host : RegExpHost}.
Variable pattern : jsstring.
Variable useRegex : bool.
Hypothesis Hsearch : searchable pattern useRegex.
Variable data : BackupData.
Hypothesis Hlimits : withinLimits data.

Local Abbreviation all := (scenesOf data).
Local Abbreviation blockHits := (blockHitsBackward pattern useRegex).
Local Abbreviation blockHitsFull := (blockHitsBackwardFull pattern useRegex).
Local Abbreviation blocksHits := (blocksHitsBackward pattern useRegex).
Local Abbreviation sceneHits := (sceneHitsBackward pattern useRegex).
Local Abbreviation scenesHits := (scenesHitsBackward pattern useRegex).
Local Abbreviation cursorHits := (cursorHitsBackward pattern useRegex).

Lemma scenesBackward_before (i : nat) (tp : FindReplacePointer) :
  scene tp = Num (Z.of_nat i) ->
  scenesBackward pattern useRegex all i tp = firstFound ptrAt (scenesHits all i).
Proof.
  intros Hs. apply scenesBackward_stale; [assumption|exact Hlimits|].
  intros i' Hi. rewrite Hs, numIs_of_nat.
  destruct (Nat.eqb_spec i i'); [lia|reflexivity].
Qed.

(** One backward search from a cursor on a block returns the first of
    the matches ahead of the cursor. *)
Lemma findPrevious_at_cursor (i j o : nat) :
  validCursor all i j ->
  findPreviousMatchInternal pattern useRegex data
    (mkPtr (Num (Z.of_nat i)) (Num (Z.of_nat j)) (Num (Z.of_nat o)))
  = firstFound ptrAt (cursorHits all i j o).
Proof.
  intros (sc & b & Hso & Hb).
  unfold findPreviousMatchInternal, cursorHitsBackward. rewrite Hso, Hb.
  pose proof scenesBackward_before as Hbefore.
  unfold scenesOf in *.
  destruct (revisions data) as [|rev0 others]; [now destruct i|].
  set (tp := mkPtr (Num (Z.of_nat i)) (Num (Z.of_nat j)) (Num (Z.of_nat o))).
  assert (i < length (scenes rev0)) by (apply nth_error_Some; congruence).
  assert (startBackward (length (scenes rev0)) tp = tp) as ->.
  { unfold startBackward, tp. cbn [scene].
    destruct (Z.leb_spec (Z.of_nat (length (scenes rev0))) (Z.of_nat i));
      [lia|reflexivity]. }
  cbn [scene tp]. fold tp.
  destruct (Z.ltb_spec (Z.of_nat i) 0); [lia|].
  replace (Z.to_nat (Z.of_nat i + 1)) with (S i) by lia.
  cbn [scenesBackward]. rewrite Hso.
  assert (Hhere : numIs (scene tp) (Z.of_nat i) = true)
    by (unfold tp; cbn [scene]; rewrite numIs_of_nat; apply Nat.eqb_refl).
  rewrite Hhere.
  unfold blocksOfScene in Hb |- *.
  destruct (text sc) as [| |iterable|members bs]; try (now destruct j).
  assert (j < length bs) by (apply nth_error_Some; congruence).
  unfold blocksBackwardFrom. rewrite Hhere. cbn [block tp].
  rewrite Z.min_l by lia.
  replace (Z.to_nat (Z.of_nat j + 1)) with (S j) by lia.
  destruct (blocksBackward_cursor pattern useRegex Hsearch i sc bs b j o Hb)
    as (tp' & Hs & Hc).
  fold tp in Hc. rewrite Hc.
  destruct (blockHits i sc j b (Num (Z.of_nat o)) ++ blocksHits i sc bs j).
  - cbn [app]. rewrite Hs, numIs_of_nat, Nat.eqb_refl.
    apply Hbefore. exact Hs.
  - reflexivity.
Qed.

(** One backward search from a cursor that starts at the end of the
    document returns the last match of the record. *)
Lemma findPrevious_from_end (ptr : FindReplacePointer) :
  startsAtEnd data ptr ->
  findPreviousMatchInternal pattern useRegex data ptr
  = firstFound ptrAt (scenesHits all (length all)).
Proof.
  intros Hend. unfold findPreviousMatchInternal.
  pose proof scenesBackward_before as Hbefore.
  unfold startsAtEnd, withinLimits, scenesOf in *.
  destruct (revisions data) as [|rev0 others]; [reflexivity|].
  set (n := length (scenes rev0)) in *.
  set (atEnd := mkPtr (Num (Z.of_nat n - 1)) maxNum maxNum).
  assert (startBackward n ptr = atEnd) as ->.
  { unfold startBackward. fold atEnd. destruct (scene ptr) as [| |z]; try reflexivity.
    destruct (Z.leb_spec (Z.of_nat n) z); [reflexivity|lia]. }
  cbn [scene atEnd].
  destruct n as [|k] eqn:Hn; [reflexivity|].
  destruct (Z.ltb_spec (Z.of_nat (S k) - 1) 0); [lia|].
  replace (Z.to_nat (Z.of_nat (S k) - 1 + 1)) with (S k) by lia.
  assert (Hscene : scene atEnd = Num (Z.of_nat k))
    by (unfold atEnd; cbn [scene]; f_equal; lia).
  assert (Hhere : numIs (scene atEnd) (Z.of_nat k) = true)
    by (rewrite Hscene, numIs_of_nat; apply Nat.eqb_refl).
  cbn [scenesBackward scenesHitsBackward]. rewrite Hhere.
  assert (Hskip : scenesBackward pattern useRegex (scenes rev0) k
                    (setBlockOffset true maxNum atEnd)
                  = firstFound ptrAt (scenesHits (scenes rev0) k))
    by (apply Hbefore; exact Hscene).
  destruct (nth_error (scenes rev0) k) as [so|] eqn:Hso; [|exact Hskip].
  destruct so as [sc|]; [|exact Hskip].
  assert (Hl : (Z.of_nat (length (blocksOfScene (Some sc))) <= MAX_SAFE_INTEGER)%Z).
  { rewrite Forall_forall in Hlimits. apply Hlimits.
    eapply nth_error_In; eassumption. }
  unfold sceneHitsBackward, blocksOfScene in *.
  destruct (text sc) as [| |iterable|members bs]; try exact Hskip.
  - rewrite (blocksBackwardFrom_stale pattern useRegex Hsearch) by (auto; now right).
    cbn [Datatypes.length blocksHitsBackward app]. rewrite Hhere. exact Hskip.
  - rewrite (blocksBackwardFrom_stale pattern useRegex Hsearch) by (auto; now right).
    destruct (blocksHits k sc bs (length bs)) as [|m hits].
    + rewrite Hhere. exact Hskip.
    + reflexivity.
Qed.

Lemma blockHitsBackward_tail (i : nat) (sc : Scene) (j : nat) (b : Block)
      (se : jsnum) (m : FindReplaceMatch) (rest : list FindReplaceMatch) :
  blockHits i sc j b se = m :: rest ->
  sceneIndex m = i /\ blockIndex m = j
  /\ blockHits i sc j b (Num (Z.of_nat (matchIndex m))) = rest.
Proof.
  unfold blockHitsBackward. destruct b as [| |t]; try discriminate.
  destruct (backwardChain pattern useRegex (chainFuel t) t se) as [|sp c] eqn:E;
    [discriminate|].
  cbn [List.map]. intros I. injection I as <- <-.
  apply (backwardChain_cons pattern useRegex Hsearch) in E.
  repeat split. cbn [matchAtPos matchIndex]. now rewrite E.
Qed.

Lemma blockHitsBackwardFull_tail (i : nat) (sc : Scene) (j : nat) (b : Block)
      (m : FindReplaceMatch) (rest : list FindReplaceMatch) :
  blockHitsFull i sc j b = m :: rest ->
  sceneIndex m = i /\ blockIndex m = j
  /\ blockHits i sc j b (Num (Z.of_nat (matchIndex m))) = rest.
Proof.
  unfold blockHitsBackwardFull. destruct b as [| |t]; try discriminate.
  apply blockHitsBackward_tail.
Qed.

Lemma blocksHitsBackward_first (i : nat) (sc : Scene) (bs : list Block) (n : nat)
      (m : FindReplaceMatch) (rest : list FindReplaceMatch) :
  blocksHits i sc bs n = m :: rest ->
  exists j b restb,
    nth_error bs j = Some b
    /\ blockHitsFull i sc j b = m :: restb
    /\ rest = restb ++ blocksHits i sc bs j.
Proof.
  induction n as [|j IH]; cbn [blocksHitsBackward]; [discriminate|].
  destruct (nth_error bs j) as [b|] eqn:Hb.
  - destruct (blockHitsFull i sc j b) as [|m' r] eqn:E; cbn [app].
    + exact IH.
    + intros I. injection I as -> <-. exists j, b, r. auto.
  - exact IH.
Qed.

Lemma scenesHitsBackward_first (ss : list (option Scene)) (n : nat)
      (m : FindReplaceMatch) (rest : list FindReplaceMatch) :
  scenesHits ss n = m :: rest ->
  exists i so resth,
    nth_error ss i = Some so
    /\ sceneHits i so = m :: resth
    /\ rest = resth ++ scenesHits ss i.
Proof.
  induction n as [|i IH]; cbn [scenesHitsBackward]; [discriminate|].
  destruct (nth_error ss i) as [so|] eqn:Hso.
  - destruct (sceneHits i so) as [|m' r] eqn:E; cbn [app].
    + exact IH.
    + intros I. injection I as -> <-. exists i, so, r. auto.
  - exact IH.
Qed.

(** The cursor left by the first of the matches of the scenes below
    [n] sits on a block, and the matches ahead of it are the others. *)
Lemma scenesHitsBackward_tail (n : nat) (m : FindReplaceMatch)
      (rest : list FindReplaceMatch) :
  scenesHits all n = m :: rest ->
  validCursor all (sceneIndex m) (blockIndex m)
  /\ cursorHits all (sceneIndex m) (blockIndex m) (matchIndex m) = rest.
Proof.
  intros H. apply scenesHitsBackward_first in H as (i & so & resth & H1 & H2 & ->).
  destruct so as [sc|]; [|discriminate]. unfold sceneHitsBackward in H2.
  apply blocksHitsBackward_first in H2 as (j & b & restb & B1 & B2 & ->).
  apply blockHitsBackwardFull_tail in B2 as (S1 & S2 & S3).
  rewrite S1, S2. split.
  - exists sc, b. auto.
  - unfold cursorHitsBackward. now rewrite H1, B1, S3.
Qed.

Lemma cursorHitsBackward_tail (i j o : nat) (m : FindReplaceMatch)
      (rest : list FindReplaceMatch) :
  cursorHits all i j o = m :: rest ->
  validCursor all (sceneIndex m) (blockIndex m)
  /\ cursorHits all (sceneIndex m) (blockIndex m) (matchIndex m) = rest.
Proof.
  unfold cursorHitsBackward at 1.
  destruct (nth_error all i) as [[sc|]|] eqn:Hso;
    try (cbn [app]; apply scenesHitsBackward_tail).
  set (bs := blocksOfScene (Some sc)).
  destruct (match nth_error bs j with
            | Some b => blockHits i sc j b (Num (Z.of_nat o))
            | None => []
            end) as [|m1 r1] eqn:Hcur.
  - cbn [app].
    destruct (blocksHits i sc bs j) as [|m2 r2] eqn:Hblocks.
    + cbn [app]. apply scenesHitsBackward_tail.
    + cbn [app]. intros I. injection I as -> <-.
      apply blocksHitsBackward_first in Hblocks as (j' & b & restb & B1 & B2 & ->).
      apply blockHitsBackwardFull_tail in B2 as (S1 & S2 & S3).
      rewrite S1, S2. split.
      * exists sc, b. auto.
      * unfold cursorHitsBackward. rewrite Hso. fold bs. now rewrite B1, S3.
  - cbn [app]. intros I. injection I as -> <-.
    destruct (nth_error bs j) as [b|] eqn:Hb; [|discriminate].
    apply blockHitsBackward_tail in Hcur as (S1 & S2 & S3).
    rewrite S1, S2. split.
    + exists sc, b. auto.
    + unfold cursorHitsBackward. rewrite Hso. fold bs. now rewrite Hb, S3.
Qed.

(** Repeated backward searches from a cursor on a block report the
    matches ahead of the cursor, and then no match. *)
Lemma findPreviousUntil_cursor (fuel : nat) :
  forall (e : Engine) (i j o : nat),
    frData e = Some data ->
    frPtr e = mkPtr (Num (Z.of_nat i)) (Num (Z.of_nat j)) (Num (Z.of_nat o)) ->
    validCursor all i j ->
    length (cursorHits all i j o) < fuel ->
    findPreviousUntilNoMatch fuel pattern useRegex e = Some (cursorHits all i j o).
Proof.
  induction fuel as [|fuel IH]; intros e i j o Hdata Hptr Hvalid Hfuel; [lia|].
  cbn [findPreviousUntilNoMatch]. unfold handleFindPreviousMatch.
  rewrite Hdata, (guard_false pattern useRegex Hsearch), Hptr.
  rewrite (findPrevious_at_cursor i j o Hvalid).
  destruct (cursorHits all i j o) as [|m rest] eqn:Hhits.
  - reflexivity.
  - cbn [firstFound recordSearch frMatch].
    apply cursorHitsBackward_tail in Hhits as [Hv Hhits].
    erewrite IH; [rewrite Hhits; reflexivity|exact Hdata|reflexivity|exact Hv|].
    rewrite Hhits. cbn [length] in Hfuel. lia.
Qed.

(** From the end of the document, repeated backward searches report
    all the backward matches of the record, last first. *)
Lemma findPreviousUntil_end (ptr : FindReplacePointer) (fuel : nat) :
  startsAtEnd data ptr ->
  length (scenesHits all (length all)) < fuel ->
  findPreviousUntilNoMatch fuel pattern useRegex (engineAt data ptr)
  = Some (scenesHits all (length all)).
Proof.
  intros Hend Hfuel. destruct fuel as [|fuel]; [lia|].
  cbn [findPreviousUntilNoMatch]. unfold handleFindPreviousMatch, engineAt.
  cbn [frData frPtr]. rewrite (guard_false pattern useRegex Hsearch).
  rewrite (findPrevious_from_end ptr Hend).
  destruct (scenesHits all (length all)) as [|m rest] eqn:Hhits.
  - reflexivity.
  - cbn [firstFound recordSearch frMatch].
    apply scenesHitsBackward_tail in Hhits as [Hv Hhits].
    erewrite findPreviousUntil_cursor;
      [rewrite Hhits; reflexivity|reflexivity|reflexivity|exact Hv|].
    rewrite Hhits. cbn [length] in Hfuel. lia.
Qed.

End BackwardEnumeration.

(* ================================================================== *)
(** * Forward and backward searches visit the same matches *)
(* ================================================================== *)

Lemma firstn_S_nth_error {A : Type} (l : list A) (n : nat) (x : A) :
  nth_error l n = Some x -> firstn (S n) l = firstn n l ++ [x].
Proof.
  revert n; induction l as [|y l IH]; intros [|n] H; cbn in *; try discriminate.
  - now injection H as ->.
  - f_equal. now apply IH.
Qed.

Lemma spanChain_In (next : nat -> option (nat * nat)) (step : nat * nat -> nat)
      (fuel s : nat) (sp : nat * nat) :
  In sp (spanChain next step fuel s) -> exists s', next s' = Some sp.
Proof.
  revert s; induction fuel as [|fuel IH]; intros s; cbn; [contradiction|].
  destruct (next s) as [x|] eqn:E; [|contradiction].
  intros [<-|Hin]; [eauto|]. eapply IH; eassumption.
Qed.

Section BlockSymmetry.
Context {host : RegExpHost}.

(** In literal mode a match is an occurrence of the pattern. *)
Lemma nextMatch_literal (pattern t : jsstring) (s idx len : nat) :
  pattern <> [] ->
  nextMatch pattern false t s = Some (idx, len) ->
  len = length pattern /\ 0 < len /\ idx <= length t
  /\ startsWith pattern (skipn idx t) = true.
Proof.
  intros Hp. unfold nextMatch, matchForward.
  destruct (indexOf pattern t s) as [i|] eqn:E; [|discriminate].
  intros I. injection I as <- <-.
  apply indexOf_Some in E as (_ & [H1 H2] & _).
  repeat split; auto. destruct pattern; [congruence|cbn; lia].
Qed.

(** Nothing matches at or after the end of the text. *)
Lemma nextMatch_past_end (pattern : jsstring) (useRegex : bool) (t : jsstring)
      (s : nat) :
  searchable pattern useRegex -> symmetricOn pattern useRegex t ->
  length t <= s -> nextMatch pattern useRegex t s = None.
Proof.
  intros Hsearch Hsym Hs.
  destruct (nextMatch pattern useRegex t s) as [[idx len]|] eqn:E; [|reflexivity].
  exfalso.
  pose proof (nextMatch_bounds pattern useRegex Hsearch _ _ _ _ E) as [B1 B2].
  destruct useRegex.
  - unfold symmetricOn, nextMatch, matchForward, searchable in *.
    destruct (RegExp_new pattern) as [re|] eqn:R; [|congruence].
    apply RegExp_exec_Some in E as (_ & _ & E3 & _).
    assert (idx = length t) by lia. subst idx.
    rewrite (Hsym re eq_refl) in E3. discriminate.
  - apply (nextMatch_literal pattern t s idx len Hsearch) in E
      as (-> & Hp & _ & Hocc).
    apply startsWith_length in Hocc. rewrite length_skipn in Hocc. lia.
Qed.

Lemma forwardChain_spans (pattern : jsstring) (useRegex : bool) (t : jsstring)
      (f s : nat) :
  searchable pattern useRegex -> symmetricOn pattern useRegex t ->
  forwardChain pattern useRegex f t s
  = spanChain (nextMatch pattern useRegex t) resumeAfter f s.
Proof.
  intros Hsearch Hsym.
  revert s; induction f as [|f IH]; intros s; [reflexivity|].
  rewrite forwardChain_S. cbn [spanChain].
  rewrite (guard_false pattern useRegex Hsearch).
  destruct (Nat.leb (length t) s && Nat.ltb 0 (length t)) eqn:Hskip.
  - apply andb_true_iff in Hskip as [Hs _]. apply Nat.leb_le in Hs.
    now rewrite nextMatch_past_end.
  - destruct (nextMatch pattern useRegex t s); [|reflexivity]. now rewrite IH.
Qed.

(** After a match, resuming one position later or after the match
    finds the same next match. *)
Lemma next_after (pattern : jsstring) (useRegex : bool) (t : jsstring)
      (s idx len : nat) :
  searchable pattern useRegex -> symmetricOn pattern useRegex t ->
  nextMatch pattern useRegex t s = Some (idx, len) ->
  nextMatch pattern useRegex t (backwardStep useRegex (idx, len))
  = nextMatch pattern useRegex t (resumeAfter (idx, len)).
Proof.
  intros Hsearch Hsym E. unfold backwardStep. destruct useRegex; [reflexivity|].
  cbn [fst].
  pose proof (nextMatch_literal pattern t s idx len Hsearch E)
    as (-> & Hp & Hidx & Hocc).
  assert (Hres : resumeAfter (idx, length pattern) = idx + length pattern).
  { unfold resumeAfter. cbn [fst snd].
    destruct (Nat.ltb_spec 0 (length pattern)); [reflexivity|lia]. }
  rewrite Hres.
  destruct (nextMatch pattern false t (S idx)) as [[i' l']|] eqn:E'.
  - pose proof (nextMatch_bounds pattern false Hsearch _ _ _ _ E') as [B1 B2].
    pose proof (nextMatch_literal pattern t _ _ _ Hsearch E')
      as (-> & _ & _ & Hocc').
    symmetry.
    apply (nextMatch_same pattern false Hsearch t (S idx)
             (idx + length pattern) i' (length pattern) E'); [lia|].
    unfold symmetricOn in Hsym. apply (Hsym idx i'); auto.
  - symmetry.
    apply (nextMatch_none pattern false Hsearch t (S idx)
             (idx + length pattern) E'); lia.
Qed.

Lemma spanChain_steps (pattern : jsstring) (useRegex : bool) (t : jsstring)
      (f s : nat) :
  searchable pattern useRegex -> symmetricOn pattern useRegex t ->
  spanChain (nextMatch pattern useRegex t) (backwardStep useRegex) f s
  = spanChain (nextMatch pattern useRegex t) resumeAfter f s.
Proof.
  intros Hsearch Hsym.
  revert s; induction f as [|f IH]; intros s; [reflexivity|]. cbn [spanChain].
  destruct (nextMatch pattern useRegex t s) as [[idx len]|] eqn:E; [|reflexivity].
  f_equal. rewrite IH. destruct f as [|f]; [reflexivity|]. cbn [spanChain].
  now rewrite (next_after pattern useRegex t s idx len Hsearch Hsym E).
Qed.

(** The forward chain of the block is the list of the backward
    search. *)
Lemma forwardChain_backwardSpans (pattern : jsstring) (useRegex : bool)
      (t : jsstring) :
  searchable pattern useRegex -> symmetricOn pattern useRegex t ->
  forwardChain pattern useRegex (chainFuel t) t 0 = backwardSpans pattern useRegex t.
Proof.
  intros Hsearch Hsym. unfold backwardSpans.
  now rewrite forwardChain_spans, spanChain_steps.
Qed.

(** Backward from the end of the block, the searches report the
    forward chain in reverse. *)
Lemma backwardChain_forwardChain (pattern : jsstring) (useRegex : bool)
      (t : jsstring) :
  searchable pattern useRegex -> symmetricOn pattern useRegex t ->
  backwardChain pattern useRegex (chainFuel t) t (Num (Z.of_nat (length t)))
  = rev (forwardChain pattern useRegex (chainFuel t) t 0).
Proof.
  intros Hsearch Hsym.
  destruct (backwardSpans_increasing pattern useRegex Hsearch t) as (_ & _ & Hlen).
  rewrite (backwardChain_rev pattern useRegex Hsearch)
    by (eapply Nat.le_lt_trans; [apply spansBefore_length|exact Hlen]).
  rewrite forwardChain_backwardSpans by assumption. f_equal.
  apply spansBefore_all. intros [idx len] Hin. cbn [fst ltNum].
  apply Z.ltb_lt. apply spanChain_In in Hin as (s' & E).
  pose proof (nextMatch_bounds pattern useRegex Hsearch _ _ _ _ E) as [B1 B2].
  destruct (Nat.lt_ge_cases idx (length t)) as [Hlt|Hge]; [lia|].
  pose proof (nextMatch_same pattern useRegex Hsearch t s' idx idx len E B1
                (Nat.le_refl _)) as E'.
  rewrite nextMatch_past_end in E' by assumption. discriminate.
Qed.

End BlockSymmetry.

Section RecordSymmetry.
Context {host : RegExpHost}.
Variable pattern : jsstring.
Variable useRegex : bool.
Hypothesis Hsearch : searchable pattern useRegex.

Lemma blocksHitsForward_app (i : nat) (sc : Scene) (l1 l2 : list Block) (j : nat) :
  blocksHitsForward pattern useRegex i sc (l1 ++ l2) j
  = blocksHitsForward pattern useRegex i sc l1 j
    ++ blocksHitsForward pattern useRegex i sc l2 (j + length l1).
Proof.
  revert j; induction l1 as [|b l1 IH]; intros j; cbn [app blocksHitsForward length].
  - now rewrite Nat.add_0_r.
  - rewrite IH, <- app_assoc. do 3 f_equal. lia.
Qed.

Lemma scenesHitsForward_app (l1 l2 : list (option Scene)) (i : nat) :
  scenesHitsForward pattern useRegex (l1 ++ l2) i
  = scenesHitsForward pattern useRegex l1 i
    ++ scenesHitsForward pattern useRegex l2 (i + length l1).
Proof.
  revert i; induction l1 as [|so l1 IH]; intros i; cbn [app scenesHitsForward length].
  - now rewrite Nat.add_0_r.
  - rewrite IH, <- app_assoc. do 3 f_equal. lia.
Qed.

Lemma blockHits_rev (i : nat) (sc : Scene) (j : nat) (b : Block) :
  (forall t, b = TextBlock t -> symmetricOn pattern useRegex t) ->
  blockHitsBackwardFull pattern useRegex i sc j b
  = rev (blockHitsForward pattern useRegex i sc j b 0).
Proof.
  intros Hsym. destruct b as [| |t]; try reflexivity.
  unfold blockHitsBackwardFull, blockHitsBackward, blockHitsForward.
  rewrite (backwardChain_forwardChain pattern useRegex t Hsearch (Hsym t eq_refl)).
  apply map_rev.
Qed.

Lemma blocksHits_rev (i : nat) (sc : Scene) (bs : list Block) (n : nat) :
  (forall t, In (TextBlock t) bs -> symmetricOn pattern useRegex t) ->
  n <= length bs ->
  blocksHitsBackward pattern useRegex i sc bs n
  = rev (blocksHitsForward pattern useRegex i sc (firstn n bs) 0).
Proof.
  intros Hsym. induction n as [|j IH]; intros Hn; [reflexivity|].
  cbn [blocksHitsBackward].
  destruct (nth_error bs j) as [b|] eqn:Hb;
    [|apply nth_error_None in Hb; lia].
  rewrite (firstn_S_nth_error _ _ _ Hb), blocksHitsForward_app, rev_app_distr.
  rewrite IH by lia. cbn [blocksHitsForward]. rewrite app_nil_r.
  rewrite length_firstn, Nat.min_l by lia. cbn [Nat.add].
  f_equal. apply blockHits_rev. intros t ->. apply Hsym.
  eapply nth_error_In; eassumption.
Qed.

Lemma scenesHits_rev (all : list (option Scene)) (n : nat) :
  (forall so t, In so all -> In (TextBlock t) (blocksOfScene so) ->
                symmetricOn pattern useRegex t) ->
  n <= length all ->
  scenesHitsBackward pattern useRegex all n
  = rev (scenesHitsForward pattern useRegex (firstn n all) 0).
Proof.
  intros Hsym. induction n as [|i IH]; intros Hn; [reflexivity|].
  cbn [scenesHitsBackward].
  destruct (nth_error all i) as [so|] eqn:Hso;
    [|apply nth_error_None in Hso; lia].
  rewrite (firstn_S_nth_error _ _ _ Hso), scenesHitsForward_app, rev_app_distr.
  rewrite IH by lia. cbn [scenesHitsForward]. rewrite app_nil_r.
  rewrite length_firstn, Nat.min_l by lia. cbn [Nat.add].
  f_equal. unfold sceneHitsBackward, sceneHitsForward.
  destruct so as [sc|]; [|reflexivity].
  rewrite blocksHits_rev, firstn_all; [reflexivity| |lia].
  intros t Hin. apply (Hsym (Some sc)); [|assumption].
  eapply nth_error_In; eassumption.
Qed.

End RecordSymmetry.

Lemma textBlocksOf_In (data : BackupData) (so : option Scene) (t : jsstring) :
  In so (scenesOf data) -> In (TextBlock t) (blocksOfScene so) ->
  In t (textBlocksOf data).
Proof.
  intros Hso Hb. unfold textBlocksOf. apply in_flat_map. exists so.
  split; [assumption|]. unfold textsOfBlocks. apply in_flat_map.
  exists (TextBlock t). split; [assumption|now left].
Qed.

Section InvalidBackward.
Context {host : RegExpHost}.
Variable pattern : jsstring.
Hypothesis Hbad : RegExp_new pattern = None.

Lemma blocksBackward_invalid (i : nat) (sc : Scene) (bs : list Block) (n : nat)
      (tp : FindReplacePointer) (m : FindReplaceMatch) (ptr : FindReplacePointer) :
  blocksBackward pattern true i sc bs n tp <> inr (Found m ptr).
Proof.
  revert tp; induction n as [|j IH]; intros tp; cbn [blocksBackward].
  - discriminate.
  - destruct (nth_error bs j) as [[| |blockText]|]; try apply IH.
    destruct (_ && _); [apply IH|].
    rewrite andb_false_r. unfold matchesBefore. rewrite Hbad. discriminate.
Qed.

Lemma scenesBackward_invalid (all : list (option Scene)) (n : nat)
      (tp : FindReplacePointer) (m : FindReplaceMatch) (ptr : FindReplacePointer) :
  scenesBackward pattern true all n tp <> Found m ptr.
Proof.
  revert tp; induction n as [|i IH]; intros tp; cbn [scenesBackward].
  - discriminate.
  - assert (Hscan : forall sc blocks,
               match blocksBackwardFrom pattern true i sc blocks tp with
               | inr out => out
               | inl tp' =>
                   scenesBackward pattern true all i
                     (setBlockOffset (numIs (scene tp') (Z.of_nat i)) maxNum tp')
               end <> Found m ptr).
    { intros sc blocks.
      destruct (blocksBackwardFrom pattern true i sc blocks tp) as [tp'|out] eqn:E.
      - apply IH.
      - intros ->. unfold blocksBackwardFrom in E.
        destruct (if numIs (scene tp) (Z.of_nat i)
                  then match block tp with
                       | Num z => Num (Z.min z (Z.of_nat (length blocks) - 1))
                       | _ => NaN
                       end
                  else Num (Z.of_nat (length blocks) - 1)); try discriminate.
        eapply blocksBackward_invalid; eassumption. }
    destruct (nth_error all i) as [[sc|]|]; try apply IH.
    destruct (text sc); try apply IH; apply Hscan.
Qed.

Lemma findPrevious_invalid (data : BackupData) (ptr : FindReplacePointer)
      (m : FindReplaceMatch) (p : FindReplacePointer) :
  findPreviousMatchInternal pattern true data ptr <> Found m p.
Proof.
  unfold findPreviousMatchInternal.
  destruct (revisions data) as [|rev0 others]; [discriminate|].
  destruct (scene (startBackward _ ptr)); try discriminate.
  destruct (Z.ltb z 0); [discriminate|]. apply scenesBackward_invalid.
Qed.

End InvalidBackward.

Section Symmetry.
Context {host : RegExpHost}.

(** With a pattern no search runs on, the first call already reports
    no match, in either direction. *)
Lemma unsearchable_visits (pattern : jsstring) (useRegex : bool)
      (data : BackupData) (ptr : FindReplacePointer) (fuel : nat) :
  ~ searchable pattern useRegex -> 0 < fuel ->
  findNextUntilNoMatch fuel pattern useRegex (engineAt data ptr) = Some []
  /\ findPreviousUntilNoMatch fuel pattern useRegex (engineAt data ptr) = Some [].
Proof.
  intros Hno Hfuel. destruct fuel as [|fuel]; [lia|].
  cbn [findNextUntilNoMatch findPreviousUntilNoMatch].
  unfold handleFindNextMatch, handleFindPreviousMatch, engineAt, searchable in *.
  cbn [frData frPtr]. destruct useRegex.
  - rewrite andb_false_r.
    destruct (RegExp_new pattern) eqn:R; [exfalso; apply Hno; discriminate|].
    split.
    + destruct (@findNext_invalid _ pattern data ptr R) as [-> | ->]; reflexivity.
    + pose proof (findPrevious_invalid pattern R data ptr) as H.
      destruct (findPreviousMatchInternal pattern true data ptr);
        [exfalso; eapply H; reflexivity|reflexivity|reflexivity].
  - destruct pattern as [|c p]; [|exfalso; apply Hno; discriminate].
    split; reflexivity.
Qed.

(** C1, amended: repeated [findNext] from the origin and repeated
    [findPrevious] from the end of the document visit the same
    matches in opposite orders when, in every text block, no two
    occurrences of a literal pattern overlap and a regular expression
    does not match at the very end of the text (in particular not on
    an empty text).  Both runs end: with one call more than there are
    matches each reports no match. *)
Theorem search_symmetry (pattern : jsstring) (useRegex : bool)
        (data : BackupData) (endPtr : FindReplacePointer) :
  symmetricCondition pattern useRegex data ->
  withinLimits data ->
  startsAtEnd data endPtr ->
  exists visited,
    (forall fuel, length visited < fuel ->
                  findNextUntilNoMatch fuel pattern useRegex (loaded data)
                  = Some visited)
    /\ (forall fuel, length visited < fuel ->
                     findPreviousUntilNoMatch fuel pattern useRegex
                       (engineAt data endPtr)
                     = Some (rev visited)).
Proof.
  intros Hsym Hlim Hend.
  assert (Hdec : searchable pattern useRegex \/ ~ searchable pattern useRegex).
  { unfold searchable. destruct useRegex.
    - destruct (RegExp_new pattern); [left; discriminate|right; congruence].
    - destruct pattern; [right; congruence|left; discriminate]. }
  destruct Hdec as [Hsearch|Hno].
  - exists (scenesHitsForward pattern useRegex (scenesOf data) 0). split.
    + intros fuel Hfuel. now apply findNextUntil_loaded.
    + intros fuel Hfuel.
      assert (Hrev : scenesHitsBackward pattern useRegex (scenesOf data)
                       (length (scenesOf data))
                     = rev (scenesHitsForward pattern useRegex (scenesOf data) 0)).
      { rewrite (scenesHits_rev pattern useRegex Hsearch), firstn_all;
          [reflexivity| |lia].
        intros so t Hso Hb. unfold symmetricCondition in Hsym.
        rewrite Forall_forall in Hsym. apply Hsym.
        eapply textBlocksOf_In; eassumption. }
      rewrite <- Hrev. apply findPreviousUntil_end; auto.
      rewrite Hrev, length_rev. exact Hfuel.
  - exists []. split; intros fuel Hfuel.
    + apply (unsearchable_visits pattern useRegex data origin fuel Hno Hfuel).
    + apply (unsearchable_visits pattern useRegex data endPtr fuel Hno Hfuel).
Qed.

End Symmetry.

(* ================================================================== *)
(** * Worked examples *)
(* ================================================================== *)

(** C1 fails as stated: in the single block "aaa" the literal pattern
    "aa" occurs at 0 and at 1.  [findNext] from the origin visits the
    occurrence at 0 only, and resumes after it; [findPrevious] from the
    end visits the occurrence at 1 and then the one at 0. *)
Lemma search_symmetry_fails_on_overlap :
  exists forward backward,
    findNextUntilNoMatch (host := exampleRegExpHost) 5 (js "aa") false
                         (loaded overlapRecord) = Some forward
    /\ findPreviousUntilNoMatch (host := exampleRegExpHost) 5 (js "aa") false
         (engineAt overlapRecord (mkPtr (Num 1) (Num 0) (Num 0))) = Some backward
    /\ List.map positionOf forward = [(0, 0, 0)]
    /\ List.map positionOf backward = [(0, 0, 1); (0, 0, 0)]
    /\ List.map positionOf forward <> rev (List.map positionOf backward).
Proof.
  eexists _, _. split; [vm_compute; reflexivity|].
  split; [vm_compute; reflexivity|].
  split; [reflexivity|]. split; [reflexivity|]. discriminate.
Qed.

(** In regex mode the two directions differ on an empty text block: the
    empty pattern matches it going forward, and never going backward. *)
Lemma search_symmetry_fails_on_empty_block :
  findNextUntilNoMatch (host := exampleRegExpHost) 5 [] true
                       (loaded (backupOf [sceneOf [[]]]))
  = Some [mkMatch 0 0 0 0 (js "Chapter") []]
  /\ findPreviousUntilNoMatch (host := exampleRegExpHost) 5 [] true
       (engineAt (backupOf [sceneOf [[]]]) (mkPtr (Num 1) (Num 0) (Num 0)))
     = Some [].
Proof. split; reflexivity. Qed.

Lemma search_symmetry_witness :
  symmetricCondition (host := exampleRegExpHost) (js "ab") true exampleRecord
  /\ withinLimits exampleRecord
  /\ startsAtEnd exampleRecord (mkPtr (Num 3) (Num 0) (Num 0))
  /\ exists visited,
      (forall fuel, length visited < fuel ->
                    findNextUntilNoMatch (host := exampleRegExpHost) fuel (js "ab") true
                                         (loaded exampleRecord)
                    = Some visited)
      /\ (forall fuel, length visited < fuel ->
                       findPreviousUntilNoMatch (host := exampleRegExpHost) fuel
                         (js "ab") true
                         (engineAt exampleRecord (mkPtr (Num 3) (Num 0) (Num 0)))
                       = Some (rev visited)).
Proof.
  assert (H1 : symmetricCondition (host := exampleRegExpHost) (js "ab") true
                                  exampleRecord).
  { repeat constructor; intros re H; injection H as <-; reflexivity. }
  assert (H2 : withinLimits exampleRecord).
  { repeat constructor; vm_compute; discriminate. }
  assert (H3 : startsAtEnd exampleRecord (mkPtr (Num 3) (Num 0) (Num 0))).
  { vm_compute. discriminate. }
  split; [exact H1|]. split; [exact H2|]. split; [exact H3|].
  exact (search_symmetry (host := exampleRegExpHost) (js "ab") true exampleRecord
                         (mkPtr (Num 3) (Num 0) (Num 0)) H1 H2 H3).
Defined.

(** C2 fails as stated: the package document sits at the root of the
    archive and the navigation document in [nav/].  The href
    [c1.xhtml] of the navigation document comes out as [c1.xhtml],
    resolved against the directory of the package document; resolved
    against the directory of the navigation document it is
    [nav/c1.xhtml]. *)
Lemma toc_directory_not_used :
  let zip := exampleZip exampleNav [] in
  locateToc (host := exampleEpubHost) zip
  = inl ([], js "nav/toc.xhtml", exampleNav, TocNav)
  /\ fst (getChapterListFromEpub (host := exampleEpubHost) zip)
     = [mkChapter (js "One") (js "c1.xhtml")]
  /\ resolvePath (host := exampleEpubHost) (js "c1.xhtml") (dirOf (js "nav/toc.xhtml"))
     = js "nav/c1.xhtml"
  /\ js "c1.xhtml" <> js "nav/c1.xhtml".
Proof.
  cbv zeta. split; [reflexivity|]. split; [reflexivity|].
  split; [reflexivity|]. discriminate.
Qed.

(** With the package document at the root of the archive a reference
    with relative segments comes out as it was written: the href of
    the chapter list is not an absolute archive path. *)
Lemma href_not_folded_at_root :
  let zip := exampleZip exampleNavRelative [] in
  findOpfPath (host := exampleEpubHost) zip = Some (js "content.opf", [])
  /\ fst (getChapterListFromEpub (host := exampleEpubHost) zip)
     = [mkChapter (js "One") (js "../x/./c1.xhtml")].
Proof. cbv zeta. split; reflexivity. Qed.

Lemma chapter_hrefs_witness :
  In (mkChapter (js "One") (js "c1.xhtml"))
     (fst (getChapterListFromEpub (host := exampleEpubHost) (exampleZip exampleNav [])))
  /\ exists opfPath tocPath tocContent tocType,
      findOpfPath (host := exampleEpubHost) (exampleZip exampleNav [])
      = Some (opfPath, dirOf opfPath)
      /\ locateToc (host := exampleEpubHost) (exampleZip exampleNav [])
         = inl (dirOf opfPath, tocPath, tocContent, tocType)
      /\ match tocType with
         | TocNcx =>
             exists ncxDoc point src,
               parseXml (EpubHost := exampleEpubHost) tocContent = Some ncxDoc
               /\ In point (navPoints ncxDoc)
               /\ truthy (contentSrc point) = Some src
               /\ js "c1.xhtml"
                  = resolvePath (host := exampleEpubHost) (beforeHash src) (dirOf opfPath)
               /\ (dirOf opfPath = [] ->
                   js "c1.xhtml" = stripLeadingSlash (beforeHash src))
         | TocNav =>
             exists navDoc links link,
               parseHtml (EpubHost := exampleEpubHost) tocContent = Some navDoc
               /\ tocLinks navDoc = Some links /\ In link links
               /\ js "c1.xhtml"
                  = resolvePath (host := exampleEpubHost) (beforeHash (linkHref link))
                                (dirOf opfPath)
               /\ (dirOf opfPath = [] ->
                   js "c1.xhtml" = stripLeadingSlash (beforeHash (linkHref link)))
         end.
Proof.
  assert (H : In (mkChapter (js "One") (js "c1.xhtml"))
                 (fst (getChapterListFromEpub (host := exampleEpubHost)
                         (exampleZip exampleNav [])))).
  { vm_compute. left. reflexivity. }
  split; [exact H|].
  exact (chapter_hrefs_resolved_against_package_dir
           (host := exampleEpubHost) (exampleZip exampleNav [])
           (mkChapter (js "One") (js "c1.xhtml")) H).
Defined.

(** C3 fails as stated: the engine holds the match of "aa" in "aaa";
    [findNext] with the pattern "[" in regex mode clears that match and
    shows the no-more-matches message, as for a search that found
    nothing.  On a record without a text block the same call does not
    even show the regex-error toast. *)
Lemma bad_regex_reports_no_match :
  let e' := handleFindNextMatch (host := exampleRegExpHost) (js "[") true overlapFound in
  RegExp_new (RegExpHost := exampleRegExpHost) (js "[") = None
  /\ frMatch overlapFound = Some overlapMatch
  /\ frMatch e' = None
  /\ frMatch e' <> frMatch overlapFound
  /\ currentMatchDisplay e' = DisplayNoMore (js "[")
  /\ toasts (handleFindNextMatch (host := exampleRegExpHost) (js "[") true
                                 (loaded (backupOf [None])))
     = [].
Proof.
  cbv zeta. split; [reflexivity|]. split; [reflexivity|]. split; [reflexivity|].
  split; [discriminate|]. split; reflexivity.
Qed.

(** The regex-error toast is not shown for every text block the scan
    passes: with the cursor at the end of the block "aaa" the block is
    given up before the pattern is compiled, and the call leaves no
    trace but the message. *)
Lemma bad_regex_silent_at_end_of_block :
  let e := engineAt overlapRecord (mkPtr (Num 0) (Num 0) (Num 3)) in
  let e' := handleFindNextMatch (host := exampleRegExpHost) (js "[") true e in
  blockTextAt e 0 0 = Some (js "aaa")
  /\ toasts e' = toasts e
  /\ currentMatchDisplay e' = DisplayNoMore (js "[").
Proof. cbv zeta. repeat split; reflexivity. Qed.

Lemma findNext_invalid_regex_witness :
  RegExp_new (RegExpHost := exampleRegExpHost) (js "[") = None
  /\ frData overlapFound = Some overlapRecord
  /\ let e' := handleFindNextMatch (host := exampleRegExpHost) (js "[") true
                                   overlapFound in
     frPtr e' = frPtr overlapFound /\ frData e' = frData overlapFound
     /\ frMatch e' = None
     /\ currentMatchDisplay e' = DisplayNoMore (js "[")
     /\ (toasts e' = ToastRegexError :: toasts overlapFound
         \/ toasts e' = toasts overlapFound)
     /\ (toasts e' = ToastRegexError :: toasts overlapFound
         <-> triesPattern overlapRecord (frPtr overlapFound)).
Proof.
  assert (H1 : RegExp_new (RegExpHost := exampleRegExpHost) (js "[") = None)
    by reflexivity.
  assert (H2 : frData overlapFound = Some overlapRecord) by reflexivity.
  split; [exact H1|]. split; [exact H2|].
  exact (findNext_invalid_regex (host := exampleRegExpHost) (js "[") overlapFound
                                overlapRecord H1 H2).
Defined.

Lemma replaceOne_splices_witness :
  frMatch overlapFound = Some overlapMatch
  /\ blockTextAt overlapFound 0 0 = Some (js "aaa")
  /\ 0 + 2 <= length (js "aaa")
  /\ let e' := handleReplaceMatch (js "$&") overlapFound in
     blockTextAt e' 0 0 = Some ([] ++ js "$&" ++ js "a")
     /\ frPtr e' = mkPtr (Num 0) (Num 0) (Num 2)
     /\ frMatch e' = None.
Proof.
  assert (H1 : frMatch overlapFound = Some overlapMatch) by reflexivity.
  assert (H2 : blockTextAt overlapFound (sceneIndex overlapMatch)
                           (blockIndex overlapMatch) = Some (js "aaa")) by reflexivity.
  assert (H3 : matchIndex overlapMatch + matchLength overlapMatch <= length (js "aaa"))
    by (vm_compute; lia).
  split; [exact H1|]. split; [exact H2|]. split; [exact H3|].
  exact (replaceOne_splices (js "$&") overlapFound overlapMatch (js "aaa") H1 H2 H3).
Defined.

Lemma replaceAll_count_witness :
  js "aa" <> []
  /\ frData (loaded countedRecord) = Some countedRecord
  /\ wellFormed countedRecord
  /\ replaceAllCount (host := exampleRegExpHost) (js "aa") (js "b") false 7
                     (loaded countedRecord)
     = Some (occurrencesInRecord (js "aa") countedRecord)
  /\ occurrencesInRecord (js "aa") countedRecord = 4.
Proof.
  assert (H1 : js "aa" <> []) by discriminate.
  assert (H2 : frData (loaded countedRecord) = Some countedRecord) by reflexivity.
  assert (H3 : wellFormed countedRecord).
  { split; [discriminate|]. repeat constructor; discriminate. }
  split; [exact H1|]. split; [exact H2|]. split; [exact H3|].
  split; [|reflexivity].
  exact (replaceAll_count_literal (host := exampleRegExpHost) (js "aa") (js "b") H1 7
                                  (loaded countedRecord) countedRecord H2 H3).
Defined.

(** C5 fails as stated: a [null] entry in a [blocks] array, which
    the loader accepts, makes the block loop throw.  The scene holds
    two occurrences of "aa", one before and one after the [null]; the
    count is 1: what was counted before the exception stays in the
    count, the rest of the scene is never looked at. *)
Lemma replaceAll_count_null_block :
  let data := backupOf [Some (mkScene None (TextBlocks [] [TextBlock (js "aa");
                                                       NullBlock;
                                                       TextBlock (js "aa")]))] in
  replaceAllCount (host := exampleRegExpHost) (js "aa") (js "b") false 7 (loaded data)
  = Some 1
  /\ occurrencesInRecord (js "aa") data = 2.
Proof. split; reflexivity. Qed.

(** C7 fails as stated: the first chapter of the list is empty and the
    second holds "Hello"; the one file of the output is named
    [C02.txt], by the position of the chapter in the list, and not
    [C01.txt]. *)
Lemma numbering_follows_position :
  fst (getChapterListFromEpub (host := exampleEpubHost) twoChapterZip)
  = [mkChapter (js "One") (js "c1.xhtml"); mkChapter (js "Two") (js "c2.xhtml")]
  /\ handleExtractChapters (host := exampleEpubHost) false 0 twoChapterZip
     = ([(js "C02.txt", js "Hello")], StatusExtracted 1)
  /\ js "C02.txt" <> js "C01.txt".
Proof. split; [reflexivity|]. split; [reflexivity|discriminate]. Qed.

Lemma extracted_files_witness :
  handleExtractChapters (host := exampleEpubHost) false 0 twoChapterZip
  = ([(js "C02.txt", js "Hello")], StatusExtracted 1)
  /\ 1 = length [(js "C02.txt", js "Hello")]
  /\ forall name data,
      In (name, data) [(js "C02.txt", js "Hello")]
      <-> exists i entry,
        nth_error (fst (getChapterListFromEpub (host := exampleEpubHost) twoChapterZip)) i
        = Some entry
        /\ included (host := exampleEpubHost) false 0 twoChapterZip entry = Some data
        /\ name = txtFilename i
        /\ numberOfFilename name = i + 1.
Proof.
  assert (H : handleExtractChapters (host := exampleEpubHost) false 0 twoChapterZip
              = ([(js "C02.txt", js "Hello")], StatusExtracted 1)) by reflexivity.
  split; [exact H|].
  exact (extracted_files_numbered_by_position (host := exampleEpubHost) false 0
           twoChapterZip [(js "C02.txt", js "Hello")] 1 H).
Defined.

(** C8 fails as stated: the two entries of the table of contents are
    links to fragments, [#a] and [#b]; both resolve to the empty path,
    and the resolved list holds no chapter reference at all for it. *)
Lemma empty_path_dropped :
  let zip := exampleZip exampleNavFragments [] in
  fst (chaptersOfToc (host := exampleEpubHost) zip)
  = [mkChapter (js "A") []; mkChapter (js "B") []]
  /\ fst (getChapterListFromEpub (host := exampleEpubHost) zip) = []
  /\ length (filter (fun c => jseqb (href c) [])
                    (fst (getChapterListFromEpub (host := exampleEpubHost) zip)))
     <> 1.
Proof. cbv zeta. split; [reflexivity|]. split; [reflexivity|discriminate]. Qed.

Lemma deduplicate_witness :
  let first := mkChapter (js "One") (js "a.xhtml") in
  let chapters := [first; mkChapter (js "Two") (js "b.xhtml");
                   mkChapter (js "Again") (js "a.xhtml")] in
  js "a.xhtml" <> []
  /\ find (fun c => jseqb (href c) (js "a.xhtml")) chapters = Some first
  /\ filter (fun c => jseqb (href c) (js "a.xhtml")) (deduplicateChapters chapters)
     = [first].
Proof.
  cbv zeta.
  assert (H1 : js "a.xhtml" <> []) by discriminate.
  split; [exact H1|]. split; [reflexivity|].
  exact (proj2 (proj2 (proj2
           (deduplicate_first_occurrence
              [mkChapter (js "One") (js "a.xhtml");
               mkChapter (js "Two") (js "b.xhtml");
               mkChapter (js "Again") (js "a.xhtml")])))
           (js "a.xhtml") (mkChapter (js "One") (js "a.xhtml")) H1 eq_refl).
Defined.

Lemma replacement_is_verbatim_witness :
  isEmpty (js "a") && negb true = false
  /\ replaceAllInText (host := exampleRegExpHost) (js "a") (js "$&") true (js "aba") 0 false
     = Some (js "$&b$&", (2, true))
  /\ exists e',
      handleReplaceAllMatches (host := exampleRegExpHost) (js "a") (js "$&") true 7
                              (loaded (backupOf [sceneOf [js "aba"]]))
      = Completed e'
      /\ blockTextAt e' 0 0 = Some (js "$&b$&").
Proof.
  assert (H : isEmpty (js "a") && negb true = false) by reflexivity.
  split; [exact H|].
  destruct (replacement_is_verbatim (host := exampleRegExpHost)
              (js "a") true (js "aba") H) as (_ & H2 & H3).
  split; [rewrite (H2 (js "$&") 0 false); reflexivity|].
  assert (Hc : exists e',
             handleReplaceAllMatches (host := exampleRegExpHost) (js "a") (js "$&")
                                     true 7 (loaded (backupOf [sceneOf [js "aba"]]))
             = Completed e')
    by (vm_compute; eexists; reflexivity).
  destruct Hc as [e' Hc]. exists e'. split; [exact Hc|].
  rewrite (H3 (js "$&") 7%Z (loaded (backupOf [sceneOf [js "aba"]])) e'
              (backupOf [sceneOf [js "aba"]]) 0%nat (sceneOf [js "aba"]) 0%nat
              eq_refl Hc eq_refl eq_refl).
  reflexivity.
Defined.

Lemma findNext_never_wraps_witness :
  findNextMatchInternal (host := exampleRegExpHost) (js "aa") false overlapRecord
                        (mkPtr (Num 1) (Num 0) (Num 0)) = NotFound
  /\ findNextMatchInternal (host := exampleRegExpHost) (js "aa") false overlapRecord
                           (mkPtr NaN (Num 7) (Num 7))
     = findNextMatchInternal (host := exampleRegExpHost) (js "aa") false overlapRecord
                             origin.
Proof.
  split.
  - apply (proj1 (findNext_never_wraps (host := exampleRegExpHost) (js "aa") false
                    overlapRecord (mkPtr (Num 1) (Num 0) (Num 0))) 1%Z eq_refl).
    vm_compute. discriminate.
  - apply (proj2 (findNext_never_wraps (host := exampleRegExpHost) (js "aa") false
                    overlapRecord (mkPtr NaN (Num 7) (Num 7)))).
    intros z H. discriminate.
Defined.


(* ================================================================== *)
(** * What a search reports *)
(* ================================================================== *)

Section Reports.
Context {host : RegExpHost}.
Variable pattern : jsstring.
Variable useRegex : bool.

Lemma matchForward_isMatch (t : jsstring) (s idx len : nat) :
  isEmpty pattern && negb useRegex = false ->
  matchForward pattern useRegex t s = Some (Some (idx, len)) ->
  isMatchOf pattern useRegex t idx len.
Proof.
  unfold matchForward, isMatchOf. intros G. destruct useRegex.
  - destruct (RegExp_new pattern) as [re|]; [|discriminate].
    intros H. injection H as H. apply RegExp_exec_Some in H as (_ & H2 & H3 & _).
    exists re. auto.
  - destruct (indexOf pattern t s) as [i|] eqn:E; [|discriminate].
    intros H. injection H as <- <-.
    apply indexOf_Some in E as (_ & Ho & _).
    pose proof (occursAt_bound _ _ _ Ho) as Hb. destruct Ho as [_ Hs].
    assert (pattern <> []) by (destruct pattern; [discriminate|discriminate]).
    repeat split; auto.
    rewrite substring_between by lia.
    replace (i + length pattern - i) with (length pattern) by lia.
    now apply startsWith_firstn.
Qed.

Lemma blocksForward_found (i : nat) (sc : Scene) (bs : list Block) (j : nat)
      (tp : FindReplacePointer) (m : FindReplaceMatch) (ptr : FindReplacePointer) :
  blocksForward pattern useRegex i sc bs j tp = inr (Found m ptr) ->
  exists k t,
    nth_error bs k = Some (TextBlock t)
    /\ isMatchOf pattern useRegex t (matchIndex m) (matchLength m)
    /\ m = matchAtPos i sc (j + k) t (matchIndex m, matchLength m)
    /\ ptr = ptrAfter m.
Proof.
  revert j tp; induction bs as [|b rest IH]; intros j tp; [discriminate|].
  assert (Hnext : forall tp',
             blocksForward pattern useRegex i sc rest (S j) tp' = inr (Found m ptr) ->
             exists k t,
               nth_error (b :: rest) k = Some (TextBlock t)
               /\ isMatchOf pattern useRegex t (matchIndex m) (matchLength m)
               /\ m = matchAtPos i sc (j + k) t (matchIndex m, matchLength m)
               /\ ptr = ptrAfter m).
  { intros tp' H. destruct (IH _ _ H) as (k & t & H1 & H2 & H3 & H4).
    exists (S k), t. replace (j + S k) with (S j + k) by lia. auto. }
  cbn [blocksForward]. destruct b as [|o|t]; try apply Hnext.
  destruct (Nat.leb _ _ && Nat.ltb _ _); [apply Hnext|].
  destruct (isEmpty pattern && negb useRegex) eqn:G; [apply Hnext|].
  destruct (matchForward pattern useRegex t _) as [[[idx len]|]|] eqn:E;
    [|apply Hnext|discriminate].
  intros H. injection H as <- <-.
  exists 0, t. rewrite Nat.add_0_r. cbn.
  split; [reflexivity|]. split; [|split; reflexivity].
  eapply matchForward_isMatch; eassumption.
Qed.

Lemma blocksForwardFrom_found (i : nat) (sc : Scene) (blocks : list Block)
      (tp : FindReplacePointer) (m : FindReplaceMatch) (ptr : FindReplacePointer) :
  blocksForwardFrom pattern useRegex i sc blocks tp = inr (Found m ptr) ->
  exists j t,
    nth_error blocks j = Some (TextBlock t)
    /\ isMatchOf pattern useRegex t (matchIndex m) (matchLength m)
    /\ m = matchAtPos i sc j t (matchIndex m, matchLength m)
    /\ ptr = ptrAfter m.
Proof.
  unfold blocksForwardFrom.
  destruct (if numIs (scene tp) (Z.of_nat i) then block tp else Num 0) as [| |z];
    try discriminate.
  destruct (Z.ltb z 0).
  - intros H. apply blocksForward_found in H as (k & t & H1 & H2 & H3 & H4).
    exists k, t. auto.
  - intros H. apply blocksForward_found in H as (k & t & H1 & H2 & H3 & H4).
    exists (Z.to_nat z + k), t. rewrite nth_error_skipn in H1. auto.
Qed.

Lemma scenesForward_found (rest : list (option Scene)) (i : nat)
      (tp : FindReplacePointer) (m : FindReplaceMatch) (ptr : FindReplacePointer) :
  scenesForward pattern useRegex rest i tp = Found m ptr ->
  exists k sc t,
    nth_error rest k = Some (Some sc)
    /\ nth_error (blocksOfScene (Some sc)) (blockIndex m) = Some (TextBlock t)
    /\ isMatchOf pattern useRegex t (matchIndex m) (matchLength m)
    /\ m = matchAtPos (i + k) sc (blockIndex m) t (matchIndex m, matchLength m)
    /\ ptr = ptrAfter m.
Proof.
  revert i tp; induction rest as [|so rest IH]; intros i tp; [discriminate|].
  assert (Hnext : forall tp',
             scenesForward pattern useRegex rest (S i) tp' = Found m ptr ->
             exists k sc t,
               nth_error (so :: rest) k = Some (Some sc)
               /\ nth_error (blocksOfScene (Some sc)) (blockIndex m)
                  = Some (TextBlock t)
               /\ isMatchOf pattern useRegex t (matchIndex m) (matchLength m)
               /\ m = matchAtPos (i + k) sc (blockIndex m) t
                                 (matchIndex m, matchLength m)
               /\ ptr = ptrAfter m).
  { intros tp' H. destruct (IH _ _ H) as (k & sc & t & H1 & H2 & H3 & H4 & H5).
    exists (S k), sc, t. replace (i + S k) with (S i + k) by lia. auto. }
  cbn [scenesForward]. destruct so as [sc|]; [|apply Hnext].
  assert (Hscan : forall blocks,
             blocksOfScene (Some sc) = blocks ->
             match blocksForwardFrom pattern useRegex i sc blocks tp with
             | inr out => out
             | inl tp' =>
                 scenesForward pattern useRegex rest (S i)
                   (setBlockOffset (numIs (scene tp') (Z.of_nat i)) (Num 0) tp')
             end = Found m ptr ->
             exists k sc' t,
               nth_error (Some sc :: rest) k = Some (Some sc')
               /\ nth_error (blocksOfScene (Some sc')) (blockIndex m)
                  = Some (TextBlock t)
               /\ isMatchOf pattern useRegex t (matchIndex m) (matchLength m)
               /\ m = matchAtPos (i + k) sc' (blockIndex m) t
                                 (matchIndex m, matchLength m)
               /\ ptr = ptrAfter m).
  { intros blocks Hb.
    destruct (blocksForwardFrom pattern useRegex i sc blocks tp) as [tp'|out] eqn:E.
    - apply Hnext.
    - intros ->. apply blocksForwardFrom_found in E as (j & t & H1 & H2 & H3 & H4).
      exists 0, sc, t. rewrite Nat.add_0_r.
      assert (blockIndex m = j) as -> by (rewrite H3; reflexivity).
      rewrite Hb. auto. }
  destruct (text sc) as [| |iterable|members blocks] eqn:T; try apply Hnext.
  - apply Hscan. unfold blocksOfScene. now rewrite T.
  - apply Hscan. unfold blocksOfScene. now rewrite T.
Qed.

(** X1: What [findNext] reports is a match: the position it names is that
    of a text block of the record, the pattern matches there with the
    reported length, the title and the line are those of that block,
    and the cursor is left right after the match (one position further
    when the match is empty). *)
Theorem findNext_reports_a_match (data : BackupData) (ptr : FindReplacePointer)
        (m : FindReplaceMatch) (ptr' : FindReplacePointer) :
  findNextMatchInternal pattern useRegex data ptr = Found m ptr' ->
  exists blockText,
    reportedIn data m blockText
    /\ isMatchOf pattern useRegex blockText (matchIndex m) (matchLength m)
    /\ ptr' = ptrAfter m.
Proof.
  unfold findNextMatchInternal, reportedIn, scenesOf.
  destruct (revisions data) as [|rev0 others]; [discriminate|].
  destruct (scene (startForward ptr)) as [| |z]; try discriminate.
  destruct (Z.leb _ z); [discriminate|].
  intros H. apply scenesForward_found in H as (k & sc & t & H1 & H2 & H3 & H4 & H5).
  rewrite nth_error_skipn in H1.
  assert (Hi : sceneIndex m = Z.to_nat z + k) by (rewrite H4; reflexivity).
  exists t. split; [|auto].
  exists sc. rewrite Hi. split; [exact H1|]. split; [exact H2|].
  rewrite H4. cbn. auto.
Qed.

Lemma collectLiteral_In (fuel : nat) (t : jsstring) (se : jsnum) (from : nat)
      (acc : list (nat * nat)) (sp : nat * nat) :
  In sp (collectLiteral pattern fuel t se from acc) ->
  In sp acc
  \/ (occursAt pattern t (fst sp) /\ snd sp = length pattern
      /\ ltNum (fst sp) se = true).
Proof.
  revert from acc; induction fuel as [|fuel IH]; intros from acc; cbn [collectLiteral];
    [auto|].
  destruct (indexOf pattern t from) as [idx|] eqn:E; [|auto].
  destruct (ltNum idx se) eqn:L; [|auto].
  intros H. apply IH in H as [H|H]; [|auto].
  apply in_app_or in H as [H|[<-|[]]]; [auto|].
  right. apply indexOf_Some in E as (_ & Ho & _). auto.
Qed.

Lemma collectRegex_In (fuel : nat) (re : RegExp) (t : jsstring) (se : jsnum)
      (lastIndex : nat) (acc : list (nat * nat)) (sp : nat * nat) :
  In sp (collectRegex fuel re t se lastIndex acc) ->
  In sp acc
  \/ (matchAt re t (fst sp) = Some (snd sp) /\ fst sp <= length t
      /\ ltNum (fst sp) se = true).
Proof.
  revert lastIndex acc; induction fuel as [|fuel IH]; intros lastIndex acc;
    cbn [collectRegex]; [auto|].
  destruct (RegExp_exec re t lastIndex) as [[idx len]|] eqn:E; [|auto].
  destruct (ltNum idx se) eqn:L; [|auto].
  intros H. apply IH in H as [H|H]; [|auto].
  apply in_app_or in H as [H|[<-|[]]]; [auto|].
  right. apply RegExp_exec_Some in E as (_ & H2 & H3 & _). auto.
Qed.

Lemma matchesBefore_isMatch (t : jsstring) (se : jsnum) (ms : list (nat * nat))
      (idx len : nat) :
  isEmpty pattern && negb useRegex = false ->
  matchesBefore pattern useRegex t se = Some ms ->
  lastOf ms = Some (idx, len) ->
  isMatchOf pattern useRegex t idx len /\ ltNum idx se = true.
Proof.
  intros G Hms Hlast.
  assert (Hin : In (idx, len) ms).
  { destruct (lastOf_cases ms) as [[_ H]|(front & sp & -> & H)]; [congruence|].
    rewrite H in Hlast. injection Hlast as ->. apply in_or_app. right. now left. }
  unfold matchesBefore, isMatchOf in *. destruct useRegex.
  - destruct (RegExp_new pattern) as [re|]; [|discriminate].
    assert (Hc : ms = collectRegex (S (S (length t))) re t se 0 []) by congruence.
    rewrite Hc in Hin. apply collectRegex_In in Hin as [[]|(H1 & H2 & H3)].
    split; [|exact H3]. exists re. auto.
  - assert (Hc : ms = collectLiteral pattern (S (S (length t))) t se 0 [])
      by congruence.
    rewrite Hc in Hin. apply collectLiteral_In in Hin as [[]|(H1 & H2 & H3)].
    cbn [fst snd] in *. subst len. split; [|exact H3].
    pose proof (occursAt_bound _ _ _ H1) as Hb. destruct H1 as [_ Hs].
    assert (pattern <> []) by (destruct pattern; [discriminate|discriminate]).
    repeat split; auto.
    rewrite substring_between by lia.
    replace (idx + length pattern - idx) with (length pattern) by lia.
    now apply startsWith_firstn.
Qed.

Lemma blocksBackward_found (i : nat) (sc : Scene) (blocks : list Block) (n : nat)
      (tp : FindReplacePointer) (m : FindReplaceMatch) (ptr : FindReplacePointer) :
  blocksBackward pattern useRegex i sc blocks n tp = inr (Found m ptr) ->
  exists j t,
    j < n /\ nth_error blocks j = Some (TextBlock t)
    /\ isMatchOf pattern useRegex t (matchIndex m) (matchLength m)
    /\ m = matchAtPos i sc j t (matchIndex m, matchLength m)
    /\ ptr = ptrAt m.
Proof.
  revert tp; induction n as [|j IH]; intros tp; [discriminate|].
  assert (Hnext : forall tp',
             blocksBackward pattern useRegex i sc blocks j tp' = inr (Found m ptr) ->
             exists j' t,
               j' < S j /\ nth_error blocks j' = Some (TextBlock t)
               /\ isMatchOf pattern useRegex t (matchIndex m) (matchLength m)
               /\ m = matchAtPos i sc j' t (matchIndex m, matchLength m)
               /\ ptr = ptrAt m).
  { intros tp' H. destruct (IH _ H) as (j' & t & H0 & H1 & H2 & H3 & H4).
    exists j', t. auto. }
  cbn [blocksBackward]. destruct (nth_error blocks j) as [[|o|t]|] eqn:Hb;
    try apply Hnext.
  destruct (leZero _ && Nat.ltb _ _); [apply Hnext|].
  destruct (isEmpty pattern && negb useRegex) eqn:G; [apply Hnext|].
  destruct (matchesBefore pattern useRegex t _) as [ms|] eqn:E; [|discriminate].
  destruct (lastOf ms) as [[idx len]|] eqn:L; [|apply Hnext].
  intros H. injection H as <- <-.
  exists j, t. cbn. split; [lia|]. split; [exact Hb|].
  split; [|split; reflexivity].
  eapply matchesBefore_isMatch; eassumption.
Qed.

Lemma scenesBackward_found (all : list (option Scene)) (n : nat)
      (tp : FindReplacePointer) (m : FindReplaceMatch) (ptr : FindReplacePointer) :
  scenesBackward pattern useRegex all n tp = Found m ptr ->
  exists sc t,
    nth_error all (sceneIndex m) = Some (Some sc)
    /\ nth_error (blocksOfScene (Some sc)) (blockIndex m) = Some (TextBlock t)
    /\ isMatchOf pattern useRegex t (matchIndex m) (matchLength m)
    /\ m = matchAtPos (sceneIndex m) sc (blockIndex m) t (matchIndex m, matchLength m)
    /\ ptr = ptrAt m.
Proof.
  revert tp; induction n as [|i IH]; intros tp; [discriminate|].
  cbn [scenesBackward].
  destruct (nth_error all i) as [[sc|]|] eqn:Hs; try apply IH.
  assert (Hscan : forall blocks,
             blocksOfScene (Some sc) = blocks ->
             match blocksBackwardFrom pattern useRegex i sc blocks tp with
             | inr out => out
             | inl tp' =>
                 scenesBackward pattern useRegex all i
                   (setBlockOffset (numIs (scene tp') (Z.of_nat i)) maxNum tp')
             end = Found m ptr ->
             exists sc' t,
               nth_error all (sceneIndex m) = Some (Some sc')
               /\ nth_error (blocksOfScene (Some sc')) (blockIndex m)
                  = Some (TextBlock t)
               /\ isMatchOf pattern useRegex t (matchIndex m) (matchLength m)
               /\ m = matchAtPos (sceneIndex m) sc' (blockIndex m) t
                                 (matchIndex m, matchLength m)
               /\ ptr = ptrAt m).
  { intros blocks Hb.
    destruct (blocksBackwardFrom pattern useRegex i sc blocks tp) as [tp'|out] eqn:E.
    - apply IH.
    - intros ->. unfold blocksBackwardFrom in E.
      destruct (if numIs (scene tp) (Z.of_nat i)
                then match block tp with
                     | Num z => Num (Z.min z (Z.of_nat (length blocks) - 1))
                     | _ => NaN
                     end
                else Num (Z.of_nat (length blocks) - 1)) as [| |z]; try discriminate.
      apply blocksBackward_found in E as (j & t & _ & H1 & H2 & H3 & H4).
      exists sc, t.
      assert (sceneIndex m = i) as -> by (rewrite H3; reflexivity).
      assert (blockIndex m = j) as -> by (rewrite H3; reflexivity).
      rewrite Hb. auto. }
  destruct (text sc) as [| |iterable|members blocks] eqn:T; try apply IH.
  - apply Hscan. unfold blocksOfScene. now rewrite T.
  - apply Hscan. unfold blocksOfScene. now rewrite T.
Qed.

(** X2: What [findPrevious] reports is a match as well, and it leaves the
    cursor at the start of the match. *)
Theorem findPrevious_reports_a_match (data : BackupData) (ptr : FindReplacePointer)
        (m : FindReplaceMatch) (ptr' : FindReplacePointer) :
  findPreviousMatchInternal pattern useRegex data ptr = Found m ptr' ->
  exists blockText,
    reportedIn data m blockText
    /\ isMatchOf pattern useRegex blockText (matchIndex m) (matchLength m)
    /\ ptr' = ptrAt m.
Proof.
  unfold findPreviousMatchInternal, reportedIn, scenesOf.
  destruct (revisions data) as [|rev0 others]; [discriminate|].
  destruct (scene (startBackward _ ptr)) as [| |z]; try discriminate.
  destruct (Z.ltb z 0); [discriminate|].
  intros H. apply scenesBackward_found in H as (sc & t & H1 & H2 & H3 & H4 & H5).
  exists t. split; [|auto].
  exists sc. split; [exact H1|]. split; [exact H2|].
  rewrite H4. cbn. auto.
Qed.

End Reports.

(* ================================================================== *)
(** * Successive searches move on *)
(* ================================================================== *)

Section Progress.
Context {host : RegExpHost}.
Variable pattern : jsstring.
Variable useRegex : bool.
Hypothesis Hsearch : searchable pattern useRegex.

Lemma forwardChain_from (f : nat) (t : jsstring) (s : nat) (sp : nat * nat) :
  In sp (forwardChain pattern useRegex f t s) -> s <= fst sp.
Proof.
  revert s; induction f as [|f IH]; intros s; [contradiction|].
  rewrite forwardChain_S.
  destruct (Nat.leb (length t) s && Nat.ltb 0 (length t)); [contradiction|].
  destruct (isEmpty pattern && negb useRegex); [contradiction|].
  destruct (nextMatch pattern useRegex t s) as [[idx len]|] eqn:E; [|contradiction].
  pose proof (nextMatch_bounds pattern useRegex Hsearch _ _ _ _ E) as [B _].
  intros [<-|H]; [exact B|].
  apply IH in H. pose proof (resumeAfter_gt (idx, len)) as R. cbn [fst] in R. lia.
Qed.

Lemma blockHitsForward_ahead (i : nat) (sc : Scene) (j : nat) (b : Block) (o : nat)
      (m : FindReplaceMatch) :
  In m (blockHitsForward pattern useRegex i sc j b o) ->
  sceneIndex m = i /\ blockIndex m = j /\ o <= matchIndex m.
Proof.
  unfold blockHitsForward. destruct b as [| |t]; try contradiction.
  intros H. apply in_map_iff in H as (sp & <- & H).
  apply forwardChain_from in H. cbn. auto.
Qed.

Lemma blocksHitsForward_ahead (i : nat) (sc : Scene) (bs : list Block) (j0 : nat)
      (m : FindReplaceMatch) :
  In m (blocksHitsForward pattern useRegex i sc bs j0) ->
  sceneIndex m = i /\ j0 <= blockIndex m.
Proof.
  revert j0; induction bs as [|b rest IH]; intros j0; [contradiction|].
  cbn [blocksHitsForward]. intros H. apply in_app_or in H as [H|H].
  - apply blockHitsForward_ahead in H. lia.
  - apply IH in H. lia.
Qed.

Lemma scenesHitsForward_ahead (ss : list (option Scene)) (i0 : nat)
      (m : FindReplaceMatch) :
  In m (scenesHitsForward pattern useRegex ss i0) -> i0 <= sceneIndex m.
Proof.
  revert i0; induction ss as [|so rest IH]; intros i0; [contradiction|].
  cbn [scenesHitsForward]. intros H. apply in_app_or in H as [H|H].
  - destruct so as [sc|]; [|contradiction].
    apply blocksHitsForward_ahead in H. lia.
  - apply IH in H. lia.
Qed.

Lemma cursorHitsForward_ahead (all : list (option Scene)) (i j o : nat)
      (m : FindReplaceMatch) :
  In m (cursorHitsForward pattern useRegex all i j o) ->
  positionLe (i, j, o) (positionOf m).
Proof.
  unfold cursorHitsForward, positionLe, positionLt, positionOf.
  destruct (nth_error all i) as [so|]; [|contradiction].
  intros H. apply in_app_or in H as [H|H].
  - destruct so as [sc|]; [|contradiction].
    apply in_app_or in H as [H|H].
    + destruct (nth_error (blocksOfScene (Some sc)) j) as [b|]; [|contradiction].
      apply blockHitsForward_ahead in H as (-> & -> & H).
      destruct (Nat.eq_dec o (matchIndex m)) as [->|N]; [now right|].
      left. right. split; [reflexivity|]. right. split; [reflexivity|lia].
    + apply blocksHitsForward_ahead in H as (-> & H).
      left. right. split; [reflexivity|]. left. lia.
  - apply scenesHitsForward_ahead in H. left. left. lia.
Qed.

(** A forward search from a cursor with natural coordinates never
    reports a match behind the cursor. *)
Lemma findNext_ahead (data : BackupData) (i j o : nat) (m : FindReplaceMatch)
      (ptr' : FindReplacePointer) :
  findNextMatchInternal pattern useRegex data
    (mkPtr (Num (Z.of_nat i)) (Num (Z.of_nat j)) (Num (Z.of_nat o))) = Found m ptr' ->
  positionLe (i, j, o) (positionOf m).
Proof.
  rewrite (findNext_at_cursor pattern useRegex Hsearch).
  destruct (cursorHitsForward pattern useRegex (scenesOf data) i j o) as [|m0 rest] eqn:E;
    [discriminate|].
  intros H. injection H as <- _. apply (cursorHitsForward_ahead (scenesOf data) i j o).
  rewrite E. now left.
Qed.

Lemma backwardChain_before (f : nat) (t : jsstring) (se : jsnum) (sp : nat * nat) :
  In sp (backwardChain pattern useRegex f t se) -> ltNum (fst sp) se = true.
Proof.
  revert se; induction f as [|f IH]; intros se; [contradiction|].
  rewrite (backwardChain_S pattern useRegex).
  destruct (leZero se && Nat.ltb 0 (length t)); [contradiction|].
  destruct (isEmpty pattern && negb useRegex) eqn:G; [contradiction|].
  destruct (matchesBefore pattern useRegex t se) as [ms|] eqn:E; [|contradiction].
  destruct (lastOf ms) as [[idx len]|] eqn:L; [|contradiction].
  destruct (matchesBefore_isMatch pattern useRegex t se ms idx len G E L) as [_ Hlt].
  intros [<-|H]; [exact Hlt|].
  apply IH in H. cbn [fst] in *.
  destruct se as [| |z]; try discriminate. cbn [ltNum] in *.
  apply Z.ltb_lt in H, Hlt. apply Z.ltb_lt. lia.
Qed.

Lemma blockHitsBackward_before (i : nat) (sc : Scene) (j : nat) (b : Block)
      (se : jsnum) (m : FindReplaceMatch) :
  In m (blockHitsBackward pattern useRegex i sc j b se) ->
  sceneIndex m = i /\ blockIndex m = j /\ ltNum (matchIndex m) se = true.
Proof.
  unfold blockHitsBackward. destruct b as [| |t]; try contradiction.
  intros H. apply in_map_iff in H as (sp & <- & H).
  apply backwardChain_before in H. cbn. auto.
Qed.

Lemma blocksHitsBackward_before (i : nat) (sc : Scene) (bs : list Block) (n : nat)
      (m : FindReplaceMatch) :
  In m (blocksHitsBackward pattern useRegex i sc bs n) ->
  sceneIndex m = i /\ blockIndex m < n.
Proof.
  induction n as [|j IH]; [contradiction|].
  cbn [blocksHitsBackward]. intros H. apply in_app_or in H as [H|H].
  - destruct (nth_error bs j) as [b|]; [|contradiction].
    unfold blockHitsBackwardFull in H. destruct b as [| |t]; try contradiction.
    apply blockHitsBackward_before in H. lia.
  - apply IH in H. lia.
Qed.

Lemma scenesHitsBackward_before (all : list (option Scene)) (n : nat)
      (m : FindReplaceMatch) :
  In m (scenesHitsBackward pattern useRegex all n) -> sceneIndex m < n.
Proof.
  induction n as [|i IH]; [contradiction|].
  cbn [scenesHitsBackward]. intros H. apply in_app_or in H as [H|H].
  - destruct (nth_error all i) as [[sc|]|]; try contradiction.
    apply blocksHitsBackward_before in H. lia.
  - apply IH in H. lia.
Qed.

Lemma cursorHitsBackward_before (all : list (option Scene)) (i j o : nat)
      (m : FindReplaceMatch) :
  In m (cursorHitsBackward pattern useRegex all i j o) ->
  positionLt (positionOf m) (i, j, o).
Proof.
  unfold cursorHitsBackward, positionLt, positionOf.
  intros H. apply in_app_or in H as [H|H].
  - destruct (nth_error all i) as [[sc|]|]; try contradiction.
    apply in_app_or in H as [H|H].
    + destruct (nth_error (blocksOfScene (Some sc)) j) as [b|]; [|contradiction].
      apply blockHitsBackward_before in H as (-> & -> & H).
      cbn [ltNum] in H. apply Z.ltb_lt in H.
      right. split; [reflexivity|]. right. split; [reflexivity|lia].
    + apply blocksHitsBackward_before in H as (-> & H).
      right. split; [reflexivity|]. left. lia.
  - apply scenesHitsBackward_before in H. left. lia.
Qed.

(** A backward search from a cursor on a block reports a match that
    starts before the cursor. *)
Lemma findPrevious_before (data : BackupData) (i j o : nat) (m : FindReplaceMatch)
      (ptr' : FindReplacePointer) :
  withinLimits data -> validCursor (scenesOf data) i j ->
  findPreviousMatchInternal pattern useRegex data
    (mkPtr (Num (Z.of_nat i)) (Num (Z.of_nat j)) (Num (Z.of_nat o))) = Found m ptr' ->
  positionLt (positionOf m) (i, j, o).
Proof.
  intros Hl Hv.
  rewrite (findPrevious_at_cursor pattern useRegex Hsearch data Hl i j o Hv).
  destruct (cursorHitsBackward pattern useRegex (scenesOf data) i j o) as [|m0 rest] eqn:E;
    [discriminate|].
  intros H. injection H as <- _. apply (cursorHitsBackward_before (scenesOf data) i j o).
  rewrite E. now left.
Qed.

End Progress.

Section Advance.
Context {host : RegExpHost}.
Variable pattern : jsstring.
Variable useRegex : bool.

Lemma isMatchOf_searchable (t : jsstring) (idx len : nat) :
  isMatchOf pattern useRegex t idx len -> searchable pattern useRegex.
Proof.
  unfold isMatchOf, searchable. destruct useRegex.
  - intros (re & H & _). congruence.
  - intros (H & _). exact H.
Qed.

Lemma findNext_found (data : BackupData) (ptr : FindReplacePointer)
      (m : FindReplaceMatch) (ptr' : FindReplacePointer) :
  findNextMatchInternal pattern useRegex data ptr = Found m ptr' ->
  searchable pattern useRegex /\ ptr' = ptrAfter m
  /\ validCursor (scenesOf data) (sceneIndex m) (blockIndex m).
Proof.
  unfold findNextMatchInternal, scenesOf, validCursor.
  destruct (revisions data) as [|rev0 others]; [discriminate|].
  destruct (scene (startForward ptr)) as [| |z]; try discriminate.
  destruct (Z.leb _ z); [discriminate|].
  intros H.
  apply scenesForward_found in H as (k & sc & t & H1 & H2 & H3 & H4 & H5).
  rewrite nth_error_skipn in H1.
  assert (Hi : sceneIndex m = Z.to_nat z + k) by (rewrite H4; reflexivity).
  split; [eapply isMatchOf_searchable; eassumption|]. split; [exact H5|].
  exists sc, (TextBlock t). rewrite Hi. auto.
Qed.

Lemma findPrevious_found (data : BackupData) (ptr : FindReplacePointer)
      (m : FindReplaceMatch) (ptr' : FindReplacePointer) :
  findPreviousMatchInternal pattern useRegex data ptr = Found m ptr' ->
  searchable pattern useRegex /\ ptr' = ptrAt m
  /\ validCursor (scenesOf data) (sceneIndex m) (blockIndex m).
Proof.
  unfold findPreviousMatchInternal, scenesOf, validCursor.
  destruct (revisions data) as [|rev0 others]; [discriminate|].
  destruct (scene (startBackward _ ptr)) as [| |z]; try discriminate.
  destruct (Z.ltb z 0); [discriminate|].
  intros H. apply scenesBackward_found in H as (sc & t & H1 & H2 & H3 & H4 & H5).
  split; [eapply isMatchOf_searchable; eassumption|]. split; [exact H5|].
  exists sc, (TextBlock t). auto.
Qed.

(** X3: Two forward searches in a row: the second match starts at or after
    the point where the first search left the cursor, so it is a later
    match that does not overlap the first. *)
Theorem findNext_advances (data : BackupData) (ptr : FindReplacePointer)
        (m1 m2 : FindReplaceMatch) (ptr1 ptr2 : FindReplacePointer) :
  findNextMatchInternal pattern useRegex data ptr = Found m1 ptr1 ->
  findNextMatchInternal pattern useRegex data ptr1 = Found m2 ptr2 ->
  positionLe (sceneIndex m1, blockIndex m1, resumeOffset m1) (positionOf m2)
  /\ positionLt (positionOf m1) (positionOf m2).
Proof.
  intros H1 H2. apply findNext_found in H1 as (Hs & -> & _).
  unfold ptrAfter in H2. apply (findNext_ahead pattern useRegex Hs) in H2.
  split; [exact H2|].
  assert (Hr : matchIndex m1 < resumeOffset m1)
    by (unfold resumeOffset; destruct (Nat.ltb_spec 0 (matchLength m1)); lia).
  revert H2 Hr. unfold resumeOffset, positionLe, positionLt, positionOf.
  intros [H|H] Hr.
  - destruct H as [H|(-> & [H|(-> & H)])]; [auto|auto|].
    right. split; [reflexivity|]. right. split; [reflexivity|]. lia.
  - injection H as <- <- <-.
    right. split; [reflexivity|]. right. split; [reflexivity|]. lia.
Qed.

(** X4: Two backward searches in a row: the second match starts before
    the first. *)
Theorem findPrevious_retreats (data : BackupData) (ptr : FindReplacePointer)
        (m1 m2 : FindReplaceMatch) (ptr1 ptr2 : FindReplacePointer) :
  withinLimits data ->
  findPreviousMatchInternal pattern useRegex data ptr = Found m1 ptr1 ->
  findPreviousMatchInternal pattern useRegex data ptr1 = Found m2 ptr2 ->
  positionLt (positionOf m2) (positionOf m1).
Proof.
  intros Hl H1 H2. apply findPrevious_found in H1 as (Hs & -> & Hv).
  unfold ptrAt in H2.
  exact (findPrevious_before pattern useRegex Hs data _ _ _ m2 ptr2 Hl Hv H2).
Qed.

(** X5: [replaceOne] followed by [findNext]: the match found, if any,
    starts at or after the end of the text just inserted, so the
    replacement is never searched, whatever it contains. *)
Theorem findNext_after_replace_skips_replacement (replaceText : jsstring)
        (e : Engine) (m : FindReplaceMatch) (oldText : jsstring)
        (m2 : FindReplaceMatch) :
  frMatch e = Some m ->
  blockTextAt e (sceneIndex m) (blockIndex m) = Some oldText ->
  frMatch (handleFindNextMatch pattern useRegex (handleReplaceMatch replaceText e))
  = Some m2 ->
  positionLe (sceneIndex m, blockIndex m, matchIndex m + length replaceText)
             (positionOf m2).
Proof.
  intros Hm Hat.
  destruct (handleReplaceMatch_on_text replaceText e m oldText Hm Hat)
    as (Hat' & Hptr & Hnone).
  set (e' := handleReplaceMatch replaceText e) in *.
  unfold handleFindNextMatch.
  destruct (frData e') as [data'|] eqn:D;
    [|cbn [showToast frMatch]; congruence].
  destruct (isEmpty pattern && negb useRegex);
    [cbn [showToast frMatch]; congruence|].
  rewrite Hptr.
  destruct (findNextMatchInternal pattern useRegex data' _) as [m' ptr'| |] eqn:F;
    cbn [recordSearch frMatch]; try discriminate.
  intros H. injection H as ->.
  pose proof (findNext_found _ _ _ _ F) as (Hs & _ & _).
  exact (findNext_ahead pattern useRegex Hs data' _ _ _ m2 ptr' F).
Qed.

End Advance.

(* ================================================================== *)
(** * A search from the origin misses nothing *)
(* ================================================================== *)

Section Completeness.
Context {host : RegExpHost}.
Variable pattern : jsstring.
Variable useRegex : bool.
Hypothesis Hsearch : searchable pattern useRegex.

Lemma nextMatch_none_iff (t : jsstring) :
  nextMatch pattern useRegex t 0 = None
  <-> forall idx len, ~ isMatchOf pattern useRegex t idx len.
Proof.
  split.
  - intros Hnone idx len Hm. revert Hnone Hm.
    unfold nextMatch, matchForward, isMatchOf, searchable in *. destruct useRegex.
    + destruct (RegExp_new pattern) as [re|]; [|congruence].
      intros Hnone (re' & Hre & Hat & Hle). injection Hre as <-.
      rewrite (RegExp_exec_None re t 0 Hnone idx) in Hat by lia. discriminate.
    + destruct (indexOf pattern t 0) as [i|] eqn:E; [discriminate|].
      intros _ (_ & -> & Hle & Hsub).
      rewrite substring_between in Hsub by lia.
      replace (idx + length pattern - idx) with (length pattern) in Hsub by lia.
      apply startsWith_firstn in Hsub.
      rewrite (indexOf_None pattern t 0 E idx) in Hsub by lia. discriminate.
  - intros Hno.
    destruct (nextMatch pattern useRegex t 0) as [[idx len]|] eqn:E; [|reflexivity].
    exfalso. apply (Hno idx len).
    apply (matchForward_isMatch pattern useRegex t 0).
    + apply guard_false. exact Hsearch.
    + rewrite (matchForward_defined pattern useRegex Hsearch). now rewrite E.
Qed.

Lemma forwardChain_nil (t : jsstring) :
  forwardChain pattern useRegex (chainFuel t) t 0 = []
  <-> nextMatch pattern useRegex t 0 = None.
Proof.
  unfold chainFuel. rewrite forwardChain_S.
  rewrite (guard_false pattern useRegex Hsearch).
  assert (Nat.leb (length t) 0 && Nat.ltb 0 (length t) = false) as ->.
  { destruct t; reflexivity. }
  destruct (nextMatch pattern useRegex t 0); split; intros H;
    (discriminate || reflexivity).
Qed.

Lemma blocksHitsForward_nil (i : nat) (sc : Scene) (bs : list Block) (j : nat) :
  blocksHitsForward pattern useRegex i sc bs j = []
  <-> forall t, In t (textsOfBlocks bs) ->
                forwardChain pattern useRegex (chainFuel t) t 0 = [].
Proof.
  revert j; induction bs as [|b rest IH]; intros j.
  - split; [intros _ t []|reflexivity].
  - cbn [blocksHitsForward]. unfold textsOfBlocks in *. cbn [flat_map].
    split.
    + intros H. apply app_eq_nil in H as [H1 H2]. intros t Hin.
      apply in_app_or in Hin as [Hin|Hin].
      * destruct b as [| |t']; try contradiction.
        destruct Hin as [<-|[]]. unfold blockHitsForward in H1.
        now apply map_eq_nil in H1.
      * apply (proj1 (IH (S j)) H2 t Hin).
    + intros H.
      assert (H1 : blockHitsForward pattern useRegex i sc j b 0 = []).
      { destruct b as [| |t']; try reflexivity. unfold blockHitsForward.
        rewrite (H t'); [reflexivity|]. apply in_or_app. left. now left. }
      rewrite H1. cbn [app]. apply IH. intros t Hin. apply H.
      apply in_or_app. now right.
Qed.

Lemma scenesHitsForward_nil (ss : list (option Scene)) (i : nat) :
  scenesHitsForward pattern useRegex ss i = []
  <-> forall t, In t (flat_map (fun so => textsOfBlocks (blocksOfScene so)) ss) ->
                forwardChain pattern useRegex (chainFuel t) t 0 = [].
Proof.
  revert i; induction ss as [|so rest IH]; intros i.
  - split; [intros _ t []|reflexivity].
  - cbn [scenesHitsForward flat_map]. split.
    + intros H. apply app_eq_nil in H as [H1 H2]. intros t Hin.
      apply in_app_or in Hin as [Hin|Hin].
      * destruct so as [sc|]; [|contradiction].
        unfold sceneHitsForward in H1.
        apply (proj1 (blocksHitsForward_nil i sc _ 0) H1 t Hin).
      * apply (proj1 (IH (S i)) H2 t Hin).
    + intros H.
      assert (H1 : sceneHitsForward pattern useRegex i so = []).
      { destruct so as [sc|]; [|reflexivity]. unfold sceneHitsForward.
        apply blocksHitsForward_nil. intros t Hin. apply H.
        apply in_or_app. now left. }
      rewrite H1. cbn [app]. apply IH. intros t Hin. apply H.
      apply in_or_app. now right.
Qed.

(** X6: A forward search from the origin reports no match exactly when no
    text block of the record holds a match of the pattern: nothing
    that is there is missed, at any position of any block. *)
Theorem findNext_from_origin_misses_nothing (data : BackupData) :
  findNextMatchInternal pattern useRegex data origin = NotFound
  <-> forall t, In t (textBlocksOf data) ->
                forall idx len, ~ isMatchOf pattern useRegex t idx len.
Proof.
  change origin with (mkPtr (Num (Z.of_nat 0)) (Num (Z.of_nat 0)) (Num (Z.of_nat 0))).
  rewrite (findNext_at_cursor pattern useRegex Hsearch).
  rewrite (cursorHitsForward_origin pattern useRegex).
  unfold textBlocksOf.
  split.
  - intros H t Hin. apply nextMatch_none_iff, forwardChain_nil.
    revert t Hin. apply (scenesHitsForward_nil (scenesOf data) 0).
    destruct (scenesHitsForward pattern useRegex (scenesOf data) 0);
      [reflexivity|discriminate].
  - intros H.
    assert (Hnil : scenesHitsForward pattern useRegex (scenesOf data) 0 = []).
    { apply scenesHitsForward_nil. intros t Hin.
      apply forwardChain_nil, nextMatch_none_iff. now apply H. }
    now rewrite Hnil.
Qed.

End Completeness.

(* ================================================================== *)
(** * What a replacement leaves alone *)
(* ================================================================== *)

Lemma nth_error_setNth_length {A : Type} (l : list A) (i : nat) (x : A) :
  length (setNth l i x) = length l.
Proof.
  revert i; induction l as [|y l IH]; intros [|i]; simpl; auto.
Qed.

Section Frame.
Variable replaceText : jsstring.

(** X7: [replaceOne] changes one scene only.  The dates of the record
    and of its revisions, the revisions after the first and every
    scene other than that of the stored match stay as they are, and no
    scene is added or removed.  In the scene of the match the title is
    kept, every entry of the [blocks] array other than the matched one
    is kept and none is added or removed.  When the matched entry has
    a text, so that the replacement is made, the scene text is written
    back with its [blocks] only: the other members of the scene
    document are dropped.  Otherwise the record is left as it was. *)
Theorem replaceOne_changes_one_block (e : Engine) (m : FindReplaceMatch)
        (data : BackupData) :
  frMatch e = Some m -> frData e = Some data ->
  let e' := handleReplaceMatch replaceText e in
  exists data',
    frData e' = Some data'
    /\ last_update_date data' = last_update_date data
    /\ last_backup_date data' = last_backup_date data
    /\ List.map date (revisions data') = List.map date (revisions data)
    /\ tl (revisions data') = tl (revisions data)
    /\ length (scenesOf data') = length (scenesOf data)
    /\ (forall i, i <> sceneIndex m ->
                  nth_error (scenesOf data') i = nth_error (scenesOf data) i)
    /\ (forall i j, (i, j) <> (sceneIndex m, blockIndex m) ->
                    blockAt e' i j = blockAt e i j)
    /\ (forall i j, blockAt e' i j = None <-> blockAt e i j = None)
    /\ match blockAt e (sceneIndex m) (blockIndex m) with
       | Some (TextBlock _) | Some (OtherBlock (Some _)) =>
           exists sc sc' members,
             nth_error (scenesOf data) (sceneIndex m) = Some (Some sc)
             /\ nth_error (scenesOf data') (sceneIndex m) = Some (Some sc')
             /\ title sc' = title sc
             /\ text sc = TextBlocks members (blocksOfScene (Some sc))
             /\ text sc' = TextBlocks [] (blocksOfScene (Some sc'))
       | _ => data' = data
       end.
Proof.
  intros Hm D. unfold handleReplaceMatch. rewrite Hm, D. cbn zeta.
  assert (Hsame : replaceInData replaceText data m = None ->
                  match blockAt e (sceneIndex m) (blockIndex m) with
                  | Some (TextBlock _) | Some (OtherBlock (Some _)) => False
                  | _ => True
                  end).
  { unfold replaceInData, blockAt, scenesOf, blocksOfScene. rewrite D.
    destruct (revisions data) as [|rev0 others]; [now destruct (sceneIndex m)|].
    destruct (nth_error (scenes rev0) (sceneIndex m)) as [[sc|]|]; auto;
      try (now destruct (blockIndex m)).
    destruct (text sc) as [| |iterable|members blocks];
      try (now destruct (blockIndex m)).
    destruct (nth_error blocks (blockIndex m)) as [[|[t|]|t]|]; cbn; auto;
      discriminate. }
  destruct (replaceInData replaceText data m) as [data'|] eqn:R.
  2:{ exists data. unfold blockAt. cbn [showToast frData]. rewrite D.
      repeat (split; [now auto|]).
      specialize (Hsame eq_refl). unfold blockAt in Hsame. rewrite D in Hsame.
      destruct (nth_error (scenesOf data) (sceneIndex m)) as [so|]; [|reflexivity].
      destruct (nth_error (blocksOfScene so) (blockIndex m)) as [[|[t|]|t]|];
        tauto. }
  clear Hsame. exists data'. unfold blockAt. cbn [frData]. rewrite D.
  unfold replaceInData in R. unfold scenesOf.
  destruct (revisions data) as [|rev0 others]; [discriminate|].
  destruct (nth_error (scenes rev0) (sceneIndex m)) as [[sc|]|] eqn:Hs;
    try discriminate.
  destruct (text sc) as [| |iterable|members blocks] eqn:T; try discriminate.
  destruct (nth_error blocks (blockIndex m)) as [b|] eqn:Hb; [|discriminate].
  destruct (replaceInBlock replaceText b m) as [b'|] eqn:Hb'; [|discriminate].
  injection R as <-.
  cbn [revisions scenes last_update_date last_backup_date List.map date tl].
  set (sc' := mkScene (title sc) (TextBlocks [] (setNth blocks (blockIndex m) b'))).
  assert (Hother : forall i, i <> sceneIndex m ->
             nth_error (setNth (scenes rev0) (sceneIndex m) (Some sc')) i
             = nth_error (scenes rev0) i).
  { intros i Hi. apply nth_error_setNth_neq. congruence. }
  assert (Hhere : nth_error (setNth (scenes rev0) (sceneIndex m) (Some sc'))
                            (sceneIndex m) = Some (Some sc')).
  { eapply nth_error_setNth_eq. eassumption. }
  split; [reflexivity|]. split; [reflexivity|]. split; [reflexivity|].
  split; [reflexivity|]. split; [reflexivity|].
  split; [apply nth_error_setNth_length|]. split; [exact Hother|].
  split; [|split].
  - intros i j Hij. destruct (Nat.eq_dec i (sceneIndex m)) as [->|Hi].
    + rewrite Hhere, Hs. unfold blocksOfScene. cbn [text sc']. rewrite T.
      apply nth_error_setNth_neq. congruence.
    + now rewrite Hother.
  - intros i j. destruct (Nat.eq_dec i (sceneIndex m)) as [->|Hi].
    + rewrite Hhere, Hs. unfold blocksOfScene. cbn [text sc']. rewrite T.
      rewrite !nth_error_None, nth_error_setNth_length. reflexivity.
    + now rewrite Hother.
  - unfold blocksOfScene at 1. rewrite T, Hb.
    assert (Hreplaced : exists sc0 sc1 members0,
               Some (Some sc) = Some (Some sc0)
               /\ nth_error (setNth (scenes rev0) (sceneIndex m) (Some sc'))
                            (sceneIndex m) = Some (Some sc1)
               /\ title sc1 = title sc0
               /\ text sc0 = TextBlocks members0 (blocksOfScene (Some sc0))
               /\ text sc1 = TextBlocks [] (blocksOfScene (Some sc1))).
    { exists sc, sc', members. split; [reflexivity|]. split; [exact Hhere|].
      split; [reflexivity|]. unfold blocksOfScene. rewrite T. cbn [text sc'].
      split; reflexivity. }
    destruct b as [|[t|]|t]; cbn in Hb'; try discriminate; exact Hreplaced.
Qed.

End Frame.

Lemma sameKind_refl (b : Block) : sameKind b b.
Proof. destruct b; simpl; auto. Qed.

Lemma Forall2_sameKind_refl (bs : list Block) : Forall2 sameKind bs bs.
Proof. induction bs; constructor; auto using sameKind_refl. Qed.

Section ReplaceAllShape.
Context {host : RegExpHost}.
Variable findPattern : jsstring.
Variable replaceText : jsstring.
Variable useRegex : bool.

Lemma replaceAllInBlocks_shape (blocks blocks' : list Block) (count : nat)
      (modified : bool) (st : nat * bool) :
  replaceAllInBlocks findPattern replaceText useRegex blocks count modified
  = inl (blocks', st) ->
  Forall2 sameKind blocks blocks'.
Proof.
  revert blocks' count modified st.
  induction blocks as [|b rest IH]; intros blocks' count modified st;
    cbn [replaceAllInBlocks].
  - intros H. injection H as <- _. constructor.
  - destruct b as [|o|t]; [discriminate| |].
    + destruct (replaceAllInBlocks _ _ _ rest count modified) as [[rest' st']|c] eqn:E;
        [|discriminate].
      intros H. injection H as <- _. constructor; [reflexivity|eauto].
    + destruct (Nat.ltb 0 (length t)).
      * destruct (replaceAllInText _ _ _ t count modified)
          as [[newText [count' modified']]|]; [|discriminate].
        destruct (replaceAllInBlocks _ _ _ rest count' modified')
          as [[rest' st']|c] eqn:E; [|discriminate].
        intros H. injection H as <- _. constructor; [exact I|eauto].
      * destruct (replaceAllInBlocks _ _ _ rest count modified)
          as [[rest' st']|c] eqn:E; [|discriminate].
        intros H. injection H as <- _. constructor; [exact I|eauto].
Qed.

Lemma replaceAllInScenes_shape (ss ss' : list (option Scene)) (count count' : nat)
      (ts ts' : list Toast) (thrown : bool) :
  replaceAllInScenes findPattern replaceText useRegex ss count ts
  = (ss', count', ts', thrown) ->
  Forall2 (fun so so' => Forall2 sameKind (blocksOfScene so) (blocksOfScene so'))
          ss ss'.
Proof.
  revert ss' count count' ts ts' thrown.
  induction ss as [|so rest IH]; intros ss' count count' ts ts' thrown;
    cbn [replaceAllInScenes].
  - intros H. injection H as <- _ _ _. constructor.
  - destruct so as [sc|].
    2:{ intros H. injection H as <- _ _ _.
        clear IH. induction (None :: rest) as [|x l IHl]; constructor;
          auto using Forall2_sameKind_refl. }
    destruct (replaceAllInScene findPattern replaceText useRegex sc count)
      as [[sc' c1] t1] eqn:S1.
    destruct (replaceAllInScenes _ _ _ rest c1 _) as [[[rest' c2] ts2] th] eqn:S2.
    intros H. injection H as <- _ _ _. constructor; [|eauto].
    unfold replaceAllInScene in S1. unfold blocksOfScene.
    destruct (text sc) as [| |[|]|members blocks] eqn:T.
    1-4: injection S1 as <- _ _; rewrite T; constructor.
    destruct (replaceAllInBlocks _ _ _ blocks count false)
      as [[blocks' [c' md]]|c'] eqn:B.
    + injection S1 as <- _ _. destruct md.
      * cbn [text]. eapply replaceAllInBlocks_shape. eassumption.
      * rewrite T. apply Forall2_sameKind_refl.
    + injection S1 as <- _ _. rewrite T. apply Forall2_sameKind_refl.
Qed.

(** X8: [replaceAll], once it ran on a record, leaves the shape of the
    record as it was: the same number of scenes, in each the same
    number of blocks, text blocks where text blocks were and every
    other entry untouched.  It puts the cursor back at the origin and
    clears the stored match; and when it replaced nothing the record,
    its dates included, is the one it was. *)
Theorem replaceAll_keeps_the_shape (now : Z) (e e' : Engine) (data : BackupData) :
  frData e = Some data ->
  isEmpty findPattern && negb useRegex = false ->
  handleReplaceAllMatches findPattern replaceText useRegex now e = Completed e' ->
  exists data',
    frData e' = Some data'
    /\ Forall2 (fun so so' => Forall2 sameKind (blocksOfScene so) (blocksOfScene so'))
               (scenesOf data) (scenesOf data')
    /\ frPtr e' = origin /\ frMatch e' = None
    /\ (replaceAllCount findPattern replaceText useRegex now e = Some 0 ->
        data' = data).
Proof.
  intros D G. unfold replaceAllCount, handleReplaceAllMatches. rewrite D, G.
  destruct (revisions data) as [|rev0 others] eqn:R; [discriminate|].
  destruct (replaceAllInScenes findPattern replaceText useRegex (scenes rev0) 0 (toasts e))
    as [[[scenes' count] ts] thrown] eqn:S.
  destruct thrown; [discriminate|].
  intros H. injection H as <-. cbn [frData frPtr frMatch toasts].
  apply replaceAllInScenes_shape in S.
  destruct (Nat.ltb_spec 0 count).
  - eexists. split; [reflexivity|]. unfold scenesOf. rewrite R. cbn [revisions scenes].
    split; [exact S|]. split; [reflexivity|]. split; [reflexivity|].
    intros H0. injection H0 as ->. lia.
  - exists data. split; [reflexivity|]. split.
    + clear. induction (scenesOf data); constructor; auto using Forall2_sameKind_refl.
    + auto.
Qed.

End ReplaceAllShape.

(* ================================================================== *)
(** * Lines of a text *)
(* ================================================================== *)

Lemma splitLines_nonempty (s : jsstring) : splitLines s <> [].
Proof.
  destruct s as [|c s]; simpl; [discriminate|].
  destruct (N.eqb c newline); [discriminate|].
  destruct (splitLines s); discriminate.
Qed.

Lemma splitLines_cons (c : jschar) (s : jsstring) :
  splitLines (c :: s)
  = if N.eqb c newline then [] :: splitLines s
    else match splitLines s with
         | l :: ls => (c :: l) :: ls
         | [] => [[c]]
         end.
Proof. reflexivity. Qed.

Lemma joinLines_cons (l : jsstring) (ls : list jsstring) :
  ls <> [] -> joinLines (l :: ls) = l ++ newline :: joinLines ls.
Proof. destruct ls; [congruence|reflexivity]. Qed.

(** [text.split('\n').join('\n')] is [text]. *)
Lemma joinLines_splitLines (s : jsstring) : joinLines (splitLines s) = s.
Proof.
  induction s as [|c s IH]; [reflexivity|].
  rewrite splitLines_cons. destruct (N.eqb_spec c newline) as [->|N].
  - rewrite joinLines_cons by apply splitLines_nonempty. now rewrite IH.
  - pose proof (splitLines_nonempty s) as Hne.
    destruct (splitLines s) as [|l ls]; [congruence|].
    destruct ls as [|l' ls].
    + simpl in *. now rewrite IH.
    + rewrite (joinLines_cons (c :: l)) by discriminate.
      rewrite (joinLines_cons l) in IH by discriminate. cbn [app]. now rewrite IH.
Qed.

Lemma splitLines_noNewline (s : jsstring) : Forall noNewline (splitLines s).
Proof.
  induction s as [|c s IH]; [repeat constructor|].
  rewrite splitLines_cons. destruct (N.eqb_spec c newline) as [->|N].
  - constructor; [constructor|exact IH].
  - destruct (splitLines s) as [|l ls]; [repeat constructor; assumption|].
    inversion IH; subst. constructor; [|assumption]. now constructor.
Qed.

Lemma splitLines_line (l : jsstring) : noNewline l -> splitLines l = [l].
Proof.
  induction 1 as [|c l Hc Hl IH]; [reflexivity|].
  rewrite splitLines_cons. destruct (N.eqb_spec c newline); [congruence|].
  now rewrite IH.
Qed.

Lemma splitLines_app (l rest : jsstring) :
  noNewline l -> splitLines (l ++ newline :: rest) = l :: splitLines rest.
Proof.
  induction 1 as [|c l Hc Hl IH].
  - reflexivity.
  - cbn [app]. rewrite splitLines_cons.
    destruct (N.eqb_spec c newline); [congruence|]. now rewrite IH.
Qed.

(** [lines.join('\n').split('\n')] is [lines] when there is a line and
    no line holds a newline. *)
Lemma splitLines_joinLines (ls : list jsstring) :
  ls <> [] -> Forall noNewline ls -> splitLines (joinLines ls) = ls.
Proof.
  induction ls as [|l ls IH]; [congruence|].
  intros _ H. inversion H; subst. destruct ls as [|l' ls].
  - simpl. now apply splitLines_line.
  - rewrite joinLines_cons by discriminate.
    rewrite splitLines_app by assumption. f_equal. apply IH; [discriminate|assumption].
Qed.

Lemma countNewlines_noNewline (l : jsstring) (n : nat) :
  noNewline l -> countNewlines (firstn n l) = 0.
Proof.
  intros H. revert n. induction H as [|c l Hc Hl IH]; intros [|n]; try reflexivity.
  unfold countNewlines in *. cbn [firstn filter].
  destruct (N.eqb_spec newline c); [congruence|]. apply IH.
Qed.

Lemma lineOf_joinLines (ls : list jsstring) (charCount matchIndex : nat) :
  ls <> [] -> Forall noNewline ls ->
  charCount <= matchIndex -> matchIndex - charCount <= length (joinLines ls) ->
  lineOf ls charCount matchIndex
  = nth (countNewlines (firstn (matchIndex - charCount) (joinLines ls))) ls [].
Proof.
  intros Hne Hall. revert charCount.
  induction ls as [|l ls IH]; [congruence|]. intros charCount Hc Hm.
  inversion Hall as [|? ? Hl Hls]; subst. cbn [lineOf].
  destruct (Nat.leb_spec charCount matchIndex) as [_|]; [|lia]. cbn [andb].
  destruct (Nat.leb_spec matchIndex (charCount + length l)) as [Hin|Hout].
  - assert (firstn (matchIndex - charCount) (joinLines (l :: ls))
            = firstn (matchIndex - charCount) l) as ->.
    { destruct ls as [|l' ls]; [reflexivity|].
      rewrite joinLines_cons by discriminate.
      rewrite firstn_app.
      replace (matchIndex - charCount - length l) with 0 by lia.
      cbn [firstn]. apply app_nil_r. }
    now rewrite countNewlines_noNewline.
  - destruct ls as [|l' ls]; [cbn [joinLines] in Hm; lia|].
    rewrite joinLines_cons in * by discriminate.
    rewrite length_app in Hm. cbn [length] in Hm.
    rewrite firstn_app.
    rewrite firstn_all2 by lia.
    replace (matchIndex - charCount - length l)
      with (S (matchIndex - (charCount + length l + 1))) by lia.
    cbn [firstn]. unfold countNewlines. rewrite filter_app, length_app.
    pose proof (countNewlines_noNewline l (length l) Hl) as Hz.
    rewrite firstn_all in Hz.
    change (@length jschar (@filter jschar (N.eqb newline) l) = 0) in Hz.
    rewrite Hz.
    cbn [filter]. rewrite N.eqb_refl. cbn [length Nat.add nth].
    apply IH; [discriminate|assumption|lia|lia].
Qed.

(** X9: The line a match reports is the line of the block text in which the
    match starts: the line numbered by the newlines before the match
    (a match that starts on a newline belongs to the line the newline
    ends). *)
Theorem matchLine_is_the_line_of_the_match (blockText : jsstring) (matchIndex : nat) :
  matchIndex <= length blockText ->
  matchLineOf blockText matchIndex
  = nth (countNewlines (firstn matchIndex blockText)) (splitLines blockText) [].
Proof.
  intros H. unfold matchLineOf.
  rewrite (lineOf_joinLines (splitLines blockText) 0 matchIndex).
  - now rewrite Nat.sub_0_r, joinLines_splitLines.
  - apply splitLines_nonempty.
  - apply splitLines_noNewline.
  - lia.
  - rewrite joinLines_splitLines. lia.
Qed.

Section LineFilter.
Context {host : EpubHost}.

(** X10: The line filter of the chapter extraction, when it is on: a text
    with more than [n] lines loses its first [n] lines and keeps the
    others as they are, in order; a text with [n] lines or fewer
    becomes empty. *)
Theorem removeLines_drops_the_first_lines (n : nat) (chapterText : jsstring) :
  0 < n -> chapterText <> [] ->
  let lines := splitLines chapterText in
  (n < length lines ->
   splitLines (removeLines true n chapterText) = skipn n lines)
  /\ (length lines <= n -> removeLines true n chapterText = []).
Proof.
  intros Hn Hne. cbn zeta. unfold removeLines. cbn [andb].
  destruct (Nat.ltb_spec 0 n) as [_|]; [|lia].
  rewrite (isEmpty_false chapterText Hne). cbn [negb andb].
  split; intros H.
  - destruct (Nat.ltb_spec n (length (splitLines chapterText))) as [_|]; [|lia].
    apply splitLines_joinLines.
    + intros E. apply (f_equal (@length _)) in E. rewrite length_skipn in E.
      cbn [length] in E. lia.
    + pose proof (splitLines_noNewline chapterText) as F.
      rewrite <- (firstn_skipn n (splitLines chapterText)) in F.
      now apply Forall_app in F.
  - destruct (Nat.ltb_spec n (length (splitLines chapterText))); [lia|reflexivity].
Qed.

End LineFilter.

(* ================================================================== *)
(** * The directory of the package document *)
(* ================================================================== *)

Lemma dirOf_spec (p : jsstring) :
  if existsb (N.eqb slash) p
  then exists name, p = dirOf p ++ slash :: name
                    /\ existsb (N.eqb slash) name = false
  else dirOf p = [].
Proof.
  induction p as [|c p IH]; [reflexivity|].
  cbn [existsb dirOf]. destruct (existsb (N.eqb slash) p) eqn:E.
  - rewrite orb_true_r. destruct IH as (name & H1 & H2).
    exists name. split; [|exact H2]. cbn [app]. now rewrite <- H1.
  - rewrite orb_false_r. destruct (N.eqb_spec slash c) as [<-|N].
    + exists p. split; [reflexivity|exact E].
    + reflexivity.
Qed.

Section PackageDirectory.
Context {host : EpubHost}.

(** X11: The directory [findOpfPath] returns with the path of the package
    document is the path up to its last slash: the path is the
    directory, a slash and a file name without a slash; a path without
    a slash has the empty directory.  The path itself is never
    empty. *)
Theorem findOpfPath_splits_the_path (zip : Zip) (path dir : jsstring) :
  findOpfPath zip = Some (path, dir) ->
  path <> []
  /\ if existsb (N.eqb slash) path
     then exists name, path = dir ++ slash :: name
                       /\ existsb (N.eqb slash) name = false
     else dir = [].
Proof.
  unfold findOpfPath.
  destruct (readFileFromZip zip (js "META-INF/container.xml")) as [[p content]|];
    [|discriminate].
  destruct (parseXml content) as [doc|]; [|discriminate].
  destruct (truthy (rootfileFullPath doc)) as [rootfilePath|] eqn:T; [|discriminate].
  intros H. injection H as <- <-. split.
  - unfold truthy in T. destruct (rootfileFullPath doc) as [s|]; [|discriminate].
    destruct s; [discriminate|]. injection T as <-. discriminate.
  - apply dirOf_spec.
Qed.

End PackageDirectory.

(* ================================================================== *)
(** * Helper functions of the tools *)
(* ================================================================== *)

Lemma sanitizeForXML_map (s : jsstring) :
  sanitizeForXML (Some s)
  = List.map (fun c => if isNameChar c then c else underscore) s.
Proof. unfold sanitizeForXML, truthy. destruct s; reflexivity. Qed.

Lemma sanitize_nameChars (s : jsstring) :
  Forall (fun c => isNameChar c = true)
         (List.map (fun c => if isNameChar c then c else underscore) s).
Proof.
  induction s as [|c s IH]; constructor; [|exact IH].
  destruct (isNameChar c) eqn:E; [exact E|reflexivity].
Qed.

Lemma sanitize_fixed (s : jsstring) :
  Forall (fun c => isNameChar c = true) s ->
  List.map (fun c => if isNameChar c then c else underscore) s = s.
Proof.
  induction 1 as [|c s Hc Hs IH]; [reflexivity|]. cbn [List.map].
  now rewrite Hc, IH.
Qed.

(** X12: [sanitizeForXML] returns a string of the same length made of
    letters, digits, underscores and hyphens only; a string that is made
    of them already is returned as it is, so sanitizing twice changes
    nothing more. *)
Theorem sanitizeForXML_leaves_name_characters (s : jsstring) :
  length (sanitizeForXML (Some s)) = length s
  /\ Forall (fun c => isNameChar c = true) (sanitizeForXML (Some s))
  /\ (Forall (fun c => isNameChar c = true) s <-> sanitizeForXML (Some s) = s)
  /\ sanitizeForXML (Some (sanitizeForXML (Some s))) = sanitizeForXML (Some s).
Proof.
  rewrite !sanitizeForXML_map. split; [apply length_map|].
  split; [apply sanitize_nameChars|]. split.
  - split; [apply sanitize_fixed|].
    intros H. rewrite <- H. apply sanitize_nameChars.
  - apply sanitize_fixed, sanitize_nameChars.
Qed.

Lemma string_of_uint_digits (d : Decimal.uint) :
  Forall (fun c => inRange 48 57 c = true) (js (NilEmpty.string_of_uint d)).
Proof.
  induction d; cbn [NilEmpty.string_of_uint]; try rewrite js_String;
    constructor; auto.
Qed.

(** X13: The file name [handleCreateEpub] gives a chapter is a base made of
    letters, digits, underscores and hyphens, never empty, followed by
    [.xhtml]: whatever the name of the text file was, no slash, dot,
    space, quote or angle bracket reaches the archive path and the
    [href] attributes written from it. *)
Theorem chapterFilename_is_a_plain_name (name : jsstring) (i : nat) :
  exists base,
    chapterFilename name i = base ++ js ".xhtml"
    /\ base <> []
    /\ Forall (fun c => isNameChar c = true) base.
Proof.
  unfold chapterFilename, chapterBaseName.
  destruct (isEmpty (sanitizeForXML (Some (stripTxt name)))) eqn:E.
  - exists (js "chapter_" ++ stringOfNat (i + 1)).
    split; [reflexivity|]. split; [discriminate|].
    apply Forall_app. split; [repeat constructor|].
    unfold stringOfNat.
    eapply Forall_impl; [|apply string_of_uint_digits].
    intros c Hc. unfold isNameChar. rewrite Hc. now rewrite !orb_true_r.
  - exists (sanitizeForXML (Some (stripTxt name))).
    split; [reflexivity|]. split.
    + intros H. rewrite H in E. discriminate.
    + rewrite sanitizeForXML_map. apply sanitize_nameChars.
Qed.

Lemma escapeUnit_cancel (c d : jschar) (a b : jsstring) :
  escapeUnit c ++ a = escapeUnit d ++ b -> c = d /\ a = b.
Proof.
  unfold escapeUnit, escapeOf.
  destruct (N.eqb_spec c 38); [subst|];
    [|destruct (N.eqb_spec c 60); [subst|];
      [|destruct (N.eqb_spec c 62); [subst|];
        [|destruct (N.eqb_spec c 34); [subst|];
          [|destruct (N.eqb_spec c 39); [subst|]]]]];
    (destruct (N.eqb_spec d 38); [subst|];
     [|destruct (N.eqb_spec d 60); [subst|];
       [|destruct (N.eqb_spec d 62); [subst|];
         [|destruct (N.eqb_spec d 34); [subst|];
           [|destruct (N.eqb_spec d 39); [subst|]]]]]);
    cbn; intros H; inversion H; subst; try congruence; auto.
Qed.

Lemma escapeUnit_noMarkup (c : jschar) :
  Forall (fun u => isMarkup u = false) (escapeUnit c).
Proof.
  unfold escapeUnit, escapeOf.
  destruct (N.eqb_spec c 38); [repeat constructor|].
  destruct (N.eqb_spec c 60); [repeat constructor|].
  destruct (N.eqb_spec c 62); [repeat constructor|].
  destruct (N.eqb_spec c 34); [repeat constructor|].
  destruct (N.eqb_spec c 39); [repeat constructor|].
  constructor; [|constructor]. unfold isMarkup.
  repeat (match goal with
          | |- context [N.eqb c ?k] => destruct (N.eqb_spec c k); [congruence|]
          end).
  reflexivity.
Qed.

(** X14: [escapeHTML] leaves no angle bracket and no quote in its result,
    keeps apart any two strings that differ, so the text can be read
    back from the markup, and escapes a concatenation piece by
    piece. *)
Theorem escapeHTML_is_safe_and_injective (a b : jsstring) :
  Forall (fun u => isMarkup u = false) (escapeHTML (Some a))
  /\ (escapeHTML (Some a) = escapeHTML (Some b) <-> a = b)
  /\ escapeHTML (Some (a ++ b)) = escapeHTML (Some a) ++ escapeHTML (Some b).
Proof.
  assert (Hfold : forall s, escapeHTML (Some s) = flat_map escapeUnit s)
    by reflexivity.
  rewrite !Hfold. split; [|split].
  - induction a as [|c a IH]; [constructor|]. cbn [flat_map].
    apply Forall_app. split; [apply escapeUnit_noMarkup|exact IH].
  - split; [|now intros ->].
    revert b. induction a as [|c a IH]; intros [|d b] H.
    + reflexivity.
    + exfalso. cbn [flat_map] in H.
      assert (L : length (escapeUnit d ++ flat_map escapeUnit b) = 0)
        by (rewrite <- H; reflexivity).
      rewrite length_app in L.
      assert (0 < length (escapeUnit d)); [|lia].
      unfold escapeUnit, escapeOf.
      repeat (match goal with
              | |- context [N.eqb d ?k] => destruct (N.eqb d k); [cbn; lia|]
              end).
      cbn; lia.
    + exfalso. cbn [flat_map] in H.
      assert (L : length (escapeUnit c ++ flat_map escapeUnit a) = 0)
        by (rewrite H; reflexivity).
      rewrite length_app in L.
      assert (0 < length (escapeUnit c)); [|lia].
      unfold escapeUnit, escapeOf.
      repeat (match goal with
              | |- context [N.eqb c ?k] => destruct (N.eqb c k); [cbn; lia|]
              end).
      cbn; lia.
    + cbn [flat_map] in H. apply escapeUnit_cancel in H as [-> H].
      f_equal. now apply IH.
  - apply flat_map_app.
Qed.

Lemma random16_below (x : Fraction) : belowOne x -> (random16 x < 16)%N.
Proof.
  unfold belowOne, random16. intros H.
  apply N.Div0.div_lt_upper_bound. lia.
Qed.

Lemma toString16_digit (v : N) : (v < 16)%N -> toString16 v = [hexDigitOf v].
Proof.
  intros H. unfold toString16. cbn [toString16Aux].
  rewrite N.mod_small by assumption.
  destruct (N.ltb_spec v 16); [reflexivity|lia].
Qed.

Lemma below16_cases (v : N) :
  (v < 16)%N ->
  In v [0; 1; 2; 3; 4; 5; 6; 7; 8; 9; 10; 11; 12; 13; 14; 15]%N.
Proof.
  intros H. cbn [In].
  destruct v as [|p]; [auto|].
  do 4 (destruct p as [p|p|]; try lia; auto 20).
Qed.

Lemma fillTemplate_shape (template : jsstring) (random : nat -> Fraction) (k : nat) :
  (forall n, belowOne (random n)) ->
  Forall2 fillsTemplate template (fillTemplate template random k).
Proof.
  intros Hr. revert k. induction template as [|c rest IH]; intros k; [constructor|].
  cbn [fillTemplate].
  pose proof (random16_below (random k) (Hr k)) as Hlt.
  destruct (N.eqb_spec c 120) as [->|Nx]; cbn [orb].
  { rewrite toString16_digit by assumption. cbn [app]. constructor; [|apply IH].
    unfold fillsTemplate. cbn [N.eqb Pos.eqb].
    apply below16_cases in Hlt. cbn [In] in Hlt.
    repeat (destruct Hlt as [<-|Hlt]; [reflexivity|]). contradiction. }
  destruct (N.eqb_spec c 121) as [->|Ny].
  { assert (Hv : In (N.lor (N.land (random16 (random k)) 3) 8) [8; 9; 10; 11]%N).
    { apply below16_cases in Hlt. cbn [In] in Hlt.
      repeat (destruct Hlt as [<-|Hlt]; [cbn; auto|]). contradiction. }
    rewrite toString16_digit
      by (cbn [In] in Hv; repeat (destruct Hv as [<-|Hv]; [lia|]); contradiction).
    cbn [app]. constructor; [|apply IH].
    unfold fillsTemplate. cbn [N.eqb Pos.eqb].
    cbn [In] in Hv.
    repeat (destruct Hv as [<-|Hv]; [cbn; auto|]). contradiction. }
  constructor; [|apply IH].
  unfold fillsTemplate.
  destruct (N.eqb_spec c 120); [congruence|].
  destruct (N.eqb_spec c 121); [congruence|reflexivity].
Qed.

Lemma Forall2_firstn {A B : Type} (R : A -> B -> Prop) (n : nat)
      (l : list A) (u : list B) :
  Forall2 R l u -> Forall2 R (firstn n l) (firstn n u).
Proof.
  intros H. revert n. induction H; intros [|n]; cbn [firstn]; constructor; auto.
Qed.

Lemma fillsTemplate_digits (t v : jsstring) :
  Forall2 fillsTemplate t v -> Forall (fun c => c = 120%N) t ->
  Forall (fun c => isHexDigit c = true) v.
Proof.
  induction 1 as [|c o t v Hc Hv IH]; intros Hx; [constructor|].
  inversion Hx; subst. constructor; [exact Hc|auto].
Qed.

(** X15: [generateUUID] returns a string of the shape of its template,
    [xxxxxxxx-xxxx-4xxx-yxxx-xxxxxxxxxxxx]: 36 characters, a lower-case
    hexadecimal digit for every [x], one of [8], [9], [a], [b] for the
    [y], the hyphens and the version digit [4] in their places; its
    first eight characters, the code of a merged backup, are
    hexadecimal digits. *)
Theorem generateUUID_has_the_shape_of_the_template (random : nat -> Fraction) :
  (forall n, belowOne (random n)) ->
  Forall2 fillsTemplate (js "xxxxxxxx-xxxx-4xxx-yxxx-xxxxxxxxxxxx")
          (generateUUID random)
  /\ length (generateUUID random) = 36
  /\ length (substring (generateUUID random) 0 8) = 8
  /\ Forall (fun c => isHexDigit c = true) (substring (generateUUID random) 0 8).
Proof.
  intros Hr.
  assert (H : Forall2 fillsTemplate (js "xxxxxxxx-xxxx-4xxx-yxxx-xxxxxxxxxxxx")
                      (generateUUID random))
    by exact (fillTemplate_shape (js "xxxxxxxx-xxxx-4xxx-yxxx-xxxxxxxxxxxx")
                                 random 0 Hr).
  split; [exact H|].
  assert (L : length (generateUUID random) = 36).
  { apply Forall2_length in H. rewrite <- H. reflexivity. }
  split; [exact L|].
  rewrite substring_prefix. split; [rewrite length_firstn; lia|].
  apply (Forall2_firstn fillsTemplate 8) in H.
  apply (fillsTemplate_digits _ _ H). repeat constructor.
Qed.

Lemma Forall_firstn_keep {A : Type} (P : A -> Prop) (n : nat) (l : list A) :
  Forall P l -> Forall P (firstn n l).
Proof.
  intros H. revert n. induction H; intros [|n]; cbn [firstn]; constructor; auto.
Qed.

Section FilenameFacts.
Context {unicode : UnicodeHost}.

Lemma codePoints_units (s : jsstring) :
  Forall (fun p => snd p = [fst p]
                   \/ Forall (fun u => (128 <= u)%N) (snd p)) (codePoints s).
Proof.
  set (Q := fun s => Forall (fun p => snd p = [fst p]
                                      \/ Forall (fun u => (128 <= u)%N) (snd p))
                            (codePoints s)).
  assert (H : Q s /\ forall c, Q (c :: s)); [|exact (proj1 H)].
  induction s as [|d s [IH1 IH2]].
  - split; [constructor|]. intros c. repeat constructor.
  - split; [apply IH2|]. intros c. unfold Q. cbn [codePoints].
    destruct (isHighSurrogate c && isLowSurrogate d) eqn:E.
    + constructor; [|exact IH1]. right. cbn [snd].
      apply andb_prop in E as [E1 E2].
      unfold isHighSurrogate, isLowSurrogate, inRange in *.
      apply andb_prop in E1 as [E1 _]. apply andb_prop in E2 as [E2 _].
      apply N.leb_le in E1, E2. repeat constructor; lia.
    + constructor; [now left|apply IH2].
Qed.

Lemma collapseUnderscores_keeps (P : jschar -> Prop) (s : jsstring) :
  Forall P s -> Forall P (collapseUnderscores s).
Proof.
  induction 1 as [|c s Hc Hs IH]; [constructor|].
  cbn [collapseUnderscores]. destruct (N.eqb c underscore).
  - destruct s as [|d s]; [repeat constructor; assumption|].
    destruct (N.eqb d underscore); [exact IH|now constructor].
  - now constructor.
Qed.

Lemma dropSeparators_keeps (P : jschar -> Prop) (s : jsstring) :
  Forall P s -> Forall P (dropSeparators s).
Proof.
  induction 1 as [|c s Hc Hs IH]; [constructor|].
  cbn [dropSeparators]. destruct (isSeparator c); [exact IH|now constructor].
Qed.

Lemma dropSeparators_head (s : jsstring) :
  match dropSeparators s with
  | c :: _ => isSeparator c = false
  | [] => True
  end.
Proof.
  induction s as [|c s IH]; [exact I|]. cbn [dropSeparators].
  destruct (isSeparator c) eqn:E; [exact IH|exact E].
Qed.

Lemma dropSeparators_last (l : jsstring) (c : jschar) :
  isSeparator c = false -> dropSeparators (l ++ [c]) = dropSeparators l ++ [c].
Proof.
  intros Hc. induction l as [|d l IH]; cbn [app dropSeparators].
  - now rewrite Hc.
  - destruct (isSeparator d); [exact IH|reflexivity].
Qed.

Lemma stripSeparators_head (s : jsstring) :
  match stripSeparators s with
  | c :: _ => isSeparator c = false
  | [] => True
  end.
Proof.
  unfold stripSeparators. pose proof (dropSeparators_head s) as H.
  destruct (dropSeparators s) as [|c t]; [exact I|].
  cbn [rev]. rewrite dropSeparators_last by assumption.
  rewrite rev_app_distr. cbn [rev app]. exact H.
Qed.

Hypothesis ascii : forall cp, (cp < 128)%N -> isLetterOrNumber cp = true ->
                              isAsciiAlnum cp = true.

Lemma replaceBadRuns_plain (cps : list (N * jsstring)) (inRun : bool) :
  Forall (fun p => snd p = [fst p]
                   \/ Forall (fun u => (128 <= u)%N) (snd p)) cps ->
  Forall plainBelow128 (replaceBadRuns cps inRun).
Proof.
  intros H. revert inRun. induction H as [|[cp units] cps Hp Hcps IH]; intros inRun;
    [constructor|].
  cbn [replaceBadRuns]. destruct (keptInName cp) eqn:K.
  - apply Forall_app. split; [|apply IH].
    cbn [fst snd] in Hp. destruct Hp as [->|Hp].
    + constructor; [|constructor]. intros Hlt. unfold keptInName in K.
      apply orb_prop in K as [K|K].
      * now rewrite (ascii cp Hlt K).
      * rewrite K. apply orb_true_r.
    + eapply Forall_impl; [|exact Hp]. intros u Hu Hlt. cbv beta in Hu. lia.
  - destruct inRun; [apply IH|].
    constructor; [|apply IH]. intros _. reflexivity.
Qed.

(** X16: [sanitizeFilenameForZip] returns a file name: it is never empty and
    never longer than 100 code units, it does not start with an
    underscore, a dot or a hyphen, and below 128 it holds letters,
    digits and [._-] only, so no slash, backslash, colon, space, quote
    or control character of the title reaches the name of a
    download. *)
Theorem sanitizeFilenameForZip_is_a_file_name (name : option jsstring) :
  sanitizeFilenameForZip name <> []
  /\ length (sanitizeFilenameForZip name) <= 100
  /\ (forall c rest, sanitizeFilenameForZip name = c :: rest ->
                     isSeparator c = false)
  /\ Forall plainBelow128 (sanitizeFilenameForZip name).
Proof.
  unfold sanitizeFilenameForZip.
  destruct (truthy name) as [n|].
  2:{ split; [discriminate|]. split; [cbn; lia|]. split.
      - intros c rest H. injection H as <- _. reflexivity.
      - repeat constructor. }
  cbn zeta. rewrite substring_prefix.
  set (stripped := stripSeparators
                     (collapseUnderscores (replaceBadRuns (codePoints n) false))).
  assert (Hplain : Forall plainBelow128 (firstn 100 stripped)).
  { apply Forall_firstn_keep. unfold stripped, stripSeparators.
    apply Forall_rev, dropSeparators_keeps, Forall_rev, dropSeparators_keeps.
    apply collapseUnderscores_keeps, replaceBadRuns_plain, codePoints_units. }
  destruct (firstn 100 stripped) as [|c rest] eqn:F; cbn [isEmpty].
  - split; [discriminate|]. split; [cbn; lia|]. split.
    + intros c rest H. injection H as <- _. reflexivity.
    + repeat constructor.
  - split; [discriminate|]. split.
    + rewrite <- F. rewrite length_firstn. lia.
    + split; [|exact Hplain].
      intros c' rest' H. injection H as <- _.
      pose proof (stripSeparators_head
                    (collapseUnderscores (replaceBadRuns (codePoints n) false))) as Hh.
      fold stripped in Hh. destruct stripped as [|c0 t]; [discriminate|].
      cbn [firstn] in F. injection F as <- _. exact Hh.
Qed.

End FilenameFacts.

Lemma orElse_sanitized {unicode : UnicodeHost} (name : option jsstring)
      (fallback : jsstring) :
  orElse (sanitizeFilenameForZip name) fallback = sanitizeFilenameForZip name.
Proof.
  unfold orElse, sanitizeFilenameForZip. destruct (truthy name); [|reflexivity].
  cbn zeta. now destruct (substring _ 0 100).
Qed.

(* ================================================================== *)
(** * Chapters as blocks *)
(* ================================================================== *)

Lemma consHead_keeps (P : jschar -> Prop) (c : jschar) (pieces : list jsstring) :
  P c -> Forall (Forall P) pieces -> Forall (Forall P) (consHead c pieces).
Proof.
  intros Hc H. destruct H as [|l ls Hl Hls]; cbn [consHead].
  - repeat constructor. exact Hc.
  - constructor; [now constructor|exact Hls].
Qed.

Lemma splitParagraphs_keeps (P : jschar -> Prop) (s : jsstring) (inRun : bool) :
  Forall P s -> Forall (Forall P) (splitParagraphs s inRun).
Proof.
  intros H. revert inRun. induction H as [|c s Hc Hs IH]; intros inRun;
    [repeat constructor|].
  cbn [splitParagraphs]. destruct (N.eqb c newline).
  - destruct inRun; [apply IH|].
    destruct s as [|d s]; [now apply consHead_keeps|].
    destruct (N.eqb d newline).
    + constructor; [constructor|apply IH].
    + now apply consHead_keeps.
  - now apply consHead_keeps.
Qed.

Lemma trimStart_keeps (P : jschar -> Prop) (s : jsstring) :
  Forall P s -> Forall P (trimStart s).
Proof.
  induction 1 as [|c s Hc Hs IH]; [constructor|].
  cbn [trimStart]. destruct (isWhiteSpace c); [exact IH|now constructor].
Qed.

Lemma trim_keeps (P : jschar -> Prop) (s : jsstring) :
  Forall P s -> Forall P (trim s).
Proof.
  intros H. unfold trim.
  now apply Forall_rev, trimStart_keeps, Forall_rev, trimStart_keeps.
Qed.

Lemma replaceCR_noCR (s : jsstring) :
  Forall (fun c => c <> carriageReturn) (replaceCR s).
Proof.
  unfold replaceCR. induction s as [|c s IH]; constructor; [|exact IH].
  destruct (N.eqb_spec c carriageReturn); [discriminate|assumption].
Qed.

Lemma contentSegments_spec (raw : jsstring) :
  Forall (fun s => s <> [] /\ Forall (fun c => c <> carriageReturn) s)
         (contentSegmentsOf raw).
Proof.
  unfold contentSegmentsOf. cbn zeta.
  pose proof (splitParagraphs_keeps _ _ false (replaceCR_noCR (replaceCRLF raw))) as H.
  induction H as [|l ls Hl Hls IH]; [constructor|].
  cbn [List.map filter]. destruct (trim l) as [|c t] eqn:T; cbn [isEmpty negb].
  - exact IH.
  - constructor; [|exact IH]. split; [discriminate|].
    rewrite <- T. now apply trim_keeps.
Qed.

Lemma segmentBlocks_length (segs : list jsstring) :
  segs <> [] -> length (segmentBlocks segs) = 2 * length segs - 1.
Proof.
  induction segs as [|s rest IH]; [congruence|]. intros _.
  destruct rest as [|s' rest]; [reflexivity|].
  change (segmentBlocks (s :: s' :: rest))
    with (TextBlock s :: TextBlock [] :: segmentBlocks (s' :: rest)).
  cbn [length]. rewrite IH by discriminate. cbn [length]. lia.
Qed.

Lemma segmentBlocks_nth (segs : list jsstring) (k : nat) (b : Block) :
  Forall (fun s => s <> [] /\ Forall (fun c => c <> carriageReturn) s) segs ->
  nth_error (segmentBlocks segs) k = Some b ->
  exists t, b = TextBlock t
            /\ Forall (fun c => c <> carriageReturn) t
            /\ (if Nat.even k then t <> [] else t = []).
Proof.
  intros H. revert k b. induction H as [|s rest [Hs Hc] Hrest IH]; intros k b.
  - now destruct k.
  - destruct rest as [|s' rest].
    + destruct k as [|k]; [|now destruct k].
      intros E. injection E as <-. exists s. cbn. auto.
    + change (segmentBlocks (s :: s' :: rest))
        with (TextBlock s :: TextBlock [] :: segmentBlocks (s' :: rest)).
      destruct k as [|[|k]].
      * intros E. injection E as <-. exists s. cbn. auto.
      * intros E. injection E as <-. exists []. cbn. auto.
      * cbn [nth_error]. intros E. apply IH in E as (t & -> & Ht & He).
        exists t. auto.
Qed.

Lemma trimStart_head (s : jsstring) :
  match trimStart s with
  | c :: _ => isWhiteSpace c = false
  | [] => True
  end.
Proof.
  induction s as [|c s IH]; [exact I|]. cbn [trimStart].
  destruct (isWhiteSpace c) eqn:E; [exact IH|exact E].
Qed.

Lemma trimStart_last (l : jsstring) (c : jschar) :
  isWhiteSpace c = false -> trimStart (l ++ [c]) = trimStart l ++ [c].
Proof.
  intros Hc. induction l as [|d l IH]; cbn [app trimStart].
  - now rewrite Hc.
  - destruct (isWhiteSpace d); [exact IH|reflexivity].
Qed.

Lemma trimStart_fixed (s : jsstring) :
  match s with
  | c :: _ => isWhiteSpace c = false
  | [] => True
  end ->
  trimStart s = s.
Proof. destruct s as [|c s]; [reflexivity|]. cbn. now intros ->. Qed.

Lemma trim_idempotent (s : jsstring) : trim (trim s) = trim s.
Proof.
  unfold trim. pose proof (trimStart_head s) as Hh.
  destruct (trimStart s) as [|c v]; [reflexivity|].
  cbn [rev]. rewrite trimStart_last by assumption.
  rewrite rev_app_distr. cbn [rev app trimStart]. rewrite Hh.
  cbn [rev]. rewrite rev_involutive.
  rewrite trimStart_last by assumption.
  rewrite (trimStart_fixed _ (trimStart_head (rev v))).
  rewrite rev_app_distr. reflexivity.
Qed.

Lemma contentSegments_trimmed (raw : jsstring) :
  Forall (fun s => trim s = s) (contentSegmentsOf raw).
Proof.
  unfold contentSegmentsOf. cbn zeta.
  induction (splitParagraphs (replaceCR (replaceCRLF raw)) false) as [|l ls IH];
    [constructor|].
  cbn [List.map filter]. destruct (isEmpty (trim l)); cbn [negb]; [exact IH|].
  constructor; [apply trim_idempotent|exact IH].
Qed.

Lemma segmentBlocks_even (segs : list jsstring) (k : nat) (s : jsstring) :
  nth_error segs k = Some s ->
  nth_error (segmentBlocks segs) (2 * k) = Some (TextBlock s).
Proof.
  revert k. induction segs as [|s0 rest IH]; intros k; [now destruct k|].
  destruct rest as [|s1 rest].
  - destruct k as [|k]; [|now destruct k]. intros E. now injection E as <-.
  - change (segmentBlocks (s0 :: s1 :: rest))
      with (TextBlock s0 :: TextBlock [] :: segmentBlocks (s1 :: rest)).
    destruct k as [|k]; [intros E; now injection E as <-|].
    replace (2 * S k) with (S (S (2 * k))) by lia. cbn [nth_error].
    apply IH.
Qed.

Lemma segmentBlocks_odd (segs : list jsstring) (k : nat) :
  S k < length segs ->
  nth_error (segmentBlocks segs) (2 * k + 1) = Some (TextBlock []).
Proof.
  revert k. induction segs as [|s0 rest IH]; intros k; [cbn; lia|].
  destruct rest as [|s1 rest]; [cbn; lia|].
  change (segmentBlocks (s0 :: s1 :: rest))
    with (TextBlock s0 :: TextBlock [] :: segmentBlocks (s1 :: rest)).
  destruct k as [|k]; [reflexivity|].
  replace (2 * S k + 1) with (S (S (2 * k + 1))) by lia. cbn [nth_error length].
  intros H. apply IH. cbn [length]. lia.
Qed.

(** X17: The blocks [handleCreateFromZip] makes of a chapter file.  The
    paragraphs of the file are the pieces between runs of two newlines
    or more, trimmed, the blank ones left out; none is empty, none
    holds a carriage return.  Paragraph [k] is the text block at
    position [2k], in order, and an empty text block sits between two
    of them, so the blocks are [2p - 1] for [p] paragraphs; a file
    without a paragraph gives one empty text block.  There is always
    at least one block and every block is a text block. *)
Theorem chapterBlocks_alternate (rawChapterText : jsstring) :
  let segments := contentSegmentsOf rawChapterText in
  let blocks := chapterBlocks rawChapterText in
  blocks <> []
  /\ length blocks = 2 * Nat.max 1 (length segments) - 1
  /\ (segments = [] -> blocks = [TextBlock []])
  /\ (forall k s,
         nth_error segments k = Some s ->
         nth_error blocks (2 * k) = Some (TextBlock s)
         /\ s <> [] /\ trim s = s
         /\ Forall (fun c => c <> carriageReturn) s)
  /\ (forall k, S k < length segments ->
                nth_error blocks (2 * k + 1) = Some (TextBlock []))
  /\ forall k b,
      nth_error blocks k = Some b ->
      exists t, b = TextBlock t
                /\ Forall (fun c => c <> carriageReturn) t
                /\ (if Nat.even k
                    then t <> [] \/ segments = []
                    else t = []).
Proof.
  cbn zeta. unfold chapterBlocks. cbn zeta.
  pose proof (contentSegments_spec rawChapterText) as Hsegs.
  pose proof (contentSegments_trimmed rawChapterText) as Htrim.
  destruct (contentSegmentsOf rawChapterText) as [|s rest] eqn:S.
  - cbn [segmentBlocks app].
    assert (Hone : forall blocks,
               blocks = [] \/ blocks = [TextBlock []] ->
               match blocks with [] => [TextBlock []] | _ => blocks end
               = [TextBlock []]).
    { intros blocks [->| ->]; reflexivity. }
    rewrite Hone.
    2:{ destruct (isEmpty (trim rawChapterText)); cbn [andb];
        [destruct (Nat.ltb 0 (length rawChapterText))|]; auto. }
    split; [discriminate|]. split; [reflexivity|]. split; [reflexivity|].
    split; [intros [|k] s0 E; discriminate|].
    split; [intros k Hk; cbn in Hk; lia|].
    intros [|k] b E; [|now destruct k]. injection E as <-.
    exists []. cbn. repeat split; auto.
  - pose proof (segmentBlocks_length (s :: rest)) as L.
    assert (Hne : segmentBlocks (s :: rest) <> []).
    { intros E. rewrite E in L. cbn [length] in L.
      specialize (L ltac:(discriminate)). lia. }
    destruct (segmentBlocks (s :: rest)) as [|b0 bs] eqn:B; [congruence|].
    split; [discriminate|]. split.
    { rewrite L by discriminate. cbn [length]. lia. }
    split; [discriminate|]. rewrite <- B. split; [|split].
    + intros k s0 E. split; [now apply segmentBlocks_even|].
      rewrite Forall_forall in Hsegs, Htrim.
      apply nth_error_In in E.
      destruct (Hsegs s0 E) as [H1 H2]. split; [exact H1|].
      split; [now apply Htrim|exact H2].
    + intros k Hk. now apply segmentBlocks_odd.
    + intros k b E.
      apply (segmentBlocks_nth _ _ _ Hsegs) in E as (t & -> & Ht & He).
      exists t. split; [reflexivity|]. split; [exact Ht|].
      destruct (Nat.even k); auto.
Qed.

(* ================================================================== *)
(** * Word counts *)
(* ================================================================== *)

Lemma consHead_length (c : jschar) (pieces : list jsstring) :
  pieces <> [] -> length (consHead c pieces) = length pieces.
Proof. destruct pieces; [congruence|reflexivity]. Qed.

Lemma splitWhitespace_nonempty (s : jsstring) (inRun : bool) :
  splitWhitespace s inRun <> [].
Proof.
  revert inRun. induction s as [|c s IH]; intros inRun; cbn [splitWhitespace];
    [discriminate|].
  destruct (isWhiteSpace c).
  - destruct inRun; [apply IH|discriminate].
  - specialize (IH false). destruct (splitWhitespace s false); [congruence|discriminate].
Qed.

Lemma splitWhitespace_count (s : jsstring) :
  length (splitWhitespace s false)
  = countWords s true + 1 + (if endsInRun s false then 1 else 0)
  /\ length (splitWhitespace s true)
     = countWords s false + (if endsInRun s true then 1 else 0).
Proof.
  induction s as [|c s [IH1 IH2]]; [split; reflexivity|].
  cbn [splitWhitespace countWords endsInRun].
  destruct (isWhiteSpace c).
  - cbn [length]. rewrite IH2. split; lia.
  - rewrite consHead_length by apply splitWhitespace_nonempty.
    rewrite IH1. split; lia.
Qed.

Lemma countWords_trimStart (s : jsstring) :
  countWords (trimStart s) false = countWords s false.
Proof.
  induction s as [|c s IH]; [reflexivity|].
  cbn [trimStart countWords]. destruct (isWhiteSpace c) eqn:E; [exact IH|].
  cbn [countWords]. now rewrite E.
Qed.

Lemma trimStart_split (s : jsstring) :
  exists w, s = w ++ trimStart s /\ Forall (fun c => isWhiteSpace c = true) w.
Proof.
  induction s as [|c s (w & Hs & Hw)]; [now exists []|].
  cbn [trimStart]. destruct (isWhiteSpace c) eqn:E.
  - exists (c :: w). split; [cbn [app]; now rewrite <- Hs|now constructor].
  - now exists [].
Qed.

Lemma countWords_blank_suffix (y w : jsstring) (inWord : bool) :
  Forall (fun c => isWhiteSpace c = true) w ->
  countWords (y ++ w) inWord = countWords y inWord.
Proof.
  intros Hw. revert inWord. induction y as [|c y IH]; intros inWord.
  - cbn [app]. revert inWord.
    induction Hw as [|c w Hc Hw IHw]; intros inWord; [reflexivity|].
    cbn [countWords]. rewrite Hc. apply IHw.
  - cbn [app countWords]. destruct (isWhiteSpace c); now rewrite IH.
Qed.

Lemma countWords_trimEnd (x : jsstring) (inWord : bool) :
  countWords (rev (trimStart (rev x))) inWord = countWords x inWord.
Proof.
  destruct (trimStart_split (rev x)) as (w & Hs & Hw).
  apply (f_equal (@rev _)) in Hs. rewrite rev_involutive, rev_app_distr in Hs.
  rewrite Hs at 2. symmetry. apply countWords_blank_suffix.
  now apply Forall_rev.
Qed.

Lemma endsInRun_last (l : jsstring) (c : jschar) (inRun : bool) :
  endsInRun (l ++ [c]) inRun = isWhiteSpace c.
Proof.
  revert inRun. induction l as [|d l IH]; intros inRun; [reflexivity|].
  cbn [app endsInRun]. apply IH.
Qed.

(** A trimmed text is empty, or starts and ends outside white space. *)
Lemma trim_cases (s : jsstring) :
  (trim s = [] /\ trimStart s = [])
  \/ exists c rest,
      trim s = c :: rest /\ isWhiteSpace c = false
      /\ endsInRun (trim s) false = false
      /\ countWords (trim s) false = countWords s false.
Proof.
  unfold trim. pose proof (trimStart_head s) as Hh.
  pose proof (countWords_trimStart s) as Hw.
  destruct (trimStart s) as [|c v] eqn:T; [now left|]. right.
  cbn [rev]. rewrite trimStart_last by assumption. rewrite rev_app_distr.
  cbn [rev app]. exists c, (rev (trimStart (rev v))).
  split; [reflexivity|]. split; [exact Hh|]. split.
  - pose proof (trimStart_head (rev v ++ [c])) as Hl.
    rewrite trimStart_last in Hl by assumption.
    destruct (trimStart (rev v)) as [|d u] eqn:U.
    + cbn. exact Hh.
    + cbn [rev app endsInRun].
      change (endsInRun (rev ((d :: u)) ) (isWhiteSpace c) = false).
      cbn [rev]. rewrite endsInRun_last. cbn [app] in Hl. exact Hl.
  - rewrite <- Hw. cbn [countWords]. rewrite Hh. f_equal.
    apply countWords_trimEnd.
Qed.

Lemma wordsOfText_countWords (t : jsstring) :
  wordsOfText t = countWords t false.
Proof.
  unfold wordsOfText.
  destruct (trim_cases t) as [[E T]|(c & rest & E & Hc & Hz & Hw)].
  - rewrite E. cbn [isEmpty]. rewrite <- countWords_trimStart, T. reflexivity.
  - rewrite <- Hw. rewrite E in *. cbn [isEmpty].
    destruct (splitWhitespace_count (c :: rest)) as [H _].
    rewrite H, Hz. cbn [countWords]. rewrite Hc. lia.
Qed.

(** X18: The word count the backup tools write is the number of words of
    the text blocks: a block adds its maximal runs of characters that
    are not white space, whatever white space is around and between
    them, and a blank block adds nothing. *)
Theorem word_count_counts_words (blocks : list Block) (totalWordCount : nat) :
  noNullBlock blocks ->
  addWords blocks totalWordCount
  = totalWordCount
    + list_sum (List.map (fun t => countWords t false) (textsOfBlocks blocks)).
Proof.
  intros H. revert totalWordCount.
  induction H as [|b rest Hb Hrest IH]; intros totalWordCount;
    [cbn; lia|].
  destruct b as [|o|t]; [congruence| |].
  - cbn [addWords]. apply IH.
  - cbn [addWords]. rewrite IH, wordsOfText_countWords.
    unfold textsOfBlocks, list_sum. cbn [flat_map app List.map fold_right]. lia.
Qed.

(* ================================================================== *)
(** * The backup tools: create, extend, merge *)
(* ================================================================== *)

Lemma stringOfNat_injective (a b : nat) : stringOfNat a = stringOfNat b -> a = b.
Proof.
  intros E. apply (f_equal (fun s => digitsValue s 0)) in E.
  unfold stringOfNat in E. rewrite !digitsValue_of_uint in E.
  change (Nat.of_uint (Nat.to_uint a) = Nat.of_uint (Nat.to_uint b)) in E.
  now rewrite !DecimalNat.Unsigned.of_to in E.
Qed.

Lemma sceneCodeOf_injective (a b : nat) : sceneCodeOf a = sceneCodeOf b -> a = b.
Proof.
  unfold sceneCodeOf. intros E. apply app_inv_head in E.
  now apply stringOfNat_injective.
Qed.

Lemma nth_error_map_seq {A : Type} (f : nat -> A) (a n k : nat) :
  nth_error (List.map f (seq a n)) k = if Nat.ltb k n then Some (f (a + k)) else None.
Proof.
  revert a k. induction n as [|n IH]; intros a k.
  - now destruct k.
  - destruct k as [|k]; cbn [seq List.map nth_error].
    + now rewrite Nat.add_0_r.
    + rewrite IH. replace (S a + k) with (a + S k) by lia.
      now destruct (Nat.ltb_spec k n); destruct (Nat.ltb_spec (S k) (S n)); try lia.
Qed.

Lemma numberedScenes_NoDup (rows : list (option SceneRow)) :
  numberedScenes rows -> NoDup (List.map (option_map sceneCode) rows).
Proof.
  intros H. apply NoDup_nth_error. intros i j Hi E.
  rewrite length_map in Hi. rewrite !nth_error_map in E.
  destruct (nth_error rows i) as [ri|] eqn:Ei;
    [|apply nth_error_None in Ei; lia].
  destruct (nth_error rows j) as [rj|] eqn:Ej; [|discriminate].
  destruct (H i ri Ei) as (r1 & -> & C1 & _).
  destruct (H j rj Ej) as (r2 & -> & C2 & _).
  cbn in E. injection E as E. rewrite C1, C2 in E.
  apply sceneCodeOf_injective in E. lia.
Qed.

Section BackupFacts.
Context {unicode : UnicodeHost}.

(** X19: [handleCreateNewBackup] refuses an empty title and a number of
    chapters below one; otherwise the backup it writes has one
    revision with as many scenes and sections as chapters asked for,
    numbered in order, each section naming the scene made with it, no
    two scenes with the same code, and every scene holding one empty
    text block. *)
Theorem createNewBackup_is_numbered (createProjectTitle createDescription
                                       createUniqueCode : jsstring)
        (createChapters : Z) (createPrefix createTOC createIndentation : jsstring)
        (draw : N) (clock : Clock) :
  let result :=
    handleCreateNewBackup createProjectTitle createDescription createUniqueCode
                          createChapters createPrefix createTOC createIndentation
                          draw clock in
  (createProjectTitle = [] \/ (createChapters < 1)%Z <->
   result = ToolFailed ErrValidation)
  /\ (createProjectTitle <> [] -> (1 <= createChapters)%Z ->
      exists backup rev sceneList,
        result = Downloaded backup
                   (sanitizeFilenameForZip (Some createProjectTitle)
                    ++ js "_file.json")
        /\ revisionRows backup = [rev] /\ numbered rev
        /\ sceneRows rev = Some sceneList
        /\ length sceneList = Z.to_nat createChapters
        /\ NoDup (List.map (option_map sceneCode) sceneList)
        /\ Forall (fun row => exists r, row = Some r
                                        /\ sceneText r = emptySceneText)
                  sceneList).
Proof.
  cbn zeta. unfold handleCreateNewBackup. split.
  - split.
    + intros [->|H]; [reflexivity|].
      destruct (Z.ltb_spec createChapters 1); [|lia]. now rewrite orb_true_r.
    + destruct (isEmpty createProjectTitle) eqn:E1; cbn [orb].
      * intros _. left. now destruct createProjectTitle.
      * destruct (Z.ltb_spec createChapters 1); [auto|discriminate].
  - intros Ht Hc. rewrite (isEmpty_false _ Ht).
    destruct (Z.ltb_spec createChapters 1); [lia|]. cbn [orb].
    set (chapTitle := fun i : nat =>
                        if isEmpty createPrefix then stringOfNat i
                        else createPrefix ++ stringOfNat i).
    set (n := Z.to_nat createChapters).
    assert (Hsc : numberedScenes
                    (List.map Some
                       (List.map (fun i => newScene i (chapTitle i) emptySceneText)
                                 (seq 1 n)))).
    { intros k row E. rewrite List.map_map, nth_error_map_seq in E.
      destruct (Nat.ltb k n); [|discriminate]. injection E as <-.
      eexists. split; [reflexivity|]. cbn.
      replace (k + 1) with (S k) by lia. auto. }
    rewrite orElse_sanitized.
    eexists _, _, _. split; [reflexivity|]. cbn [revisionRows].
    split; [reflexivity|]. split; [|split; [reflexivity|split; [|split]]].
    + unfold numbered, freshRevision. cbn [sceneRows sectionRows].
      eexists _, _. split; [reflexivity|]. split; [reflexivity|].
      split; [now rewrite !length_map|]. split; [exact Hsc|].
      intros k row E. rewrite List.map_map, nth_error_map_seq in E.
      destruct (Nat.ltb k n); [|discriminate]. injection E as <-.
      eexists _, _. split; [reflexivity|]. cbn.
      replace (k + 1) with (S k) by lia. auto.
    + now rewrite !length_map, length_seq.
    + apply numberedScenes_NoDup. exact Hsc.
    + rewrite List.map_map. apply Forall_forall. intros row Hin.
      apply in_map_iff in Hin as (i & <- & _). eexists. split; reflexivity.
Qed.

(** X20: [handleExtendBackup] on a backup whose first revision has
    scenes and sections.  The scenes and the sections that were there
    stay as they were; as many scenes and as many sections as asked
    for are added after them (none for a number below one), numbered
    on from the scenes and from the sections that were there, scene
    and section of a chapter under the same title, the section naming
    the scene, each new scene holding one empty text block.  The rest
    of the revision, the other revisions and the rest of the backup
    are kept, the three dates are set to the time of the call, and a
    revision that was numbered is numbered still. *)
Theorem extendBackup_keeps_the_numbering (backup : BackupFile) (rev : RevisionRow)
        (others : list RevisionRow) (old : list (option SceneRow))
        (oldSections : list (option SectionRow)) (extendExtraChapters : Z)
        (extendPrefix : jsstring) (clock : Clock) :
  revisionRows backup = rev :: others ->
  sceneRows rev = Some old -> sectionRows rev = Some oldSections ->
  let count := Z.to_nat extendExtraChapters in
  let chapTitle := fun k : nat =>
                     if isEmpty extendPrefix then js "Chapter " ++ stringOfNat k
                     else extendPrefix ++ stringOfNat k in
  let added :=
    List.map (fun i => Some (newScene (length old + i)
                                      (chapTitle (length old + i))
                                      emptySceneText))
             (seq 1 count) in
  let addedSections :=
    List.map (fun i => Some (newSection (length oldSections + i)
                                        (length old + i)
                                        (chapTitle (length old + i))))
             (seq 1 count) in
  exists backup' rev',
    handleExtendBackup (Some backup) extendExtraChapters extendPrefix clock
    = Downloaded backup' (sanitizeFilenameForZip (backupTitle backup) ++ js ".json")
    /\ revisionRows backup' = rev' :: others
    /\ sceneRows rev' = Some (old ++ added)
    /\ sectionRows rev' = Some (oldSections ++ addedSections)
    /\ length added = count /\ length addedSections = count
    /\ Forall (fun row => exists r, row = Some r /\ sceneText r = emptySceneText)
              added
    /\ number rev' = number rev
    /\ book_progresses rev' = book_progresses rev
    /\ statuses rev' = statuses rev
    /\ version backup' = version backup
    /\ backupCode backup' = backupCode backup
    /\ backupTitle backup' = backupTitle backup
    /\ description backup' = description backup
    /\ show_table_of_contents backup' = show_table_of_contents backup
    /\ apply_automatic_indentation backup' = apply_automatic_indentation backup
    /\ updateDate backup' = now clock /\ backupDate backup' = now clock
    /\ revisionDate rev' = now clock
    /\ (numbered rev -> numbered rev').
Proof.
  intros Hrev Hsc Hse count chapTitle added addedSections.
  unfold handleExtendBackup. rewrite Hrev, Hsc, Hse. cbn zeta.
  fold count. fold chapTitle. fold added. fold addedSections.
  rewrite orElse_sanitized.
  eexists _, _. split; [reflexivity|]. cbn [revisionRows].
  split; [reflexivity|].
  cbn [sceneRows sectionRows number book_progresses statuses version backupCode
       backupTitle description show_table_of_contents
       apply_automatic_indentation updateDate backupDate revisionDate].
  split; [reflexivity|]. split; [reflexivity|].
  split; [unfold added; now rewrite length_map, length_seq|].
  split; [unfold addedSections; now rewrite length_map, length_seq|].
  split.
  { apply Forall_forall. intros row Hin. unfold added in Hin.
    apply in_map_iff in Hin as (i & <- & _). eexists. split; reflexivity. }
  do 12 (split; [reflexivity|]).
  intros (sceneList & sectionList & Hsc' & Hse' & Hlen & Hns & Hnse).
  rewrite Hsc in Hsc'. rewrite Hse in Hse'.
  injection Hsc' as <-. injection Hse' as <-.
  unfold numbered. cbn [sceneRows sectionRows].
  eexists _, _. split; [reflexivity|]. split; [reflexivity|].
  split; [unfold added, addedSections; rewrite !length_app, !length_map; lia|].
  split.
  - intros k row E.
    destruct (Nat.lt_ge_cases k (length old)) as [Hk|Hk].
    + rewrite nth_error_app1 in E by assumption. now apply Hns.
    + unfold added in E.
      rewrite nth_error_app2, nth_error_map_seq in E by assumption.
      destruct (Nat.ltb (k - length old) count); [|discriminate].
      injection E as <-. eexists. split; [reflexivity|].
      cbn [newScene sceneCode sceneRanking].
      split; f_equal; lia.
  - intros k row E.
    destruct (Nat.lt_ge_cases k (length oldSections)) as [Hk|Hk].
    + rewrite nth_error_app1 in E by assumption. now apply Hnse.
    + unfold addedSections in E.
      rewrite nth_error_app2, nth_error_map_seq in E by assumption.
      destruct (Nat.ltb (k - length oldSections) count); [|discriminate].
      injection E as <-. eexists _, []. split; [reflexivity|].
      cbn [newSection sectionCode sectionRanking section_scenes].
      split; [f_equal; lia|]. split; [f_equal; lia|].
      do 5 f_equal. lia.
Qed.

Lemma combineFiles_spec (files : list (option BackupFile))
      (cs : list (option SceneRow)) (cse : list (option SectionRow))
      (bs : list StatusRow) (f : bool) :
  fst (fst (combineFiles files cs cse bs f)) = cs ++ flat_map fileScenes files
  /\ snd (fst (combineFiles files cs cse bs f)) = cse ++ flat_map fileSections files.
Proof.
  revert cs cse bs f. induction files as [|file rest IH]; intros cs cse bs f.
  - cbn. now rewrite !app_nil_r.
  - cbn [combineFiles flat_map]. destruct file as [data|]; [|cbn; apply IH].
    unfold fileScenes, fileSections.
    destruct (revisionRows data) as [|rev others]; [cbn; apply IH|].
    assert (H : forall bs' f',
               fst (fst (combineFiles rest
                           match sceneRows rev with
                           | Some l => cs ++ l
                           | None => cs
                           end
                           match sectionRows rev with
                           | Some l => cse ++ l
                           | None => cse
                           end bs' f'))
               = cs ++ match sceneRows rev with Some rows => rows | None => [] end
                    ++ flat_map fileScenes rest
               /\ snd (fst (combineFiles rest
                              match sceneRows rev with
                              | Some l => cs ++ l
                              | None => cs
                              end
                              match sectionRows rev with
                              | Some l => cse ++ l
                              | None => cse
                              end bs' f'))
                  = cse ++ match sectionRows rev with Some rows => rows | None => [] end
                        ++ flat_map fileSections rest).
    { intros bs' f'. destruct (IH match sceneRows rev with
                                  | Some l => cs ++ l
                                  | None => cs
                                  end
                                  match sectionRows rev with
                                  | Some l => cse ++ l
                                  | None => cse
                                  end bs' f') as [H1 H2].
      rewrite H1, H2. unfold fileScenes, fileSections.
      destruct (sceneRows rev), (sectionRows rev);
        cbn [app]; rewrite <- ?app_assoc; auto. }
    destruct (statuses rev) as [[|st sts]|]; [apply H| |apply H].
    destruct f; apply H.
Qed.

Lemma allObjects_Some {A : Type} (l : list (option A)) (xs : list A) :
  allObjects l = Some xs -> l = List.map Some xs.
Proof.
  revert xs. induction l as [|[x|] l IH]; intros xs; cbn [allObjects].
  - intros H. now injection H as <-.
  - destruct (allObjects l) as [ys|]; [|discriminate].
    intros H. injection H as <-. cbn. f_equal. now apply IH.
  - discriminate.
Qed.

Lemma renumberScenes_nth (mergePrefix : jsstring) (l : list SceneRow) (i k : nat)
      (r : SceneRow) :
  nth_error (renumberScenes mergePrefix l i) k = Some r ->
  sceneCode r = sceneCodeOf (i + k + 1) /\ sceneRanking r = Z.of_nat (i + k + 1).
Proof.
  revert i k. induction l as [|s rest IH]; intros i k; [now destruct k|].
  destruct k as [|k]; cbn [renumberScenes nth_error].
  - intros E. injection E as <-. cbn. rewrite Nat.add_0_r. auto.
  - intros E. apply IH in E. replace (i + S k + 1) with (S i + k + 1) by lia.
    exact E.
Qed.

Lemma renumberScenes_texts (mergePrefix : jsstring) (l : list SceneRow) (i : nat) :
  List.map sceneText (renumberScenes mergePrefix l i) = List.map sceneText l.
Proof.
  revert i. induction l as [|s rest IH]; intros i; [reflexivity|].
  cbn [renumberScenes List.map sceneText]. now rewrite IH.
Qed.

Lemma renumberScenes_length (mergePrefix : jsstring) (l : list SceneRow) (i : nat) :
  length (renumberScenes mergePrefix l i) = length l.
Proof.
  revert i. induction l as [|s rest IH]; intros i; [reflexivity|].
  cbn [renumberScenes length]. now rewrite IH.
Qed.

Lemma renumberSections_length (mergePrefix : jsstring) (l : list SectionRow)
      (i : nat) :
  length (renumberSections mergePrefix l i) = length l.
Proof.
  revert i. induction l as [|s rest IH]; intros i; [reflexivity|].
  cbn [renumberSections length]. now rewrite IH.
Qed.

Lemma renumberSections_nth (mergePrefix : jsstring) (l : list SectionRow) (i k : nat)
      (r : SectionRow) :
  Forall (fun s => exists first rest, section_scenes s = Some (Some first :: rest)) l ->
  nth_error (renumberSections mergePrefix l i) k = Some r ->
  exists rest,
    sectionCode r = sectionCodeOf (i + k + 1)
    /\ sectionRanking r = Z.of_nat (i + k + 1)
    /\ section_scenes r
       = Some (Some (mkSectionScene (sceneCodeOf (i + k + 1)) 1) :: rest).
Proof.
  intros H. revert i k. induction H as [|s l (first & rest & Hs) Hl IH]; intros i k;
    [now destruct k|].
  destruct k as [|k]; cbn [renumberSections nth_error].
  - intros E. injection E as <-. cbn. rewrite Hs. cbn. rewrite Nat.add_0_r.
    exists rest. auto.
  - intros E. apply IH in E. replace (i + S k + 1) with (S i + k + 1) by lia.
    exact E.
Qed.

Lemma sceneTexts_objects (rows : list SceneRow) :
  flat_map (fun row => match row with
                       | Some r => [sceneText r]
                       | None => []
                       end) (List.map Some rows)
  = List.map sceneText rows.
Proof.
  induction rows as [|r rows IH]; [reflexivity|]. cbn. f_equal. apply IH.
Qed.

Lemma sceneTexts_flat (files : list (option BackupFile)) (rows : list SceneRow) :
  flat_map fileScenes files = List.map Some rows ->
  flat_map sceneTextsOf files = List.map sceneText rows.
Proof.
  intros H. rewrite <- sceneTexts_objects, <- H. clear.
  induction files as [|file rest IH]; [reflexivity|].
  cbn [flat_map]. rewrite flat_map_app. unfold sceneTextsOf at 1. now rewrite IH.
Qed.

(** X21: What [handleMergeBackups] writes: one revision whose scenes are the
    scenes of the files in the order of the selection, their texts
    untouched, renumbered [scene1], [scene2], ... with rankings 1, 2,
    ..., so no two with the same code; there is at least one; the word
    count written is that of these texts, the title is the one asked
    for, and the file is named after the title, never by the fallback
    name. *)
Theorem mergeBackups_renumbers_the_scenes (files : list (option BackupFile))
        (mergeProjectTitle mergeDescription mergePrefix : jsstring)
        (random : nat -> Fraction) (clock : Clock)
        (backup : BackupFile) (filename : jsstring) :
  handleMergeBackups files mergeProjectTitle mergeDescription mergePrefix random clock
  = Downloaded backup filename ->
  exists rev rows progress,
    revisionRows backup = [rev]
    /\ sceneRows rev = Some (List.map Some rows) /\ rows <> []
    /\ numberedScenes (List.map Some rows)
    /\ NoDup (List.map sceneCode rows)
    /\ List.map sceneText rows = flat_map sceneTextsOf files
    /\ book_progresses rev = [progress]
    /\ word_count progress = totalWordCountOf (flat_map sceneTextsOf files)
    /\ backupTitle backup = Some mergeProjectTitle
    /\ filename = sanitizeFilenameForZip (Some mergeProjectTitle) ++ js ".json".
Proof.
  unfold handleMergeBackups.
  destruct files as [|file0 files0] eqn:F; [discriminate|]. rewrite <- F. clear F.
  destruct (isEmpty mergeProjectTitle); [discriminate|].
  pose proof (combineFiles_spec files [] [] [todoStatus] false) as [H1 H2].
  destruct (combineFiles files [] [] [todoStatus] false) as [[cs cse] bs].
  cbn [fst snd app] in H1, H2.
  destruct (allObjects cs) as [sceneList|] eqn:A1; [|discriminate].
  destruct (allObjects cse) as [sectionList|] eqn:A2; [|discriminate].
  apply allObjects_Some in A1. rewrite H1 in A1.
  pose proof (sceneTexts_flat files sceneList A1) as Htexts.
  destruct (renumberScenes mergePrefix sceneList 0) as [|r0 rs] eqn:R; [discriminate|].
  intros H. injection H as <- <-. rewrite <- R.
  assert (Hnum : numberedScenes (List.map Some (renumberScenes mergePrefix sceneList 0))).
  { intros k row E. rewrite nth_error_map in E.
    destruct (nth_error (renumberScenes mergePrefix sceneList 0) k) as [r|] eqn:N;
      [|discriminate].
    injection E as <-. exists r. split; [reflexivity|].
    apply renumberScenes_nth in N. exact N. }
  eexists _, (renumberScenes mergePrefix sceneList 0), _.
  cbn [revisionRows freshRevision sceneRows book_progresses word_count backupTitle].
  split; [reflexivity|]. split; [reflexivity|].
  split; [rewrite R; discriminate|]. split; [exact Hnum|].
  split.
  { apply numberedScenes_NoDup in Hnum. rewrite List.map_map in Hnum. cbn in Hnum.
    apply (NoDup_map_inv Some). now rewrite List.map_map. }
  split; [now rewrite renumberScenes_texts|].
  split; [reflexivity|]. split; [|now rewrite orElse_sanitized].
  cbn [word_count].
  change (sceneText r0 :: List.map sceneText rs) with (List.map sceneText (r0 :: rs)).
  now rewrite <- R, renumberScenes_texts, Htexts.
Qed.

(** X22: Merging backups whose first revisions are numbered gives a backup
    whose revision is numbered: scene after scene and section after
    section, every section names the scene of its own position. *)
Theorem mergeBackups_of_numbered_is_numbered (files : list (option BackupFile))
        (mergeProjectTitle mergeDescription mergePrefix : jsstring)
        (random : nat -> Fraction) (clock : Clock)
        (backup : BackupFile) (filename : jsstring) :
  Forall numberedFile files ->
  handleMergeBackups files mergeProjectTitle mergeDescription mergePrefix random clock
  = Downloaded backup filename ->
  exists rev, revisionRows backup = [rev] /\ numbered rev.
Proof.
  intros Hfiles. unfold handleMergeBackups.
  destruct files as [|file0 files0] eqn:F; [discriminate|]. rewrite <- F in *. clear F.
  destruct (isEmpty mergeProjectTitle); [discriminate|].
  pose proof (combineFiles_spec files [] [] [todoStatus] false) as [H1 H2].
  destruct (combineFiles files [] [] [todoStatus] false) as [[cs cse] bs].
  cbn [fst snd app] in H1, H2.
  destruct (allObjects cs) as [sceneList|] eqn:A1; [|discriminate].
  destruct (allObjects cse) as [sectionList|] eqn:A2; [|discriminate].
  apply allObjects_Some in A1, A2. rewrite H1 in A1. rewrite H2 in A2.
  assert (Hlen : length sceneList = length sectionList).
  { rewrite <- (length_map Some sceneList), <- (length_map Some sectionList).
    rewrite <- A1, <- A2. clear -Hfiles.
    induction Hfiles as [|file rest (data & rev & others & -> & Hr & Hn) Hrest IH];
      [reflexivity|].
    cbn [flat_map]. rewrite !length_app, IH. f_equal.
    unfold fileScenes, fileSections. rewrite Hr.
    destruct Hn as (scs & secs & -> & -> & Hl & _). exact Hl. }
  assert (Hlinks : Forall (fun s => exists first rest,
                               section_scenes s = Some (Some first :: rest))
                          sectionList).
  { apply Forall_forall. intros s Hin.
    assert (Hin' : In (Some s) (flat_map fileSections files))
      by (rewrite A2; now apply in_map).
    apply in_flat_map in Hin' as (file & Hfile & Hs).
    rewrite Forall_forall in Hfiles.
    destruct (Hfiles file Hfile) as (data & rev & others & -> & Hr & Hn).
    unfold fileSections in Hs. rewrite Hr in Hs.
    destruct Hn as (scs & secs & _ & Hsecs & _ & _ & Hnse). rewrite Hsecs in Hs.
    apply In_nth_error in Hs as (k & Hk).
    destruct (Hnse k _ Hk) as (r & rest & E & _ & _ & Hl).
    injection E as <-. eauto. }
  destruct (renumberScenes mergePrefix sceneList 0) as [|r0 rs] eqn:R; [discriminate|].
  intros H. injection H as <- _. rewrite <- R.
  eexists. cbn [revisionRows]. split; [reflexivity|].
  unfold numbered, freshRevision. cbn [sceneRows sectionRows].
  eexists _, _. split; [reflexivity|]. split; [reflexivity|]. split.
  { now rewrite !length_map, renumberScenes_length, renumberSections_length. }
  split.
  - intros k row E. rewrite nth_error_map in E.
    destruct (nth_error (renumberScenes mergePrefix sceneList 0) k) as [r|] eqn:N;
      [|discriminate].
    injection E as <-. exists r. split; [reflexivity|].
    apply renumberScenes_nth in N. exact N.
  - intros k row E. rewrite nth_error_map in E.
    destruct (nth_error (renumberSections mergePrefix sectionList 0) k) as [r|] eqn:N;
      [|discriminate].
    injection E as <-.
    destruct (renumberSections_nth mergePrefix sectionList 0 k r Hlinks N)
      as (rest & C1 & C2 & C3).
    exists r, rest. auto.
Qed.

End BackupFacts.

(* ================================================================== *)
(** * The EPUB splitter: names and groups of the output *)
(* ================================================================== *)

Lemma stringOfNat_value (n : nat) : digitsValue (stringOfNat n) 0 = n.
Proof.
  unfold stringOfNat. rewrite digitsValue_of_uint.
  apply (DecimalNat.Unsigned.of_to n).
Qed.

Lemma stringOfNat_digits (n : nat) :
  Forall (fun c => isDigit c = true) (stringOfNat n).
Proof. apply string_of_uint_digits. Qed.

Lemma stringOfNat_nonempty (n : nat) : stringOfNat n <> [].
Proof.
  intros E. pose proof (stringOfNat_value n) as V. rewrite E in V. cbn in V.
  subst n. discriminate.
Qed.

Lemma pad2_shape (z : Z) :
  exists c digits,
    pad2 z = c :: digits
    /\ (if Z.ltb z 0 then c = 45%N else isDigit c = true)
    /\ Forall (fun d => isDigit d = true) digits.
Proof.
  unfold pad2, stringOfZ, padStart. destruct (Z.ltb z 0).
  - pose proof (stringOfNat_nonempty (Z.to_nat (- z))) as Hne.
    pose proof (stringOfNat_digits (Z.to_nat (- z))) as Hd.
    destruct (stringOfNat (Z.to_nat (- z))) as [|d ds]; [congruence|].
    cbn [length Nat.sub repeat app]. exists 45%N, (d :: ds). auto.
  - pose proof (stringOfNat_nonempty (Z.to_nat z)) as Hne.
    pose proof (stringOfNat_digits (Z.to_nat z)) as Hd.
    destruct (stringOfNat (Z.to_nat z)) as [|d ds]; [congruence|].
    destruct ds as [|d' ds].
    + cbn [length Nat.sub repeat app]. exists 48%N, [d]. auto.
    + cbn [length Nat.sub repeat app]. exists d, (d' :: ds).
      inversion Hd; subst. auto.
Qed.

Lemma pad2_value (z : Z) : valueOfPadded (pad2 z) = z.
Proof.
  unfold pad2, stringOfZ, padStart. destruct (Z.ltb_spec z 0).
  - pose proof (stringOfNat_nonempty (Z.to_nat (- z))) as Hne.
    pose proof (stringOfNat_value (Z.to_nat (- z))) as V.
    destruct (stringOfNat (Z.to_nat (- z))) as [|d ds]; [congruence|].
    cbn [length Nat.sub repeat app valueOfPadded N.eqb Pos.eqb].
    rewrite V. lia.
  - pose proof (stringOfNat_digits (Z.to_nat z)) as Hd.
    pose proof (stringOfNat_value (Z.to_nat z)) as V.
    set (k := 2 - length (stringOfNat (Z.to_nat z))).
    assert (Hv : Z.of_nat (digitsValue (repeat 48%N k ++ stringOfNat (Z.to_nat z)) 0)
                 = z)
      by (rewrite digitsValue_padding, V; lia).
    assert (Hall : Forall (fun d => isDigit d = true)
                          (repeat 48%N k ++ stringOfNat (Z.to_nat z))).
    { apply Forall_app. split; [|exact Hd]. clear. induction k; constructor; auto. }
    change (valueOfPadded (repeat 48%N k ++ stringOfNat (Z.to_nat z)) = z).
    destruct (repeat 48%N k ++ stringOfNat (Z.to_nat z)) as [|c rest] eqn:E.
    + cbn in Hv. cbn. lia.
    + cbn [valueOfPadded]. apply Forall_inv in Hall.
      destruct (N.eqb_spec c 45) as [->|_]; [discriminate|exact Hv].
Qed.

Lemma pad2_injective (a b : Z) : pad2 a = pad2 b -> a = b.
Proof.
  intros E. apply (f_equal valueOfPadded) in E. now rewrite !pad2_value in E.
Qed.

Lemma zipAdd_all_fresh (calls acc : list (jsstring * jsstring)) :
  NoDup (List.map fst (acc ++ calls)) ->
  fold_left (fun zip call => zipAdd zip (fst call) (snd call)) calls acc
  = acc ++ calls.
Proof.
  revert acc. induction calls as [|[name content] calls IH]; intros acc Hnd.
  - cbn. now rewrite app_nil_r.
  - cbn [fold_left fst snd]. rewrite zipAdd_fresh.
    + rewrite IH; rewrite <- app_assoc; [reflexivity|exact Hnd].
    + intros entry Hin E. rewrite map_app in Hnd. cbn [List.map fst] in Hnd.
      apply NoDup_remove_2 in Hnd. apply Hnd. apply in_or_app. left.
      rewrite <- E. now apply in_map.
Qed.

Lemma archiveOf_distinct (calls : list (jsstring * jsstring)) :
  NoDup (List.map fst calls) -> archiveOf calls = calls.
Proof. intros H. unfold archiveOf. now rewrite zipAdd_all_fresh. Qed.

Section SplitterFacts.
Variable chapterPattern : jsstring.
Variable startNumber : Z.
Variable offsetNumber : Z.

Local Abbreviation first := (effectiveStart startNumber offsetNumber).

Lemma singleCalls_nth (usable : list jsstring) (i k : nat) :
  nth_error (singleCalls chapterPattern startNumber offsetNumber usable i) k
  = option_map (fun text =>
                  (chapterPattern ++ pad2 (first + Z.of_nat (i + k)) ++ js ".txt",
                   text))
               (nth_error usable k).
Proof.
  revert i k. induction usable as [|text rest IH]; intros i k; [now destruct k|].
  destruct k as [|k]; cbn [singleCalls nth_error option_map].
  - now rewrite Nat.add_0_r.
  - rewrite IH. now replace (S i + k) with (i + S k) by lia.
Qed.

Lemma singleCalls_length (usable : list jsstring) (i : nat) :
  length (singleCalls chapterPattern startNumber offsetNumber usable i)
  = length usable.
Proof.
  revert i. induction usable as [|text rest IH]; intros i; [reflexivity|].
  cbn [singleCalls length]. now rewrite IH.
Qed.

Lemma singleCalls_distinct (usable : list jsstring) (i : nat) :
  NoDup (List.map fst (singleCalls chapterPattern startNumber offsetNumber usable i)).
Proof.
  apply NoDup_nth_error. intros a b Ha E.
  rewrite length_map, singleCalls_length in Ha.
  rewrite !nth_error_map, !singleCalls_nth in E.
  destruct (nth_error usable a) as [ta|] eqn:Ea;
    [|apply nth_error_None in Ea; lia].
  destruct (nth_error usable b) as [tb|]; [|discriminate].
  cbn in E. injection E as E.
  apply app_inv_head, app_inv_tail, pad2_injective in E. lia.
Qed.

Lemma handleSplit_chapters (chapters : list jsstring) (mode : jsstring)
      (groupSize : Z) (fuel : nat) :
  chapters <> [] ->
  handleSplit chapterPattern startNumber offsetNumber chapters mode groupSize fuel
  = let usableChaps := sliceFrom chapters offsetNumber in
    if jseqb mode (js "single")
    then Some (SplitDone
                 (archiveOf (singleCalls chapterPattern startNumber offsetNumber
                                         usableChaps 0))
                 (length usableChaps))
    else
      match groupCalls chapterPattern startNumber offsetNumber fuel usableChaps
                       (if Z.eqb groupSize 0 then 1%Z else groupSize) 0 with
      | Some calls => Some (SplitDone (archiveOf calls) (length usableChaps))
      | None => None
      end.
Proof. intros Hne. destruct chapters; [congruence|reflexivity]. Qed.

(** X23: The single mode of the splitter: when chapters were found, the
    archive holds one file for every chapter left after the offset, in
    order; the file of the chapter of index [k] is named by the prefix
    and the number [startNumber + offsetNumber + k], written with two
    digits at least, and holds the text of the chapter.  No file
    replaces another.  The numbers of the form are taken small enough
    for the sums to be exact. *)
Theorem split_single_names_every_chapter (chapters : list jsstring)
        (groupSize : Z) (fuel : nat) :
  chapters <> [] ->
  splitWithinLimits startNumber offsetNumber groupSize chapters ->
  let usable := sliceFrom chapters offsetNumber in
  exists zip,
    handleSplit chapterPattern startNumber offsetNumber chapters (js "single")
                groupSize fuel
    = Some (SplitDone zip (length usable))
    /\ length zip = length usable
    /\ forall k,
        nth_error zip k
        = option_map
            (fun text =>
               (chapterPattern
                  ++ pad2 (startNumber + offsetNumber + Z.of_nat k) ++ js ".txt",
                text))
            (nth_error usable k).
Proof.
  intros Hne _. cbn zeta. rewrite handleSplit_chapters by exact Hne. cbn zeta.
  replace (jseqb (js "single") (js "single")) with true by reflexivity.
  eexists. split; [reflexivity|].
  rewrite archiveOf_distinct by apply singleCalls_distinct.
  split; [apply singleCalls_length|].
  intros k. rewrite singleCalls_nth. reflexivity.
Qed.

Lemma digits_then_other (ds ds' r r' : jsstring) :
  Forall (fun d => isDigit d = true) ds ->
  Forall (fun d => isDigit d = true) ds' ->
  (exists c t, r = c :: t /\ isDigit c = false) ->
  (exists c t, r' = c :: t /\ isDigit c = false) ->
  ds ++ r = ds' ++ r' -> ds = ds'.
Proof.
  intros Hd. revert ds'. induction Hd as [|d ds Hdig _ IH]; intros ds' Hd' Hr Hr' E.
  - destruct Hd' as [|d' ds' Hdig' _]; [reflexivity|].
    destruct Hr as (c & t & -> & Hc). cbn in E. injection E as -> _. congruence.
  - destruct Hd' as [|d' ds' Hdig' Hd'].
    + destruct Hr' as (c & t & -> & Hc). cbn in E. injection E as -> _. congruence.
    + cbn in E. injection E as -> E. f_equal. now apply IH.
Qed.

Lemma groupName_start (a b a' b' : Z) :
  groupName chapterPattern a b = groupName chapterPattern a' b' -> a = a'.
Proof.
  unfold groupName. intros E.
  assert (Hsuffix : forall x y : Z,
             exists c t,
               (if Z.eqb x y then js ".txt" else js "-" ++ pad2 y ++ js ".txt")
               = c :: t /\ isDigit c = false).
  { intros x y. destruct (Z.eqb x y); eexists _, _; split; reflexivity. }
  assert (E' : pad2 a ++ (if Z.eqb a b then js ".txt"
                          else js "-" ++ pad2 b ++ js ".txt")
               = pad2 a' ++ (if Z.eqb a' b' then js ".txt"
                             else js "-" ++ pad2 b' ++ js ".txt")).
  { destruct (Z.eqb a b), (Z.eqb a' b');
      apply app_inv_head in E; apply app_inv_head in E; exact E. }
  destruct (pad2_shape a) as (c & ds & Ea & _ & Hds).
  destruct (pad2_shape a') as (c' & ds' & Ea' & _ & Hds').
  apply pad2_injective. rewrite Ea, Ea' in E' |- *. cbn [app] in E'.
  injection E' as -> E'. f_equal.
  exact (digits_then_other _ _ _ _ Hds Hds' (Hsuffix a b) (Hsuffix a' b') E').
Qed.

(** The file the grouped mode writes for the group of index [j]. *)
Local Abbreviation entryOf g usable j :=
  (groupName chapterPattern (first + Z.of_nat (j * g))
             (Z.min (first + Z.of_nat (j * g) + Z.of_nat g - 1)
                    (first + Z.of_nat (length usable) - 1)),
   groupContent (groupOf g usable j)).

Lemma groupCount_spec (g len j : nat) :
  1 <= g -> (j * g < len <-> j < (len + g - 1) / g).
Proof.
  intros Hg. pose proof (Nat.div_mod_eq (len + g - 1) g) as D.
  pose proof (Nat.mod_upper_bound (len + g - 1) g ltac:(lia)) as M.
  split; intros H; nia.
Qed.

Lemma groupCalls_spec (g : nat) (usable : list jsstring) :
  1 <= g ->
  forall fuel j,
    0 < fuel -> length usable < fuel + j * g ->
    groupCalls chapterPattern startNumber offsetNumber fuel usable
               (Z.of_nat g) (Z.of_nat (j * g))
    = Some (List.map (fun k => entryOf g usable k)
                     (seq j ((length usable + g - 1) / g - j))).
Proof.
  intros Hg. induction fuel as [|fuel IH]; intros j Hpos Hfuel; [lia|].
  cbn [groupCalls]. pose proof (groupCount_spec g (length usable) j Hg) as Hc.
  destruct (Z.ltb_spec (Z.of_nat (j * g)) (Z.of_nat (length usable))) as [Hlt|Hge].
  - assert (Hj : j < (length usable + g - 1) / g) by (apply Hc; lia).
    replace (Z.of_nat (j * g) + Z.of_nat g)%Z with (Z.of_nat (S j * g)) by lia.
    rewrite IH by lia.
    replace ((length usable + g - 1) / g - j)
      with (S ((length usable + g - 1) / g - S j)) by lia.
    cbn [seq List.map]. unfold groupOf. rewrite !Nat2Z.id. reflexivity.
  - replace ((length usable + g - 1) / g - j) with 0; [reflexivity|].
    assert (~ j < (length usable + g - 1) / g) by (rewrite <- Hc; lia). lia.
Qed.

Lemma groups_concat (g : nat) :
  forall n (l : list jsstring),
    length l <= n * g ->
    List.concat (List.map (groupOf g l) (seq 0 n)) = l.
Proof.
  induction n as [|n IH]; intros l Hlen.
  - destruct l; [reflexivity|cbn in Hlen; lia].
  - cbn [seq List.map concat]. rewrite <- seq_shift, map_map.
    rewrite (map_ext _ (groupOf g (skipn g l))).
    + cbn [List.concat]. rewrite IH by (rewrite length_skipn; lia).
      unfold groupOf. cbn [Nat.mul skipn]. apply firstn_skipn.
    + intros j. unfold groupOf. rewrite skipn_skipn. f_equal. f_equal. lia.
Qed.

(** X24: The grouped mode of the splitter, for a group size of one at
    least: the loop ends, and the archive holds one file for every
    group of [groupSize] consecutive chapters left after the offset
    (the last group takes what is left).  The file of a group is named
    by the numbers of its first and last chapter and holds the
    chapters of the group; every chapter is in exactly one file, in
    order, no group is empty and no file replaces another.  The
    numbers of the form are taken small enough for the sums to be
    exact. *)
Theorem split_grouped_partitions_the_chapters (chapters : list jsstring)
        (mode : jsstring) (groupSize : Z) (fuel : nat) :
  chapters <> [] ->
  jseqb mode (js "single") = false ->
  (1 <= groupSize)%Z ->
  splitWithinLimits startNumber offsetNumber groupSize chapters ->
  length (sliceFrom chapters offsetNumber) < fuel ->
  let usable := sliceFrom chapters offsetNumber in
  let g := Z.to_nat groupSize in
  let count := (length usable + g - 1) / g in
  exists zip,
    handleSplit chapterPattern startNumber offsetNumber chapters mode
                groupSize fuel
    = Some (SplitDone zip (length usable))
    /\ length zip = count
    /\ (forall j, j < count ->
          groupOf g usable j <> []
          /\ nth_error zip j
             = Some (groupName chapterPattern
                       (startNumber + offsetNumber + Z.of_nat (j * g))
                       (Z.min (startNumber + offsetNumber + Z.of_nat (j * g)
                               + groupSize - 1)
                              (startNumber + offsetNumber
                               + Z.of_nat (length usable) - 1)),
                     groupContent (groupOf g usable j)))
    /\ List.concat (List.map (groupOf g usable) (seq 0 count)) = usable.
Proof.
  intros Hne Hmode Hg _ Hfuel usable g count.
  rewrite handleSplit_chapters by exact Hne. cbn zeta. rewrite Hmode.
  fold usable. assert (Hg' : 1 <= g) by (unfold g; lia).
  assert (Hsize : groupSize = Z.of_nat g) by (unfold g; lia).
  destruct (Z.eqb_spec groupSize 0) as [?|_]; [lia|].
  pose proof (groupCalls_spec g usable Hg' fuel 0 ltac:(lia) ltac:(fold usable in Hfuel; lia))
    as Hcalls.
  cbn [Nat.mul Z.of_nat] in Hcalls. rewrite <- Hsize in Hcalls at 1.
  rewrite Hcalls, Nat.sub_0_r. fold count.
  eexists. split; [reflexivity|].
  rewrite archiveOf_distinct.
  - split; [now rewrite length_map, length_seq|]. split.
    + intros j Hj. split.
      * unfold groupOf. apply (groupCount_spec g (length usable) j Hg') in Hj.
        intros E. apply (f_equal (@length _)) in E.
        rewrite length_firstn, length_skipn in E. cbn in E. lia.
      * rewrite nth_error_map, nth_error_seq.
        destruct (Nat.ltb_spec j count) as [_|?]; [|lia].
        cbn [option_map Nat.add]. rewrite Hsize. reflexivity.
    + apply groups_concat. fold count.
      unfold count. pose proof (Nat.div_mod_eq (length usable + g - 1) g) as D.
      pose proof (Nat.mod_upper_bound (length usable + g - 1) g ltac:(lia)) as M.
      nia.
  - rewrite map_map. cbn [fst]. apply NoDup_nth_error. intros a b Ha E.
    rewrite length_map, length_seq in Ha.
    rewrite !nth_error_map, !nth_error_seq in E.
    destruct (Nat.ltb_spec a count) as [_|?]; [|lia].
    destruct (Nat.ltb_spec b count) as [_|?]; [|discriminate].
    cbn [option_map Nat.add] in E. injection E as E.
    apply groupName_start in E. nia.
Qed.

Lemma groupCalls_negative (usable : list jsstring) (g : Z) :
  usable <> [] -> (g < 0)%Z ->
  forall fuel i, (i <= 0)%Z ->
    groupCalls chapterPattern startNumber offsetNumber fuel usable g i = None.
Proof.
  intros Hne Hg. induction fuel as [|fuel IH]; intros i Hi; [reflexivity|].
  cbn [groupCalls].
  destruct (Z.ltb_spec i (Z.of_nat (length usable))) as [_|Hge].
  - now rewrite IH by lia.
  - destruct usable; [congruence|cbn [length] in Hge; lia].
Qed.

(** X25: The grouped mode with a negative group size, which the number
    field lets through: when a chapter is left after the offset the
    loop over the groups never ends, whatever the number of turns it
    is given, and no archive is produced. *)
Theorem split_grouped_negative_size_never_ends (chapters : list jsstring)
        (mode : jsstring) (groupSize : Z) :
  sliceFrom chapters offsetNumber <> [] ->
  jseqb mode (js "single") = false ->
  (groupSize < 0)%Z ->
  forall fuel,
    handleSplit chapterPattern startNumber offsetNumber chapters mode
                groupSize fuel = None.
Proof.
  intros Hne Hmode Hg fuel.
  assert (Hchapters : chapters <> []).
  { intros ->. apply Hne. unfold sliceFrom.
    destruct (Z.ltb offsetNumber 0); now rewrite skipn_nil. }
  rewrite handleSplit_chapters by exact Hchapters. cbn zeta. rewrite Hmode.
  destruct (Z.eqb_spec groupSize 0) as [?|_]; [lia|].
  now rewrite groupCalls_negative by (auto; lia).
Qed.

End SplitterFacts.

(* ================================================================== *)
(** * Navigation between the dashboard and the tools *)
(* ================================================================== *)

Lemma isTool_cases (id : jsstring) :
  isTool id = true ->
  id = js "epubSplitter" \/ id = js "backupUtility"
  \/ id = js "zipToEpub" \/ id = js "epubToZip".
Proof.
  unfold isTool, toolIds. cbn [existsb]. rewrite !orb_true_iff, !jseqb_eq.
  intros [H|[H|[H|[H|H]]]]; auto; discriminate.
Qed.

Lemma isTool_not_dashboard (id : jsstring) :
  isTool id = true -> jseqb id dashboard = false.
Proof.
  intros H. destruct (isTool_cases id H) as [-> | [-> | [-> | ->]]]; reflexivity.
Qed.

Lemma handleHashChange_tool (id : jsstring) (nav : Navigation) :
  isTool id = true ->
  locationHash nav = js "#/tool/" ++ id ->
  handleHashChange nav = showView id nav.
Proof.
  intros Hid Hhash. unfold handleHashChange. rewrite Hhash, startsWith_app.
  unfold substringFrom. rewrite skipn_app, skipn_all, Nat.sub_diag.
  cbn [app skipn]. now rewrite Hid.
Qed.

(** X26: The view on display follows the hash of the address.  Whatever the
    hash, the listener of the hash change displays the dashboard or a
    registered tool, a tool exactly when the hash is the address of
    that tool, and the session storage remembers a tool exactly when a
    tool is displayed.  Navigating to the dashboard or to a registered
    tool displays it and leaves the address on its hash. *)
Theorem navigation_lands_on_a_registered_view (viewId : jsstring)
        (nav : Navigation) :
  let changed := handleHashChange nav in
  let reached := navigateTo viewId nav in
  (currentView changed = dashboard \/ isTool (currentView changed) = true)
  /\ (currentView changed <> dashboard ->
      locationHash nav = js "#/tool/" ++ currentView changed)
  /\ (forall id, isTool id = true -> locationHash nav = js "#/tool/" ++ id ->
                 currentView changed = id)
  /\ (lastActiveTool changed = None <-> currentView changed = dashboard)
  /\ (viewId = dashboard \/ isTool viewId = true ->
      currentView reached = viewId
      /\ locationHash reached = targetHashOf viewId
      /\ lastActiveTool reached
         = if jseqb viewId dashboard then None else Some viewId).
Proof.
  cbn zeta. repeat split.
  - unfold handleHashChange. cbn [showView currentView].
    destruct (startsWith _ _); [|now left].
    destruct (isTool _) eqn:E; [now right|now left].
  - unfold handleHashChange. cbn [showView currentView]. intros Hview.
    destruct (startsWith _ _) eqn:Hs; [|congruence].
    destruct (isTool _); [|congruence].
    apply startsWith_firstn in Hs. unfold substringFrom.
    rewrite <- Hs at 1. symmetry. apply firstn_skipn.
  - intros id Hid Hhash. now rewrite (handleHashChange_tool id) by auto.
  - unfold handleHashChange. cbn [showView currentView lastActiveTool].
    intros H. destruct (jseqb _ dashboard) eqn:E; [|discriminate].
    now apply jseqb_eq in E.
  - unfold handleHashChange. cbn [showView currentView lastActiveTool].
    intros H. rewrite H. reflexivity.
  - destruct H as [-> | Htool]; unfold navigateTo.
    + destruct (jseqb (locationHash nav) _); reflexivity.
    + destruct (jseqb (locationHash nav) _); cbn [negb]; [reflexivity|].
      unfold targetHashOf. rewrite (isTool_not_dashboard _ Htool).
      now rewrite (handleHashChange_tool viewId) by auto.
  - destruct H as [-> | Htool]; unfold navigateTo.
    + destruct (jseqb (locationHash nav) _) eqn:E; cbn [negb]; [|reflexivity].
      now apply jseqb_eq in E.
    + destruct (jseqb (locationHash nav) _) eqn:E; cbn [negb].
      * now apply jseqb_eq in E.
      * unfold targetHashOf. rewrite (isTool_not_dashboard _ Htool).
        now rewrite (handleHashChange_tool viewId) by auto.
  - destruct H as [-> | Htool]; unfold navigateTo.
    + destruct (jseqb (locationHash nav) _); reflexivity.
    + destruct (jseqb (locationHash nav) _) eqn:E; cbn [negb].
      * cbn [showView lastActiveTool]. now rewrite (isTool_not_dashboard _ Htool).
      * unfold targetHashOf. rewrite (isTool_not_dashboard _ Htool).
        rewrite (handleHashChange_tool viewId) by auto.
        cbn [showView lastActiveTool]. now rewrite (isTool_not_dashboard _ Htool).
Qed.

(* ================================================================== *)
(** * Worked examples *)
(* ================================================================== *)

Lemma findNext_reports_a_match_witness :
  findNextMatchInternal (host := exampleRegExpHost) (js "aa") false overlapRecord
                        origin
  = Found overlapMatch (ptrAfter overlapMatch)
  /\ exists blockText,
      reportedIn overlapRecord overlapMatch blockText
      /\ isMatchOf (host := exampleRegExpHost) (js "aa") false blockText
                   (matchIndex overlapMatch) (matchLength overlapMatch)
      /\ ptrAfter overlapMatch = ptrAfter overlapMatch.
Proof.
  assert (H : findNextMatchInternal (host := exampleRegExpHost) (js "aa") false
                                    overlapRecord origin
              = Found overlapMatch (ptrAfter overlapMatch)) by reflexivity.
  split; [exact H|].
  exact (findNext_reports_a_match (host := exampleRegExpHost) (js "aa") false
                                  overlapRecord origin overlapMatch
                                  (ptrAfter overlapMatch) H).
Defined.

Lemma findPrevious_reports_a_match_witness :
  let m := mkMatch 2 0 0 2 (js "Chapter") (js "ab") in
  findPreviousMatchInternal (host := exampleRegExpHost) (js "ab") false
                            exampleRecord (mkPtr (Num 3) (Num 0) (Num 0))
  = Found m (ptrAt m)
  /\ exists blockText,
      reportedIn exampleRecord m blockText
      /\ isMatchOf (host := exampleRegExpHost) (js "ab") false blockText
                   (matchIndex m) (matchLength m)
      /\ ptrAt m = ptrAt m.
Proof.
  cbv zeta.
  assert (H : findPreviousMatchInternal (host := exampleRegExpHost) (js "ab") false
                exampleRecord (mkPtr (Num 3) (Num 0) (Num 0))
              = Found (mkMatch 2 0 0 2 (js "Chapter") (js "ab"))
                      (ptrAt (mkMatch 2 0 0 2 (js "Chapter") (js "ab"))))
    by reflexivity.
  split; [exact H|].
  exact (findPrevious_reports_a_match (host := exampleRegExpHost) (js "ab") false
           exampleRecord (mkPtr (Num 3) (Num 0) (Num 0)) _ _ H).
Defined.

Lemma findNext_advances_witness :
  let m1 := mkMatch 0 0 0 2 (js "Chapter") (js "abab") in
  let m2 := mkMatch 0 0 2 2 (js "Chapter") (js "abab") in
  findNextMatchInternal (host := exampleRegExpHost) (js "ab") false exampleRecord
                        origin
  = Found m1 (ptrAfter m1)
  /\ findNextMatchInternal (host := exampleRegExpHost) (js "ab") false
                           exampleRecord (ptrAfter m1)
     = Found m2 (ptrAfter m2)
  /\ positionLe (sceneIndex m1, blockIndex m1, resumeOffset m1) (positionOf m2)
  /\ positionLt (positionOf m1) (positionOf m2).
Proof.
  cbv zeta.
  assert (H1 : findNextMatchInternal (host := exampleRegExpHost) (js "ab") false
                 exampleRecord origin
               = Found (mkMatch 0 0 0 2 (js "Chapter") (js "abab"))
                       (ptrAfter (mkMatch 0 0 0 2 (js "Chapter") (js "abab"))))
    by reflexivity.
  assert (H2 : findNextMatchInternal (host := exampleRegExpHost) (js "ab") false
                 exampleRecord
                 (ptrAfter (mkMatch 0 0 0 2 (js "Chapter") (js "abab")))
               = Found (mkMatch 0 0 2 2 (js "Chapter") (js "abab"))
                       (ptrAfter (mkMatch 0 0 2 2 (js "Chapter") (js "abab"))))
    by reflexivity.
  split; [exact H1|]. split; [exact H2|].
  exact (findNext_advances (host := exampleRegExpHost) (js "ab") false
           exampleRecord origin _ _ _ _ H1 H2).
Defined.

Lemma findPrevious_retreats_witness :
  let m1 := mkMatch 2 0 0 2 (js "Chapter") (js "ab") in
  let m2 := mkMatch 0 0 2 2 (js "Chapter") (js "abab") in
  withinLimits exampleRecord
  /\ findPreviousMatchInternal (host := exampleRegExpHost) (js "ab") false
                               exampleRecord (mkPtr (Num 3) (Num 0) (Num 0))
     = Found m1 (ptrAt m1)
  /\ findPreviousMatchInternal (host := exampleRegExpHost) (js "ab") false
                               exampleRecord (ptrAt m1)
     = Found m2 (ptrAt m2)
  /\ positionLt (positionOf m2) (positionOf m1).
Proof.
  cbv zeta.
  assert (H0 : withinLimits exampleRecord)
    by (repeat constructor; vm_compute; discriminate).
  assert (H1 : findPreviousMatchInternal (host := exampleRegExpHost) (js "ab") false
                 exampleRecord (mkPtr (Num 3) (Num 0) (Num 0))
               = Found (mkMatch 2 0 0 2 (js "Chapter") (js "ab"))
                       (ptrAt (mkMatch 2 0 0 2 (js "Chapter") (js "ab"))))
    by reflexivity.
  assert (H2 : findPreviousMatchInternal (host := exampleRegExpHost) (js "ab") false
                 exampleRecord (ptrAt (mkMatch 2 0 0 2 (js "Chapter") (js "ab")))
               = Found (mkMatch 0 0 2 2 (js "Chapter") (js "abab"))
                       (ptrAt (mkMatch 0 0 2 2 (js "Chapter") (js "abab"))))
    by reflexivity.
  split; [exact H0|]. split; [exact H1|]. split; [exact H2|].
  exact (findPrevious_retreats (host := exampleRegExpHost) (js "ab") false
           exampleRecord (mkPtr (Num 3) (Num 0) (Num 0)) _ _ _ _ H0 H1 H2).
Defined.

Lemma findNext_after_replace_witness :
  let e := handleFindNextMatch (host := exampleRegExpHost) (js "ab") false
                               (loaded exampleRecord) in
  let m := mkMatch 0 0 0 2 (js "Chapter") (js "abab") in
  let m2 := mkMatch 0 0 4 2 (js "Chapter") (js "ababab") in
  frMatch e = Some m
  /\ blockTextAt e (sceneIndex m) (blockIndex m) = Some (js "abab")
  /\ frMatch (handleFindNextMatch (host := exampleRegExpHost) (js "ab") false
                                  (handleReplaceMatch (js "abab") e))
     = Some m2
  /\ positionLe (sceneIndex m, blockIndex m, matchIndex m + length (js "abab"))
                (positionOf m2).
Proof.
  cbv zeta.
  set (e := handleFindNextMatch (host := exampleRegExpHost) (js "ab") false
                                (loaded exampleRecord)).
  set (m := mkMatch 0 0 0 2 (js "Chapter") (js "abab")).
  set (m2 := mkMatch 0 0 4 2 (js "Chapter") (js "ababab")).
  assert (H1 : frMatch e = Some m) by reflexivity.
  assert (H2 : blockTextAt e (sceneIndex m) (blockIndex m) = Some (js "abab"))
    by reflexivity.
  assert (H3 : frMatch (handleFindNextMatch (host := exampleRegExpHost) (js "ab")
                          false (handleReplaceMatch (js "abab") e))
               = Some m2) by reflexivity.
  split; [exact H1|]. split; [exact H2|]. split; [exact H3|].
  exact (findNext_after_replace_skips_replacement (host := exampleRegExpHost)
           (js "ab") false (js "abab") e m (js "abab") m2 H1 H2 H3).
Defined.

Lemma findNext_from_origin_witness :
  searchable (host := exampleRegExpHost) (js "zz") false
  /\ (findNextMatchInternal (host := exampleRegExpHost) (js "zz") false
                            exampleRecord origin = NotFound
      <-> forall t, In t (textBlocksOf exampleRecord) ->
                    forall idx len,
                      ~ isMatchOf (host := exampleRegExpHost) (js "zz") false
                                  t idx len).
Proof.
  assert (H : searchable (host := exampleRegExpHost) (js "zz") false)
    by (vm_compute; discriminate).
  split; [exact H|].
  exact (findNext_from_origin_misses_nothing (host := exampleRegExpHost)
           (js "zz") false H exampleRecord).
Defined.

Lemma replaceOne_changes_one_block_witness :
  frMatch overlapFound = Some overlapMatch
  /\ frData overlapFound = Some overlapRecord
  /\ let e' := handleReplaceMatch (js "b") overlapFound in
     exists data',
       frData e' = Some data'
       /\ last_update_date data' = last_update_date overlapRecord
       /\ last_backup_date data' = last_backup_date overlapRecord
       /\ List.map date (revisions data') = List.map date (revisions overlapRecord)
       /\ tl (revisions data') = tl (revisions overlapRecord)
       /\ length (scenesOf data') = length (scenesOf overlapRecord)
       /\ (forall i, i <> sceneIndex overlapMatch ->
                     nth_error (scenesOf data') i
                     = nth_error (scenesOf overlapRecord) i)
       /\ (forall i j,
              (i, j) <> (sceneIndex overlapMatch, blockIndex overlapMatch) ->
              blockAt e' i j = blockAt overlapFound i j)
       /\ (forall i j, blockAt e' i j = None <-> blockAt overlapFound i j = None)
       /\ match blockAt overlapFound (sceneIndex overlapMatch)
                        (blockIndex overlapMatch) with
          | Some (TextBlock _) | Some (OtherBlock (Some _)) =>
              exists sc sc' members,
                nth_error (scenesOf overlapRecord) (sceneIndex overlapMatch)
                = Some (Some sc)
                /\ nth_error (scenesOf data') (sceneIndex overlapMatch)
                   = Some (Some sc')
                /\ title sc' = title sc
                /\ text sc = TextBlocks members (blocksOfScene (Some sc))
                /\ text sc' = TextBlocks [] (blocksOfScene (Some sc'))
          | _ => data' = overlapRecord
          end.
Proof.
  assert (H : frMatch overlapFound = Some overlapMatch) by reflexivity.
  assert (D : frData overlapFound = Some overlapRecord) by reflexivity.
  split; [exact H|]. split; [exact D|].
  exact (replaceOne_changes_one_block (js "b") overlapFound overlapMatch
                                      overlapRecord H D).
Defined.

Lemma replaceAll_keeps_the_shape_witness :
  exists e',
    frData (loaded countedRecord) = Some countedRecord
    /\ isEmpty (js "aa") && negb false = false
    /\ handleReplaceAllMatches (host := exampleRegExpHost) (js "aa") (js "b") false
                               7 (loaded countedRecord) = Completed e'
    /\ exists data',
        frData e' = Some data'
        /\ Forall2 (fun so so' =>
                      Forall2 sameKind (blocksOfScene so) (blocksOfScene so'))
                   (scenesOf countedRecord) (scenesOf data')
        /\ frPtr e' = origin /\ frMatch e' = None
        /\ (replaceAllCount (host := exampleRegExpHost) (js "aa") (js "b") false 7
                            (loaded countedRecord) = Some 0 ->
            data' = countedRecord).
Proof.
  assert (H : exists e',
             handleReplaceAllMatches (host := exampleRegExpHost) (js "aa") (js "b")
                                     false 7 (loaded countedRecord) = Completed e')
    by (vm_compute; eexists; reflexivity).
  destruct H as [e' H]. exists e'.
  assert (H1 : frData (loaded countedRecord) = Some countedRecord) by reflexivity.
  assert (H2 : isEmpty (js "aa") && negb false = false) by reflexivity.
  split; [exact H1|]. split; [exact H2|]. split; [exact H|].
  exact (replaceAll_keeps_the_shape (host := exampleRegExpHost) (js "aa") (js "b")
           false 7 (loaded countedRecord) e' countedRecord H1 H2 H).
Defined.

Lemma matchLine_witness :
  4 <= length twoLines
  /\ matchLineOf twoLines 4
     = nth (countNewlines (firstn 4 twoLines)) (splitLines twoLines) [].
Proof.
  assert (H : 4 <= length twoLines) by (vm_compute; lia).
  split; [exact H|].
  exact (matchLine_is_the_line_of_the_match twoLines 4 H).
Defined.

Lemma removeLines_witness :
  0 < 1 /\ twoLines <> []
  /\ let lines := splitLines twoLines in
     (1 < length lines -> splitLines (removeLines true 1 twoLines) = skipn 1 lines)
     /\ (length lines <= 1 -> removeLines true 1 twoLines = []).
Proof.
  assert (H1 : 0 < 1) by lia.
  assert (H2 : twoLines <> []) by (vm_compute; discriminate).
  split; [exact H1|]. split; [exact H2|].
  exact (removeLines_drops_the_first_lines 1 twoLines H1 H2).
Defined.

Lemma findOpfPath_witness :
  findOpfPath (host := exampleEpubHost) (exampleZip exampleNav [])
  = Some (js "content.opf", [])
  /\ js "content.opf" <> []
  /\ if existsb (N.eqb slash) (js "content.opf")
     then exists name, js "content.opf" = [] ++ slash :: name
                       /\ existsb (N.eqb slash) name = false
     else @nil jschar = [].
Proof.
  assert (H : findOpfPath (host := exampleEpubHost) (exampleZip exampleNav [])
              = Some (js "content.opf", [])) by reflexivity.
  split; [exact H|].
  exact (findOpfPath_splits_the_path (host := exampleEpubHost)
           (exampleZip exampleNav []) (js "content.opf") [] H).
Defined.

Lemma generateUUID_witness :
  (forall n, belowOne (oneHalf n))
  /\ Forall2 fillsTemplate (js "xxxxxxxx-xxxx-4xxx-yxxx-xxxxxxxxxxxx")
             (generateUUID oneHalf)
  /\ length (generateUUID oneHalf) = 36
  /\ length (substring (generateUUID oneHalf) 0 8) = 8
  /\ Forall (fun c => isHexDigit c = true) (substring (generateUUID oneHalf) 0 8).
Proof.
  assert (H : forall n, belowOne (oneHalf n)) by (intros n; reflexivity).
  split; [exact H|].
  exact (generateUUID_has_the_shape_of_the_template oneHalf H).
Defined.

Lemma sanitizeFilenameForZip_witness :
  let name := sanitizeFilenameForZip (unicode := asciiUnicodeHost)
                                     (Some (js "My: Book?")) in
  name <> []
  /\ length name <= 100
  /\ (forall c rest, name = c :: rest -> isSeparator c = false)
  /\ Forall plainBelow128 name.
Proof.
  exact (sanitizeFilenameForZip_is_a_file_name (unicode := asciiUnicodeHost)
           (fun cp _ H => H) (Some (js "My: Book?"))).
Defined.

Lemma word_count_witness :
  let blocks := [TextBlock (js "two words"); OtherBlock None; TextBlock (js " x ")] in
  noNullBlock blocks
  /\ addWords blocks 1
     = 1 + list_sum (List.map (fun t => countWords t false) (textsOfBlocks blocks)).
Proof.
  cbv zeta.
  assert (H : noNullBlock [TextBlock (js "two words"); OtherBlock None;
                           TextBlock (js " x ")])
    by (repeat constructor; discriminate).
  split; [exact H|].
  exact (word_count_counts_words _ 1 H).
Defined.

Lemma exampleRevision_numbered : numbered exampleRevision.
Proof.
  eexists _, _. split; [reflexivity|]. split; [reflexivity|].
  split; [reflexivity|]. split.
  - intros [|k] row E; [|destruct k; discriminate].
    injection E as <-. eexists. repeat split.
  - intros [|k] row E; [|destruct k; discriminate].
    injection E as <-. eexists _, _. repeat split.
Qed.

Lemma exampleBackupFile_numbered : numberedFile (Some exampleBackupFile).
Proof.
  exists exampleBackupFile, exampleRevision, [].
  split; [reflexivity|]. split; [reflexivity|]. exact exampleRevision_numbered.
Qed.

Lemma extendBackup_witness :
  let old := [Some (newScene 1 (js "One")
                             (TextBlocks [] [TextBlock (js "two words")]))] in
  let oldSections := [Some (newSection 1 1 (js "One"))] in
  revisionRows exampleBackupFile = [exampleRevision]
  /\ sceneRows exampleRevision = Some old
  /\ sectionRows exampleRevision = Some oldSections
  /\ exists backup' rev',
      handleExtendBackup (unicode := asciiUnicodeHost) (Some exampleBackupFile) 2 []
                         exampleClock
      = Downloaded backup'
                   (sanitizeFilenameForZip (unicode := asciiUnicodeHost)
                                           (backupTitle exampleBackupFile)
                    ++ js ".json")
      /\ sceneRows rev'
         = Some (old ++ [Some (newScene 2 (js "Chapter 2") emptySceneText);
                         Some (newScene 3 (js "Chapter 3") emptySceneText)])
      /\ sectionRows rev'
         = Some (oldSections ++ [Some (newSection 2 2 (js "Chapter 2"));
                                 Some (newSection 3 3 (js "Chapter 3"))])
      /\ numbered rev'.
Proof.
  cbv zeta.
  assert (H1 : revisionRows exampleBackupFile = [exampleRevision]) by reflexivity.
  assert (H2 : sceneRows exampleRevision
               = Some [Some (newScene 1 (js "One")
                                      (TextBlocks [] [TextBlock (js "two words")]))])
    by reflexivity.
  assert (H3 : sectionRows exampleRevision = Some [Some (newSection 1 1 (js "One"))])
    by reflexivity.
  split; [exact H1|]. split; [exact H2|]. split; [exact H3|].
  destruct (extendBackup_keeps_the_numbering (unicode := asciiUnicodeHost)
              exampleBackupFile exampleRevision [] _ _ 2 [] exampleClock H1 H2 H3)
    as (backup' & rev' & E & _ & Hs & Hse & H).
  exists backup', rev'. split; [exact E|]. split; [exact Hs|]. split; [exact Hse|].
  apply H. exact exampleRevision_numbered.
Defined.

Lemma mergeBackups_renumbers_witness :
  let files := [Some exampleBackupFile; None; Some exampleBackupFile] in
  exists backup filename,
    handleMergeBackups (unicode := asciiUnicodeHost) files (js "Both") [] []
                       oneHalf exampleClock
    = Downloaded backup filename
    /\ exists rev rows progress,
        revisionRows backup = [rev]
        /\ sceneRows rev = Some (List.map Some rows) /\ rows <> []
        /\ numberedScenes (List.map Some rows)
        /\ NoDup (List.map sceneCode rows)
        /\ List.map sceneText rows = flat_map sceneTextsOf files
        /\ book_progresses rev = [progress]
        /\ word_count progress = totalWordCountOf (flat_map sceneTextsOf files)
        /\ backupTitle backup = Some (js "Both")
        /\ filename = sanitizeFilenameForZip (unicode := asciiUnicodeHost)
                                             (Some (js "Both")) ++ js ".json".
Proof.
  cbv zeta.
  assert (H : exists backup filename,
             handleMergeBackups (unicode := asciiUnicodeHost)
               [Some exampleBackupFile; None; Some exampleBackupFile]
               (js "Both") [] [] oneHalf exampleClock
             = Downloaded backup filename)
    by (vm_compute; eexists _, _; reflexivity).
  destruct H as (backup & filename & H). exists backup, filename.
  split; [exact H|].
  exact (mergeBackups_renumbers_the_scenes (unicode := asciiUnicodeHost)
           _ (js "Both") [] [] oneHalf exampleClock backup filename H).
Defined.

Lemma mergeBackups_of_numbered_witness :
  let files := [Some exampleBackupFile; Some exampleBackupFile] in
  Forall numberedFile files
  /\ exists backup filename,
      handleMergeBackups (unicode := asciiUnicodeHost) files (js "Both") [] []
                         oneHalf exampleClock
      = Downloaded backup filename
      /\ exists rev, revisionRows backup = [rev] /\ numbered rev.
Proof.
  cbv zeta.
  assert (H0 : Forall numberedFile [Some exampleBackupFile; Some exampleBackupFile])
    by (repeat constructor; exact exampleBackupFile_numbered).
  assert (H : exists backup filename,
             handleMergeBackups (unicode := asciiUnicodeHost)
               [Some exampleBackupFile; Some exampleBackupFile]
               (js "Both") [] [] oneHalf exampleClock
             = Downloaded backup filename)
    by (vm_compute; eexists _, _; reflexivity).
  destruct H as (backup & filename & H).
  split; [exact H0|]. exists backup, filename. split; [exact H|].
  exact (mergeBackups_of_numbered_is_numbered (unicode := asciiUnicodeHost)
           _ (js "Both") [] [] oneHalf exampleClock backup filename H0 H).
Defined.

Lemma split_single_witness :
  fiveChapters <> []
  /\ splitWithinLimits 1 2 4 fiveChapters
  /\ let usable := sliceFrom fiveChapters 2 in
     exists zip,
       handleSplit (js "test") 1 2 fiveChapters (js "single") 4 0
       = Some (SplitDone zip (length usable))
       /\ length zip = length usable
       /\ forall k,
           nth_error zip k
           = option_map
               (fun text =>
                  (js "test" ++ pad2 (1 + 2 + Z.of_nat k) ++ js ".txt", text))
               (nth_error usable k).
Proof.
  assert (H1 : fiveChapters <> []) by (vm_compute; discriminate).
  assert (H2 : splitWithinLimits 1 2 4 fiveChapters) by (vm_compute; discriminate).
  split; [exact H1|]. split; [exact H2|].
  exact (split_single_names_every_chapter (js "test") 1 2 fiveChapters 4 0 H1 H2).
Defined.

Lemma split_grouped_witness :
  fiveChapters <> []
  /\ jseqb (js "grouped") (js "single") = false
  /\ (1 <= 2)%Z
  /\ splitWithinLimits 1 0 2 fiveChapters
  /\ length (sliceFrom fiveChapters 0) < 6
  /\ let usable := sliceFrom fiveChapters 0 in
     let g := Z.to_nat 2 in
     let count := (length usable + g - 1) / g in
     exists zip,
       handleSplit (js "test") 1 0 fiveChapters (js "grouped") 2 6
       = Some (SplitDone zip (length usable))
       /\ length zip = count
       /\ (forall j, j < count ->
             groupOf g usable j <> []
             /\ nth_error zip j
                = Some (groupName (js "test") (1 + 0 + Z.of_nat (j * g))
                          (Z.min (1 + 0 + Z.of_nat (j * g) + 2 - 1)
                                 (1 + 0 + Z.of_nat (length usable) - 1)),
                        groupContent (groupOf g usable j)))
       /\ List.concat (List.map (groupOf g usable) (seq 0 count)) = usable.
Proof.
  assert (H1 : fiveChapters <> []) by (vm_compute; discriminate).
  assert (H2 : jseqb (js "grouped") (js "single") = false) by reflexivity.
  assert (H3 : (1 <= 2)%Z) by lia.
  assert (H4 : splitWithinLimits 1 0 2 fiveChapters) by (vm_compute; discriminate).
  assert (H5 : length (sliceFrom fiveChapters 0) < 6) by (vm_compute; lia).
  split; [exact H1|]. split; [exact H2|]. split; [exact H3|].
  split; [exact H4|]. split; [exact H5|].
  exact (split_grouped_partitions_the_chapters (js "test") 1 0 fiveChapters
           (js "grouped") 2 6 H1 H2 H3 H4 H5).
Defined.

Lemma split_grouped_negative_witness :
  sliceFrom fiveChapters 4 <> []
  /\ jseqb (js "grouped") (js "single") = false
  /\ (-1 < 0)%Z
  /\ forall fuel,
      handleSplit (js "test") 1 4 fiveChapters (js "grouped") (-1) fuel = None.
Proof.
  assert (H1 : sliceFrom fiveChapters 4 <> []) by (vm_compute; discriminate).
  assert (H2 : jseqb (js "grouped") (js "single") = false) by reflexivity.
  assert (H3 : (-1 < 0)%Z) by lia.
  split; [exact H1|]. split; [exact H2|]. split; [exact H3|].
  exact (split_grouped_negative_size_never_ends (js "test") 1 4 fiveChapters
           (js "grouped") (-1) H1 H2 H3).
Defined.
